(** * LightEngine: a shallow embedding of the MIDI-driven LED renderer

    The development follows [LightEngine.cpp] / [LightEngine.h]:
    - C++ [int] values are integers of [Z].  Every member a handler writes
      comes out of a [uint8_t] and stays below [2^9]; with a strip of any
      realistic length no [int] operation of the engine comes near [2^31],
      so the wrap-around is not written out.  [uint8_t] values are obtained
      with [u8] (reduction modulo 256), applied wherever the source converts
      an [int] to [uint8_t]: at [uint8_t] parameters and at stores into
      [HSVColor] members.  The 32-bit frame counter wraps with [u32].
    - [/] and [%] of C++ truncate toward zero: [Z.quot] and [Z.rem].
    - The engine object is the record [LightEngine]; a method is a function on
      it.  The MIDI handlers cannot fail and return the new engine.  Rendering
      code can fail in C++ (division by zero, an access outside an array), so
      it lives in the [option] monad, [None] standing for such a fault. *)

From Stdlib Require Import ZArith List Lia Bool.
From Stdlib Require Strings.String Strings.Ascii.
From stdpp Require Import base option list list_numbers.

Local Open Scope Z_scope.

(** ** Machine integers *)

Definition u8 (z : Z) : Z := z mod 256.

Definition u32 (z : Z) : Z := z mod 4294967296.

(** [a / b] and [a % b] on [int]; a zero divisor is a fault. *)
Definition idiv (a b : Z) : option Z :=
  if b =? 0 then None else Some (Z.quot a b).

Definition imod (a b : Z) : option Z :=
  if b =? 0 then None else Some (Z.rem a b).

(** ** Arrays

    [arr_get a i] is the read [a[i]] and [arr_set a i x] the store
    [a[i] = x]; an index outside the array is a fault. *)

Definition arr_get {A} (a : list A) (i : Z) : option A :=
  if 0 <=? i then a !! Z.to_nat i else None.

Definition arr_set {A} (a : list A) (i : Z) (x : A) : option (list A) :=
  if (0 <=? i) && (i <? Z.of_nat (length a))
  then Some (<[Z.to_nat i := x]> a) else None.

(** [memcpy(dst, src, n * sizeof(T))]: the first [n] cells of [dst] are
    replaced by those of [src]; a negative [n] (a huge [size_t]) and reading
    or writing past either array are faults. *)
Definition memcpy {A} (dst src : list A) (n : Z) : option (list A) :=
  if (0 <=? n) && (n <=? Z.of_nat (length dst))
     && (n <=? Z.of_nat (length src))
  then Some (take (Z.to_nat n) src ++ drop (Z.to_nat n) dst) else None.

(** ** Colours and lookup tables *)

Record HSVColor : Type := mkHSV { h : Z; s : Z; v : Z }.

Definition COLOR_PHASE : list Z :=
  [10; 20; 29; 38; 47; 56; 63; 71; 77; 83; 88; 92; 96; 98; 100; 100;
   100; 98; 96; 92; 88; 83; 77; 71; 63; 56; 47; 38; 29; 20; 10; 0;
   -10; -20; -29; -38; -47; -56; -63; -71; -77; -83; -88; -92; -96; -98;
   -100; -100;
   -100; -98; -96; -92; -88; -83; -77; -71; -63; -56; -47; -38; -29; -20;
   -10; 0].

Definition TOP_BOTTOM_MIRROR_MAP : list Z :=
  [23; 22; 21; 20; 19; 18; 17; 16; 15; 14; 13; 12; 11; 10; 9; 8; 7; 6; 5; 4;
   3; 2; 1; 0;
   95; 94; 93; 92; 91; 90; 89; 88; 87; 86; 85; 84; 83; 82; 81; 80; 79; 78;
   77; 76; 75; 74; 73; 72].

Definition CHANNEL_TO_LED : list (list Z) :=
  [ [0; 0; 0; 0; 0; 0];
    [19; 20; 21; 22; 23; 24];
    [29; 30; 31; 32; 33; 34];
    [13; 14; 15; 16; 17; 18];
    [35; 36; 37; 38; 39; 40];
    [7; 8; 9; 10; 11; 12];
    [41; 42; 43; 44; 45; 46];
    [1; 2; 3; 4; 5; 6];
    [47; 48; 49; 50; 51; 52];
    [73; 74; 75; 76; 77; 78];
    [83; 84; 85; 86; 87; 88];
    [67; 68; 69; 70; 71; 72];
    [89; 90; 91; 92; 93; 94];
    [61; 62; 63; 64; 65; 66];
    [95; 96; 97; 98; 99; 100];
    [55; 56; 57; 58; 59; 60];
    [101; 102; 103; 104; 105; 106] ].

(** ** The engine state *)

Record LightEngine : Type := {
  numLeds : Z;
  leds : list HSVColor;
  background : list HSVColor;
  ffHue : Z;
  ffSat : Z;
  ffBright : Z;
  ffLedStart : Z;
  ffLedLength : Z;
  ffMode : Z;
  lines : Z;
  cAmp : Z;
  bgMode : Z;
  pan : Z;
  bgHue : Z;
  bgSat : Z;
  bgBright : Z;
  bgLedStart : Z;
  bgLedLength : Z;
  activeNotes : list Z;
  currentNote : list Z;
  lineOffset : Z;
  frameCounter : Z
}.

(** Assignments to one member. *)

Definition set_leds (x : list HSVColor) (e : LightEngine) : LightEngine :=
  {| numLeds := numLeds e; leds := x; background := background e;
     ffHue := ffHue e; ffSat := ffSat e; ffBright := ffBright e;
     ffLedStart := ffLedStart e; ffLedLength := ffLedLength e;
     ffMode := ffMode e; lines := lines e; cAmp := cAmp e;
     bgMode := bgMode e; pan := pan e; bgHue := bgHue e; bgSat := bgSat e;
     bgBright := bgBright e; bgLedStart := bgLedStart e;
     bgLedLength := bgLedLength e; activeNotes := activeNotes e;
     currentNote := currentNote e; lineOffset := lineOffset e;
     frameCounter := frameCounter e |}.

Definition set_background (x : list HSVColor) (e : LightEngine) : LightEngine :=
  {| numLeds := numLeds e; leds := leds e; background := x; ffHue := ffHue e;
     ffSat := ffSat e; ffBright := ffBright e; ffLedStart := ffLedStart e;
     ffLedLength := ffLedLength e; ffMode := ffMode e; lines := lines e;
     cAmp := cAmp e; bgMode := bgMode e; pan := pan e; bgHue := bgHue e;
     bgSat := bgSat e; bgBright := bgBright e; bgLedStart := bgLedStart e;
     bgLedLength := bgLedLength e; activeNotes := activeNotes e;
     currentNote := currentNote e; lineOffset := lineOffset e;
     frameCounter := frameCounter e |}.

Definition set_ffHue (x : Z) (e : LightEngine) : LightEngine :=
  {| numLeds := numLeds e; leds := leds e; background := background e;
     ffHue := x; ffSat := ffSat e; ffBright := ffBright e;
     ffLedStart := ffLedStart e; ffLedLength := ffLedLength e;
     ffMode := ffMode e; lines := lines e; cAmp := cAmp e;
     bgMode := bgMode e; pan := pan e; bgHue := bgHue e; bgSat := bgSat e;
     bgBright := bgBright e; bgLedStart := bgLedStart e;
     bgLedLength := bgLedLength e; activeNotes := activeNotes e;
     currentNote := currentNote e; lineOffset := lineOffset e;
     frameCounter := frameCounter e |}.

Definition set_ffSat (x : Z) (e : LightEngine) : LightEngine :=
  {| numLeds := numLeds e; leds := leds e; background := background e;
     ffHue := ffHue e; ffSat := x; ffBright := ffBright e;
     ffLedStart := ffLedStart e; ffLedLength := ffLedLength e;
     ffMode := ffMode e; lines := lines e; cAmp := cAmp e;
     bgMode := bgMode e; pan := pan e; bgHue := bgHue e; bgSat := bgSat e;
     bgBright := bgBright e; bgLedStart := bgLedStart e;
     bgLedLength := bgLedLength e; activeNotes := activeNotes e;
     currentNote := currentNote e; lineOffset := lineOffset e;
     frameCounter := frameCounter e |}.

Definition set_ffBright (x : Z) (e : LightEngine) : LightEngine :=
  {| numLeds := numLeds e; leds := leds e; background := background e;
     ffHue := ffHue e; ffSat := ffSat e; ffBright := x;
     ffLedStart := ffLedStart e; ffLedLength := ffLedLength e;
     ffMode := ffMode e; lines := lines e; cAmp := cAmp e;
     bgMode := bgMode e; pan := pan e; bgHue := bgHue e; bgSat := bgSat e;
     bgBright := bgBright e; bgLedStart := bgLedStart e;
     bgLedLength := bgLedLength e; activeNotes := activeNotes e;
     currentNote := currentNote e; lineOffset := lineOffset e;
     frameCounter := frameCounter e |}.

Definition set_ffLedStart (x : Z) (e : LightEngine) : LightEngine :=
  {| numLeds := numLeds e; leds := leds e; background := background e;
     ffHue := ffHue e; ffSat := ffSat e; ffBright := ffBright e;
     ffLedStart := x; ffLedLength := ffLedLength e; ffMode := ffMode e;
     lines := lines e; cAmp := cAmp e; bgMode := bgMode e; pan := pan e;
     bgHue := bgHue e; bgSat := bgSat e; bgBright := bgBright e;
     bgLedStart := bgLedStart e; bgLedLength := bgLedLength e;
     activeNotes := activeNotes e; currentNote := currentNote e;
     lineOffset := lineOffset e; frameCounter := frameCounter e |}.

Definition set_ffLedLength (x : Z) (e : LightEngine) : LightEngine :=
  {| numLeds := numLeds e; leds := leds e; background := background e;
     ffHue := ffHue e; ffSat := ffSat e; ffBright := ffBright e;
     ffLedStart := ffLedStart e; ffLedLength := x; ffMode := ffMode e;
     lines := lines e; cAmp := cAmp e; bgMode := bgMode e; pan := pan e;
     bgHue := bgHue e; bgSat := bgSat e; bgBright := bgBright e;
     bgLedStart := bgLedStart e; bgLedLength := bgLedLength e;
     activeNotes := activeNotes e; currentNote := currentNote e;
     lineOffset := lineOffset e; frameCounter := frameCounter e |}.

Definition set_ffMode (x : Z) (e : LightEngine) : LightEngine :=
  {| numLeds := numLeds e; leds := leds e; background := background e;
     ffHue := ffHue e; ffSat := ffSat e; ffBright := ffBright e;
     ffLedStart := ffLedStart e; ffLedLength := ffLedLength e; ffMode := x;
     lines := lines e; cAmp := cAmp e; bgMode := bgMode e; pan := pan e;
     bgHue := bgHue e; bgSat := bgSat e; bgBright := bgBright e;
     bgLedStart := bgLedStart e; bgLedLength := bgLedLength e;
     activeNotes := activeNotes e; currentNote := currentNote e;
     lineOffset := lineOffset e; frameCounter := frameCounter e |}.

Definition set_lines (x : Z) (e : LightEngine) : LightEngine :=
  {| numLeds := numLeds e; leds := leds e; background := background e;
     ffHue := ffHue e; ffSat := ffSat e; ffBright := ffBright e;
     ffLedStart := ffLedStart e; ffLedLength := ffLedLength e;
     ffMode := ffMode e; lines := x; cAmp := cAmp e; bgMode := bgMode e;
     pan := pan e; bgHue := bgHue e; bgSat := bgSat e;
     bgBright := bgBright e; bgLedStart := bgLedStart e;
     bgLedLength := bgLedLength e; activeNotes := activeNotes e;
     currentNote := currentNote e; lineOffset := lineOffset e;
     frameCounter := frameCounter e |}.

Definition set_cAmp (x : Z) (e : LightEngine) : LightEngine :=
  {| numLeds := numLeds e; leds := leds e; background := background e;
     ffHue := ffHue e; ffSat := ffSat e; ffBright := ffBright e;
     ffLedStart := ffLedStart e; ffLedLength := ffLedLength e;
     ffMode := ffMode e; lines := lines e; cAmp := x; bgMode := bgMode e;
     pan := pan e; bgHue := bgHue e; bgSat := bgSat e;
     bgBright := bgBright e; bgLedStart := bgLedStart e;
     bgLedLength := bgLedLength e; activeNotes := activeNotes e;
     currentNote := currentNote e; lineOffset := lineOffset e;
     frameCounter := frameCounter e |}.

Definition set_bgMode (x : Z) (e : LightEngine) : LightEngine :=
  {| numLeds := numLeds e; leds := leds e; background := background e;
     ffHue := ffHue e; ffSat := ffSat e; ffBright := ffBright e;
     ffLedStart := ffLedStart e; ffLedLength := ffLedLength e;
     ffMode := ffMode e; lines := lines e; cAmp := cAmp e; bgMode := x;
     pan := pan e; bgHue := bgHue e; bgSat := bgSat e;
     bgBright := bgBright e; bgLedStart := bgLedStart e;
     bgLedLength := bgLedLength e; activeNotes := activeNotes e;
     currentNote := currentNote e; lineOffset := lineOffset e;
     frameCounter := frameCounter e |}.

Definition set_pan (x : Z) (e : LightEngine) : LightEngine :=
  {| numLeds := numLeds e; leds := leds e; background := background e;
     ffHue := ffHue e; ffSat := ffSat e; ffBright := ffBright e;
     ffLedStart := ffLedStart e; ffLedLength := ffLedLength e;
     ffMode := ffMode e; lines := lines e; cAmp := cAmp e;
     bgMode := bgMode e; pan := x; bgHue := bgHue e; bgSat := bgSat e;
     bgBright := bgBright e; bgLedStart := bgLedStart e;
     bgLedLength := bgLedLength e; activeNotes := activeNotes e;
     currentNote := currentNote e; lineOffset := lineOffset e;
     frameCounter := frameCounter e |}.

Definition set_bgHue (x : Z) (e : LightEngine) : LightEngine :=
  {| numLeds := numLeds e; leds := leds e; background := background e;
     ffHue := ffHue e; ffSat := ffSat e; ffBright := ffBright e;
     ffLedStart := ffLedStart e; ffLedLength := ffLedLength e;
     ffMode := ffMode e; lines := lines e; cAmp := cAmp e;
     bgMode := bgMode e; pan := pan e; bgHue := x; bgSat := bgSat e;
     bgBright := bgBright e; bgLedStart := bgLedStart e;
     bgLedLength := bgLedLength e; activeNotes := activeNotes e;
     currentNote := currentNote e; lineOffset := lineOffset e;
     frameCounter := frameCounter e |}.

Definition set_bgSat (x : Z) (e : LightEngine) : LightEngine :=
  {| numLeds := numLeds e; leds := leds e; background := background e;
     ffHue := ffHue e; ffSat := ffSat e; ffBright := ffBright e;
     ffLedStart := ffLedStart e; ffLedLength := ffLedLength e;
     ffMode := ffMode e; lines := lines e; cAmp := cAmp e;
     bgMode := bgMode e; pan := pan e; bgHue := bgHue e; bgSat := x;
     bgBright := bgBright e; bgLedStart := bgLedStart e;
     bgLedLength := bgLedLength e; activeNotes := activeNotes e;
     currentNote := currentNote e; lineOffset := lineOffset e;
     frameCounter := frameCounter e |}.

Definition set_bgBright (x : Z) (e : LightEngine) : LightEngine :=
  {| numLeds := numLeds e; leds := leds e; background := background e;
     ffHue := ffHue e; ffSat := ffSat e; ffBright := ffBright e;
     ffLedStart := ffLedStart e; ffLedLength := ffLedLength e;
     ffMode := ffMode e; lines := lines e; cAmp := cAmp e;
     bgMode := bgMode e; pan := pan e; bgHue := bgHue e; bgSat := bgSat e;
     bgBright := x; bgLedStart := bgLedStart e; bgLedLength := bgLedLength e;
     activeNotes := activeNotes e; currentNote := currentNote e;
     lineOffset := lineOffset e; frameCounter := frameCounter e |}.

Definition set_bgLedStart (x : Z) (e : LightEngine) : LightEngine :=
  {| numLeds := numLeds e; leds := leds e; background := background e;
     ffHue := ffHue e; ffSat := ffSat e; ffBright := ffBright e;
     ffLedStart := ffLedStart e; ffLedLength := ffLedLength e;
     ffMode := ffMode e; lines := lines e; cAmp := cAmp e;
     bgMode := bgMode e; pan := pan e; bgHue := bgHue e; bgSat := bgSat e;
     bgBright := bgBright e; bgLedStart := x; bgLedLength := bgLedLength e;
     activeNotes := activeNotes e; currentNote := currentNote e;
     lineOffset := lineOffset e; frameCounter := frameCounter e |}.

Definition set_bgLedLength (x : Z) (e : LightEngine) : LightEngine :=
  {| numLeds := numLeds e; leds := leds e; background := background e;
     ffHue := ffHue e; ffSat := ffSat e; ffBright := ffBright e;
     ffLedStart := ffLedStart e; ffLedLength := ffLedLength e;
     ffMode := ffMode e; lines := lines e; cAmp := cAmp e;
     bgMode := bgMode e; pan := pan e; bgHue := bgHue e; bgSat := bgSat e;
     bgBright := bgBright e; bgLedStart := bgLedStart e; bgLedLength := x;
     activeNotes := activeNotes e; currentNote := currentNote e;
     lineOffset := lineOffset e; frameCounter := frameCounter e |}.

Definition set_activeNotes (x : list Z) (e : LightEngine) : LightEngine :=
  {| numLeds := numLeds e; leds := leds e; background := background e;
     ffHue := ffHue e; ffSat := ffSat e; ffBright := ffBright e;
     ffLedStart := ffLedStart e; ffLedLength := ffLedLength e;
     ffMode := ffMode e; lines := lines e; cAmp := cAmp e;
     bgMode := bgMode e; pan := pan e; bgHue := bgHue e; bgSat := bgSat e;
     bgBright := bgBright e; bgLedStart := bgLedStart e;
     bgLedLength := bgLedLength e; activeNotes := x;
     currentNote := currentNote e; lineOffset := lineOffset e;
     frameCounter := frameCounter e |}.

Definition set_currentNote (x : list Z) (e : LightEngine) : LightEngine :=
  {| numLeds := numLeds e; leds := leds e; background := background e;
     ffHue := ffHue e; ffSat := ffSat e; ffBright := ffBright e;
     ffLedStart := ffLedStart e; ffLedLength := ffLedLength e;
     ffMode := ffMode e; lines := lines e; cAmp := cAmp e;
     bgMode := bgMode e; pan := pan e; bgHue := bgHue e; bgSat := bgSat e;
     bgBright := bgBright e; bgLedStart := bgLedStart e;
     bgLedLength := bgLedLength e; activeNotes := activeNotes e;
     currentNote := x; lineOffset := lineOffset e;
     frameCounter := frameCounter e |}.

Definition set_lineOffset (x : Z) (e : LightEngine) : LightEngine :=
  {| numLeds := numLeds e; leds := leds e; background := background e;
     ffHue := ffHue e; ffSat := ffSat e; ffBright := ffBright e;
     ffLedStart := ffLedStart e; ffLedLength := ffLedLength e;
     ffMode := ffMode e; lines := lines e; cAmp := cAmp e;
     bgMode := bgMode e; pan := pan e; bgHue := bgHue e; bgSat := bgSat e;
     bgBright := bgBright e; bgLedStart := bgLedStart e;
     bgLedLength := bgLedLength e; activeNotes := activeNotes e;
     currentNote := currentNote e; lineOffset := x;
     frameCounter := frameCounter e |}.

Definition set_frameCounter (x : Z) (e : LightEngine) : LightEngine :=
  {| numLeds := numLeds e; leds := leds e; background := background e;
     ffHue := ffHue e; ffSat := ffSat e; ffBright := ffBright e;
     ffLedStart := ffLedStart e; ffLedLength := ffLedLength e;
     ffMode := ffMode e; lines := lines e; cAmp := cAmp e;
     bgMode := bgMode e; pan := pan e; bgHue := bgHue e; bgSat := bgSat e;
     bgBright := bgBright e; bgLedStart := bgLedStart e;
     bgLedLength := bgLedLength e; activeNotes := activeNotes e;
     currentNote := currentNote e; lineOffset := lineOffset e;
     frameCounter := x |}.

(** ** Construction *)

Definition checkerboard (i bright : Z) : HSVColor :=
  if Z.rem i 2 =? 0 then mkHSV 80 200 (u8 bright) else mkHSV 100 200 (u8 bright).

(** [LightEngine::LightEngine(numLeds)]: the two buffers are allocated with
    [numLeds] cells; [leds] is filled with the checkerboard at the default
    brightness and [background] is zeroed. *)
Definition LightEngine_new (n : Z) : LightEngine :=
  {| numLeds := n;
     leds := (fun i => checkerboard i 200) <$> seqZ 0 n;
     background := replicate (Z.to_nat n) (mkHSV 0 0 0);
     ffHue := 0; ffSat := 200; ffBright := 200;
     ffLedStart := 0; ffLedLength := 0; ffMode := 0; lines := 0;
     cAmp := 0; bgMode := 0; pan := 64;
     bgHue := 0; bgSat := 200; bgBright := 0;
     bgLedStart := 0; bgLedLength := 0;
     activeNotes := replicate 128 0;
     currentNote := replicate 17 0;
     lineOffset := 0; frameCounter := 0 |}.

(** ** MIDI event handlers *)

Definition handleControlChange (channel control value : Z) (e : LightEngine)
  : LightEngine :=
  let value := u8 value in
  match u8 control with
  | 1 => set_ffHue (value * 2) e
  | 2 => set_ffSat (value * 2) e
  | 3 => set_ffBright (value * 2) e
  | 4 => set_ffLedStart value e
  | 5 => set_ffLedLength value e
  | 6 => set_ffMode value e
  | 7 => set_lines value e
  | 8 => set_cAmp value e
  | 9 => set_bgMode value e
  | 10 => set_pan value e
  | 11 => set_bgHue (value * 2) e
  | 12 => set_bgSat (value * 2) e
  | 13 => set_bgBright (value * 2) e
  | 14 => set_bgLedStart value e
  | 15 => set_bgLedLength value e
  | _ => e
  end.

(** The two note arrays are members of fixed size (128 and 17 cells) and
    every store below is guarded by the source's own range test. *)
Definition handleNoteOn (channel note velocity : Z) (e : LightEngine)
  : LightEngine :=
  let channel := u8 channel in
  let note := u8 note in
  let velocity := u8 velocity in
  let e :=
    if note <? 128
    then set_activeNotes (<[Z.to_nat note := velocity]> (activeNotes e)) e
    else e in
  let e :=
    if (1 <=? channel) && (channel <=? 16)
    then set_currentNote (<[Z.to_nat channel := note]> (currentNote e)) e
    else e in
  if ffMode e =? 5 then
    let e := set_ffLedStart (ffLedStart e + 1) e in
    if 127 <=? ffLedStart e then set_ffLedStart 0 e else e
  else e.

Definition handleNoteOff (channel note velocity : Z) (e : LightEngine)
  : LightEngine :=
  let channel := u8 channel in
  let note := u8 note in
  let e :=
    if note <? 128
    then set_activeNotes (<[Z.to_nat note := 0]> (activeNotes e)) e
    else e in
  if (1 <=? channel) && (channel <=? 16) then
    match currentNote e !! Z.to_nat channel with
    | Some n =>
        if n =? note
        then set_currentNote (<[Z.to_nat channel := 0]> (currentNote e)) e
        else e
    | None => e
    end
  else e.

(** ** State access *)

Definition getCC (ccNumber : Z) (e : LightEngine) : Z :=
  match ccNumber with
  | 1 => Z.quot (ffHue e) 2
  | 2 => Z.quot (ffSat e) 2
  | 3 => Z.quot (ffBright e) 2
  | 4 => ffLedStart e
  | 5 => ffLedLength e
  | 6 => ffMode e
  | 7 => lines e
  | 8 => cAmp e
  | 9 => bgMode e
  | 10 => pan e
  | 11 => Z.quot (bgHue e) 2
  | 12 => Z.quot (bgSat e) 2
  | 13 => Z.quot (bgBright e) 2
  | 14 => bgLedStart e
  | 15 => bgLedLength e
  | _ => 0
  end.

(** [setCC] takes two [int]s and passes them to [uint8_t] parameters. *)
Definition setCC (ccNumber value : Z) (e : LightEngine) : LightEngine :=
  handleControlChange 0 ccNumber value e.

(** ** Loops

    [for_lt fuel i hi step body] is [for (; i < hi; i += step) body], cut
    after [fuel] iterations.  [for_loop lo hi step] gives it [hi - lo]
    iterations, which no loop with [step >= 1] exhausts (lemma
    [for_lt_fuel] below).  The bound [hi] is read once: no loop body of the
    engine assigns a variable its own loop condition reads. *)

Fixpoint for_lt {St} (fuel : nat) (i hi step : Z)
    (body : Z -> St -> option St) (st : St) : option St :=
  match fuel with
  | O => Some st
  | S fuel' =>
      if i <? hi
      then st' ← body i st; for_lt fuel' (i + step) hi step body st'
      else Some st
  end.

Definition for_loop {St} (lo hi step : Z)
    (body : Z -> St -> option St) (st : St) : option St :=
  for_lt (Z.to_nat (hi - lo)) lo hi step body st.

(** ** Rendering pipeline *)

Definition setLED (index h s v : Z) (e : LightEngine) : option LightEngine :=
  if (0 <=? index) && (index <? numLeds e) then
    l ← arr_set (leds e) index (mkHSV (u8 h) (u8 s) (u8 v));
    Some (set_leds l e)
  else Some e.

Definition copyBackground (e : LightEngine) : option LightEngine :=
  l ← memcpy (leds e) (background e) (numLeds e);
  Some (set_leds l e).

(** The store [background[i] = {h, s, v}]. *)
Definition setBackground (i h s v : Z) (e : LightEngine) : option LightEngine :=
  l ← arr_set (background e) i (mkHSV (u8 h) (u8 s) (u8 v));
  Some (set_background l e).

(** *** Background modes *)

Definition renderFlatBackground (e : LightEngine) : option LightEngine :=
  for_loop 0 (numLeds e) 1
    (fun i e => setBackground i (bgHue e) (bgSat e) (bgBright e) e) e.

Definition renderRainbowBackground (e : LightEngine) : option LightEngine :=
  rainbowInc ← idiv 255 (numLeds e);
  for_loop 0 (numLeds e) 1
    (fun i e =>
       setBackground i (Z.rem (bgHue e + i * rainbowInc) 256)
         (bgSat e) (bgBright e) e) e.

(** The hue of cell [i] of a colour sinusoid of period [len]. *)
Definition sinusoidHue (i start len hue amp : Z) : option Z :=
  q ← idiv ((i + start) * 64) len;
  phase ← arr_get COLOR_PHASE (Z.rem q 64);
  Some (Z.rem (256 + hue + Z.quot (amp * phase) 100) 256).

Definition renderSinusoidBackground (e : LightEngine) : option LightEngine :=
  if bgLedLength e =? 0 then renderFlatBackground e
  else
    for_loop 0 (numLeds e) 1
      (fun i e =>
         hue ← sinusoidHue i (bgLedStart e) (bgLedLength e) (bgHue e) (cAmp e);
         setBackground i hue (bgSat e) (bgBright e) e) e.

Definition updateBackground (e : LightEngine) : option LightEngine :=
  e ← match bgMode e with
      | 0 => renderFlatBackground e
      | 1 => renderRainbowBackground e
      | 2 => renderSinusoidBackground e
      | _ => renderFlatBackground e
      end;
  copyBackground e.

(** *** Foreground modes *)

Definition renderNotesToDrives (e : LightEngine) : option LightEngine :=
  for_loop 1 17 1
    (fun ch e =>
       note ← arr_get (currentNote e) ch;
       row ← arr_get CHANNEL_TO_LED ch;
       if negb (note =? 0) then
         for_loop 0 6 1
           (fun i e =>
              ledIdx ← arr_get row i;
              setLED ledIdx (ffHue e) (ffSat e) (ffBright e) e) e
       else
         for_loop 0 6 1
           (fun i e =>
              ledIdx ← arr_get row i;
              if Z.rem i 2 =? 0
              then setLED ledIdx 80 200 (ffBright e) e
              else setLED ledIdx 100 200 (ffBright e) e) e) e.

Definition renderRainbowWheel (e : LightEngine) : option LightEngine :=
  rainbowInc ← idiv 255 (numLeds e);
  for_loop 0 (numLeds e) 1
    (fun i e =>
       setLED i (Z.rem (ffHue e + i * rainbowInc) 256) (ffSat e) (ffBright e) e)
    e.

Definition renderMovingDots (e : LightEngine) : option LightEngine :=
  if lines e =? 0 then Some e
  else
    off ← idiv (numLeds e) (lines e);
    let e := set_lineOffset off e in
    for_loop 0 (lines e) 1
      (fun line e =>
         for_loop (ffLedStart e) (ffLedStart e + ffLedLength e) 1
           (fun led e =>
              idx ← imod (led + line * lineOffset e) (numLeds e);
              setLED idx (ffHue e) (ffSat e) (ffBright e) e) e) e.

(** The inner loop of the comets carries the local [count] next to the
    engine. *)
Definition cometStep (line led : Z) (ec : LightEngine * Z)
  : option (LightEngine * Z) :=
  let e := ec.1 in
  let count := ec.2 in
  idx ← imod (led + line * lineOffset e) (numLeds e);
  brightness ← idiv (ffBright e * (ffLedLength e - count)) (ffLedLength e);
  e' ← setLED idx (ffHue e) (ffSat e) brightness e;
  Some (e', count - 1).

Definition renderComets (e : LightEngine) : option LightEngine :=
  if (lines e =? 0) || (ffLedLength e =? 0) then Some e
  else
    off ← idiv (numLeds e) (lines e);
    let e := set_lineOffset off e in
    for_loop 0 (lines e) 1
      (fun line e =>
         let count := ffLedLength e - 1 in
         ec ← for_loop (ffLedStart e) (ffLedStart e + ffLedLength e) 1
                (cometStep line) (e, count);
         Some ec.1) e.

Definition renderBackAndForth (e : LightEngine) : option LightEngine :=
  if ffLedLength e =? 0 then Some e
  else
    for_loop 0 (numLeds e) (2 * ffLedLength e)
      (fun block e =>
         for_loop 0 (ffLedLength e) 1
           (fun led e =>
              idx ← imod (ffLedStart e * ffLedLength e + block + led)
                      (numLeds e);
              setLED idx (ffHue e) (ffSat e) (ffBright e) e) e) e.

Definition renderMoveStartLED (e : LightEngine) : option LightEngine :=
  if lines e =? 0 then Some e
  else
    off ← idiv (numLeds e) (lines e);
    let e := set_lineOffset off e in
    rainbowInc ← idiv 255 (numLeds e);
    for_loop 0 (lines e) 1
      (fun line e =>
         for_loop (ffLedStart e) (ffLedStart e + ffLedLength e) 1
           (fun led e =>
              idx ← imod (led + line * lineOffset e) (numLeds e);
              let hue := Z.rem (ffHue e + led * rainbowInc) 256 in
              setLED idx hue (ffSat e) (ffBright e) e) e) e.

Definition renderColorSinusoid (e : LightEngine) : option LightEngine :=
  if ffLedLength e =? 0 then Some e
  else
    for_loop 0 (numLeds e) 1
      (fun i e =>
         hue ← sinusoidHue i (ffLedStart e) (ffLedLength e) (ffHue e) (cAmp e);
         setLED i hue (ffSat e) (ffBright e) e) e.

(** The centre of both wave modes. *)
Definition waveMiddle (e : LightEngine) : Z :=
  Z.quot ((Z.quot (numLeds e) 2 - 1) * pan e) 127 + Z.quot (numLeds e) 4.

(** The amplitude of the ocean waves after the clamp. *)
Definition oceanAmp (e : LightEngine) : Z :=
  let tMiddle := waveMiddle e in
  let amp := Z.quot (ffLedLength e) 2 in
  if tMiddle - amp <=? 24 then tMiddle - 24
  else if 71 <? tMiddle + amp then 71 - tMiddle
  else amp.

(** The amplitude of the opposing waves after the clamp. *)
Definition opposingAmp (e : LightEngine) : Z :=
  let tMiddle := waveMiddle e in
  let amp := Z.quot (ffLedLength e) 2 in
  if tMiddle - amp <=? 24 then tMiddle - 23
  else if 71 <? tMiddle + amp then 71 - tMiddle
  else amp.

(** [if (0 <= j && j < 48) setLED(TOP_BOTTOM_MIRROR_MAP[j], ...)]. *)
Definition setMirrored (j brightness : Z) (e : LightEngine)
  : option LightEngine :=
  if (0 <=? j) && (j <? 48) then
    mirrorIdx ← arr_get TOP_BOTTOM_MIRROR_MAP j;
    setLED mirrorIdx (ffHue e) (ffSat e) brightness e
  else Some e.

Definition renderOceanWaves (e : LightEngine) : option LightEngine :=
  let tMiddle := waveMiddle e in
  let amp := oceanAmp e in
  if amp <=? 0 then Some e
  else
    for_loop 0 amp 1
      (fun p e =>
         brightness ← idiv (ffBright e * (amp - p)) amp;
         e ← setLED (tMiddle + p) (ffHue e) (ffSat e) brightness e;
         e ← setLED (tMiddle - p) (ffHue e) (ffSat e) brightness e;
         e ← setMirrored (tMiddle + p - 24) brightness e;
         setMirrored (tMiddle - p - 24) brightness e) e.

Definition renderOpposingWaves (e : LightEngine) : option LightEngine :=
  let tMiddle := waveMiddle e in
  let amp := opposingAmp e in
  if amp <=? 0 then Some e
  else
    for_loop 0 (amp + 1) 1
      (fun p e =>
         brightness ← idiv (ffBright e * (amp - p)) amp;
         e ← setLED (tMiddle + p) (ffHue e) (ffSat e) brightness e;
         e ← setLED (tMiddle - p) (ffHue e) (ffSat e) brightness e;
         let oppositeIdx1 := (numLeds e - tMiddle) + p - 24 in
         let oppositeIdx2 := (numLeds e - tMiddle) - p - 24 in
         e ← setMirrored oppositeIdx1 brightness e;
         setMirrored oppositeIdx2 brightness e) e.

Section Rendering.

(** [rand_after_srand seed] is the value of the first [rand()] that follows
    [srand(seed)]: the C library's generator is a function of its seed. *)
Variable rand_after_srand : Z -> Z.

Definition renderFlashLights (e : LightEngine) : option LightEngine :=
  randomLed ← imod (rand_after_srand (frameCounter e)) (numLeds e);
  setLED randomLed (ffHue e) (ffSat e) (ffBright e) e.

Definition renderForeground (e : LightEngine) : option LightEngine :=
  match ffMode e with
  | 0 => renderNotesToDrives e
  | 1 => renderRainbowWheel e
  | 2 => renderMovingDots e
  | 3 => renderComets e
  | 4 => renderBackAndForth e
  | 5 => renderMoveStartLED e
  | 6 => renderColorSinusoid e
  | 7 => renderFlashLights e
  | 8 => renderOceanWaves e
  | 9 => renderOpposingWaves e
  | _ => Some e
  end.

Definition render (e : LightEngine) : option LightEngine :=
  let e := set_frameCounter (u32 (frameCounter e + 1)) e in
  e ← updateBackground e;
  renderForeground e.

(** ** Call sequences *)

Inductive Call : Type :=
| CallControlChange (channel control value : Z)
| CallNoteOn (channel note velocity : Z)
| CallNoteOff (channel note velocity : Z)
| CallSetCC (ccNumber value : Z)
| CallRender.

Definition call (c : Call) (e : LightEngine) : option LightEngine :=
  match c with
  | CallControlChange channel control value =>
      Some (handleControlChange channel control value e)
  | CallNoteOn channel note velocity =>
      Some (handleNoteOn channel note velocity e)
  | CallNoteOff channel note velocity =>
      Some (handleNoteOff channel note velocity e)
  | CallSetCC ccNumber value => Some (setCC ccNumber value e)
  | CallRender => render e
  end.

Fixpoint calls (cs : list Call) (e : LightEngine) : option LightEngine :=
  match cs with
  | [] => Some e
  | c :: cs' => e' ← call c e; calls cs' e'
  end.

End Rendering.

(** ** The CC table as the interface documents it

    [spec_ccParam] and [spec_ccScaled] are written from the documented
    CC-to-member mapping (CC1-7, CC8, CC9, CC10, CC11-15) and from the list of
    doubled controls; [handleControlChange] is compared with them below. *)

Inductive Param : Type :=
| PffHue | PffSat | PffBright | PffLedStart | PffLedLength | PffMode | Plines
| PcAmp | PbgMode | Ppan
| PbgHue | PbgSat | PbgBright | PbgLedStart | PbgLedLength.

Definition param (p : Param) (e : LightEngine) : Z :=
  match p with
  | PffHue => ffHue e | PffSat => ffSat e | PffBright => ffBright e
  | PffLedStart => ffLedStart e | PffLedLength => ffLedLength e
  | PffMode => ffMode e | Plines => lines e
  | PcAmp => cAmp e | PbgMode => bgMode e | Ppan => pan e
  | PbgHue => bgHue e | PbgSat => bgSat e | PbgBright => bgBright e
  | PbgLedStart => bgLedStart e | PbgLedLength => bgLedLength e
  end.

Definition spec_ccParam (control : Z) : option Param :=
  match control with
  | 1 => Some PffHue | 2 => Some PffSat | 3 => Some PffBright
  | 4 => Some PffLedStart | 5 => Some PffLedLength | 6 => Some PffMode
  | 7 => Some Plines
  | 8 => Some PcAmp
  | 9 => Some PbgMode
  | 10 => Some Ppan
  | 11 => Some PbgHue | 12 => Some PbgSat | 13 => Some PbgBright
  | 14 => Some PbgLedStart | 15 => Some PbgLedLength
  | _ => None
  end.

Definition spec_ccScaled (control : Z) : bool :=
  (control =? 1) || (control =? 2) || (control =? 3)
  || (control =? 11) || (control =? 12) || (control =? 13).

(** The members no control change is documented to touch. *)
Definition sameNonParams (e e' : LightEngine) : Prop :=
  numLeds e' = numLeds e /\ leds e' = leds e /\ background e' = background e
  /\ activeNotes e' = activeNotes e /\ currentNote e' = currentNote e
  /\ lineOffset e' = lineOffset e /\ frameCounter e' = frameCounter e.

(** ** The mirror table *)

(** [mirror j] is the table read [TOP_BOTTOM_MIRROR_MAP[j]]. *)
Definition mirror (j : Z) : option Z := arr_get TOP_BOTTOM_MIRROR_MAP j.

(** ** Vocabulary for the rendering proofs *)

(** The LED buffer a caller sees through [getLEDs] and [getNumLEDs]: the
    first [numLeds] cells of [leds]. *)
Definition ledBuffer (e : LightEngine) : list HSVColor :=
  take (Z.to_nat (numLeds e)) (leds e).

(** [withBuffers l b off fc e] is [e] with its four render-side members
    replaced: the two buffers, [lineOffset] and [frameCounter].  Rendering
    assigns no other member. *)
Definition withBuffers (l b : list HSVColor) (off fc : Z) (e : LightEngine)
  : LightEngine :=
  set_leds l (set_background b (set_lineOffset off (set_frameCounter fc e))).

(** [e'] has the strip length, the fifteen parameters and the note state of
    [e]. *)
Definition sameControls (e e' : LightEngine) : Prop :=
  e' = withBuffers (leds e') (background e') (lineOffset e') (frameCounter e') e.

(** What the two render passes may do to [e]: both buffers keep their
    length, the cells from [numLeds] on keep their content, and the frame
    counter, which [render] itself advances, is left alone. *)
Definition preserved (e e' : LightEngine) : Prop :=
  sameControls e e'
  /\ length (leds e') = length (leds e)
  /\ length (background e') = length (background e)
  /\ drop (Z.to_nat (numLeds e)) (leds e') = drop (Z.to_nat (numLeds e)) (leds e)
  /\ drop (Z.to_nat (numLeds e)) (background e')
     = drop (Z.to_nat (numLeds e)) (background e)
  /\ frameCounter e' = frameCounter e.

(** An engine as the constructor and the handlers leave it: at least one
    LED, buffers of at least [numLeds] cells, the 17-cell channel array and
    window parameters that came out of a [uint8_t]. *)
Definition wellFormed (e : LightEngine) : Prop :=
  1 <= numLeds e
  /\ numLeds e <= Z.of_nat (length (leds e))
  /\ numLeds e <= Z.of_nat (length (background e))
  /\ length (currentNote e) = 17%nat
  /\ 0 <= ffLedStart e /\ 0 <= ffLedLength e
  /\ 0 <= bgLedStart e /\ 0 <= bgLedLength e.

(** [succeeds P o]: the computation [o] does not fault and its result
    satisfies [P]. *)
Definition succeeds {A} (P : A -> Prop) (o : option A) : Prop :=
  exists a, o = Some a /\ P a.

(** [agrees R o1 o2]: whenever both computations return, their results are
    related by [R]. *)
Definition agrees {A} (R : A -> A -> Prop) (o1 o2 : option A) : Prop :=
  forall a1 a2, o1 = Some a1 -> o2 = Some a2 -> R a1 a2.

(** Two engines with the controls of [e] whose backgrounds coincide on the
    first [j] cells. *)
Definition sameBackground (e : LightEngine) (j : Z) (e1 e2 : LightEngine)
  : Prop :=
  sameControls e e1 /\ sameControls e e2
  /\ take (Z.to_nat j) (background e1) = take (Z.to_nat j) (background e2).

(** Two engines with the controls of [e] that show the same LED buffer; with
    [keepOffset] they also have the same [lineOffset]. *)
Definition sameLeds (e : LightEngine) (keepOffset : bool)
    (e1 e2 : LightEngine) : Prop :=
  sameControls e e1 /\ sameControls e e2
  /\ ledBuffer e1 = ledBuffer e2
  /\ (keepOffset = true -> lineOffset e1 = lineOffset e2).

(** The colour of the flat background, as stored in a buffer cell. *)
Definition flatColour (e : LightEngine) : HSVColor :=
  mkHSV (u8 (bgHue e)) (u8 (bgSat e)) (u8 (bgBright e)).

(** The comets, read off [renderComets]: line [line] paints its [k]-th LED,
    counted from the tail at [ffLedStart], at [cometIndex e line k], with the
    brightness [cometBrightness e k] (there [count] is
    [ffLedLength - 1 - k]). *)
Definition cometIndex (e : LightEngine) (line k : Z) : Z :=
  Z.rem (ffLedStart e + k + line * Z.quot (numLeds e) (lines e)) (numLeds e).

Definition cometBrightness (e : LightEngine) (k : Z) : Z :=
  Z.quot (ffBright e * (k + 1)) (ffLedLength e).

(** No two of the [lines * ffLedLength] painted positions coincide. *)
Definition cometsApart (e : LightEngine) : Prop :=
  forall line k line' k',
    0 <= line < lines e -> 0 <= k < ffLedLength e ->
    0 <= line' < lines e -> 0 <= k' < ffLedLength e ->
    cometIndex e line k = cometIndex e line' k' -> line = line' /\ k = k'.

(** The colour a comet leaves at its [k]-th LED. *)
Definition cometColour (e : LightEngine) (k : Z) : HSVColor :=
  mkHSV (u8 (ffHue e)) (u8 (ffSat e)) (u8 (cometBrightness e k)).

(** What the loops of [renderComets] have painted when line [line] has
    done its first [done] LEDs. *)
Definition cometsPainted (e : LightEngine) (line done : Z) (t : LightEngine)
  : Prop :=
  forall l k,
    (0 <= l < line /\ 0 <= k < ffLedLength e) \/ (l = line /\ 0 <= k < done) ->
    leds t !! Z.to_nat (cometIndex e l k) = Some (cometColour e k).

(** The cell [i] of [leds] once the computation [o] has returned. *)
Definition renderedLed (o : option LightEngine) (i : Z) : option HSVColor :=
  e' ← o; arr_get (leds e') i.

(** A linear congruential generator, to run [render] on closed examples. *)
Definition sample_rand (seed : Z) : Z :=
  Z.rem (seed * 1103515245 + 12345) 2147483648.

(** Closed engines for the examples.  Three comets on the 108-LED strip: one
    line of two LEDs, the same with the brightness at zero, and one line of
    127 LEDs. *)
Definition darkComet : LightEngine :=
  set_ffBright 0
    (set_lines 1 (set_ffLedLength 2 (set_ffMode 3 (LightEngine_new 108)))).

Definition longComet : LightEngine :=
  set_lines 1 (set_ffLedLength 127 (set_ffMode 3 (LightEngine_new 108))).

Definition shortComet : LightEngine :=
  set_lines 1 (set_ffLedLength 2 (set_ffMode 3 (LightEngine_new 108))).

(** Ocean waves with pan and length at their maximum, and with the pan at
    its default and a length of 58. *)
Definition oceanWide : LightEngine :=
  set_pan 127 (set_ffLedLength 127 (set_ffMode 8 (LightEngine_new 108))).

Definition oceanCentre : LightEngine :=
  set_ffLedLength 58 (set_ffMode 8 (LightEngine_new 108)).

(** Flash, and an engine with both selectors out of range. *)
Definition flashEngine : LightEngine := set_ffMode 7 (LightEngine_new 108).


(** The data bytes of a call are MIDI data bytes. *)
Definition midiCall (c : Call) : Prop :=
  match c with
  | CallControlChange _ _ value => 0 <= value <= 127
  | CallSetCC _ value => 0 <= value <= 127
  | _ => True
  end.

(** Each of the six colour members is twice a MIDI data byte. *)
Definition doubled (x : Z) : Prop := exists k, 0 <= k <= 127 /\ x = 2 * k.

Definition colourMembers (e : LightEngine) : Z * Z * Z * Z * Z * Z :=
  (ffHue e, ffSat e, ffBright e, bgHue e, bgSat e, bgBright e).

Definition colourMembersEven (e : LightEngine) : Prop :=
  Z.even (ffHue e) = true /\ Z.even (ffSat e) = true
  /\ Z.even (ffBright e) = true
  /\ Z.even (bgHue e) = true /\ Z.even (bgSat e) = true
  /\ Z.even (bgBright e) = true.

Definition colourMembersDoubled (e : LightEngine) : Prop :=
  doubled (ffHue e) /\ doubled (ffSat e) /\ doubled (ffBright e)
  /\ doubled (bgHue e) /\ doubled (bgSat e) /\ doubled (bgBright e).

(** ** Vocabulary for the note handlers and the call sequences *)

(** The two note arrays have the sizes the class declares. *)
Definition noteArrays (e : LightEngine) : Prop :=
  length (activeNotes e) = 128%nat /\ length (currentNote e) = 17%nat.

(** The engine owns exactly [n] LEDs: both buffers have [n] cells. *)
Definition allocated (n : Z) (e : LightEngine) : Prop :=
  numLeds e = n
  /\ length (leds e) = Z.to_nat n /\ length (background e) = Z.to_nat n
  /\ noteArrays e.

(** The upper bound of a parameter that holds a data byte, doubled or
    not. *)
Definition paramBound (p : Param) : Z :=
  match p with
  | PffHue | PffSat | PffBright | PbgHue | PbgSat | PbgBright => 254
  | _ => 127
  end.

Definition paramsInRange (e : LightEngine) : Prop :=
  forall p, 0 <= param p e <= paramBound p.

(** ** Vocabulary for what a foreground mode paints *)

(** The foreground colour as a buffer cell stores it. *)
Definition fgColour (e : LightEngine) : HSVColor :=
  mkHSV (u8 (ffHue e)) (u8 (ffSat e)) (u8 (ffBright e)).

(** [painted C S t t']: from [t] to [t'] the LED cells in [S] were written
    with a colour that [C] allows at their index, every other cell of the
    strip kept its content, and nothing but [leds] and [lineOffset]
    changed.  The last part says that whatever cell changed got a colour
    that [C] allows. *)
Definition painted (C : Z -> HSVColor -> Prop) (S : Z -> Prop)
    (t t' : LightEngine) : Prop :=
  preserved t t' /\ background t' = background t
  /\ (forall j, 0 <= j < numLeds t -> S j ->
        exists c, leds t' !! Z.to_nat j = Some c /\ C j c)
  /\ (forall j, 0 <= j < numLeds t -> ~ S j ->
        leds t' !! Z.to_nat j = leds t !! Z.to_nat j)
  /\ (forall j, 0 <= j < numLeds t ->
        (exists c, leds t' !! Z.to_nat j = Some c /\ C j c)
        \/ leds t' !! Z.to_nat j = leds t !! Z.to_nat j).

(** [paints] is [painted] for code that leaves [lineOffset] alone. *)
Definition paints (C : Z -> HSVColor -> Prop) (S : Z -> Prop)
    (t t' : LightEngine) : Prop :=
  painted C S t t' /\ lineOffset t' = lineOffset t.

(** What a caller sees after a render whose foreground painted [S] with
    colours of [C]: the painted LEDs, and everywhere else the cell of the
    background that the background pass of this frame computed. *)
Definition shows (C : Z -> HSVColor -> Prop) (S : Z -> Prop)
    (e e' : LightEngine) : Prop :=
  exists a,
    updateBackground (set_frameCounter (u32 (frameCounter e + 1)) e) = Some a
    /\ numLeds e' = numLeds e
    /\ forall j, 0 <= j < numLeds e ->
         (S j -> exists c, leds e' !! Z.to_nat j = Some c /\ C j c)
         /\ (~ S j -> leds e' !! Z.to_nat j = background a !! Z.to_nat j).

(** The parameters with which a foreground mode returns at once. *)
Definition degenerate (e : LightEngine) : Prop :=
  (ffMode e = 2 /\ lines e = 0)
  \/ (ffMode e = 3 /\ (lines e = 0 \/ ffLedLength e = 0))
  \/ (ffMode e = 4 /\ ffLedLength e = 0)
  \/ (ffMode e = 5 /\ lines e = 0)
  \/ (ffMode e = 6 /\ ffLedLength e = 0)
  \/ (ffMode e = 8 /\ oceanAmp e <= 0)
  \/ (ffMode e = 9 /\ opposingAmp e <= 0).

(** The colour of LED [j] on a rainbow that starts at [hue] over [n] LEDs. *)
Definition rainbowColour (hue sat bright n j : Z) : HSVColor :=
  mkHSV (u8 (Z.rem (hue + j * Z.quot 255 n) 256)) (u8 sat) (u8 bright).

(** LED [j] lies on one of the lines of the moving dots. *)
Definition onLine (e : LightEngine) (j : Z) : Prop :=
  exists line k,
    0 <= line < lines e /\ 0 <= k < ffLedLength e /\ j = cometIndex e line k.

(** LED [j] lies in one of the blocks of the back-and-forth mode: block [m]
    starts [m * 2 * ffLedLength] LEDs after [ffLedStart * ffLedLength]. *)
Definition inBlock (e : LightEngine) (j : Z) : Prop :=
  exists m k,
    0 <= m /\ m * (2 * ffLedLength e) < numLeds e /\ 0 <= k < ffLedLength e
    /\ j = Z.rem (ffLedStart e * ffLedLength e + m * (2 * ffLedLength e) + k)
             (numLeds e).

(** The colour the move-start mode gives the [k]-th LED of a line: the
    rainbow hue of the unwrapped position [ffLedStart + k]. *)
Definition moveStartColour (e : LightEngine) (k : Z) : HSVColor :=
  rainbowColour (ffHue e) (ffSat e) (ffBright e) (numLeds e) (ffLedStart e + k).

(** The colour of LED [j] of a colour sinusoid. *)
Definition sinusoidColour (start len hue amp sat bright j : Z) (c : HSVColor)
  : Prop :=
  exists x, sinusoidHue j start len hue amp = Some x
            /\ c = mkHSV (u8 x) (u8 sat) (u8 bright).

(** ** Vocabulary for the drives mode *)

(** The cells of the channel table that the drives mode reads: channel,
    position in the row, LED index.  Row 0 is not among them. *)
Definition driveCells : list (Z * Z * Z) :=
  ch ← seqZ 1 16;
  i ← seqZ 0 6;
  match arr_get CHANNEL_TO_LED ch ≫= (fun row => arr_get row i) with
  | Some led => [(ch, i, led)]
  | None => []
  end.

(** The channel and the position in its row that the table gives LED [j],
    if any. *)
Definition driveOf (j : Z) : option (Z * Z) :=
  match List.find (fun c => c.2 =? j) driveCells with
  | Some c => Some c.1
  | None => None
  end.

(** The colour the drives mode gives an LED at position [i] of the row of a
    channel whose current note is [note]. *)
Definition driveColour (e : LightEngine) (i note : Z) : HSVColor :=
  if note =? 0 then checkerboard i (ffBright e) else fgColour e.

(** LED [j] belongs to a drive and [c] is the colour of that drive's state. *)
Definition driveShows (e : LightEngine) (j : Z) (c : HSVColor) : Prop :=
  exists ch i note,
    driveOf j = Some (ch, i)
    /\ arr_get (currentNote e) ch = Some note
    /\ c = driveColour e i note.

(** ** Vocabulary for the wave modes *)

(** The top-strip LED (24..71) that LED [j] stands for: itself on the top
    strip, and the LED it mirrors when [j] is one of the mirrored LEDs 0..23
    or 72..95. *)
Definition topOf (j : Z) : Z :=
  if j <? 24 then 47 - j else if 71 <? j then 143 - j else j.

(** The brightness of a wave of amplitude [amp] at distance [p] from its
    centre. *)
Definition waveBrightness (e : LightEngine) (amp p : Z) : Z :=
  Z.quot (ffBright e * (amp - p)) amp.

Definition waveColour (e : LightEngine) (amp p : Z) : HSVColor :=
  mkHSV (u8 (ffHue e)) (u8 (ffSat e)) (u8 (waveBrightness e amp p)).

(** Ocean waves: LED [j] is painted when its top-strip counterpart is less
    than the amplitude away from the centre, with the brightness of that
    distance. *)
Definition oceanPainted (e : LightEngine) (j : Z) : Prop :=
  0 <= j <= 95 /\ Z.abs (topOf j - waveMiddle e) < oceanAmp e.

Definition oceanShows (e : LightEngine) (j : Z) (c : HSVColor) : Prop :=
  c = waveColour e (oceanAmp e) (Z.abs (topOf j - waveMiddle e)).

(** Opposing waves: the top strip carries a wave around [waveMiddle], the
    mirrored LEDs one around [numLeds - waveMiddle]; both include the
    distance [amp] itself, and nothing is painted unless [amp] is positive. *)
Definition opposingDistance (e : LightEngine) (j : Z) : Z :=
  if (24 <=? j) && (j <=? 71) then Z.abs (j - waveMiddle e)
  else Z.abs (topOf j - (numLeds e - waveMiddle e)).

Definition opposingPainted (e : LightEngine) (j : Z) : Prop :=
  0 < opposingAmp e /\ 0 <= j <= 95 /\ opposingDistance e j <= opposingAmp e.

Definition opposingShows (e : LightEngine) (j : Z) (c : HSVColor) : Prop :=
  c = waveColour e (opposingAmp e) (opposingDistance e j).

(** ** Closed engines for the examples of the modes *)

Definition wheelEngine : LightEngine := set_ffMode 1 (LightEngine_new 108).

Definition dotsEngine : LightEngine :=
  set_lines 3 (set_ffLedLength 4 (set_ffMode 2 (LightEngine_new 108))).

Definition blocksEngine : LightEngine :=
  set_ffLedStart 2 (set_ffLedLength 5 (set_ffMode 4 (LightEngine_new 108))).

Definition moveEngine : LightEngine :=
  set_lines 2 (set_ffLedLength 3 (set_ffMode 5 (LightEngine_new 108))).

Definition sinusoidEngine : LightEngine :=
  set_cAmp 50 (set_ffLedLength 16 (set_ffMode 6 (LightEngine_new 108))).

Definition noLinesEngine : LightEngine :=
  set_ffLedLength 4 (set_ffMode 2 (LightEngine_new 108)).

Definition rainbowBgEngine : LightEngine := set_bgMode 1 (LightEngine_new 108).

Definition sinusoidBgEngine : LightEngine :=
  set_cAmp 50 (set_bgLedLength 16 (set_bgMode 2 (LightEngine_new 108))).

Definition oceanNarrow : LightEngine :=
  set_ffLedLength 20 (set_ffMode 8 (LightEngine_new 108)).

Definition opposingNarrow : LightEngine :=
  set_ffLedLength 20 (set_ffMode 9 (LightEngine_new 108)).

(** * The plugin renderers

    [LightEngineAPI.h], [LightEngineAPI.cpp] and [Modes/*.cpp] hold a second,
    stateless implementation of the modes for the plugin: a renderer takes
    the LED buffer, the strip length and a [RenderContext].  A renderer is a
    function from the buffer to the new buffer, in the [option] monad as for
    the engine.  The tables of [Constants.cpp] are those of the engine. *)

Module Plugin.

(** [RenderContext]: [params] is [int params[32]], [background] a pointer that
    can be null, [midiNotes] is [uint8_t midiNotes[128]]. *)
Record RenderContext : Type := mkRenderContext {
  params : list Z;
  background : option (list HSVColor);
  randomSeed : Z;
  midiNotes : list Z
}.

(** [leds[idx].h = h; leds[idx].s = s; leds[idx].v = v;] with the casts to
    [uint8_t] of the source. *)
Definition store (leds : list HSVColor) (idx hue sat bright : Z)
  : option (list HSVColor) :=
  arr_set leds idx (mkHSV (u8 hue) (u8 sat) (u8 bright)).

(** [if (ctx->background) memcpy(leds, ctx->background, numLeds * sizeof(HSV))]. *)
Definition copyContextBackground (leds : list HSVColor) (numLeds : Z)
    (ctx : RenderContext) : option (list HSVColor) :=
  match background ctx with
  | Some b => memcpy leds b numLeds
  | None => Some leds
  end.

(** [Modes/NotesToDrives.cpp] *)
Definition renderNotesToDrives (leds : list HSVColor) (numLeds : Z)
    (ctx : RenderContext) : option (list HSVColor) :=
  p0 ← arr_get (params ctx) 0;
  p1 ← arr_get (params ctx) 1;
  p2 ← arr_get (params ctx) 2;
  let hue := p0 * 2 in
  let sat := p1 * 2 in
  let bright := p2 * 2 in
  leds ← copyContextBackground leds numLeds ctx;
  for_loop 36 53 1
    (fun noteNum leds =>
       velocity ← arr_get (midiNotes ctx) noteNum;
       if 0 <? velocity then
         let channel := noteNum - 36 in
         for_loop 0 6 1
           (fun i leds =>
              row ← arr_get CHANNEL_TO_LED channel;
              ledIdx ← arr_get row i;
              if (0 <=? ledIdx) && (ledIdx <? numLeds)
              then store leds ledIdx hue sat bright
              else Some leds) leds
       else Some leds) leds.

(** [Modes/RainbowWheel.cpp] *)
Definition renderRainbowWheel (leds : list HSVColor) (numLeds : Z)
    (ctx : RenderContext) : option (list HSVColor) :=
  p0 ← arr_get (params ctx) 0;
  p1 ← arr_get (params ctx) 1;
  p2 ← arr_get (params ctx) 2;
  let hue := p0 * 2 in
  let sat := p1 * 2 in
  let bright := p2 * 2 in
  RAINBOW_INC ← idiv 255 numLeds;
  for_loop 0 numLeds 1
    (fun led leds =>
       store leds led (Z.rem (hue + led * RAINBOW_INC) 256) sat bright) leds.

(** [Modes/MovingDots.cpp] *)
Definition renderMovingDots (leds : list HSVColor) (numLeds : Z)
    (ctx : RenderContext) : option (list HSVColor) :=
  p0 ← arr_get (params ctx) 0;
  p1 ← arr_get (params ctx) 1;
  p2 ← arr_get (params ctx) 2;
  ledStart ← arr_get (params ctx) 3;
  ledLength ← arr_get (params ctx) 4;
  lines ← arr_get (params ctx) 6;
  let hue := p0 * 2 in
  let sat := p1 * 2 in
  let bright := p2 * 2 in
  let lines := if lines =? 0 then 1 else lines in
  leds ← copyContextBackground leds numLeds ctx;
  lineOffset ← idiv numLeds lines;
  for_loop 0 lines 1
    (fun line leds =>
       for_loop ledStart (ledStart + ledLength) 1
         (fun led leds =>
            idx ← imod (led + line * lineOffset) numLeds;
            store leds idx hue sat bright) leds) leds.

(** [Modes/RemainingModes.cpp] *)
Definition renderBackAndForth (leds : list HSVColor) (numLeds : Z)
    (ctx : RenderContext) : option (list HSVColor) :=
  p0 ← arr_get (params ctx) 0;
  p1 ← arr_get (params ctx) 1;
  p2 ← arr_get (params ctx) 2;
  ledStart ← arr_get (params ctx) 3;
  ledLength ← arr_get (params ctx) 4;
  let hue := p0 * 2 in
  let sat := p1 * 2 in
  let bright := p2 * 2 in
  leds ← copyContextBackground leds numLeds ctx;
  for_loop ledStart (ledStart + ledLength) 1
    (fun i leds =>
       idx ← imod i numLeds;
       store leds idx hue sat bright) leds.

Definition renderMoveStartLED (leds : list HSVColor) (numLeds : Z)
    (ctx : RenderContext) : option (list HSVColor) :=
  p0 ← arr_get (params ctx) 0;
  p1 ← arr_get (params ctx) 1;
  p2 ← arr_get (params ctx) 2;
  ledStart ← arr_get (params ctx) 3;
  ledLength ← arr_get (params ctx) 4;
  p5 ← arr_get (params ctx) 5;
  lines ← arr_get (params ctx) 6;
  let hue := p0 * 2 in
  let sat := p1 * 2 in
  let bright := p2 * 2 in
  let sat2 := p5 * 2 in
  let lines := if lines =? 0 then 1 else lines in
  leds ← copyContextBackground leds numLeds ctx;
  lineOffset ← idiv numLeds lines;
  for_loop 0 lines 1
    (fun line leds =>
       for_loop ledStart (ledStart + ledLength) 1
         (fun led leds =>
            idx ← imod (led + line * lineOffset) numLeds;
            store leds idx hue (if line =? 0 then sat else sat2) bright)
         leds) leds.

Definition renderColorSinusoid (leds : list HSVColor) (numLeds : Z)
    (ctx : RenderContext) : option (list HSVColor) :=
  p0 ← arr_get (params ctx) 0;
  p1 ← arr_get (params ctx) 1;
  p2 ← arr_get (params ctx) 2;
  phaseShift ← arr_get (params ctx) 13;
  brightness ← arr_get (params ctx) 14;
  sinePeriod ← arr_get (params ctx) 7;
  let hue := p0 * 2 in
  let sat := p1 * 2 in
  let bright := p2 * 2 in
  let sinePeriod := if sinePeriod =? 0 then 1 else sinePeriod in
  leds ← copyContextBackground leds numLeds ctx;
  for_loop 0 numLeds 1
    (fun i leds =>
       q ← idiv (i * 64) sinePeriod;
       let phaseIndex := Z.rem (q + phaseShift) 64 in
       sinVal ← arr_get COLOR_PHASE phaseIndex;
       let hueOffset := Z.quot (sinVal * brightness) 100 in
       store leds i (hue + hueOffset) sat bright) leds.

(** [Modes/OceanWaves.cpp]; the loop runs while [i < length && i < 48]. *)
Definition renderOceanWaves (leds : list HSVColor) (numLeds : Z)
    (ctx : RenderContext) : option (list HSVColor) :=
  p0 ← arr_get (params ctx) 0;
  p4 ← arr_get (params ctx) 4;
  length ← arr_get (params ctx) 9;
  let hue := p0 * 2 in
  let sat := p4 * 2 in
  leds ← copyContextBackground leds numLeds ctx;
  for_loop 0 (Z.min length 48) 1
    (fun i leds =>
       ledIdx ← arr_get TOP_BOTTOM_MIRROR_MAP i;
       if (0 <=? ledIdx) && (ledIdx <? numLeds)
       then arr_set leds ledIdx (mkHSV (u8 hue) (u8 sat) 254)
       else Some leds) leds.

(** Both loops run while [i < length && i < 24]. *)
Definition renderOpposingWaves (leds : list HSVColor) (numLeds : Z)
    (ctx : RenderContext) : option (list HSVColor) :=
  p0 ← arr_get (params ctx) 0;
  p4 ← arr_get (params ctx) 4;
  length ← arr_get (params ctx) 9;
  let hue := p0 * 2 in
  let sat := p4 * 2 in
  leds ← copyContextBackground leds numLeds ctx;
  leds ← for_loop 0 (Z.min length 24) 1
    (fun i leds =>
       let ledIdx := i in
       if (0 <=? ledIdx) && (ledIdx <? numLeds)
       then arr_set leds ledIdx (mkHSV (u8 hue) (u8 sat) 254)
       else Some leds) leds;
  for_loop 0 (Z.min length 24) 1
    (fun i leds =>
       let ledIdx := 95 - i in
       if (0 <=? ledIdx) && (ledIdx <? numLeds)
       then arr_set leds ledIdx (mkHSV (u8 hue) (u8 sat) 254)
       else Some leds) leds.

(** [Modes/Backgrounds.cpp] *)
Definition renderFlatBackground (leds : list HSVColor) (numLeds : Z)
    (ctx : RenderContext) : option (list HSVColor) :=
  p10 ← arr_get (params ctx) 10;
  p11 ← arr_get (params ctx) 11;
  p12 ← arr_get (params ctx) 12;
  let hue := p10 * 2 in
  let sat := p11 * 2 in
  let bright := p12 * 2 in
  for_loop 0 numLeds 1 (fun i leds => store leds i hue sat bright) leds.

Definition renderRainbowBackground (leds : list HSVColor) (numLeds : Z)
    (ctx : RenderContext) : option (list HSVColor) :=
  p11 ← arr_get (params ctx) 11;
  p12 ← arr_get (params ctx) 12;
  let sat := p11 * 2 in
  let bright := p12 * 2 in
  rainbowInc ← idiv 255 numLeds;
  for_loop 0 numLeds 1
    (fun i leds => store leds i (i * rainbowInc) sat bright) leds.

Definition renderSinusoidBackground (leds : list HSVColor) (numLeds : Z)
    (ctx : RenderContext) : option (list HSVColor) :=
  p10 ← arr_get (params ctx) 10;
  p11 ← arr_get (params ctx) 11;
  p12 ← arr_get (params ctx) 12;
  phaseShift ← arr_get (params ctx) 13;
  brightness ← arr_get (params ctx) 14;
  sinePeriod ← arr_get (params ctx) 7;
  let hue := p10 * 2 in
  let sat := p11 * 2 in
  let bright := p12 * 2 in
  let sinePeriod := if sinePeriod =? 0 then 1 else sinePeriod in
  for_loop 0 numLeds 1
    (fun i leds =>
       q ← idiv (i * 64) sinePeriod;
       let phaseIndex := Z.rem (q + phaseShift) 64 in
       sinVal ← arr_get COLOR_PHASE phaseIndex;
       let val := Z.quot (sinVal * brightness) 100 + bright in
       let val := if val <? 0 then 0 else val in
       let val := if 254 <? val then 254 else val in
       store leds i hue sat val) leds.

Section Dispatch.

(** [rand_sequence seed k] is the value of the [k]-th [rand()], counted from
    0, after [srand(seed)]. *)
Variable rand_sequence : Z -> Z -> Z.

(** [renderComets] is declared in [LightEngineAPI.cpp] and defined in none of
    the files at hand: the dispatcher takes it as it comes. *)
Variable renderComets :
  list HSVColor -> Z -> RenderContext -> option (list HSVColor).

(** [Modes/RemainingModes.cpp]: one [rand()] per LED after
    [srand(ctx->randomSeed)]. *)
Definition renderFlashLights (leds : list HSVColor) (numLeds : Z)
    (ctx : RenderContext) : option (list HSVColor) :=
  p0 ← arr_get (params ctx) 0;
  p1 ← arr_get (params ctx) 1;
  p2 ← arr_get (params ctx) 2;
  let hue := p0 * 2 in
  let sat := p1 * 2 in
  let bright := p2 * 2 in
  let seed := u32 (randomSeed ctx) in
  leds ← copyContextBackground leds numLeds ctx;
  for_loop 0 numLeds 1
    (fun i leds =>
       let brightness :=
         if Z.rem (rand_sequence seed i) 2 =? 0 then 0 else bright in
       store leds i hue sat brightness) leds.

(** The dispatchers of [LightEngineAPI.cpp].  A null [leds] or [ctx] is
    [None]; the result is the buffer behind [leds] after the call. *)
Definition renderForeground (modeId : Z) (leds : option (list HSVColor))
    (numLeds : Z) (ctx : option RenderContext)
  : option (option (list HSVColor)) :=
  match leds, ctx with
  | Some l, Some c =>
      Some <$>
        match modeId with
        | 0 => renderNotesToDrives l numLeds c
        | 1 => renderRainbowWheel l numLeds c
        | 2 => renderMovingDots l numLeds c
        | 3 => renderComets l numLeds c
        | 4 => renderBackAndForth l numLeds c
        | 5 => renderMoveStartLED l numLeds c
        | 6 => renderColorSinusoid l numLeds c
        | 7 => renderFlashLights l numLeds c
        | 8 => renderOceanWaves l numLeds c
        | 9 => renderOpposingWaves l numLeds c
        | _ => Some l
        end
  | _, _ => Some leds
  end.

Definition renderBackground (modeId : Z) (leds : option (list HSVColor))
    (numLeds : Z) (ctx : option RenderContext)
  : option (option (list HSVColor)) :=
  match leds, ctx with
  | Some l, Some c =>
      Some <$>
        match modeId with
        | 0 => renderFlatBackground l numLeds c
        | 1 => renderRainbowBackground l numLeds c
        | 2 => renderSinusoidBackground l numLeds c
        | _ => renderFlatBackground l numLeds c
        end
  | _, _ => Some leds
  end.

End Dispatch.

(** The context a host passes: both arrays have their declared sizes and the
    parameters are MIDI data bytes; the background, when there is one, covers
    the strip. *)
Definition contextFits (numLeds : Z) (ctx : RenderContext) : Prop :=
  length (params ctx) = 32%nat
  /\ length (midiNotes ctx) = 128%nat
  /\ Forall (fun p => 0 <= p <= 127) (params ctx)
  /\ match background ctx with
     | Some b => numLeds <= Z.of_nat (length b)
     | None => True
     end.

(** The context carries the CC values of the engine: parameter [i] of
    [Metadata.cpp] has CC number [i + 1]. *)
Definition carries (ctx : RenderContext) (e : LightEngine) : Prop :=
  forall cc, 1 <= cc <= 15 ->
    arr_get (params ctx) (cc - 1) = Some (getCC cc e).

(** A renderer keeps the size of the buffer. *)
Definition sameSize (leds l : list HSVColor) : Prop := length l = length leds.

(** [coloured c S l l']: from [l] to [l'] the cells in [S] were written with
    [c] and every other cell kept its content; whatever cell changed holds
    [c]. *)
Definition coloured (c : HSVColor) (S : Z -> Prop) (l l' : list HSVColor)
  : Prop :=
  length l' = length l
  /\ (forall j, 0 <= j -> S j -> l' !! Z.to_nat j = Some c)
  /\ (forall j, 0 <= j -> ~ S j -> l' !! Z.to_nat j = l !! Z.to_nat j)
  /\ (forall j, 0 <= j ->
        l' !! Z.to_nat j = Some c \/ l' !! Z.to_nat j = l !! Z.to_nat j).

(** Note [note] sounds in the context. *)
Definition sounding (ctx : RenderContext) (note : Z) : Prop :=
  exists velocity, arr_get (midiNotes ctx) note = Some velocity /\ 0 < velocity.

(** The LEDs the plugin's drives mode lights: note 36 stands for row 0 of the
    channel table, which is LED 0 six times; note [36 + ch] for the drive of
    channel [ch]. *)
Definition driveLit (ctx : RenderContext) (numLeds j : Z) : Prop :=
  j < numLeds
  /\ ((j = 0 /\ sounding ctx 36)
      \/ exists ch i, driveOf j = Some (ch, i) /\ sounding ctx (36 + ch)).

(** The LEDs the plugin's wave modes light for a wave length [len]. *)
Definition oceanLit (len numLeds j : Z) : Prop :=
  j < numLeds /\ (j <= 23 \/ 72 <= j <= 95) /\ topOf j - 24 < len.

Definition opposingLit (len numLeds j : Z) : Prop :=
  j < numLeds /\ (j < Z.min len 24 \/ 95 - Z.min len 24 < j <= 95).

(** The context of a host that mirrors an engine: its CC values as
    parameters, its note velocities and frame counter, and a background. *)
Definition contextOf (e : LightEngine) (bg : option (list HSVColor))
  : RenderContext :=
  {| params := (fun i => getCC (i + 1) e) <$> seqZ 0 32;
     background := bg;
     randomSeed := frameCounter e;
     midiNotes := activeNotes e |}.

(** For the examples: a generator, and a comet renderer that paints
    nothing. *)
Definition sample_sequence (seed k : Z) : Z := sample_rand (seed + k).

Definition noComets (leds : list HSVColor) (numLeds : Z) (ctx : RenderContext)
  : option (list HSVColor) := Some leds.

End Plugin.

(** An engine with note 40 sounding on channel 1, for the examples. *)
Definition soundingEngine : LightEngine :=
  handleNoteOn 1 40 90 (LightEngine_new 108).

(** The engine after the background pass of [render], for the examples. *)
Definition renderedBackground (e : LightEngine) : LightEngine :=
  default e (updateBackground (set_frameCounter (u32 (frameCounter e + 1)) e)).


(** ** Parameters by name *)

(** [setParam p x] stores [x] in the member [p]. *)
Definition setParam (p : Param) (x : Z) (e : LightEngine) : LightEngine :=
  match p with
  | PffHue => set_ffHue x e | PffSat => set_ffSat x e
  | PffBright => set_ffBright x e
  | PffLedStart => set_ffLedStart x e | PffLedLength => set_ffLedLength x e
  | PffMode => set_ffMode x e | Plines => set_lines x e
  | PcAmp => set_cAmp x e | PbgMode => set_bgMode x e | Ppan => set_pan x e
  | PbgHue => set_bgHue x e | PbgSat => set_bgSat x e
  | PbgBright => set_bgBright x e
  | PbgLedStart => set_bgLedStart x e | PbgLedLength => set_bgLedLength x e
  end.

(** The member that [case control:] of [handleControlChange] assigns, and
    whether it stores the value doubled. *)
Definition assignedMember (control : Z) : option Param :=
  match control with
  | 1 => Some PffHue | 2 => Some PffSat | 3 => Some PffBright
  | 4 => Some PffLedStart | 5 => Some PffLedLength | 6 => Some PffMode
  | 7 => Some Plines | 8 => Some PcAmp | 9 => Some PbgMode | 10 => Some Ppan
  | 11 => Some PbgHue | 12 => Some PbgSat | 13 => Some PbgBright
  | 14 => Some PbgLedStart | 15 => Some PbgLedLength
  | _ => None
  end.

(** The members a foreground and a background mode read. *)
Definition fgColourParam (p : Param) : bool :=
  match p with PffHue | PffSat | PffBright => true | _ => false end.

Definition bgColourParam (p : Param) : bool :=
  match p with PbgHue | PbgSat | PbgBright => true | _ => false end.

Definition fgReads (mode : Z) (p : Param) : bool :=
  match mode with
  | 0 | 1 | 7 => fgColourParam p
  | 2 | 3 | 5 =>
      fgColourParam p
      || match p with PffLedStart | PffLedLength | Plines => true | _ => false end
  | 4 =>
      fgColourParam p
      || match p with PffLedStart | PffLedLength => true | _ => false end
  | 6 =>
      fgColourParam p
      || match p with PffLedStart | PffLedLength | PcAmp => true | _ => false end
  | 8 | 9 =>
      fgColourParam p
      || match p with PffLedLength | Ppan => true | _ => false end
  | _ => false
  end.

Definition bgReads (mode : Z) (p : Param) : bool :=
  match mode with
  | 2 =>
      bgColourParam p
      || match p with PbgLedStart | PbgLedLength | PcAmp => true | _ => false end
  | _ => bgColourParam p
  end.

(** * Metadata

    The parameter and mode tables of [LightEngine.cpp] that a host reads
    through the C API.  A [const char*] is a string; a getter that can return
    [nullptr] returns an [option]. *)

Module EngineMetadata.
Import Stdlib.Strings.Ascii Stdlib.Strings.String.
Local Open Scope string_scope.
Local Open Scope Z_scope.

Record ParameterInfo : Type := mkParameterInfo {
  ccNumber : Z;
  name : string;
  layer : string;
  tooltip : string
}.

Record ModeInfo : Type := mkModeInfo {
  id : Z;
  modeName : string;
  uses : string
}.

Definition PARAMETER_TABLE : list ParameterInfo :=
  [ mkParameterInfo 1 "Hue" "Foreground"
      "Sets color [roygbivmr]. Cyclic (min val = max val)";
    mkParameterInfo 2 "Saturation" "Foreground"
      "Sets saturation [white, chosen hue]";
    mkParameterInfo 3 "Brightness" "Foreground"
      "Sets intensity [LED off, LED on]";
    mkParameterInfo 4 "Start" "Foreground"
      "Start position of line";
    mkParameterInfo 5 "Length" "Foreground"
      "Length of line";
    mkParameterInfo 6 "Foreground" "Foreground"
      "Foreground mode selector";
    mkParameterInfo 7 "Number of Lines" "Foreground"
      "Number of lines";
    mkParameterInfo 8 "Color Amplitude" "Shared"
      "Color amplitude for color sinusoid";
    mkParameterInfo 9 "Background" "Background"
      "Background mode selector";
    mkParameterInfo 10 "Pan" "Foreground"
      "Pan position for wave effects";
    mkParameterInfo 11 "Hue" "Background"
      "Sets color [roygbivmr]. Cyclic (min val = max val)";
    mkParameterInfo 12 "Saturation" "Background"
      "Sets saturation [white, chosen hue]";
    mkParameterInfo 13 "Brightness" "Background"
      "Sets intensity [LED off, LED on]";
    mkParameterInfo 14 "Start" "Background"
      "Start position of line";
    mkParameterInfo 15 "Length" "Background"
      "Length of line" ].

Definition FOREGROUND_MODES : list ModeInfo :=
  [ mkModeInfo 0 "Notes to Drives"
      "ffHue,ffSat,ffBright";
    mkModeInfo 1 "Rainbow Wheel"
      "ffHue,ffSat,ffBright";
    mkModeInfo 2 "Moving Dots"
      "ffHue,ffSat,ffBright,ffLedStart,ffLedLength,lines";
    mkModeInfo 3 "Comets"
      "ffHue,ffSat,ffBright,ffLedStart,ffLedLength,lines";
    mkModeInfo 4 "Back and Forth"
      "ffHue,ffSat,ffBright,ffLedStart,ffLedLength";
    mkModeInfo 5 "Move startLED with each note on event"
      "ffHue,ffSat,ffBright,ffLedStart,ffLedLength,lines";
    mkModeInfo 6 "Color Sinusoid"
      "ffHue,ffSat,ffBright,ffLedStart,ffLedLength,cAmp";
    mkModeInfo 7 "Flash Lights"
      "ffHue,ffSat,ffBright";
    mkModeInfo 8 "Ocean Waves"
      "ffHue,ffSat,ffBright,ffLedLength,pan";
    mkModeInfo 9 "Opposing Waves"
      "ffHue,ffSat,ffBright,ffLedLength,pan" ].

Definition BACKGROUND_MODES : list ModeInfo :=
  [ mkModeInfo 0 "Flat Color background"
      "bgHue,bgSat,bgBright";
    mkModeInfo 1 "Rainbow wheel background"
      "bgHue,bgSat,bgBright";
    mkModeInfo 2 "Color Sinusoid"
      "bgHue,bgSat,bgBright,bgLedStart,bgLedLength,cAmp" ].

Definition getParameterInfo (ccNumber : Z) : option ParameterInfo :=
  if (ccNumber <? 1) || (15 <? ccNumber) then None
  else arr_get PARAMETER_TABLE (ccNumber - 1).

Definition getForegroundModeCount : Z := 10.

Definition getForegroundModeInfo (modeId : Z) : option ModeInfo :=
  if (modeId <? 0) || (10 <=? modeId) then None
  else arr_get FOREGROUND_MODES modeId.

Definition getBackgroundModeCount : Z := 3.

Definition getBackgroundModeInfo (modeId : Z) : option ModeInfo :=
  if (modeId <? 0) || (3 <=? modeId) then None
  else arr_get BACKGROUND_MODES modeId.

(** The C API: [info ? info->name : ""]. *)
Definition lightEngine_getParameterCount : Z := 15.

Definition lightEngine_getParameterName (ccNumber : Z) : string :=
  match getParameterInfo ccNumber with
  | Some info => name info
  | None => EmptyString
  end.

Definition lightEngine_getParameterLayer (ccNumber : Z) : string :=
  match getParameterInfo ccNumber with
  | Some info => layer info
  | None => EmptyString
  end.

Definition lightEngine_getParameterTooltip (ccNumber : Z) : string :=
  match getParameterInfo ccNumber with
  | Some info => tooltip info
  | None => EmptyString
  end.

Definition lightEngine_getForegroundModeName (modeId : Z) : string :=
  match getForegroundModeInfo modeId with
  | Some info => modeName info
  | None => EmptyString
  end.

Definition lightEngine_getBackgroundModeName (modeId : Z) : string :=
  match getBackgroundModeInfo modeId with
  | Some info => modeName info
  | None => EmptyString
  end.

(** The identifier of a member, as the [uses] lists spell it. *)
Definition memberName (p : Param) : string :=
  match p with
  | PffHue => "ffHue" | PffSat => "ffSat" | PffBright => "ffBright"
  | PffLedStart => "ffLedStart" | PffLedLength => "ffLedLength"
  | PffMode => "ffMode" | Plines => "lines"
  | PcAmp => "cAmp" | PbgMode => "bgMode" | Ppan => "pan"
  | PbgHue => "bgHue" | PbgSat => "bgSat" | PbgBright => "bgBright"
  | PbgLedStart => "bgLedStart" | PbgLedLength => "bgLedLength"
  end.

(** The entries of a comma-separated list. *)
Fixpoint entries (s : string) : list string :=
  match s with
  | EmptyString => [EmptyString]
  | String c rest =>
      if Ascii.eqb c ","%char then EmptyString :: entries rest
      else match entries rest with
           | f :: fs => String c f :: fs
           | [] => [String c EmptyString]
           end
  end.

(** The [uses] list names the member [p]. *)
Definition listed (uses : string) (p : Param) : bool :=
  existsb (String.eqb (memberName p)) (entries uses).

End EngineMetadata.

(** * Proofs *)

(** ** Integer tests and conversions *)

Ltac ztest :=
  repeat match goal with
    | |- context [?a <=? ?b] => destruct (Z.leb_spec a b)
    | |- context [?a <? ?b] => destruct (Z.ltb_spec a b)
    | |- context [?a =? ?b] => destruct (Z.eqb_spec a b)
    end; simpl.

Lemma u8_small z : 0 <= z < 256 -> u8 z = z.
Proof. intros Hz. unfold u8. apply Z.mod_small. exact Hz. Qed.

Lemma u8_range z : 0 <= u8 z < 256.
Proof. unfold u8. apply Z.mod_pos_bound. lia. Qed.

(** A bounded integer is one of the numerals of its interval. *)
Lemma Z_range_cases (P : Z -> Prop) (n : nat) (lo z : Z) :
  Forall (fun k => P (lo + Z.of_nat k)) (seq 0 n) ->
  lo <= z < lo + Z.of_nat n -> P z.
Proof.
  intros HF Hz. rewrite Forall_forall in HF.
  replace z with (lo + Z.of_nat (Z.to_nat (z - lo))) by lia.
  apply HF. apply elem_of_seq. lia.
Qed.

(** ** The mirror table (C2) *)

Lemma mirror_low_half j :
  0 <= j < 24 -> mirror j = Some (23 - j).
Proof.
  intros Hj. pattern j. apply (Z_range_cases _ 24 0); [|lia].
  repeat constructor.
Qed.

Lemma mirror_high_half j :
  24 <= j < 48 -> mirror j = Some (119 - j).
Proof.
  intros Hj. pattern j. apply (Z_range_cases _ 24 24); [|lia].
  repeat constructor.
Qed.

Lemma mirror_outside j : ~ 0 <= j < 48 -> mirror j = None.
Proof.
  intros Hj. unfold mirror, arr_get. ztest; [|reflexivity].
  apply lookup_ge_None. simpl. lia.
Qed.

(** C2 (as amended).  The table is its own inverse on its lower half only:
    an index [j] in [0,24) is sent to [23 - j], again in [0,24), and back to
    [j]; an index in [24,48) is sent to [119 - j], in [72,95], which is not
    an index of the table any more. *)
Theorem mirror_map_halves :
  (forall j, 0 <= j < 24 ->
     exists m, mirror j = Some m /\ m = 23 - j /\ 0 <= m < 24
               /\ mirror m = Some j)
  /\ (forall j, 24 <= j < 48 ->
        exists m, mirror j = Some m /\ m = 119 - j /\ 72 <= m <= 95
                  /\ mirror m = None).
Proof.
  split; intros j Hj.
  - exists (23 - j). rewrite (mirror_low_half j Hj).
    rewrite (mirror_low_half (23 - j)) by lia.
    repeat split; try lia. f_equal. lia.
  - exists (119 - j). rewrite (mirror_high_half j Hj).
    rewrite (mirror_outside (119 - j)) by lia.
    repeat split; lia.
Qed.

Lemma mirror_map_halves_witness :
  (exists m, mirror 5 = Some m /\ m = 23 - 5 /\ 0 <= m < 24
             /\ mirror m = Some 5)
  /\ (exists m, mirror 30 = Some m /\ m = 119 - 30 /\ 72 <= m <= 95
                /\ mirror m = None).
Proof.
  split.
  - apply (proj1 mirror_map_halves 5). lia.
  - apply (proj2 mirror_map_halves 30). lia.
Defined.

(** C2 as stated fails at three places: looking up index 24 twice leaves the
    table, the image of index 0 is 23 and not in [72,95], and 72 is no index
    of the table at all. *)
Lemma mirror_map_not_involution :
  (mirror 24 ≫= mirror) <> Some 24
  /\ (exists m, mirror 0 = Some m /\ ~ 72 <= m <= 95)
  /\ mirror 72 = None.
Proof.
  split; [discriminate|]. split; [|reflexivity].
  exists 23. split; [reflexivity|lia].
Qed.

(** ** Control changes (C5, C6) *)

Lemma handleControlChange_unknown channel control value e :
  0 <= control < 256 -> control = 0 \/ 15 < control ->
  handleControlChange channel control value e = e.
Proof.
  intros Hc Hout. unfold handleControlChange.
  rewrite (u8_small control Hc).
  destruct control as [|p|p]; [reflexivity| |lia].
  do 4 (try destruct p as [p|p|]); try reflexivity; lia.
Qed.

(** C6.  A control change with a data byte [value] writes the one member the
    CC table names, doubled for CC 1, 2, 3, 11, 12, 13, and nothing else; a
    control outside 1..15 changes nothing.  The channel is not looked at. *)
Theorem handleControlChange_one_member channel control value e :
  0 <= control < 256 -> 0 <= value <= 127 ->
  let e' := handleControlChange channel control value e in
  sameNonParams e e'
  /\ (1 <= control <= 15 ->
      exists p, spec_ccParam control = Some p
        /\ param p e' = (if spec_ccScaled control then value * 2 else value)
        /\ forall q, q <> p -> param q e' = param q e)
  /\ (control = 0 \/ 15 < control -> e' = e).
Proof.
  intros Hc Hv e'. split; [|split].
  - destruct (decide (1 <= control <= 15)) as [Hin|Hout].
    + subst e'. pattern control. apply (Z_range_cases _ 15 1); [|lia].
      repeat constructor.
    + subst e'. rewrite handleControlChange_unknown by lia.
      repeat split.
  - intros Hin. subst e'. unfold handleControlChange.
    rewrite (u8_small value) by lia.
    pattern control. apply (Z_range_cases _ 15 1); [|lia].
    repeat constructor;
      (eexists; split; [reflexivity|]; split; [reflexivity|];
       intros [] Hq; try reflexivity; congruence).
  - intros Hout. apply handleControlChange_unknown; assumption.
Qed.

Lemma handleControlChange_one_member_witness :
  (let e' := handleControlChange 3 11 100 (LightEngine_new 108) in
   sameNonParams (LightEngine_new 108) e'
   /\ exists p, spec_ccParam 11 = Some p
        /\ param p e' = (if spec_ccScaled 11 then 100 * 2 else 100)
        /\ forall q, q <> p -> param q e' = param q (LightEngine_new 108))
  /\ handleControlChange 3 200 100 (LightEngine_new 108) = LightEngine_new 108.
Proof.
  split.
  - destruct (handleControlChange_one_member 3 11 100 (LightEngine_new 108))
      as (Hsame & Hone & _); [lia|lia|].
    split; [exact Hsame|]. apply Hone. lia.
  - apply (handleControlChange_one_member 3 200 100 (LightEngine_new 108));
      lia.
Defined.

Lemma getCC_handleControlChange channel control value e :
  1 <= control <= 15 -> 0 <= value <= 127 ->
  getCC control (handleControlChange channel control value e) = value.
Proof.
  intros Hc Hv. unfold handleControlChange.
  rewrite (u8_small value) by lia.
  assert (Hq : Z.quot (value * 2) 2 = value) by (apply Z.quot_mul; lia).
  revert Hq. pattern control.
  apply (Z_range_cases _ 15 1); [|lia].
  repeat constructor; intros Hq; simpl; auto.
Qed.

(** C5.  For a control in 1..15 and a data byte, [getCC] reads back what
    [setCC] wrote, and [setCC] is [handleControlChange] on channel 0. *)
Theorem setCC_getCC_roundtrip ccNumber value e :
  1 <= ccNumber <= 15 -> 0 <= value <= 127 ->
  getCC ccNumber (setCC ccNumber value e) = value
  /\ setCC ccNumber value e = handleControlChange 0 ccNumber value e.
Proof.
  intros Hc Hv. split; [|reflexivity].
  unfold setCC. apply getCC_handleControlChange; assumption.
Qed.

Lemma setCC_getCC_roundtrip_witness :
  getCC 13 (setCC 13 127 (LightEngine_new 108)) = 127
  /\ setCC 13 127 (LightEngine_new 108)
     = handleControlChange 0 13 127 (LightEngine_new 108).
Proof.
  apply (setCC_getCC_roundtrip 13 127 (LightEngine_new 108)); lia.
Defined.

(** ** Note-on in the move-start mode (C7) *)

(** C7.  In mode 5 every note-on, whatever its channel, note and velocity,
    moves [ffLedStart] one step forward and takes it back to 0 as soon as the
    step reaches 127; from 126 the next value is 0. *)
Theorem handleNoteOn_moves_start channel note velocity e :
  ffMode e = 5 ->
  ffLedStart (handleNoteOn channel note velocity e)
  = (if ffLedStart e + 1 <? 127 then ffLedStart e + 1 else 0)
  /\ (ffLedStart e = 126 ->
      ffLedStart (handleNoteOn channel note velocity e) = 0).
Proof.
  intros Hm.
  assert (Hs : ffLedStart (handleNoteOn channel note velocity e)
               = (if ffLedStart e + 1 <? 127 then ffLedStart e + 1 else 0)).
  { unfold handleNoteOn.
    destruct (u8 note <? 128); destruct ((1 <=? u8 channel) && (u8 channel <=? 16));
      simpl; rewrite Hm; simpl; ztest; lia. }
  split; [exact Hs|]. intros H126. rewrite Hs, H126. reflexivity.
Qed.

Lemma handleNoteOn_moves_start_witness :
  let e := set_ffLedStart 126 (set_ffMode 5 (LightEngine_new 108)) in
  ffLedStart (handleNoteOn 9 60 100 e)
  = (if ffLedStart e + 1 <? 127 then ffLedStart e + 1 else 0)
  /\ ffLedStart (handleNoteOn 9 60 100 e) = 0.
Proof.
  destruct (handleNoteOn_moves_start 9 60 100
              (set_ffLedStart 126 (set_ffMode 5 (LightEngine_new 108))))
    as [Hstep Hwrap]; [reflexivity|].
  split; [exact Hstep|]. apply Hwrap. reflexivity.
Defined.

(** ** Reasoning rules for fallible code *)

Lemma succeeds_ret {A} (P : A -> Prop) a : P a -> succeeds P (Some a).
Proof. intros Ha. exists a. split; [reflexivity|exact Ha]. Qed.

Lemma succeeds_bind {A B} (Q : A -> Prop) (P : B -> Prop)
    (m : option A) (k : A -> option B) :
  succeeds Q m -> (forall a, Q a -> succeeds P (k a)) ->
  succeeds P (m ≫= k).
Proof.
  intros (a & -> & Ha) Hk. simpl. apply Hk, Ha.
Qed.

Lemma succeeds_mono {A} (P Q : A -> Prop) (o : option A) :
  succeeds P o -> (forall a, P a -> Q a) -> succeeds Q o.
Proof.
  intros (a & -> & Ha) HPQ. exists a. split; [reflexivity|apply HPQ, Ha].
Qed.

Lemma agrees_ret {A} (R : A -> A -> Prop) a1 a2 :
  R a1 a2 -> agrees R (Some a1) (Some a2).
Proof. intros HR b1 b2 [= <-] [= <-]. exact HR. Qed.

Lemma agrees_bind {A B} (Q : A -> A -> Prop) (R : B -> B -> Prop)
    (m1 m2 : option A) (k1 k2 : A -> option B) :
  agrees Q m1 m2 ->
  (forall a1 a2, Q a1 a2 -> agrees R (k1 a1) (k2 a2)) ->
  agrees R (m1 ≫= k1) (m2 ≫= k2).
Proof.
  intros Hm Hk b1 b2 H1 H2.
  destruct m1 as [a1|]; [|discriminate]. destruct m2 as [a2|]; [|discriminate].
  simpl in H1, H2. eapply Hk; eauto.
Qed.

Lemma agrees_mono {A} (R R' : A -> A -> Prop) (o1 o2 : option A) :
  agrees R o1 o2 -> (forall a1 a2, R a1 a2 -> R' a1 a2) -> agrees R' o1 o2.
Proof. intros Ho HR a1 a2 H1 H2. apply HR, Ho; assumption. Qed.

(** ** Loop rules *)

(** With a step of at least one, [hi - i] iterations are never used up:
    any further fuel leaves the result as it is. *)
Lemma for_lt_fuel {St} (body : Z -> St -> option St) hi step :
  1 <= step ->
  forall fuel i st,
    hi - i <= Z.of_nat fuel ->
    for_lt (S fuel) i hi step body st = for_lt fuel i hi step body st.
Proof.
  intros Hstep. induction fuel as [|fuel IH]; intros i st Hfuel.
  - simpl. ztest; [lia|reflexivity].
  - change (for_lt (S (S fuel)) i hi step body st)
      with (if i <? hi
            then st' ← body i st; for_lt (S fuel) (i + step) hi step body st'
            else Some st).
    change (for_lt (S fuel) i hi step body st)
      with (if i <? hi
            then st' ← body i st; for_lt fuel (i + step) hi step body st'
            else Some st).
    destruct (i <? hi); [|reflexivity].
    destruct (body i st) as [st'|]; [|reflexivity]. simpl.
    apply IH. lia.
Qed.

(** An invariant that every iteration re-establishes holds after the loop,
    and the loop does not fault. *)
Lemma succeeds_for_lt {St} (I : St -> Prop) (body : Z -> St -> option St)
    hi step :
  0 <= step ->
  forall fuel i st,
    I st ->
    (forall j t, i <= j < hi -> I t -> succeeds I (body j t)) ->
    succeeds I (for_lt fuel i hi step body st).
Proof.
  intros Hstep. induction fuel as [|fuel IH]; intros i st Hst Hbody.
  - apply succeeds_ret, Hst.
  - simpl. destruct (Z.ltb_spec i hi); [|apply succeeds_ret, Hst].
    apply (succeeds_bind I).
    + apply Hbody; [lia|exact Hst].
    + intros t Ht. apply IH; [exact Ht|].
      intros j t' Hj. apply Hbody. lia.
Qed.

Lemma succeeds_for_loop {St} (I : St -> Prop) (body : Z -> St -> option St)
    lo hi step st :
  0 <= step -> I st ->
  (forall j t, lo <= j < hi -> I t -> succeeds I (body j t)) ->
  succeeds I (for_loop lo hi step body st).
Proof. intros. apply succeeds_for_lt; assumption. Qed.

(** The counting version for unit steps: [I j] holds before iteration [j],
    [I hi] after the loop. *)
Lemma succeeds_for_count {St} (I : Z -> St -> Prop)
    (body : Z -> St -> option St) lo hi st :
  lo <= hi -> I lo st ->
  (forall j t, lo <= j < hi -> I j t -> succeeds (I (j + 1)) (body j t)) ->
  succeeds (I hi) (for_loop lo hi 1 body st).
Proof.
  intros Hle Hst Hbody. unfold for_loop.
  assert (Hgen : forall fuel i s0,
             Z.of_nat fuel = hi - i -> lo <= i -> I i s0 ->
             succeeds (I hi) (for_lt fuel i hi 1 body s0)).
  { induction fuel as [|fuel IH]; intros i s0 Hfuel Hi Hs0.
    - replace hi with i by lia. apply succeeds_ret, Hs0.
    - simpl. destruct (Z.ltb_spec i hi); [|lia].
      apply (succeeds_bind (I (i + 1))).
      + apply Hbody; [lia|exact Hs0].
      + intros t Ht. apply IH; [lia|lia|exact Ht]. }
  apply Hgen; [lia|lia|exact Hst].
Qed.

(** Two runs of a loop over the same range stay related if single
    iterations do. *)
Lemma agrees_for_lt {St} (R : St -> St -> Prop)
    (body1 body2 : Z -> St -> option St) hi step :
  forall fuel i s1 s2,
    R s1 s2 ->
    (forall j t1 t2, R t1 t2 -> agrees R (body1 j t1) (body2 j t2)) ->
    agrees R (for_lt fuel i hi step body1 s1) (for_lt fuel i hi step body2 s2).
Proof.
  induction fuel as [|fuel IH]; intros i s1 s2 HR Hbody.
  - apply agrees_ret, HR.
  - simpl. destruct (i <? hi); [|apply agrees_ret, HR].
    apply (agrees_bind R); [apply Hbody, HR|].
    intros t1 t2 Ht. apply IH; assumption.
Qed.

Lemma agrees_for_count {St} (R : Z -> St -> St -> Prop)
    (body1 body2 : Z -> St -> option St) lo hi s1 s2 :
  lo <= hi -> R lo s1 s2 ->
  (forall j t1 t2, lo <= j < hi -> R j t1 t2 ->
     agrees (R (j + 1)) (body1 j t1) (body2 j t2)) ->
  agrees (R hi) (for_loop lo hi 1 body1 s1) (for_loop lo hi 1 body2 s2).
Proof.
  intros Hle HR Hbody. unfold for_loop.
  assert (Hgen : forall fuel i t1 t2,
             Z.of_nat fuel = hi - i -> lo <= i -> R i t1 t2 ->
             agrees (R hi) (for_lt fuel i hi 1 body1 t1)
               (for_lt fuel i hi 1 body2 t2)).
  { induction fuel as [|fuel IH]; intros i t1 t2 Hfuel Hi Ht.
    - replace hi with i by lia. apply agrees_ret, Ht.
    - simpl. destruct (Z.ltb_spec i hi); [|lia].
      apply (agrees_bind (R (i + 1))).
      + apply Hbody; [lia|exact Ht].
      + intros u1 u2 Hu. apply IH; [lia|lia|exact Hu]. }
  apply Hgen; [lia|lia|exact HR].
Qed.

(** ** What rendering preserves *)

Lemma sameControls_refl e : sameControls e e.
Proof. destruct e. reflexivity. Qed.

Lemma sameControls_inv e t :
  sameControls e t -> exists l b off fc, t = withBuffers l b off fc e.
Proof. intros H. eauto. Qed.

Lemma sameControls_trans a b c :
  sameControls a b -> sameControls b c -> sameControls a c.
Proof.
  intros Hab Hbc.
  destruct (sameControls_inv _ _ Hab) as (l & bg & off & fc & ->).
  destruct (sameControls_inv _ _ Hbc) as (l' & bg' & off' & fc' & ->).
  reflexivity.
Qed.

Lemma sameControls_numLeds e t : sameControls e t -> numLeds t = numLeds e.
Proof. intros H. rewrite H. reflexivity. Qed.

Lemma sameControls_param e t p : sameControls e t -> param p t = param p e.
Proof. intros H. rewrite H. destruct p; reflexivity. Qed.

Lemma sameControls_currentNote e t :
  sameControls e t -> currentNote t = currentNote e.
Proof. intros H. rewrite H. reflexivity. Qed.

Lemma preserved_refl e : preserved e e.
Proof. split; [apply sameControls_refl|]. repeat split. Qed.

Lemma preserved_trans a b c : preserved a b -> preserved b c -> preserved a c.
Proof.
  intros (Hs1 & Hl1 & Hb1 & Hd1 & He1 & Hf1) (Hs2 & Hl2 & Hb2 & Hd2 & He2 & Hf2).
  rewrite (sameControls_numLeds _ _ Hs1) in Hd2, He2.
  split; [eapply sameControls_trans; eassumption|].
  repeat split; congruence.
Qed.

Lemma wellFormed_preserved e t : wellFormed e -> preserved e t -> wellFormed t.
Proof.
  intros (Hn & Hl & Hb & Hc & Hfs & Hfl & Hbs & Hbl) (Hs & Hl' & Hb' & _).
  pose proof (sameControls_numLeds _ _ Hs) as En.
  pose proof (sameControls_currentNote _ _ Hs) as Ec.
  pose proof (sameControls_param _ _ PffLedStart Hs) as E1.
  pose proof (sameControls_param _ _ PffLedLength Hs) as E2.
  pose proof (sameControls_param _ _ PbgLedStart Hs) as E3.
  pose proof (sameControls_param _ _ PbgLedLength Hs) as E4.
  simpl in E1, E2, E3, E4. unfold wellFormed.
  rewrite En, Ec, E1, E2, E3, E4, Hl', Hb'. repeat split; assumption.
Qed.

(** Sequencing and looping under [preserved]. *)

Lemma preserved_bind t (m : option LightEngine) (k : LightEngine -> option LightEngine) :
  wellFormed t ->
  succeeds (preserved t) m ->
  (forall a, wellFormed a -> preserved t a -> succeeds (preserved a) (k a)) ->
  succeeds (preserved t) (m ≫= k).
Proof.
  intros Hwf Hm Hk. apply (succeeds_bind (preserved t)); [exact Hm|].
  intros a Ha. eapply succeeds_mono.
  - apply Hk; [eapply wellFormed_preserved; eassumption|exact Ha].
  - intros c Hc. eapply preserved_trans; eassumption.
Qed.

Lemma preserved_for_loop t lo hi step body :
  wellFormed t -> 0 <= step ->
  (forall j a, lo <= j < hi -> wellFormed a -> preserved t a ->
     succeeds (preserved a) (body j a)) ->
  succeeds (preserved t) (for_loop lo hi step body t).
Proof.
  intros Hwf Hstep Hbody.
  apply succeeds_for_loop; [exact Hstep|apply preserved_refl|].
  intros j a Hj Ha. eapply succeeds_mono.
  - apply Hbody; [exact Hj|eapply wellFormed_preserved; eassumption|exact Ha].
  - intros c Hc. eapply preserved_trans; eassumption.
Qed.

(** The primitives. *)

Lemma arr_set_Some {A} (a : list A) i x :
  0 <= i < Z.of_nat (length a) -> arr_set a i x = Some (<[Z.to_nat i := x]> a).
Proof. intros Hi. unfold arr_set. ztest; try lia. reflexivity. Qed.

Lemma arr_set_inv {A} (a a' : list A) i x :
  arr_set a i x = Some a' ->
  0 <= i < Z.of_nat (length a) /\ a' = <[Z.to_nat i := x]> a.
Proof.
  unfold arr_set. ztest; intros [= <-] || discriminate. split; [lia|reflexivity].
Qed.

Lemma arr_get_Some {A} (a : list A) i :
  0 <= i < Z.of_nat (length a) -> exists x, arr_get a i = Some x.
Proof.
  intros Hi. unfold arr_get. ztest; [|lia].
  apply lookup_lt_is_Some_2. lia.
Qed.

Lemma setLED_outside index h s v e :
  ~ 0 <= index < numLeds e -> setLED index h s v e = Some e.
Proof. intros Hout. unfold setLED. ztest; try lia; reflexivity. Qed.

Lemma setLED_inside index h s v e :
  0 <= index < numLeds e -> numLeds e <= Z.of_nat (length (leds e)) ->
  setLED index h s v e
  = Some (set_leds (<[Z.to_nat index := mkHSV (u8 h) (u8 s) (u8 v)]> (leds e)) e).
Proof.
  intros Hin Hlen. unfold setLED. ztest; try lia.
  rewrite arr_set_Some by lia. reflexivity.
Qed.

Lemma preserved_set_leds l e :
  length l = length (leds e) ->
  drop (Z.to_nat (numLeds e)) l = drop (Z.to_nat (numLeds e)) (leds e) ->
  preserved e (set_leds l e).
Proof.
  intros Hlen Hdrop. split; [destruct e; reflexivity|].
  repeat split; assumption.
Qed.

Lemma preserved_set_background b e :
  length b = length (background e) ->
  drop (Z.to_nat (numLeds e)) b = drop (Z.to_nat (numLeds e)) (background e) ->
  preserved e (set_background b e).
Proof.
  intros Hlen Hdrop. split; [destruct e; reflexivity|].
  repeat split; assumption.
Qed.

Lemma preserved_set_lineOffset off e : preserved e (set_lineOffset off e).
Proof. split; [destruct e; reflexivity|]. repeat split. Qed.

Lemma setLED_preserved index h s v e :
  wellFormed e -> succeeds (preserved e) (setLED index h s v e).
Proof.
  intros (Hn & Hl & _).
  destruct (decide (0 <= index < numLeds e)) as [Hin|Hout].
  - rewrite setLED_inside by assumption. apply succeeds_ret.
    apply preserved_set_leds.
    + apply length_insert.
    + apply drop_insert_lt. lia.
  - rewrite setLED_outside by assumption. apply succeeds_ret, preserved_refl.
Qed.

Lemma setBackground_preserved i h s v e :
  wellFormed e -> 0 <= i < numLeds e ->
  succeeds (preserved e) (setBackground i h s v e).
Proof.
  intros (Hn & _ & Hb & _) Hi. unfold setBackground.
  rewrite arr_set_Some by lia. apply succeeds_ret.
  apply preserved_set_background.
  - apply length_insert.
  - apply drop_insert_lt. lia.
Qed.

Lemma copyBackground_preserved e :
  wellFormed e -> succeeds (preserved e) (copyBackground e).
Proof.
  intros (Hn & Hl & Hb & _). unfold copyBackground, memcpy.
  ztest; try lia. apply succeeds_ret. apply preserved_set_leds.
  - rewrite length_app, length_take, length_drop. lia.
  - rewrite drop_app_length'; [reflexivity|].
    rewrite length_take. lia.
Qed.

Lemma setMirrored_preserved j brightness e :
  wellFormed e -> succeeds (preserved e) (setMirrored j brightness e).
Proof.
  intros Hwf. unfold setMirrored.
  destruct (Z.leb_spec 0 j); destruct (Z.ltb_spec j 48); simpl;
    try (apply succeeds_ret, preserved_refl).
  destruct (arr_get_Some TOP_BOTTOM_MIRROR_MAP j) as (m & ->); [simpl; lia|].
  simpl. apply setLED_preserved, Hwf.
Qed.

Lemma sinusoidHue_total i start len hue amp :
  0 <= i -> 0 <= start -> 0 < len ->
  exists x, sinusoidHue i start len hue amp = Some x.
Proof.
  intros Hi Hs Hl. unfold sinusoidHue, idiv.
  destruct (Z.eqb_spec len 0); [lia|]. simpl.
  assert (Hq : 0 <= Z.quot ((i + start) * 64) len) by (apply Z.quot_pos; lia).
  pose proof (Z.rem_bound_pos (Z.quot ((i + start) * 64) len) 64 Hq ltac:(lia)).
  destruct (arr_get_Some COLOR_PHASE (Z.rem (Z.quot ((i + start) * 64) len) 64))
    as (ph & ->); [simpl; lia|].
  simpl. eauto.
Qed.

Lemma idiv_Some a b : b <> 0 -> idiv a b = Some (Z.quot a b).
Proof. intros Hb. unfold idiv. ztest; [contradiction|reflexivity]. Qed.

Lemma imod_Some a b : b <> 0 -> imod a b = Some (Z.rem a b).
Proof. intros Hb. unfold imod. ztest; [contradiction|reflexivity]. Qed.

Lemma sameControls_fields e t :
  sameControls e t ->
  numLeds t = numLeds e /\ currentNote t = currentNote e
  /\ ffHue t = ffHue e /\ ffSat t = ffSat e /\ ffBright t = ffBright e
  /\ ffLedStart t = ffLedStart e /\ ffLedLength t = ffLedLength e
  /\ ffMode t = ffMode e /\ lines t = lines e /\ cAmp t = cAmp e
  /\ bgMode t = bgMode e /\ pan t = pan e
  /\ bgHue t = bgHue e /\ bgSat t = bgSat e /\ bgBright t = bgBright e
  /\ bgLedStart t = bgLedStart e /\ bgLedLength t = bgLedLength e.
Proof. intros H. rewrite H. repeat split. Qed.

(** [controls H] rewrites the controls of the later engine of
    [H : preserved e t] or [H : sameControls e t] into those of [e]. *)
Ltac controls H :=
  let E := fresh "E" in
  first [ pose proof (sameControls_fields _ _ (proj1 H)) as E
        | pose proof (sameControls_fields _ _ H) as E ];
  let E1 := fresh in let E2 := fresh in let E3 := fresh in
  let E4 := fresh in let E5 := fresh in let E6 := fresh in
  let E7 := fresh in let E8 := fresh in let E9 := fresh in
  let E10 := fresh in let E11 := fresh in let E12 := fresh in
  let E13 := fresh in let E14 := fresh in let E15 := fresh in
  let E16 := fresh in let E17 := fresh in
  destruct E as (E1 & E2 & E3 & E4 & E5 & E6 & E7 & E8 & E9 & E10 & E11
                 & E12 & E13 & E14 & E15 & E16 & E17);
  rewrite ?E1, ?E2, ?E3, ?E4, ?E5, ?E6, ?E7, ?E8, ?E9, ?E10, ?E11, ?E12,
    ?E13, ?E14, ?E15, ?E16, ?E17;
  clear E1 E2 E3 E4 E5 E6 E7 E8 E9 E10 E11 E12 E13 E14 E15 E16 E17.

(** ** Every mode returns and stays inside the strip *)

Lemma renderFlatBackground_preserved e :
  wellFormed e -> succeeds (preserved e) (renderFlatBackground e).
Proof.
  intros Hwf. unfold renderFlatBackground.
  apply preserved_for_loop; [exact Hwf|lia|].
  intros j a Hj Hwa Hpa. apply setBackground_preserved; [exact Hwa|].
  controls Hpa. exact Hj.
Qed.

Lemma renderRainbowBackground_preserved e :
  wellFormed e -> succeeds (preserved e) (renderRainbowBackground e).
Proof.
  intros Hwf. unfold renderRainbowBackground.
  rewrite idiv_Some by (destruct Hwf; lia). simpl.
  apply preserved_for_loop; [exact Hwf|lia|].
  intros j a Hj Hwa Hpa. apply setBackground_preserved; [exact Hwa|].
  controls Hpa. exact Hj.
Qed.

Lemma renderSinusoidBackground_preserved e :
  wellFormed e -> succeeds (preserved e) (renderSinusoidBackground e).
Proof.
  intros Hwf. unfold renderSinusoidBackground.
  destruct (Z.eqb_spec (bgLedLength e) 0) as [|Hlen];
    [apply renderFlatBackground_preserved, Hwf|].
  apply preserved_for_loop; [exact Hwf|lia|].
  intros j a Hj Hwa Hpa.
  destruct (sinusoidHue_total j (bgLedStart a) (bgLedLength a) (bgHue a) (cAmp a))
    as (hue & ->).
  - lia.
  - destruct Hwa as (_ & _ & _ & _ & _ & _ & ? & _). assumption.
  - controls Hpa. destruct Hwf as (_ & _ & _ & _ & _ & _ & _ & ?). lia.
  - simpl. apply setBackground_preserved; [exact Hwa|].
    controls Hpa. exact Hj.
Qed.

Lemma bgMode_cases (P : option LightEngine -> Prop) e :
  P (renderFlatBackground e) -> P (renderRainbowBackground e) ->
  P (renderSinusoidBackground e) ->
  P (match bgMode e with
     | 0 => renderFlatBackground e
     | 1 => renderRainbowBackground e
     | 2 => renderSinusoidBackground e
     | _ => renderFlatBackground e
     end).
Proof.
  intros H0 H1 H2. destruct (bgMode e) as [|p|p]; try assumption.
  do 2 (try destruct p as [p|p|]; try assumption).
Qed.

Lemma updateBackground_preserved e :
  wellFormed e -> succeeds (preserved e) (updateBackground e).
Proof.
  intros Hwf. unfold updateBackground.
  apply preserved_bind; [exact Hwf| |].
  - apply bgMode_cases.
    + apply renderFlatBackground_preserved, Hwf.
    + apply renderRainbowBackground_preserved, Hwf.
    + apply renderSinusoidBackground_preserved, Hwf.
  - intros a Hwa _. apply copyBackground_preserved, Hwa.
Qed.

(** Every row of the channel table that the drives mode reads has its six
    cells. *)
Lemma CHANNEL_TO_LED_row ch :
  1 <= ch < 17 ->
  exists row, arr_get CHANNEL_TO_LED ch = Some row /\ length row = 6%nat.
Proof.
  intros Hch. pattern ch. apply (Z_range_cases _ 16 1); [|lia].
  repeat constructor; (eexists; split; reflexivity).
Qed.

Lemma renderNotesToDrives_preserved e :
  wellFormed e -> succeeds (preserved e) (renderNotesToDrives e).
Proof.
  intros Hwf. unfold renderNotesToDrives.
  apply preserved_for_loop; [exact Hwf|lia|].
  intros ch a Hch Hwa Hpa.
  destruct (arr_get_Some (currentNote a) ch) as (note & ->).
  { destruct Hwa as (_ & _ & _ & Hc & _). rewrite Hc. lia. }
  destruct (CHANNEL_TO_LED_row ch Hch) as (row & -> & Hrow). simpl.
  destruct (negb (note =? 0)).
  - apply preserved_for_loop; [exact Hwa|lia|].
    intros i b Hi Hwb _.
    destruct (arr_get_Some row i) as (ledIdx & ->); [lia|]. simpl.
    apply setLED_preserved, Hwb.
  - apply preserved_for_loop; [exact Hwa|lia|].
    intros i b Hi Hwb _.
    destruct (arr_get_Some row i) as (ledIdx & ->); [lia|]. simpl.
    destruct (Z.rem i 2 =? 0); apply setLED_preserved, Hwb.
Qed.

Lemma renderRainbowWheel_preserved e :
  wellFormed e -> succeeds (preserved e) (renderRainbowWheel e).
Proof.
  intros Hwf. unfold renderRainbowWheel.
  rewrite idiv_Some by (destruct Hwf; lia). simpl.
  apply preserved_for_loop; [exact Hwf|lia|].
  intros j a Hj Hwa Hpa. apply setLED_preserved, Hwa.
Qed.

(** The pattern of the three line modes: assign [lineOffset], then loop. *)
Lemma preserved_after_lineOffset off e (m : LightEngine -> option LightEngine) :
  wellFormed e ->
  (forall a, wellFormed a -> preserved e a -> succeeds (preserved a) (m a)) ->
  succeeds (preserved e) (m (set_lineOffset off e)).
Proof.
  intros Hwf Hm. eapply succeeds_mono.
  - apply Hm; [exact Hwf|apply preserved_set_lineOffset].
  - intros c Hc. eapply preserved_trans; [apply preserved_set_lineOffset|exact Hc].
Qed.

Lemma renderMovingDots_preserved e :
  wellFormed e -> succeeds (preserved e) (renderMovingDots e).
Proof.
  intros Hwf. unfold renderMovingDots.
  destruct (Z.eqb_spec (lines e) 0) as [|Hlines];
    [apply succeeds_ret, preserved_refl|].
  rewrite idiv_Some by exact Hlines. simpl.
  apply (preserved_after_lineOffset _ e
           (fun e0 => for_loop 0 (lines e0) 1 _ e0)); [exact Hwf|].
  intros a Hwa _.
  apply preserved_for_loop; [exact Hwa|lia|].
  intros line b _ Hwb _.
  apply preserved_for_loop; [exact Hwb|lia|].
  intros led c _ Hwc _.
  rewrite imod_Some by (destruct Hwc; lia). simpl.
  apply setLED_preserved, Hwc.
Qed.

Lemma cometStep_preserved line led e count :
  wellFormed e -> ffLedLength e <> 0 ->
  succeeds (fun ec => preserved e ec.1) (cometStep line led (e, count)).
Proof.
  intros Hwf Hlen. unfold cometStep. simpl.
  rewrite imod_Some by (destruct Hwf; lia). simpl.
  rewrite idiv_Some by exact Hlen. simpl.
  destruct (setLED_preserved
              (Z.rem (led + line * lineOffset e) (numLeds e)) (ffHue e) (ffSat e)
              (Z.quot (ffBright e * (ffLedLength e - count)) (ffLedLength e))
              e Hwf) as (e' & -> & He').
  simpl. apply succeeds_ret. exact He'.
Qed.

Lemma renderComets_preserved e :
  wellFormed e -> succeeds (preserved e) (renderComets e).
Proof.
  intros Hwf. unfold renderComets.
  destruct (Z.eqb_spec (lines e) 0) as [|Hlines];
    [apply succeeds_ret, preserved_refl|].
  destruct (Z.eqb_spec (ffLedLength e) 0) as [|Hlen];
    [apply succeeds_ret, preserved_refl|].
  simpl. rewrite idiv_Some by exact Hlines. simpl.
  apply (preserved_after_lineOffset _ e
           (fun e0 => for_loop 0 (lines e0) 1 _ e0)); [exact Hwf|].
  intros a Hwa Hpa.
  apply preserved_for_loop; [exact Hwa|lia|].
  intros line b _ Hwb Hpb.
  apply (succeeds_bind (fun ec => preserved b ec.1)).
  - apply succeeds_for_loop; [lia|apply preserved_refl|].
    intros led [c count] _ Hpc. simpl in Hpc.
    eapply succeeds_mono.
    + apply cometStep_preserved.
      * eapply wellFormed_preserved; eassumption.
      * controls Hpc. controls Hpb. controls Hpa. exact Hlen.
    + intros ec Hec. simpl. eapply preserved_trans; eassumption.
  - intros ec Hec. apply succeeds_ret, Hec.
Qed.

Lemma renderBackAndForth_preserved e :
  wellFormed e -> succeeds (preserved e) (renderBackAndForth e).
Proof.
  intros Hwf. unfold renderBackAndForth.
  destruct (Z.eqb_spec (ffLedLength e) 0) as [|Hlen];
    [apply succeeds_ret, preserved_refl|].
  apply preserved_for_loop;
    [exact Hwf|destruct Hwf as (_ & _ & _ & _ & _ & ? & _); lia|].
  intros block a _ Hwa _.
  apply preserved_for_loop; [exact Hwa|lia|].
  intros led b _ Hwb _.
  rewrite imod_Some by (destruct Hwb; lia). simpl.
  apply setLED_preserved, Hwb.
Qed.

Lemma renderMoveStartLED_preserved e :
  wellFormed e -> succeeds (preserved e) (renderMoveStartLED e).
Proof.
  intros Hwf. unfold renderMoveStartLED.
  destruct (Z.eqb_spec (lines e) 0) as [|Hlines];
    [apply succeeds_ret, preserved_refl|].
  rewrite idiv_Some by exact Hlines. simpl.
  rewrite idiv_Some by (destruct Hwf; lia). simpl.
  apply (preserved_after_lineOffset _ e
           (fun e0 => for_loop 0 (lines e0) 1 _ e0)); [exact Hwf|].
  intros a Hwa _.
  apply preserved_for_loop; [exact Hwa|lia|].
  intros line b _ Hwb _.
  apply preserved_for_loop; [exact Hwb|lia|].
  intros led c _ Hwc _.
  rewrite imod_Some by (destruct Hwc; lia). simpl.
  apply setLED_preserved, Hwc.
Qed.

Lemma renderColorSinusoid_preserved e :
  wellFormed e -> succeeds (preserved e) (renderColorSinusoid e).
Proof.
  intros Hwf. unfold renderColorSinusoid.
  destruct (Z.eqb_spec (ffLedLength e) 0) as [|Hlen];
    [apply succeeds_ret, preserved_refl|].
  apply preserved_for_loop; [exact Hwf|lia|].
  intros j a Hj Hwa Hpa.
  destruct (sinusoidHue_total j (ffLedStart a) (ffLedLength a) (ffHue a) (cAmp a))
    as (hue & ->).
  - lia.
  - destruct Hwa as (_ & _ & _ & _ & ? & _). assumption.
  - controls Hpa. destruct Hwf as (_ & _ & _ & _ & _ & ? & _). lia.
  - simpl. apply setLED_preserved, Hwa.
Qed.

Lemma waveStep_preserved (i1 i2 j1 j2 brightness : Z) e :
  wellFormed e ->
  succeeds (preserved e)
    (e1 ← setLED i1 (ffHue e) (ffSat e) brightness e;
     e2 ← setLED i2 (ffHue e1) (ffSat e1) brightness e1;
     e3 ← setMirrored j1 brightness e2;
     setMirrored j2 brightness e3).
Proof.
  intros Hwf.
  apply preserved_bind; [exact Hwf|apply setLED_preserved, Hwf|].
  intros e1 Hw1 _.
  apply preserved_bind; [exact Hw1|apply setLED_preserved, Hw1|].
  intros e2 Hw2 _.
  apply preserved_bind; [exact Hw2|apply setMirrored_preserved, Hw2|].
  intros e3 Hw3 _. apply setMirrored_preserved, Hw3.
Qed.

Lemma renderOceanWaves_preserved e :
  wellFormed e -> succeeds (preserved e) (renderOceanWaves e).
Proof.
  intros Hwf. unfold renderOceanWaves.
  destruct (Z.leb_spec (oceanAmp e) 0) as [|Hamp];
    [apply succeeds_ret, preserved_refl|].
  apply preserved_for_loop; [exact Hwf|lia|].
  intros p a _ Hwa _.
  rewrite idiv_Some by lia. simpl.
  apply (waveStep_preserved _ _ _ _ _ a Hwa).
Qed.

Lemma renderOpposingWaves_preserved e :
  wellFormed e -> succeeds (preserved e) (renderOpposingWaves e).
Proof.
  intros Hwf. unfold renderOpposingWaves.
  destruct (Z.leb_spec (opposingAmp e) 0) as [|Hamp];
    [apply succeeds_ret, preserved_refl|].
  apply preserved_for_loop; [exact Hwf|lia|].
  intros p a _ Hwa _.
  rewrite idiv_Some by lia. simpl.
  apply preserved_bind; [exact Hwa|apply setLED_preserved, Hwa|].
  intros e1 Hw1 _.
  apply preserved_bind; [exact Hw1|apply setLED_preserved, Hw1|].
  intros e2 Hw2 _.
  apply preserved_bind; [exact Hw2|apply setMirrored_preserved, Hw2|].
  intros e3 Hw3 _. apply setMirrored_preserved, Hw3.
Qed.

Section RenderingFacts.

Variable rand_after_srand : Z -> Z.

Lemma renderFlashLights_preserved e :
  wellFormed e -> succeeds (preserved e) (renderFlashLights rand_after_srand e).
Proof.
  intros Hwf. unfold renderFlashLights.
  rewrite imod_Some by (destruct Hwf; lia). simpl.
  apply setLED_preserved, Hwf.
Qed.

Lemma ffMode_cases (P : option LightEngine -> Prop) e :
  P (renderNotesToDrives e) -> P (renderRainbowWheel e) ->
  P (renderMovingDots e) -> P (renderComets e) ->
  P (renderBackAndForth e) -> P (renderMoveStartLED e) ->
  P (renderColorSinusoid e) -> P (renderFlashLights rand_after_srand e) ->
  P (renderOceanWaves e) -> P (renderOpposingWaves e) ->
  P (Some e) ->
  P (renderForeground rand_after_srand e).
Proof.
  intros H0 H1 H2 H3 H4 H5 H6 H7 H8 H9 Hd. unfold renderForeground.
  destruct (ffMode e) as [|p|p]; try assumption.
  do 4 (try destruct p as [p|p|]; try assumption).
Qed.

Lemma renderForeground_preserved e :
  wellFormed e ->
  succeeds (preserved e) (renderForeground rand_after_srand e).
Proof.
  intros Hwf. apply ffMode_cases.
  - apply renderNotesToDrives_preserved, Hwf.
  - apply renderRainbowWheel_preserved, Hwf.
  - apply renderMovingDots_preserved, Hwf.
  - apply renderComets_preserved, Hwf.
  - apply renderBackAndForth_preserved, Hwf.
  - apply renderMoveStartLED_preserved, Hwf.
  - apply renderColorSinusoid_preserved, Hwf.
  - apply renderFlashLights_preserved, Hwf.
  - apply renderOceanWaves_preserved, Hwf.
  - apply renderOpposingWaves_preserved, Hwf.
  - apply succeeds_ret, preserved_refl.
Qed.

(** [render] is the two passes run on the engine with its counter advanced. *)
Lemma render_preserved e :
  wellFormed e ->
  succeeds (preserved (set_frameCounter (u32 (frameCounter e + 1)) e))
    (render rand_after_srand e).
Proof.
  intros Hwf. unfold render.
  apply preserved_bind.
  - exact Hwf.
  - apply updateBackground_preserved. exact Hwf.
  - intros a Hwa _. apply renderForeground_preserved, Hwa.
Qed.

End RenderingFacts.

(** ** Handlers keep the engine well formed *)

Lemma handleControlChange_cases (P : LightEngine -> Prop) channel control value e :
  P (set_ffHue (u8 value * 2) e) -> P (set_ffSat (u8 value * 2) e) ->
  P (set_ffBright (u8 value * 2) e) -> P (set_ffLedStart (u8 value) e) ->
  P (set_ffLedLength (u8 value) e) -> P (set_ffMode (u8 value) e) ->
  P (set_lines (u8 value) e) -> P (set_cAmp (u8 value) e) ->
  P (set_bgMode (u8 value) e) -> P (set_pan (u8 value) e) ->
  P (set_bgHue (u8 value * 2) e) -> P (set_bgSat (u8 value * 2) e) ->
  P (set_bgBright (u8 value * 2) e) -> P (set_bgLedStart (u8 value) e) ->
  P (set_bgLedLength (u8 value) e) -> P e ->
  P (handleControlChange channel control value e).
Proof.
  intros. unfold handleControlChange.
  destruct (u8 control) as [|p|p]; try assumption.
  do 4 (try destruct p as [p|p|]; try assumption).
Qed.

Lemma handleControlChange_wellFormed channel control value e :
  wellFormed e -> wellFormed (handleControlChange channel control value e).
Proof.
  intros Hwf. pose proof (u8_range value) as Hv.
  apply handleControlChange_cases; try exact Hwf;
    destruct Hwf as (? & ? & ? & ? & ? & ? & ? & ?);
    repeat split; simpl; try assumption; lia.
Qed.

Lemma handleControlChange_doubled channel control value e :
  0 <= value <= 127 -> colourMembersDoubled e ->
  colourMembersDoubled (handleControlChange channel control value e).
Proof.
  intros Hv Hd.
  assert (Hx : doubled (u8 value * 2)).
  { exists value. rewrite u8_small by lia. split; lia. }
  apply handleControlChange_cases; try exact Hd;
    destruct Hd as (? & ? & ? & ? & ? & ?); repeat split; assumption.
Qed.

Lemma handleControlChange_even channel control value e :
  colourMembersEven e ->
  colourMembersEven (handleControlChange channel control value e).
Proof.
  intros He.
  assert (Hx : Z.even (u8 value * 2) = true)
    by (rewrite Z.even_mul; apply orb_true_r).
  apply handleControlChange_cases; try exact He;
    destruct He as (? & ? & ? & ? & ? & ?); repeat split; assumption.
Qed.

Lemma handleNoteOn_wellFormed channel note velocity e :
  wellFormed e -> wellFormed (handleNoteOn channel note velocity e).
Proof.
  intros (? & ? & ? & Hc & ? & ? & ? & ?). unfold handleNoteOn.
  destruct (u8 note <? 128);
    destruct ((1 <=? u8 channel) && (u8 channel <=? 16)); simpl;
    destruct (ffMode e =? 5); simpl; ztest;
    repeat split; simpl; rewrite ?length_insert; try assumption; lia.
Qed.

Lemma handleNoteOn_colourMembers channel note velocity e :
  colourMembers (handleNoteOn channel note velocity e) = colourMembers e.
Proof.
  unfold handleNoteOn.
  destruct (u8 note <? 128);
    destruct ((1 <=? u8 channel) && (u8 channel <=? 16)); simpl;
    destruct (ffMode e =? 5); simpl; ztest; reflexivity.
Qed.

Lemma handleNoteOff_wellFormed channel note velocity e :
  wellFormed e -> wellFormed (handleNoteOff channel note velocity e).
Proof.
  intros (? & ? & ? & Hc & ? & ? & ? & ?). unfold handleNoteOff.
  destruct (u8 note <? 128);
    destruct ((1 <=? u8 channel) && (u8 channel <=? 16)); simpl;
    try destruct (currentNote e !! Z.to_nat (u8 channel)) as [n|];
    try destruct (n =? u8 note);
    repeat split; simpl; rewrite ?length_insert; assumption.
Qed.

Lemma handleNoteOff_colourMembers channel note velocity e :
  colourMembers (handleNoteOff channel note velocity e) = colourMembers e.
Proof.
  unfold handleNoteOff.
  destruct (u8 note <? 128);
    destruct ((1 <=? u8 channel) && (u8 channel <=? 16)); simpl;
    try destruct (currentNote e !! Z.to_nat (u8 channel)) as [n|];
    try destruct (n =? u8 note); reflexivity.
Qed.

Lemma colourMembersEven_eq e e' :
  colourMembers e' = colourMembers e ->
  colourMembersEven e -> colourMembersEven e'.
Proof.
  unfold colourMembers, colourMembersEven. intros [= -> -> -> -> -> ->] H.
  exact H.
Qed.

Lemma colourMembersDoubled_eq e e' :
  colourMembers e' = colourMembers e ->
  colourMembersDoubled e -> colourMembersDoubled e'.
Proof.
  unfold colourMembers, colourMembersDoubled. intros [= -> -> -> -> -> ->] H.
  exact H.
Qed.

Lemma preserved_colourMembers e e' :
  preserved e e' -> colourMembers e' = colourMembers e.
Proof. intros H. unfold colourMembers. controls H. reflexivity. Qed.

Lemma LightEngine_new_wellFormed n : 1 <= n -> wellFormed (LightEngine_new n).
Proof.
  intros Hn. unfold wellFormed. simpl.
  rewrite length_fmap, length_seqZ, length_replicate.
  repeat split; try lia.
Qed.

Lemma LightEngine_new_doubled n : colourMembersDoubled (LightEngine_new n).
Proof.
  repeat split; simpl;
    first [exists 0; split; lia | exists 100; split; lia].
Qed.

Lemma LightEngine_new_even n : colourMembersEven (LightEngine_new n).
Proof. repeat split. Qed.

(** A value byte above 127, which no MIDI message carries, still leaves the
    member even but takes it out of the doubled range. *)
Example handleControlChange_value_200 :
  ffHue (handleControlChange 1 1 200 (LightEngine_new 108)) = 400.
Proof. reflexivity. Qed.

(** ** The flat background *)

Lemma renderFlatBackground_fill e :
  wellFormed e ->
  succeeds
    (fun e' => preserved e e'
       /\ forall i, 0 <= i < numLeds e ->
            background e' !! Z.to_nat i = Some (flatColour e))
    (renderFlatBackground e).
Proof.
  intros Hwf. unfold renderFlatBackground.
  apply (succeeds_for_count
           (fun j t => preserved e t
              /\ forall i, 0 <= i < j ->
                   background t !! Z.to_nat i = Some (flatColour e))).
  - destruct Hwf; lia.
  - split; [apply preserved_refl|]. intros i Hi. lia.
  - intros j t Hj [Hpt Hfill].
    assert (Hwt : wellFormed t) by (eapply wellFormed_preserved; eassumption).
    assert (En : numLeds t = numLeds e) by (controls Hpt; reflexivity).
    assert (Ec : mkHSV (u8 (bgHue t)) (u8 (bgSat t)) (u8 (bgBright t))
                 = flatColour e) by (controls Hpt; reflexivity).
    assert (Hlen : numLeds t <= Z.of_nat (length (background t)))
      by (destruct Hwt as (_ & _ & ? & _); assumption).
    unfold setBackground. rewrite arr_set_Some by lia. simpl.
    apply succeeds_ret. split.
    + eapply preserved_trans; [exact Hpt|].
      apply preserved_set_background;
        [apply length_insert|apply drop_insert_lt; lia].
    + intros i Hi. simpl. rewrite Ec.
      destruct (decide (i = j)) as [->|Hne].
      * apply list_lookup_insert_eq. lia.
      * rewrite list_lookup_insert_ne by lia. apply Hfill. lia.
Qed.

Lemma copyBackground_spec e :
  wellFormed e ->
  copyBackground e
  = Some (set_leds (take (Z.to_nat (numLeds e)) (background e)
                      ++ drop (Z.to_nat (numLeds e)) (leds e)) e).
Proof.
  intros (Hn & Hl & Hb & _). unfold copyBackground, memcpy.
  ztest; try lia. reflexivity.
Qed.

Lemma ledBuffer_after_copy e :
  wellFormed e ->
  ledBuffer (set_leds (take (Z.to_nat (numLeds e)) (background e)
                         ++ drop (Z.to_nat (numLeds e)) (leds e)) e)
  = take (Z.to_nat (numLeds e)) (background e).
Proof.
  intros (Hn & Hl & Hb & _). unfold ledBuffer. simpl.
  rewrite take_app_length'; [reflexivity|].
  rewrite length_take. lia.
Qed.

Lemma updateBackground_ledBuffer e :
  wellFormed e ->
  succeeds
    (fun a => preserved e a
       /\ ledBuffer a = take (Z.to_nat (numLeds a)) (background a))
    (updateBackground e).
Proof.
  intros Hwf. unfold updateBackground.
  apply (succeeds_bind (preserved e)).
  - apply bgMode_cases.
    + apply renderFlatBackground_preserved, Hwf.
    + apply renderRainbowBackground_preserved, Hwf.
    + apply renderSinusoidBackground_preserved, Hwf.
  - intros b Hpb.
    assert (Hwb : wellFormed b) by (eapply wellFormed_preserved; eassumption).
    destruct (copyBackground_preserved b Hwb) as (c & Hc & Hpc).
    rewrite Hc. apply succeeds_ret. split.
    + eapply preserved_trans; eassumption.
    + rewrite (copyBackground_spec b Hwb) in Hc. injection Hc as <-.
      apply (ledBuffer_after_copy b Hwb).
Qed.


Section RenderClaims.

Variable rand_after_srand : Z -> Z.



(** C10.  [setLED] drops every store whose index is outside
    [0, numLeds), and [render] of a well-formed engine with at least one LED
    returns, whatever the mode computes: both buffers keep their length and
    every cell from [numLeds] on keeps its content, so only the cells
    0..numLeds-1 can have changed. *)
Theorem render_stays_in_strip :
  (forall e index h s v,
     ~ 0 <= index < numLeds e -> setLED index h s v e = Some e)
  /\ (forall e, wellFormed e ->
        exists e', render rand_after_srand e = Some e'
          /\ numLeds e' = numLeds e
          /\ length (leds e') = length (leds e)
          /\ length (background e') = length (background e)
          /\ drop (Z.to_nat (numLeds e)) (leds e')
             = drop (Z.to_nat (numLeds e)) (leds e)
          /\ drop (Z.to_nat (numLeds e)) (background e')
             = drop (Z.to_nat (numLeds e)) (background e)).
Proof.
  split.
  - intros e index h s v Hout. apply setLED_outside, Hout.
  - intros e Hwf.
    destruct (render_preserved rand_after_srand e Hwf)
      as (e' & He' & Hs & Hl & Hb & Hdl & Hdb & _).
    exists e'. split; [exact He'|].
    split; [rewrite (sameControls_numLeds _ _ Hs); reflexivity|].
    repeat split; assumption.
Qed.

(** ** Call sequences keep the colour members doubled *)

Lemma call_invariant c e :
  wellFormed e -> colourMembersEven e ->
  succeeds
    (fun e' => wellFormed e' /\ colourMembersEven e'
       /\ (midiCall c -> colourMembersDoubled e -> colourMembersDoubled e'))
    (call rand_after_srand c e).
Proof.
  intros Hwf He. destruct c as [ch ctl val|ch n vel|ch n vel|cc val|]; simpl.
  - apply succeeds_ret.
    split; [apply handleControlChange_wellFormed, Hwf|].
    split; [apply handleControlChange_even, He|].
    apply handleControlChange_doubled.
  - apply succeeds_ret.
    split; [apply handleNoteOn_wellFormed, Hwf|].
    pose proof (handleNoteOn_colourMembers ch n vel e) as Hc.
    split; [exact (colourMembersEven_eq _ _ Hc He)|].
    intros _. exact (colourMembersDoubled_eq _ _ Hc).
  - apply succeeds_ret.
    split; [apply handleNoteOff_wellFormed, Hwf|].
    pose proof (handleNoteOff_colourMembers ch n vel e) as Hc.
    split; [exact (colourMembersEven_eq _ _ Hc He)|].
    intros _. exact (colourMembersDoubled_eq _ _ Hc).
  - apply succeeds_ret.
    split; [apply handleControlChange_wellFormed, Hwf|].
    split; [apply handleControlChange_even, He|].
    apply handleControlChange_doubled.
  - eapply succeeds_mono; [apply render_preserved, Hwf|].
    intros e' Hp.
    pose proof (preserved_colourMembers _ _ Hp) as Hc.
    split; [eapply wellFormed_preserved; [|exact Hp]; exact Hwf|].
    split; [exact (colourMembersEven_eq _ _ Hc He)|].
    intros _. exact (colourMembersDoubled_eq _ _ Hc).
Qed.

Lemma calls_invariant cs :
  forall e, wellFormed e -> colourMembersEven e ->
  succeeds
    (fun e' => colourMembersEven e'
       /\ (Forall midiCall cs -> colourMembersDoubled e ->
           colourMembersDoubled e'))
    (calls rand_after_srand cs e).
Proof.
  induction cs as [|c cs IH]; intros e Hwf He.
  - apply succeeds_ret. split; [exact He|]. intros _ Hd. exact Hd.
  - simpl. eapply succeeds_bind; [apply call_invariant; eassumption|].
    intros a (Hwa & Hea & Hda).
    eapply succeeds_mono; [apply IH; assumption|].
    intros e' [He' Hd']. split; [exact He'|].
    intros Hcs Hd. apply Forall_cons in Hcs as [Hc Hcs].
    apply Hd'; [exact Hcs|]. apply Hda; assumption.
Qed.

(** C9.  The engine built for a strip of at least one LED has its six colour
    members doubled, and every sequence of calls of [handleControlChange],
    [handleNoteOn], [handleNoteOff], [setCC] and [render] on it returns and
    leaves ffHue, ffSat, ffBright, bgHue, bgSat and bgBright even, whatever
    the arguments; when the CC values are data bytes (0..127) each member is
    twice a value in 0..127. *)
Theorem colour_members_stay_doubled n cs :
  1 <= n ->
  colourMembersDoubled (LightEngine_new n)
  /\ exists e, calls rand_after_srand cs (LightEngine_new n) = Some e
       /\ colourMembersEven e
       /\ (Forall midiCall cs -> colourMembersDoubled e).
Proof.
  intros Hn. split; [apply LightEngine_new_doubled|].
  destruct (calls_invariant cs (LightEngine_new n)) as (e & He & Hev & Hd).
  - apply LightEngine_new_wellFormed, Hn.
  - apply LightEngine_new_even.
  - exists e. split; [exact He|]. split; [exact Hev|].
    intros Hcs. apply Hd; [exact Hcs|apply LightEngine_new_doubled].
Qed.

End RenderClaims.

(** ** Two renders from the same controls *)

Lemma agrees_None_l {A} (R : A -> A -> Prop) o : agrees R None o.
Proof. intros a1 a2 H. discriminate. Qed.

Lemma agrees_bind_pure {A B} (R : B -> B -> Prop) (o : option A)
    (k1 k2 : A -> option B) :
  (forall x, agrees R (k1 x) (k2 x)) -> agrees R (o ≫= k1) (o ≫= k2).
Proof.
  intros Hk. destruct o as [x|]; simpl; [apply Hk|apply agrees_None_l].
Qed.

Ltac both_controls H :=
  controls (proj1 H); controls (proj1 (proj2 H)).

Lemma sameControls_set_leds e t l : sameControls e t -> sameControls e (set_leds l t).
Proof.
  intros H. destruct (sameControls_inv _ _ H) as (l0 & b & off & fc & ->).
  reflexivity.
Qed.

Lemma sameControls_set_background e t b :
  sameControls e t -> sameControls e (set_background b t).
Proof.
  intros H. destruct (sameControls_inv _ _ H) as (l & b0 & off & fc & ->).
  reflexivity.
Qed.

Lemma sameControls_set_lineOffset e t off :
  sameControls e t -> sameControls e (set_lineOffset off t).
Proof.
  intros H. destruct (sameControls_inv _ _ H) as (l & b & off0 & fc & ->).
  reflexivity.
Qed.

Lemma sameControls_set_frameCounter e t fc :
  sameControls e t -> sameControls e (set_frameCounter fc t).
Proof.
  intros H. destruct (sameControls_inv _ _ H) as (l & b & off & fc0 & ->).
  reflexivity.
Qed.

Lemma setBackground_agrees e j h s v t1 t2 :
  0 <= j -> sameBackground e j t1 t2 ->
  agrees (sameBackground e (j + 1))
    (setBackground j h s v t1) (setBackground j h s v t2).
Proof.
  intros Hj (Hs1 & Hs2 & Ht) a1 a2. unfold setBackground.
  destruct (arr_set (background t1) j _) as [l1|] eqn:E1; [|discriminate].
  destruct (arr_set (background t2) j _) as [l2|] eqn:E2; [|discriminate].
  simpl. intros [= <-] [= <-].
  apply arr_set_inv in E1 as [R1 ->]. apply arr_set_inv in E2 as [R2 ->].
  split; [apply sameControls_set_background, Hs1|].
  split; [apply sameControls_set_background, Hs2|]. simpl.
  replace (Z.to_nat (j + 1)) with (S (Z.to_nat j)) by lia.
  rewrite (take_S_r _ _ (mkHSV (u8 h) (u8 s) (u8 v)))
    by (apply list_lookup_insert_eq; lia).
  rewrite (take_S_r (<[Z.to_nat j:=_]> (background t2)) _
             (mkHSV (u8 h) (u8 s) (u8 v)))
    by (apply list_lookup_insert_eq; lia).
  rewrite !take_insert_ge by lia. rewrite Ht. reflexivity.
Qed.

Lemma sameBackground_start e t1 t2 :
  sameControls e t1 -> sameControls e t2 -> sameBackground e 0 t1 t2.
Proof. intros H1 H2. repeat split; assumption. Qed.

Lemma renderFlatBackground_agrees e t1 t2 :
  0 <= numLeds e -> sameControls e t1 -> sameControls e t2 ->
  agrees (sameBackground e (numLeds e))
    (renderFlatBackground t1) (renderFlatBackground t2).
Proof.
  intros Hn H1 H2. unfold renderFlatBackground. controls H1. controls H2.
  apply (agrees_for_count (sameBackground e));
    [exact Hn|apply sameBackground_start; assumption|].
  intros j a1 a2 Hj Ha. both_controls Ha.
  apply setBackground_agrees; [lia|exact Ha].
Qed.

Lemma renderRainbowBackground_agrees e t1 t2 :
  0 <= numLeds e -> sameControls e t1 -> sameControls e t2 ->
  agrees (sameBackground e (numLeds e))
    (renderRainbowBackground t1) (renderRainbowBackground t2).
Proof.
  intros Hn H1 H2. unfold renderRainbowBackground. controls H1. controls H2.
  apply agrees_bind_pure. intros rainbowInc.
  apply (agrees_for_count (sameBackground e));
    [exact Hn|apply sameBackground_start; assumption|].
  intros j a1 a2 Hj Ha. both_controls Ha.
  apply setBackground_agrees; [lia|exact Ha].
Qed.

Lemma renderSinusoidBackground_agrees e t1 t2 :
  0 <= numLeds e -> sameControls e t1 -> sameControls e t2 ->
  agrees (sameBackground e (numLeds e))
    (renderSinusoidBackground t1) (renderSinusoidBackground t2).
Proof.
  intros Hn H1 H2. unfold renderSinusoidBackground.
  replace (bgLedLength t2) with (bgLedLength t1) by (controls H1; controls H2; reflexivity).
  destruct (bgLedLength t1 =? 0);
    [apply renderFlatBackground_agrees; assumption|].
  controls H1. controls H2.
  apply (agrees_for_count (sameBackground e));
    [exact Hn|apply sameBackground_start; assumption|].
  intros j a1 a2 Hj Ha. both_controls Ha.
  apply agrees_bind_pure. intros hue.
  apply setBackground_agrees; [lia|exact Ha].
Qed.

Lemma copyBackground_agrees e t1 t2 :
  sameBackground e (numLeds e) t1 t2 ->
  agrees (sameLeds e false) (copyBackground t1) (copyBackground t2).
Proof.
  intros (H1 & H2 & Ht) a1 a2. unfold copyBackground, memcpy.
  pose proof (sameControls_numLeds _ _ H1) as N1.
  pose proof (sameControls_numLeds _ _ H2) as N2.
  rewrite N1, N2.
  destruct (Z.leb_spec 0 (numLeds e)); [|discriminate].
  destruct (Z.leb_spec (numLeds e) (Z.of_nat (length (leds t1))));
    [|discriminate].
  destruct (Z.leb_spec (numLeds e) (Z.of_nat (length (background t1))));
    [|discriminate].
  destruct (Z.leb_spec (numLeds e) (Z.of_nat (length (leds t2))));
    [|discriminate].
  destruct (Z.leb_spec (numLeds e) (Z.of_nat (length (background t2))));
    [|discriminate].
  simpl. intros [= <-] [= <-].
  split; [apply sameControls_set_leds, H1|].
  split; [apply sameControls_set_leds, H2|].
  split; [|discriminate].
  unfold ledBuffer. simpl. rewrite N1, N2.
  rewrite !take_app_length' by (rewrite length_take; lia).
  exact Ht.
Qed.

Lemma updateBackground_agrees e t1 t2 :
  0 <= numLeds e -> sameControls e t1 -> sameControls e t2 ->
  agrees (sameLeds e false) (updateBackground t1) (updateBackground t2).
Proof.
  intros Hn H1 H2. unfold updateBackground.
  apply (agrees_bind (sameBackground e (numLeds e)));
    [|intros a1 a2; apply copyBackground_agrees].
  replace (bgMode t2) with (bgMode t1) by (controls H1; controls H2; reflexivity).
  destruct (bgMode t1) as [|p|p];
    try (apply renderFlatBackground_agrees; assumption).
  do 2 (try destruct p as [p|p|]);
    first [ apply renderFlatBackground_agrees; assumption
          | apply renderRainbowBackground_agrees; assumption
          | apply renderSinusoidBackground_agrees; assumption ].
Qed.

(** The foreground. *)

Lemma setLED_agrees e k index h s v t1 t2 :
  sameLeds e k t1 t2 ->
  agrees (sameLeds e k) (setLED index h s v t1) (setLED index h s v t2).
Proof.
  intros (H1 & H2 & Hl & Hoff) a1 a2.
  pose proof (sameControls_numLeds _ _ H1) as N1.
  pose proof (sameControls_numLeds _ _ H2) as N2.
  unfold setLED. rewrite N1, N2.
  destruct ((0 <=? index) && (index <? numLeds e)) eqn:Hin.
  - destruct (arr_set (leds t1) index _) as [l1|] eqn:E1; [|discriminate].
    destruct (arr_set (leds t2) index _) as [l2|] eqn:E2; [|discriminate].
    simpl. intros [= <-] [= <-].
    apply arr_set_inv in E1 as [R1 ->]. apply arr_set_inv in E2 as [R2 ->].
    split; [apply sameControls_set_leds, H1|].
    split; [apply sameControls_set_leds, H2|].
    split; [|exact Hoff].
    unfold ledBuffer in *. simpl. rewrite N1, N2 in *.
    apply andb_true_iff in Hin as [Hlo Hhi].
    apply Z.leb_le in Hlo. apply Z.ltb_lt in Hhi.
    rewrite !take_insert_lt by lia. rewrite Hl. reflexivity.
  - intros [= <-] [= <-]. repeat split; assumption.
Qed.

Lemma setMirrored_agrees e k j brightness t1 t2 :
  sameLeds e k t1 t2 ->
  agrees (sameLeds e k)
    (setMirrored j brightness t1) (setMirrored j brightness t2).
Proof.
  intros Ht. unfold setMirrored.
  destruct ((0 <=? j) && (j <? 48)); [|apply agrees_ret, Ht].
  apply agrees_bind_pure. intros mirrorIdx.
  both_controls Ht. apply setLED_agrees, Ht.
Qed.

Lemma sameLeds_for_loop e k lo hi step body1 body2 t1 t2 :
  sameLeds e k t1 t2 ->
  (forall j a1 a2, sameLeds e k a1 a2 ->
     agrees (sameLeds e k) (body1 j a1) (body2 j a2)) ->
  agrees (sameLeds e k)
    (for_loop lo hi step body1 t1) (for_loop lo hi step body2 t2).
Proof. intros Ht Hbody. apply agrees_for_lt; assumption. Qed.

Lemma sameLeds_forget e k t1 t2 : sameLeds e k t1 t2 -> sameLeds e false t1 t2.
Proof.
  intros (H1 & H2 & Hl & _). repeat split; try assumption. discriminate.
Qed.

Lemma sameLeds_set_lineOffset e k off t1 t2 :
  sameLeds e k t1 t2 ->
  sameLeds e true (set_lineOffset off t1) (set_lineOffset off t2).
Proof.
  intros (H1 & H2 & Hl & _).
  split; [apply sameControls_set_lineOffset, H1|].
  split; [apply sameControls_set_lineOffset, H2|].
  split; [exact Hl|reflexivity].
Qed.

Lemma renderNotesToDrives_agrees e t1 t2 :
  sameLeds e false t1 t2 ->
  agrees (sameLeds e false) (renderNotesToDrives t1) (renderNotesToDrives t2).
Proof.
  intros Ht. unfold renderNotesToDrives.
  apply sameLeds_for_loop; [exact Ht|].
  intros ch a1 a2 Ha. both_controls Ha.
  apply agrees_bind_pure. intros note.
  apply agrees_bind_pure. intros row.
  destruct (negb (note =? 0)).
  - apply sameLeds_for_loop; [exact Ha|].
    intros i b1 b2 Hb. apply agrees_bind_pure. intros ledIdx.
    both_controls Hb. apply setLED_agrees, Hb.
  - apply sameLeds_for_loop; [exact Ha|].
    intros i b1 b2 Hb. apply agrees_bind_pure. intros ledIdx.
    both_controls Hb. destruct (Z.rem i 2 =? 0); apply setLED_agrees, Hb.
Qed.

Lemma renderRainbowWheel_agrees e t1 t2 :
  sameLeds e false t1 t2 ->
  agrees (sameLeds e false) (renderRainbowWheel t1) (renderRainbowWheel t2).
Proof.
  intros Ht. unfold renderRainbowWheel. both_controls Ht.
  apply agrees_bind_pure. intros rainbowInc.
  apply sameLeds_for_loop; [exact Ht|].
  intros i a1 a2 Ha. both_controls Ha. apply setLED_agrees, Ha.
Qed.

Lemma renderMovingDots_agrees e t1 t2 :
  sameLeds e false t1 t2 ->
  agrees (sameLeds e false) (renderMovingDots t1) (renderMovingDots t2).
Proof.
  intros Ht. unfold renderMovingDots. both_controls Ht.
  destruct (lines e =? 0); [apply agrees_ret, Ht|].
  apply agrees_bind_pure. intros off. simpl. both_controls Ht.
  apply (agrees_mono (sameLeds e true)); [|intros x1 x2; apply sameLeds_forget].
  apply sameLeds_for_loop; [exact (sameLeds_set_lineOffset _ _ _ _ _ Ht)|].
  intros line a1 a2 Ha. both_controls Ha.
  apply sameLeds_for_loop; [exact Ha|].
  intros led b1 b2 Hb. both_controls Hb.
  rewrite (proj2 (proj2 (proj2 Hb)) eq_refl).
  apply agrees_bind_pure. intros idx. apply setLED_agrees, Hb.
Qed.

Lemma cometStep_agrees e line led a1 a2 count :
  sameLeds e true a1 a2 ->
  agrees (fun ec1 ec2 => sameLeds e true ec1.1 ec2.1 /\ ec1.2 = ec2.2)
    (cometStep line led (a1, count)) (cometStep line led (a2, count)).
Proof.
  intros Ha. unfold cometStep. simpl. both_controls Ha.
  rewrite (proj2 (proj2 (proj2 Ha)) eq_refl).
  apply agrees_bind_pure. intros idx.
  apply agrees_bind_pure. intros brightness.
  apply (agrees_bind (sameLeds e true)); [apply setLED_agrees, Ha|].
  intros b1 b2 Hb. apply agrees_ret. split; [exact Hb|reflexivity].
Qed.

Lemma renderComets_agrees e t1 t2 :
  sameLeds e false t1 t2 ->
  agrees (sameLeds e false) (renderComets t1) (renderComets t2).
Proof.
  intros Ht. unfold renderComets. both_controls Ht.
  destruct ((lines e =? 0) || (ffLedLength e =? 0)); [apply agrees_ret, Ht|].
  apply agrees_bind_pure. intros off. simpl. both_controls Ht.
  apply (agrees_mono (sameLeds e true)); [|intros x1 x2; apply sameLeds_forget].
  apply sameLeds_for_loop; [exact (sameLeds_set_lineOffset _ _ _ _ _ Ht)|].
  intros line a1 a2 Ha. both_controls Ha.
  apply (agrees_bind
           (fun ec1 ec2 => sameLeds e true ec1.1 ec2.1 /\ ec1.2 = ec2.2)).
  - apply agrees_for_lt; [split; [exact Ha|reflexivity]|].
    intros led [b1 c1] [b2 c2] [Hb Hc]. simpl in Hb, Hc. subst c2.
    apply cometStep_agrees, Hb.
  - intros ec1 ec2 [Hec _]. apply agrees_ret, Hec.
Qed.

Lemma renderBackAndForth_agrees e t1 t2 :
  sameLeds e false t1 t2 ->
  agrees (sameLeds e false) (renderBackAndForth t1) (renderBackAndForth t2).
Proof.
  intros Ht. unfold renderBackAndForth. both_controls Ht.
  destruct (ffLedLength e =? 0); [apply agrees_ret, Ht|].
  apply sameLeds_for_loop; [exact Ht|].
  intros block a1 a2 Ha. both_controls Ha.
  apply sameLeds_for_loop; [exact Ha|].
  intros led b1 b2 Hb. both_controls Hb.
  apply agrees_bind_pure. intros idx. apply setLED_agrees, Hb.
Qed.

Lemma renderMoveStartLED_agrees e t1 t2 :
  sameLeds e false t1 t2 ->
  agrees (sameLeds e false) (renderMoveStartLED t1) (renderMoveStartLED t2).
Proof.
  intros Ht. unfold renderMoveStartLED. both_controls Ht.
  destruct (lines e =? 0); [apply agrees_ret, Ht|].
  apply agrees_bind_pure. intros off. simpl. both_controls Ht.
  apply agrees_bind_pure. intros rainbowInc.
  apply (agrees_mono (sameLeds e true)); [|intros x1 x2; apply sameLeds_forget].
  apply sameLeds_for_loop; [exact (sameLeds_set_lineOffset _ _ _ _ _ Ht)|].
  intros line a1 a2 Ha. both_controls Ha.
  apply sameLeds_for_loop; [exact Ha|].
  intros led b1 b2 Hb. both_controls Hb.
  rewrite (proj2 (proj2 (proj2 Hb)) eq_refl).
  apply agrees_bind_pure. intros idx. apply setLED_agrees, Hb.
Qed.

Lemma renderColorSinusoid_agrees e t1 t2 :
  sameLeds e false t1 t2 ->
  agrees (sameLeds e false) (renderColorSinusoid t1) (renderColorSinusoid t2).
Proof.
  intros Ht. unfold renderColorSinusoid. both_controls Ht.
  destruct (ffLedLength e =? 0); [apply agrees_ret, Ht|].
  apply sameLeds_for_loop; [exact Ht|].
  intros i a1 a2 Ha. both_controls Ha.
  apply agrees_bind_pure. intros hue. apply setLED_agrees, Ha.
Qed.

Lemma waveMiddle_sameControls e t : sameControls e t -> waveMiddle t = waveMiddle e.
Proof. intros H. unfold waveMiddle. controls H. reflexivity. Qed.

Lemma oceanAmp_sameControls e t : sameControls e t -> oceanAmp t = oceanAmp e.
Proof.
  intros H. unfold oceanAmp. rewrite (waveMiddle_sameControls _ _ H).
  controls H. reflexivity.
Qed.

Lemma opposingAmp_sameControls e t :
  sameControls e t -> opposingAmp t = opposingAmp e.
Proof.
  intros H. unfold opposingAmp. rewrite (waveMiddle_sameControls _ _ H).
  controls H. reflexivity.
Qed.

Lemma renderOceanWaves_agrees e t1 t2 :
  sameLeds e false t1 t2 ->
  agrees (sameLeds e false) (renderOceanWaves t1) (renderOceanWaves t2).
Proof.
  intros Ht. unfold renderOceanWaves.
  rewrite (waveMiddle_sameControls _ _ (proj1 Ht)).
  rewrite (waveMiddle_sameControls _ _ (proj1 (proj2 Ht))).
  rewrite (oceanAmp_sameControls _ _ (proj1 Ht)).
  rewrite (oceanAmp_sameControls _ _ (proj1 (proj2 Ht))).
  cbv zeta. destruct (oceanAmp e <=? 0); [apply agrees_ret, Ht|].
  apply sameLeds_for_loop; [exact Ht|].
  intros p a1 a2 Ha. both_controls Ha.
  apply agrees_bind_pure. intros brightness.
  apply (agrees_bind (sameLeds e false)); [apply setLED_agrees, Ha|].
  intros b1 b2 Hb. both_controls Hb.
  apply (agrees_bind (sameLeds e false)); [apply setLED_agrees, Hb|].
  intros c1 c2 Hc.
  apply (agrees_bind (sameLeds e false)); [apply setMirrored_agrees, Hc|].
  intros d1 d2 Hd. apply setMirrored_agrees, Hd.
Qed.

Lemma renderOpposingWaves_agrees e t1 t2 :
  sameLeds e false t1 t2 ->
  agrees (sameLeds e false) (renderOpposingWaves t1) (renderOpposingWaves t2).
Proof.
  intros Ht. unfold renderOpposingWaves.
  rewrite (waveMiddle_sameControls _ _ (proj1 Ht)).
  rewrite (waveMiddle_sameControls _ _ (proj1 (proj2 Ht))).
  rewrite (opposingAmp_sameControls _ _ (proj1 Ht)).
  rewrite (opposingAmp_sameControls _ _ (proj1 (proj2 Ht))).
  cbv zeta. destruct (opposingAmp e <=? 0); [apply agrees_ret, Ht|].
  apply sameLeds_for_loop; [exact Ht|].
  intros p a1 a2 Ha. both_controls Ha.
  apply agrees_bind_pure. intros brightness.
  apply (agrees_bind (sameLeds e false)); [apply setLED_agrees, Ha|].
  intros b1 b2 Hb. both_controls Hb.
  apply (agrees_bind (sameLeds e false)); [apply setLED_agrees, Hb|].
  intros c1 c2 Hc. both_controls Hc.
  apply (agrees_bind (sameLeds e false)); [apply setMirrored_agrees, Hc|].
  intros d1 d2 Hd. apply setMirrored_agrees, Hd.
Qed.

Create HintDb agreement.

#[local] Hint Resolve renderNotesToDrives_agrees renderRainbowWheel_agrees
  renderMovingDots_agrees renderComets_agrees renderBackAndForth_agrees
  renderMoveStartLED_agrees renderColorSinusoid_agrees
  renderOceanWaves_agrees renderOpposingWaves_agrees agrees_ret : agreement.

Section RenderTwice.

Variable rand_after_srand : Z -> Z.

Lemma renderFlashLights_agrees e k t1 t2 :
  sameLeds e k t1 t2 -> frameCounter t1 = frameCounter t2 ->
  agrees (sameLeds e k)
    (renderFlashLights rand_after_srand t1)
    (renderFlashLights rand_after_srand t2).
Proof.
  intros Ht Hfc. unfold renderFlashLights. rewrite Hfc. both_controls Ht.
  apply agrees_bind_pure. intros randomLed. apply setLED_agrees, Ht.
Qed.

Lemma renderForeground_agrees e t1 t2 :
  sameLeds e false t1 t2 ->
  ffMode e <> 7 \/ frameCounter t1 = frameCounter t2 ->
  agrees (sameLeds e false)
    (renderForeground rand_after_srand t1)
    (renderForeground rand_after_srand t2).
Proof.
  intros Ht Hmode. unfold renderForeground. both_controls Ht.
  revert Hmode. destruct (ffMode e) as [|p|p]; intros Hmode;
    auto with agreement.
  do 4 (try destruct p as [p|p|]; auto with agreement).
  destruct Hmode as [Hne|Hfc]; [congruence|].
  apply renderFlashLights_agrees; assumption.
Qed.

Lemma render_agrees e1 e2 :
  wellFormed e1 -> wellFormed e2 -> sameControls e1 e2 ->
  ffMode e1 <> 7 \/ frameCounter e1 = frameCounter e2 ->
  agrees (fun r1 r2 => ledBuffer r1 = ledBuffer r2)
    (render rand_after_srand e1) (render rand_after_srand e2).
Proof.
  intros W1 W2 Hs Hmode r1 r2. unfold render.
  destruct (updateBackground_preserved
              (set_frameCounter (u32 (frameCounter e1 + 1)) e1) W1)
    as (a1 & Ha1 & Hp1).
  destruct (updateBackground_preserved
              (set_frameCounter (u32 (frameCounter e2 + 1)) e2) W2)
    as (a2 & Ha2 & Hp2).
  rewrite Ha1, Ha2. simpl. intros Hr1 Hr2.
  assert (Hag : sameLeds e1 false a1 a2).
  { eapply (updateBackground_agrees e1); [| | |exact Ha1|exact Ha2].
    - destruct W1; lia.
    - apply sameControls_set_frameCounter, sameControls_refl.
    - apply sameControls_set_frameCounter, Hs. }
  assert (Hfc : ffMode e1 <> 7 \/ frameCounter a1 = frameCounter a2).
  { destruct Hmode as [Hne|Hfc]; [left; exact Hne|right].
    destruct Hp1 as (_ & _ & _ & _ & _ & ->).
    destruct Hp2 as (_ & _ & _ & _ & _ & ->).
    simpl. rewrite Hfc. reflexivity. }
  exact (proj1 (proj2 (proj2
           (renderForeground_agrees e1 a1 a2 Hag Hfc r1 r2 Hr1 Hr2)))).
Qed.

(** C4.  With any mode other than Flash, two renders in a row both return
    and show the same LED buffer.  With Flash, the buffer is a function of
    the controls and the frame counter: two well-formed engines with the same
    controls and the same counter render the same LED buffer, whatever their
    buffers and [lineOffset] held before. *)
Theorem render_twice e :
  wellFormed e ->
  (ffMode e <> 7 ->
   exists e1 e2,
     render rand_after_srand e = Some e1
     /\ render rand_after_srand e1 = Some e2
     /\ ledBuffer e2 = ledBuffer e1)
  /\ (ffMode e = 7 ->
      forall e', wellFormed e' -> sameControls e e' ->
        frameCounter e' = frameCounter e ->
        exists r r',
          render rand_after_srand e = Some r
          /\ render rand_after_srand e' = Some r'
          /\ ledBuffer r' = ledBuffer r).
Proof.
  intros Hwf. split.
  - intros Hmode.
    destruct (render_preserved rand_after_srand e Hwf) as (e1 & He1 & Hp1).
    assert (Hw1 : wellFormed e1)
      by (eapply wellFormed_preserved; [|exact Hp1]; exact Hwf).
    destruct (render_preserved rand_after_srand e1 Hw1) as (e2 & He2 & _).
    exists e1, e2. split; [exact He1|]. split; [exact He2|].
    symmetry. apply (render_agrees e e1); try assumption.
    + eapply sameControls_trans; [|exact (proj1 Hp1)].
      apply sameControls_set_frameCounter, sameControls_refl.
    + left. exact Hmode.
  - intros _ e' Hwf' Hs Hfc.
    destruct (render_preserved rand_after_srand e Hwf) as (r & Hr & _).
    destruct (render_preserved rand_after_srand e' Hwf') as (r' & Hr' & _).
    exists r, r'. split; [exact Hr|]. split; [exact Hr'|].
    symmetry. apply (render_agrees e e'); try assumption.
    right. symmetry. exact Hfc.
Qed.

End RenderTwice.

(** ** Comets *)

Lemma cometIndex_range e line k :
  wellFormed e -> 1 <= lines e -> 0 <= line -> 0 <= k ->
  0 <= cometIndex e line k < numLeds e.
Proof.
  intros (Hn & _ & _ & _ & Hs & _) Hlines Hline Hk. unfold cometIndex.
  apply Z.rem_bound_pos; [|lia].
  assert (0 <= Z.quot (numLeds e) (lines e)) by (apply Z.quot_pos; lia).
  nia.
Qed.

Lemma cometIndex_sameControls e t line k :
  sameControls e t -> cometIndex t line k = cometIndex e line k.
Proof. intros H. unfold cometIndex. controls H. reflexivity. Qed.

Lemma cometBrightness_sameControls e t k :
  sameControls e t -> cometBrightness t k = cometBrightness e k.
Proof. intros H. unfold cometBrightness. controls H. reflexivity. Qed.

Lemma cometsApart_sameControls e t :
  sameControls e t -> cometsApart e -> cometsApart t.
Proof.
  intros H Hap line k line' k'.
  rewrite !(cometIndex_sameControls _ _ _ _ H). controls H. apply Hap.
Qed.

Lemma cometStep_paints e t line led count :
  wellFormed e -> 1 <= lines e -> 1 <= ffLedLength e -> cometsApart e ->
  0 <= line < lines e ->
  ffLedStart e <= led < ffLedStart e + ffLedLength e ->
  preserved e t -> lineOffset t = Z.quot (numLeds e) (lines e) ->
  count = ffLedLength e - 1 - (led - ffLedStart e) ->
  cometsPainted e line (led - ffLedStart e) t ->
  succeeds
    (fun ec => preserved e ec.1
       /\ lineOffset ec.1 = Z.quot (numLeds e) (lines e)
       /\ ec.2 = ffLedLength e - 1 - (led + 1 - ffLedStart e)
       /\ cometsPainted e line (led + 1 - ffLedStart e) ec.1)
    (cometStep line led (t, count)).
Proof.
  intros Hwf Hlines Hlen Hap Hline Hled Hpt Hoff Hcount Hpaint.
  assert (Hwt : wellFormed t) by (eapply wellFormed_preserved; eassumption).
  assert (Hidx : Z.rem (led + line * lineOffset t) (numLeds t)
                 = cometIndex e line (led - ffLedStart e)).
  { rewrite Hoff. unfold cometIndex. controls Hpt. f_equal. lia. }
  assert (Hbr : Z.quot (ffBright t * (ffLedLength t - count)) (ffLedLength t)
                = cometBrightness e (led - ffLedStart e)).
  { unfold cometBrightness. controls Hpt. subst count. f_equal. lia. }
  assert (Hcol : mkHSV (u8 (ffHue t)) (u8 (ffSat t))
                   (u8 (cometBrightness e (led - ffLedStart e)))
                 = cometColour e (led - ffLedStart e))
    by (unfold cometColour; controls Hpt; reflexivity).
  assert (En : numLeds t = numLeds e) by (controls Hpt; reflexivity).
  assert (El : ffLedLength t = ffLedLength e) by (controls Hpt; reflexivity).
  pose proof (cometIndex_range e line (led - ffLedStart e) Hwf Hlines) as Hr.
  unfold cometStep. simpl.
  rewrite imod_Some by (destruct Hwt; lia). simpl.
  rewrite idiv_Some by lia. simpl. rewrite Hidx, Hbr.
  rewrite setLED_inside; [|rewrite En; apply Hr; lia|destruct Hwt as (_ & ? & _); assumption].
  simpl. apply succeeds_ret. simpl. rewrite Hcol.
  assert (Hlt : (Z.to_nat (cometIndex e line (led - ffLedStart e))
                 < length (leds t))%nat).
  { destruct Hwt as (_ & ? & _). rewrite En in *. lia. }
  split; [|split; [exact Hoff|split; [lia|]]].
  - eapply preserved_trans; [exact Hpt|].
    apply preserved_set_leds; [apply length_insert|].
    apply drop_insert_lt. rewrite En. lia.
  - intros l k Hlk. simpl.
    destruct (decide (l = line /\ k = led - ffLedStart e)) as [[-> ->]|Hne].
    + apply list_lookup_insert_eq. exact Hlt.
    + rewrite list_lookup_insert_ne.
      * apply Hpaint. destruct Hlk as [?|[-> ?]]; [left; assumption|right].
        split; [reflexivity|]. lia.
      * intros Heq.
        assert (Hlk' : 0 <= l < lines e /\ 0 <= k < ffLedLength e) by lia.
        pose proof (cometIndex_range e l k Hwf Hlines) as Hr'.
        assert (Hsame : cometIndex e line (led - ffLedStart e)
                        = cometIndex e l k) by lia.
        apply Hap in Hsame; lia.
Qed.

Lemma renderComets_paints e :
  wellFormed e -> 1 <= lines e -> 1 <= ffLedLength e -> cometsApart e ->
  succeeds
    (fun e' => preserved e e'
       /\ forall line k, 0 <= line < lines e -> 0 <= k < ffLedLength e ->
            leds e' !! Z.to_nat (cometIndex e line k) = Some (cometColour e k))
    (renderComets e).
Proof.
  intros Hwf Hlines Hlen Hap. unfold renderComets.
  destruct (Z.eqb_spec (lines e) 0); [lia|].
  destruct (Z.eqb_spec (ffLedLength e) 0); [lia|]. simpl.
  rewrite idiv_Some by lia. simpl.
  eapply succeeds_mono.
  - apply (succeeds_for_count
             (fun line t => preserved e t
                /\ lineOffset t = Z.quot (numLeds e) (lines e)
                /\ cometsPainted e line 0 t)).
    + simpl. lia.
    + split; [apply preserved_set_lineOffset|]. split; [reflexivity|].
      intros l k Hlk. lia.
    + intros line t Hline (Hpt & Hoff & Hpaint). simpl in Hline.
      assert (Es : ffLedStart t = ffLedStart e) by (controls Hpt; reflexivity).
      assert (El : ffLedLength t = ffLedLength e) by (controls Hpt; reflexivity).
      rewrite Es, El.
      apply (succeeds_bind
               (fun ec => preserved e ec.1
                  /\ lineOffset ec.1 = Z.quot (numLeds e) (lines e)
                  /\ ec.2 = ffLedLength e - 1
                            - (ffLedStart e + ffLedLength e - ffLedStart e)
                  /\ cometsPainted e line
                       (ffLedStart e + ffLedLength e - ffLedStart e) ec.1)).
      * apply (succeeds_for_count
                 (fun led ec => preserved e ec.1
                    /\ lineOffset ec.1 = Z.quot (numLeds e) (lines e)
                    /\ ec.2 = ffLedLength e - 1 - (led - ffLedStart e)
                    /\ cometsPainted e line (led - ffLedStart e) ec.1)).
        -- lia.
        -- simpl. split; [exact Hpt|]. split; [exact Hoff|]. split; [lia|].
           intros l k Hlk. apply Hpaint. lia.
        -- intros led [c count] Hled (Hpc & Hoc & Hcount & Hpc'). simpl in *.
           apply cometStep_paints; assumption.
      * intros [c count] (Hpc & Hoc & _ & Hpc'). simpl in *.
        apply succeeds_ret. split; [exact Hpc|]. split; [exact Hoc|].
        intros l k Hlk. apply Hpc'. lia.
  - intros e' (Hp & _ & Hpaint). split; [exact Hp|].
    intros line k Hline Hk. apply Hpaint. simpl. lia.
Qed.

Section CometClaim.

Variable rand_after_srand : Z -> Z.

(** C3 (as amended).  In mode 3, with at least one line, a length [L] of at
    least one, a brightness that fits a byte and no two painted positions
    coinciding, [render] returns and every line shows [ffBright * 1 / L] at
    its trailing LED (the one at [ffLedStart]) and [ffBright] at its leading
    LED; the tail is strictly dimmer than the head when [L > 1] and
    [ffBright > 0]. *)
Theorem comet_tail_and_head e line :
  wellFormed e -> ffMode e = 3 ->
  1 <= lines e -> 1 <= ffLedLength e -> 0 <= ffBright e <= 255 ->
  cometsApart e -> 0 <= line < lines e ->
  exists e' tail head,
    render rand_after_srand e = Some e'
    /\ leds e' !! Z.to_nat (cometIndex e line 0) = Some tail
    /\ leds e' !! Z.to_nat (cometIndex e line (ffLedLength e - 1)) = Some head
    /\ v tail = Z.quot (ffBright e * 1) (ffLedLength e)
    /\ v head = ffBright e
    /\ (1 < ffLedLength e -> 0 < ffBright e -> v tail < v head).
Proof.
  intros Hwf Hmode Hlines Hlen Hbr Hap Hline. unfold render.
  destruct (updateBackground_preserved
              (set_frameCounter (u32 (frameCounter e + 1)) e) Hwf)
    as (a & -> & Hpa).
  simpl.
  assert (Hsa : sameControls e a).
  { eapply sameControls_trans; [|exact (proj1 Hpa)].
    apply sameControls_set_frameCounter, sameControls_refl. }
  assert (Hwa : wellFormed a)
    by (eapply wellFormed_preserved; [|exact Hpa]; exact Hwf).
  assert (Hfg : renderForeground rand_after_srand a = renderComets a).
  { unfold renderForeground. controls Hsa. rewrite Hmode. reflexivity. }
  rewrite Hfg.
  destruct (renderComets_paints a) as (e' & -> & _ & Hpaint).
  - exact Hwa.
  - controls Hsa. exact Hlines.
  - controls Hsa. exact Hlen.
  - apply (cometsApart_sameControls e); assumption.
  - assert (Hq : 0 <= Z.quot (ffBright e * 1) (ffLedLength e) <= ffBright e).
    { split; [apply Z.quot_pos; lia|].
      apply Z.quot_le_upper_bound; nia. }
    exists e', (cometColour e 0), (cometColour e (ffLedLength e - 1)).
    split; [reflexivity|].
    split.
    { rewrite <- (cometIndex_sameControls e a) by exact Hsa.
      rewrite (Hpaint line 0) by (controls Hsa; lia).
      unfold cometColour. rewrite (cometBrightness_sameControls e a) by exact Hsa.
      controls Hsa. reflexivity. }
    split.
    { rewrite <- (cometIndex_sameControls e a) by exact Hsa.
      replace (ffLedLength e) with (ffLedLength a) at 1
        by (controls Hsa; reflexivity).
      rewrite (Hpaint line (ffLedLength a - 1)) by (controls Hsa; lia).
      unfold cometColour. rewrite (cometBrightness_sameControls e a) by exact Hsa.
      controls Hsa. reflexivity. }
    assert (Htail : v (cometColour e 0) = Z.quot (ffBright e * 1) (ffLedLength e)).
    { unfold cometColour, cometBrightness. simpl. apply u8_small. lia. }
    assert (Hhead : v (cometColour e (ffLedLength e - 1)) = ffBright e).
    { unfold cometColour, cometBrightness. simpl.
      replace (ffLedLength e - 1 + 1) with (ffLedLength e) by lia.
      rewrite Z.quot_mul by lia. apply u8_small. lia. }
    split; [exact Htail|]. split; [exact Hhead|].
    intros HL Hb. rewrite Htail, Hhead, Z.mul_1_r.
    apply Z.quot_lt; lia.
Qed.

End CometClaim.

(** ** Closed instances *)

Ltac wf_by_computation :=
  unfold wellFormed; vm_compute; repeat split; discriminate.

Lemma shortComet_apart : cometsApart shortComet.
Proof.
  intros line k line' k' Hl Hk Hl' Hk'. simpl in *.
  assert (line = 0) as -> by lia. assert (line' = 0) as -> by lia.
  assert (k = 0 \/ k = 1) as [-> | ->] by lia;
    assert (k' = 0 \/ k' = 1) as [-> | ->] by lia;
    vm_compute; intros;
    (split; [reflexivity|first [reflexivity|discriminate]]).
Defined.

Lemma comet_tail_and_head_witness :
  exists e' tail head,
    render sample_rand shortComet = Some e'
    /\ leds e' !! Z.to_nat (cometIndex shortComet 0 0) = Some tail
    /\ leds e' !! Z.to_nat (cometIndex shortComet 0 (ffLedLength shortComet - 1))
       = Some head
    /\ v tail = Z.quot (ffBright shortComet * 1) (ffLedLength shortComet)
    /\ v head = ffBright shortComet
    /\ (1 < ffLedLength shortComet -> 0 < ffBright shortComet ->
        v tail < v head).
Proof.
  apply (comet_tail_and_head sample_rand shortComet 0).
  - wf_by_computation.
  - reflexivity.
  - simpl. lia.
  - simpl. lia.
  - simpl. lia.
  - exact shortComet_apart.
  - simpl. lia.
Defined.

(** C3 as stated fails twice.  With the brightness at zero the tail of a
    two-LED comet is as dark as its head, not strictly dimmer.  And a comet
    of 127 LEDs on 108 LEDs, alone on the strip, wraps onto its own tail:
    the LED at [ffLedStart] ends at 171, not at 200 * 1 / 127. *)
Lemma comet_tail_not_dimmer :
  (exists tail head,
     renderedLed (render sample_rand darkComet) (cometIndex darkComet 0 0)
     = Some tail
     /\ renderedLed (render sample_rand darkComet) (cometIndex darkComet 0 1)
        = Some head
     /\ 1 < ffLedLength darkComet
     /\ ~ v tail < v head)
  /\ (exists tail,
        renderedLed (render sample_rand longComet) (cometIndex longComet 0 0)
        = Some tail
        /\ v tail
           <> Z.quot (ffBright longComet * 1) (ffLedLength longComet)).
Proof.
  split.
  - exists (mkHSV 0 200 0), (mkHSV 0 200 0).
    split; [vm_compute; reflexivity|]. split; [vm_compute; reflexivity|].
    simpl. lia.
  - exists (mkHSV 0 200 171).
    split; [vm_compute; reflexivity|]. vm_compute. discriminate.
Qed.

(** ** Ocean waves (C1) *)

(** When the lower test of the clamp does not fire, the wave stays in the
    band [24, 71]. *)
Lemma oceanWaves_band_without_low_clamp e p :
  ~ waveMiddle e - Z.quot (ffLedLength e) 2 <= 24 ->
  0 <= p < oceanAmp e ->
  24 <= waveMiddle e - p /\ waveMiddle e + p <= 71.
Proof.
  unfold oceanAmp. cbv zeta. intros Hlow. ztest; lia.
Qed.

(** The example of the interface notes, pan 64 and length 20: centre 53,
    amplitude 10, painted indices 44..62. *)
Example oceanWaves_pan64_length20 :
  let e := set_ffLedLength 20 (set_ffMode 8 (LightEngine_new 108)) in
  waveMiddle e = 53 /\ oceanAmp e = 10
  /\ forall p, 0 <= p < oceanAmp e ->
       24 <= waveMiddle e - p /\ waveMiddle e + p <= 71.
Proof.
  simpl. split; [reflexivity|]. split; [reflexivity|].
  intros p. vm_compute (oceanAmp _). vm_compute (waveMiddle _). lia.
Qed.

(** C1 fails on the code.  With pan and length at 127 on 108 LEDs the centre
    is 80 and the lower test of the clamp fires ([80 - 63 <= 24]), leaving
    the amplitude at 56 with the upper test skipped: offset 20 paints LED
    100, outside [24, 71], which the background had left at brightness 0.
    With the pan at 64 and a length of 58 the same happens around centre 53:
    offset 28 lies inside the amplitude 29 and addresses LED 81. *)
Lemma oceanWaves_leaves_band :
  numLeds oceanWide = 108 /\ pan oceanWide = 127 /\ ffLedLength oceanWide = 127
  /\ waveMiddle oceanWide = 80 /\ oceanAmp oceanWide = 56
  /\ (0 <= 20 < oceanAmp oceanWide /\ ~ waveMiddle oceanWide + 20 <= 71)
  /\ renderedLed (updateBackground oceanWide) 100 = Some (mkHSV 0 200 0)
  /\ renderedLed (render sample_rand oceanWide) 100 = Some (mkHSV 0 200 128)
  /\ waveMiddle oceanCentre = 53 /\ oceanAmp oceanCentre = 29
  /\ (0 <= 28 < oceanAmp oceanCentre /\ ~ waveMiddle oceanCentre + 28 <= 71).
Proof.
  repeat split; try reflexivity; vm_compute; try discriminate;
    intros H; apply H; reflexivity.
Qed.

(** ** Closed instances of the rendering theorems *)

Lemma render_twice_witness :
  (exists e1 e2,
     render sample_rand shortComet = Some e1
     /\ render sample_rand e1 = Some e2
     /\ ledBuffer e2 = ledBuffer e1)
  /\ (exists r r',
        render sample_rand flashEngine = Some r
        /\ render sample_rand (set_lineOffset 9 flashEngine) = Some r'
        /\ ledBuffer r' = ledBuffer r).
Proof.
  split.
  - apply (proj1 (render_twice sample_rand shortComet ltac:(wf_by_computation))).
    vm_compute. discriminate.
  - apply (proj2 (render_twice sample_rand flashEngine ltac:(wf_by_computation))
             eq_refl (set_lineOffset 9 flashEngine)).
    + wf_by_computation.
    + reflexivity.
    + reflexivity.
Defined.


Lemma render_stays_in_strip_witness :
  setLED 135 0 200 90 oceanWide = Some oceanWide
  /\ exists e', render sample_rand oceanWide = Some e'
       /\ numLeds e' = numLeds oceanWide
       /\ length (leds e') = length (leds oceanWide)
       /\ length (background e') = length (background oceanWide)
       /\ drop (Z.to_nat (numLeds oceanWide)) (leds e')
          = drop (Z.to_nat (numLeds oceanWide)) (leds oceanWide)
       /\ drop (Z.to_nat (numLeds oceanWide)) (background e')
          = drop (Z.to_nat (numLeds oceanWide)) (background oceanWide).
Proof.
  split.
  - apply (proj1 (render_stays_in_strip sample_rand)). simpl. lia.
  - apply (proj2 (render_stays_in_strip sample_rand)). wf_by_computation.
Defined.

Lemma colour_members_stay_doubled_witness :
  colourMembersDoubled (LightEngine_new 108)
  /\ exists e,
       calls sample_rand
         [CallControlChange 1 1 64; CallNoteOn 1 60 100; CallRender;
          CallSetCC 13 127; CallControlChange 2 6 5; CallNoteOn 9 62 90;
          CallNoteOff 1 60 0; CallRender]
         (LightEngine_new 108) = Some e
       /\ colourMembersEven e
       /\ colourMembersDoubled e.
Proof.
  destruct (colour_members_stay_doubled sample_rand 108
              [CallControlChange 1 1 64; CallNoteOn 1 60 100; CallRender;
               CallSetCC 13 127; CallControlChange 2 6 5; CallNoteOn 9 62 90;
               CallNoteOff 1 60 0; CallRender] ltac:(lia))
    as [Hnew (e & He & Hev & Hd)].
  split; [exact Hnew|]. exists e. split; [exact He|]. split; [exact Hev|].
  apply Hd. repeat constructor; simpl; lia.
Defined.

(** C9 as stated fails for a value byte above 127.  The handlers take a
    [uint8_t] value and [setCC] an [int], so a call can carry 200; after it
    [ffHue] is 400, which is even but not twice a value in 0..127, and a
    following [render] keeps it. *)
Lemma colour_members_not_doubled :
  exists e,
    calls sample_rand [CallControlChange 1 1 200; CallRender]
      (LightEngine_new 108) = Some e
    /\ ffHue e = 400
    /\ colourMembersEven e
    /\ ~ colourMembersDoubled e.
Proof.
  eexists. split; [vm_compute; reflexivity|].
  split; [reflexivity|]. split; [repeat split|].
  intros ((k & Hk & H) & _). simpl in H. lia.
Qed.

(** * Further properties of the engine *)

(** ** Note handlers *)

Lemma handleNoteOn_activeNotes channel note velocity e :
  activeNotes (handleNoteOn channel note velocity e)
  = if u8 note <? 128
    then <[Z.to_nat (u8 note) := u8 velocity]> (activeNotes e)
    else activeNotes e.
Proof.
  unfold handleNoteOn.
  destruct (u8 note <? 128);
    destruct ((1 <=? u8 channel) && (u8 channel <=? 16)); simpl;
    destruct (ffMode e =? 5); simpl; ztest; reflexivity.
Qed.

Lemma handleNoteOn_currentNote channel note velocity e :
  currentNote (handleNoteOn channel note velocity e)
  = if (1 <=? u8 channel) && (u8 channel <=? 16)
    then <[Z.to_nat (u8 channel) := u8 note]> (currentNote e)
    else currentNote e.
Proof.
  unfold handleNoteOn.
  destruct (u8 note <? 128);
    destruct ((1 <=? u8 channel) && (u8 channel <=? 16)); simpl;
    destruct (ffMode e =? 5); simpl; ztest; reflexivity.
Qed.

Lemma handleNoteOff_activeNotes channel note velocity e :
  activeNotes (handleNoteOff channel note velocity e)
  = if u8 note <? 128
    then <[Z.to_nat (u8 note) := 0]> (activeNotes e)
    else activeNotes e.
Proof.
  unfold handleNoteOff.
  destruct (u8 note <? 128);
    destruct ((1 <=? u8 channel) && (u8 channel <=? 16)); simpl;
    try destruct (currentNote e !! Z.to_nat (u8 channel)) as [n|];
    try destruct (n =? u8 note); reflexivity.
Qed.

Lemma handleNoteOff_currentNote channel note velocity e :
  currentNote (handleNoteOff channel note velocity e)
  = if (1 <=? u8 channel) && (u8 channel <=? 16)
    then match currentNote e !! Z.to_nat (u8 channel) with
         | Some n =>
             if n =? u8 note
             then <[Z.to_nat (u8 channel) := 0]> (currentNote e)
             else currentNote e
         | None => currentNote e
         end
    else currentNote e.
Proof.
  unfold handleNoteOff.
  destruct (u8 note <? 128);
    destruct ((1 <=? u8 channel) && (u8 channel <=? 16)); simpl;
    try destruct (currentNote e !! Z.to_nat (u8 channel)) as [n|];
    try destruct (n =? u8 note); reflexivity.
Qed.

Lemma handleNoteOn_noteArrays channel note velocity e :
  noteArrays e -> noteArrays (handleNoteOn channel note velocity e).
Proof.
  intros [Ha Hc]. unfold noteArrays.
  rewrite handleNoteOn_activeNotes, handleNoteOn_currentNote.
  destruct (u8 note <? 128);
    destruct ((1 <=? u8 channel) && (u8 channel <=? 16));
    rewrite ?length_insert; split; assumption.
Qed.

Lemma handleNoteOff_noteArrays channel note velocity e :
  noteArrays e -> noteArrays (handleNoteOff channel note velocity e).
Proof.
  intros [Ha Hc]. unfold noteArrays.
  rewrite handleNoteOff_activeNotes, handleNoteOff_currentNote.
  destruct (u8 note <? 128);
    destruct ((1 <=? u8 channel) && (u8 channel <=? 16));
    try destruct (currentNote e !! Z.to_nat (u8 channel)) as [n|];
    try destruct (n =? u8 note);
    rewrite ?length_insert; split; assumption.
Qed.

(** X1.  A note-on is recorded under its note and its channel, and the matching
    note-off clears both records. *)
Theorem noteOn_noteOff_roundtrip channel note velocity release e :
  noteArrays e -> 1 <= channel <= 16 -> 0 <= note <= 127 ->
  0 <= velocity <= 255 ->
  let e1 := handleNoteOn channel note velocity e in
  let e2 := handleNoteOff channel note release e1 in
  activeNotes e1 !! Z.to_nat note = Some velocity
  /\ currentNote e1 !! Z.to_nat channel = Some note
  /\ activeNotes e2 !! Z.to_nat note = Some 0
  /\ currentNote e2 !! Z.to_nat channel = Some 0.
Proof.
  intros [Ha Hc] Hch Hn Hv e1 e2.
  assert (Ech : u8 channel = channel) by (apply u8_small; lia).
  assert (En : u8 note = note) by (apply u8_small; lia).
  assert (Ev : u8 velocity = velocity) by (apply u8_small; lia).
  assert (H1 : activeNotes e1 !! Z.to_nat note = Some velocity).
  { subst e1. rewrite handleNoteOn_activeNotes, En, Ev.
    destruct (Z.ltb_spec note 128); [|lia].
    apply list_lookup_insert_eq. lia. }
  assert (H2 : currentNote e1 !! Z.to_nat channel = Some note).
  { subst e1. rewrite handleNoteOn_currentNote, Ech, En.
    destruct (Z.leb_spec 1 channel); [|lia].
    destruct (Z.leb_spec channel 16); [|lia]. simpl.
    apply list_lookup_insert_eq. lia. }
  pose proof (handleNoteOn_noteArrays channel note velocity e (conj Ha Hc))
    as [Ha1 Hc1]. fold e1 in Ha1, Hc1.
  split; [exact H1|]. split; [exact H2|]. subst e2. split.
  - rewrite handleNoteOff_activeNotes, En.
    destruct (Z.ltb_spec note 128); [|lia].
    apply list_lookup_insert_eq. lia.
  - rewrite handleNoteOff_currentNote, Ech, En, H2.
    destruct (Z.leb_spec 1 channel); [|lia].
    destruct (Z.leb_spec channel 16); [|lia]. simpl.
    rewrite Z.eqb_refl. apply list_lookup_insert_eq. lia.
Qed.

(** X2.  A note-off for a note the channel no longer holds clears the note's own
    record but not the channel's: after note-on [n1], note-on [n2] and
    note-off [n1] on one channel, the channel still holds [n2]. *)
Theorem stale_noteOff_keeps_newer_note channel n1 n2 v1 v2 release e :
  noteArrays e -> 1 <= channel <= 16 ->
  0 <= n1 <= 127 -> 0 <= n2 <= 127 -> n1 <> n2 -> 0 <= v2 <= 255 ->
  let e3 :=
    handleNoteOff channel n1 release
      (handleNoteOn channel n2 v2 (handleNoteOn channel n1 v1 e)) in
  currentNote e3 !! Z.to_nat channel = Some n2
  /\ activeNotes e3 !! Z.to_nat n1 = Some 0
  /\ activeNotes e3 !! Z.to_nat n2 = Some v2.
Proof.
  intros Hna Hch Hn1 Hn2 Hne Hv2 e3.
  assert (Ech : u8 channel = channel) by (apply u8_small; lia).
  assert (E1 : u8 n1 = n1) by (apply u8_small; lia).
  assert (E2 : u8 n2 = n2) by (apply u8_small; lia).
  assert (Ev : u8 v2 = v2) by (apply u8_small; lia).
  pose proof (handleNoteOn_noteArrays channel n1 v1 e Hna) as Hna1.
  set (e1 := handleNoteOn channel n1 v1 e) in *.
  pose proof (handleNoteOn_noteArrays channel n2 v2 e1 Hna1) as [Ha2 Hc2].
  destruct Hna1 as [Ha1 Hc1].
  set (e2 := handleNoteOn channel n2 v2 e1) in *.
  assert (Hcur : currentNote e2 !! Z.to_nat channel = Some n2).
  { subst e2. rewrite handleNoteOn_currentNote, Ech, E2.
    destruct (Z.leb_spec 1 channel); [|lia].
    destruct (Z.leb_spec channel 16); [|lia]. simpl.
    apply list_lookup_insert_eq. lia. }
  subst e3. split; [|split].
  - rewrite handleNoteOff_currentNote, Ech, E1, Hcur.
    destruct (Z.leb_spec 1 channel); [|lia].
    destruct (Z.leb_spec channel 16); [|lia]. simpl.
    destruct (Z.eqb_spec n2 n1); [lia|]. exact Hcur.
  - rewrite handleNoteOff_activeNotes, E1.
    destruct (Z.ltb_spec n1 128); [|lia].
    apply list_lookup_insert_eq. lia.
  - rewrite handleNoteOff_activeNotes, E1.
    destruct (Z.ltb_spec n1 128); [|lia].
    rewrite list_lookup_insert_ne by lia.
    subst e2. rewrite handleNoteOn_activeNotes, E2, Ev.
    destruct (Z.ltb_spec n2 128); [|lia].
    apply list_lookup_insert_eq. lia.
Qed.

Lemma handleNoteOn_params channel note velocity e p :
  p <> PffLedStart ->
  param p (handleNoteOn channel note velocity e) = param p e.
Proof.
  intros Hp. unfold handleNoteOn.
  destruct (u8 note <? 128);
    destruct ((1 <=? u8 channel) && (u8 channel <=? 16)); simpl;
    destruct (ffMode e =? 5); simpl; ztest;
    destruct p; try reflexivity; congruence.
Qed.

Lemma handleNoteOn_ffLedStart channel note velocity e :
  ffLedStart (handleNoteOn channel note velocity e)
  = if ffMode e =? 5
    then (if ffLedStart e + 1 <? 127 then ffLedStart e + 1 else 0)
    else ffLedStart e.
Proof.
  unfold handleNoteOn.
  destruct (u8 note <? 128);
    destruct ((1 <=? u8 channel) && (u8 channel <=? 16)); simpl;
    destruct (ffMode e =? 5); simpl; ztest; lia.
Qed.

Lemma handleNoteOn_buffers channel note velocity e :
  let e' := handleNoteOn channel note velocity e in
  numLeds e' = numLeds e /\ leds e' = leds e /\ background e' = background e
  /\ lineOffset e' = lineOffset e /\ frameCounter e' = frameCounter e.
Proof.
  unfold handleNoteOn.
  destruct (u8 note <? 128);
    destruct ((1 <=? u8 channel) && (u8 channel <=? 16)); simpl;
    destruct (ffMode e =? 5); simpl; ztest; repeat split.
Qed.

Lemma handleNoteOff_rest channel note velocity e :
  let e' := handleNoteOff channel note velocity e in
  numLeds e' = numLeds e /\ leds e' = leds e /\ background e' = background e
  /\ lineOffset e' = lineOffset e /\ frameCounter e' = frameCounter e
  /\ forall p, param p e' = param p e.
Proof.
  unfold handleNoteOff.
  destruct (u8 note <? 128);
    destruct ((1 <=? u8 channel) && (u8 channel <=? 16)); simpl;
    try destruct (currentNote e !! Z.to_nat (u8 channel)) as [n|];
    try destruct (n =? u8 note);
    repeat split; intros []; reflexivity.
Qed.

(** X3.  What a note event can touch.  A note-on writes one cell of each note
    array and, in mode 5 only, [ffLedStart]; a note-off writes at most one
    cell of each note array.  Neither changes a buffer, the strip length,
    the counters or any other parameter; a channel outside 1..16 leaves
    [currentNote] as it is and a note above 127 leaves [activeNotes] as it
    is. *)
Theorem note_events_frame channel note velocity e :
  let on := handleNoteOn channel note velocity e in
  let off := handleNoteOff channel note velocity e in
  (numLeds on = numLeds e /\ leds on = leds e /\ background on = background e
   /\ lineOffset on = lineOffset e /\ frameCounter on = frameCounter e)
  /\ (forall p, p <> PffLedStart -> param p on = param p e)
  /\ (ffMode e <> 5 -> ffLedStart on = ffLedStart e)
  /\ (numLeds off = numLeds e /\ leds off = leds e
      /\ background off = background e
      /\ lineOffset off = lineOffset e /\ frameCounter off = frameCounter e
      /\ forall p, param p off = param p e)
  /\ (forall k, k <> Z.to_nat (u8 channel) ->
        currentNote on !! k = currentNote e !! k
        /\ currentNote off !! k = currentNote e !! k)
  /\ (forall k, k <> Z.to_nat (u8 note) ->
        activeNotes on !! k = activeNotes e !! k
        /\ activeNotes off !! k = activeNotes e !! k)
  /\ (~ 1 <= u8 channel <= 16 ->
      currentNote on = currentNote e /\ currentNote off = currentNote e)
  /\ (128 <= u8 note ->
      activeNotes on = activeNotes e /\ activeNotes off = activeNotes e).
Proof.
  intros on off.
  split; [apply handleNoteOn_buffers|].
  split; [intros p Hp; apply handleNoteOn_params, Hp|].
  split.
  { intros Hm. subst on. rewrite handleNoteOn_ffLedStart.
    destruct (Z.eqb_spec (ffMode e) 5); [contradiction|reflexivity]. }
  split; [apply handleNoteOff_rest|].
  split.
  { intros k Hk. subst on off.
    rewrite handleNoteOn_currentNote, handleNoteOff_currentNote.
    destruct ((1 <=? u8 channel) && (u8 channel <=? 16));
      [|split; reflexivity].
    split; [apply list_lookup_insert_ne; congruence|].
    destruct (currentNote e !! Z.to_nat (u8 channel)) as [n|]; [|reflexivity].
    destruct (n =? u8 note); [|reflexivity].
    apply list_lookup_insert_ne. congruence. }
  split.
  { intros k Hk. subst on off.
    rewrite handleNoteOn_activeNotes, handleNoteOff_activeNotes.
    destruct (u8 note <? 128); [|split; reflexivity].
    split; apply list_lookup_insert_ne; congruence. }
  split.
  { intros Hch. subst on off.
    rewrite handleNoteOn_currentNote, handleNoteOff_currentNote.
    destruct (Z.leb_spec 1 (u8 channel)); destruct (Z.leb_spec (u8 channel) 16);
      simpl; try (split; reflexivity). lia. }
  intros Hn. subst on off.
  rewrite handleNoteOn_activeNotes, handleNoteOff_activeNotes.
  destruct (Z.ltb_spec (u8 note) 128); [lia|]. split; reflexivity.
Qed.

(** ** State access beyond the documented domain *)

Lemma u8_add_256 z k : u8 (z + 256 * k) = u8 z.
Proof.
  unfold u8. rewrite Z.mul_comm. apply Z_mod_plus_full.
Qed.

Lemma getCC_handleControlChange_u8 channel control value e :
  1 <= u8 control <= 15 ->
  getCC (u8 control) (handleControlChange channel control value e) = u8 value.
Proof.
  intros Hc. unfold handleControlChange.
  pose proof (u8_range value) as Hv.
  assert (Hq : Z.quot (u8 value * 2) 2 = u8 value) by (apply Z.quot_mul; lia).
  revert Hq. generalize (u8 value) as x. intros x Hq. clear Hv.
  pattern (u8 control). apply (Z_range_cases _ 15 1); [|lia].
  repeat constructor; simpl; auto.
Qed.

(** X4.  [setCC] takes [int]s but hands them to [uint8_t] parameters: only the
    low eight bits of the control number and of the value count.  A control
    whose low byte is in 1..15 is written, and read back by [getCC] as the
    low byte of the value (also above 127); any other control changes
    nothing. *)
Theorem setCC_low_bytes ccNumber value e :
  (forall k j, setCC (ccNumber + 256 * k) (value + 256 * j) e
               = setCC ccNumber value e)
  /\ (1 <= u8 ccNumber <= 15 ->
      getCC (u8 ccNumber) (setCC ccNumber value e) = u8 value)
  /\ (~ 1 <= u8 ccNumber <= 15 -> setCC ccNumber value e = e).
Proof.
  split; [|split].
  - intros k j. unfold setCC, handleControlChange.
    rewrite !u8_add_256. reflexivity.
  - intros Hc. unfold setCC. apply getCC_handleControlChange_u8, Hc.
  - intros Hc. unfold setCC, handleControlChange.
    pose proof (u8_range ccNumber) as Hr. revert Hc Hr.
    generalize (u8 ccNumber) as c. intros c Hc Hr.
    destruct c as [|p|p]; [reflexivity| |lia].
    do 4 (try destruct p as [p|p|]); try reflexivity; lia.
Qed.

Lemma setCC_low_bytes_witness :
  getCC (u8 257) (setCC 257 200 (LightEngine_new 108)) = u8 200
  /\ setCC 272 5 (LightEngine_new 108) = LightEngine_new 108.
Proof.
  split.
  - apply (proj1 (proj2 (setCC_low_bytes 257 200 (LightEngine_new 108)))).
    vm_compute. split; discriminate.
  - apply (proj2 (proj2 (setCC_low_bytes 272 5 (LightEngine_new 108)))).
    vm_compute. intros [_ H]. apply H. reflexivity.
Defined.

(** ** Invariants of call sequences *)

Lemma LightEngine_new_allocated n : allocated n (LightEngine_new n).
Proof.
  unfold allocated, noteArrays. simpl.
  rewrite length_fmap, length_seqZ, !length_replicate. repeat split.
Qed.

Lemma LightEngine_new_paramsInRange n : paramsInRange (LightEngine_new n).
Proof. intros []; simpl; lia. Qed.

Lemma handleControlChange_allocated n channel control value e :
  allocated n e -> allocated n (handleControlChange channel control value e).
Proof. intros H. apply handleControlChange_cases; exact H. Qed.

Lemma handleControlChange_paramsInRange channel control value e :
  0 <= value <= 127 -> paramsInRange e ->
  paramsInRange (handleControlChange channel control value e).
Proof.
  intros Hv H. rewrite <- (u8_small value) in Hv by lia.
  unfold handleControlChange.
  destruct (u8 control) as [|c|c]; try exact H.
  do 4 (try destruct c as [c|c|]; try exact H);
    intros p; specialize (H p); destruct p; simpl in *; lia.
Qed.

Lemma handleNoteOn_allocated n channel note velocity e :
  allocated n e -> allocated n (handleNoteOn channel note velocity e).
Proof.
  intros (Hn & Hl & Hb & Hna).
  destruct (handleNoteOn_buffers channel note velocity e)
    as (En & El & Eb & _).
  unfold allocated. rewrite En, El, Eb.
  repeat split; try assumption; apply handleNoteOn_noteArrays, Hna.
Qed.

Lemma handleNoteOff_allocated n channel note velocity e :
  allocated n e -> allocated n (handleNoteOff channel note velocity e).
Proof.
  intros (Hn & Hl & Hb & Hna).
  destruct (handleNoteOff_rest channel note velocity e)
    as (En & El & Eb & _).
  unfold allocated. rewrite En, El, Eb.
  repeat split; try assumption; apply handleNoteOff_noteArrays, Hna.
Qed.

Lemma handleNoteOn_paramsInRange channel note velocity e :
  paramsInRange e -> paramsInRange (handleNoteOn channel note velocity e).
Proof.
  intros H p.
  assert (Hcase : p = PffLedStart \/ p <> PffLedStart)
    by (destruct p; first [left; reflexivity|right; discriminate]).
  destruct Hcase as [->|Hp].
  - simpl. rewrite handleNoteOn_ffLedStart. specialize (H PffLedStart).
    simpl in H. destruct (ffMode e =? 5); ztest; lia.
  - rewrite handleNoteOn_params by exact Hp. apply H.
Qed.

Lemma handleNoteOff_paramsInRange channel note velocity e :
  paramsInRange e -> paramsInRange (handleNoteOff channel note velocity e).
Proof.
  intros H p.
  destruct (handleNoteOff_rest channel note velocity e)
    as (_ & _ & _ & _ & _ & Hp).
  rewrite Hp. apply H.
Qed.

Lemma sameControls_activeNotes e t :
  sameControls e t -> activeNotes t = activeNotes e.
Proof. intros H. rewrite H. reflexivity. Qed.

Lemma preserved_allocated n e e' :
  numLeds e = n -> preserved e e' -> allocated n e -> allocated n e'.
Proof.
  intros En (Hs & Hl & Hb & _) (_ & Hl0 & Hb0 & Ha & Hc).
  unfold allocated, noteArrays.
  rewrite (sameControls_numLeds _ _ Hs), (sameControls_activeNotes _ _ Hs),
    (sameControls_currentNote _ _ Hs), Hl, Hb.
  repeat split; assumption.
Qed.

Lemma preserved_paramsInRange e e' :
  preserved e e' -> paramsInRange e -> paramsInRange e'.
Proof.
  intros (Hs & _) H p. rewrite (sameControls_param _ _ p Hs). apply H.
Qed.

Lemma getCC_range e cc : paramsInRange e -> 0 <= getCC cc e <= 127.
Proof.
  intros H.
  assert (Hq : forall x, 0 <= x <= 254 -> 0 <= Z.quot x 2 <= 127).
  { intros x Hx. rewrite Z.quot_div_nonneg by lia.
    split; [apply Z.div_pos; lia|].
    apply Z.div_le_upper_bound; lia. }
  pose proof (H PffHue). pose proof (H PffSat). pose proof (H PffBright).
  pose proof (H PffLedStart). pose proof (H PffLedLength).
  pose proof (H PffMode). pose proof (H Plines). pose proof (H PcAmp).
  pose proof (H PbgMode). pose proof (H Ppan). pose proof (H PbgHue).
  pose proof (H PbgSat). pose proof (H PbgBright).
  pose proof (H PbgLedStart). pose proof (H PbgLedLength).
  simpl in *. unfold getCC.
  destruct cc as [|p|p]; try lia.
  do 4 (try destruct p as [p|p|]); auto; lia.
Qed.

Section CallInvariants.

Variable rand_after_srand : Z -> Z.

Lemma call_allocated n c e :
  wellFormed e -> allocated n e ->
  succeeds (fun e' => wellFormed e' /\ allocated n e')
    (call rand_after_srand c e).
Proof.
  intros Hwf Hal. destruct c as [ch ctl val|ch nt vel|ch nt vel|cc val|]; simpl.
  - apply succeeds_ret. split;
      [apply handleControlChange_wellFormed, Hwf
      |apply handleControlChange_allocated, Hal].
  - apply succeeds_ret. split;
      [apply handleNoteOn_wellFormed, Hwf|apply handleNoteOn_allocated, Hal].
  - apply succeeds_ret. split;
      [apply handleNoteOff_wellFormed, Hwf|apply handleNoteOff_allocated, Hal].
  - apply succeeds_ret. split;
      [apply handleControlChange_wellFormed, Hwf
      |apply handleControlChange_allocated, Hal].
  - eapply succeeds_mono; [apply render_preserved, Hwf|].
    intros e' Hp. split.
    + eapply wellFormed_preserved; [|exact Hp]. exact Hwf.
    + eapply preserved_allocated; [|exact Hp|exact Hal]. apply Hal.
Qed.

Lemma call_paramsInRange c e :
  midiCall c -> wellFormed e -> paramsInRange e ->
  succeeds (fun e' => wellFormed e' /\ paramsInRange e')
    (call rand_after_srand c e).
Proof.
  intros Hc Hwf Hpr.
  destruct c as [ch ctl val|ch nt vel|ch nt vel|cc val|]; simpl.
  - apply succeeds_ret. split;
      [apply handleControlChange_wellFormed, Hwf
      |apply handleControlChange_paramsInRange; assumption].
  - apply succeeds_ret. split;
      [apply handleNoteOn_wellFormed, Hwf
      |apply handleNoteOn_paramsInRange, Hpr].
  - apply succeeds_ret. split;
      [apply handleNoteOff_wellFormed, Hwf
      |apply handleNoteOff_paramsInRange, Hpr].
  - apply succeeds_ret. split;
      [apply handleControlChange_wellFormed, Hwf
      |apply handleControlChange_paramsInRange; assumption].
  - eapply succeeds_mono; [apply render_preserved, Hwf|].
    intros e' Hp. split.
    + eapply wellFormed_preserved; [|exact Hp]. exact Hwf.
    + eapply preserved_paramsInRange; [exact Hp|exact Hpr].
Qed.

(** X5.  Whatever is called on an engine built for [n >= 1] LEDs, and with
    whatever arguments, every call returns: no render divides by zero or
    leaves an array, the strip length stays [n], both buffers keep exactly
    [n] cells and the note arrays their 128 and 17 cells. *)
Theorem calls_never_fault n cs :
  1 <= n ->
  exists e, calls rand_after_srand cs (LightEngine_new n) = Some e
    /\ allocated n e.
Proof.
  intros Hn.
  assert (Hgen : forall e, wellFormed e -> allocated n e ->
            succeeds (fun e' => wellFormed e' /\ allocated n e')
              (calls rand_after_srand cs e)).
  { induction cs as [|c cs IH]; intros e Hwf Hal.
    - apply succeeds_ret. split; assumption.
    - simpl. eapply succeeds_bind; [apply call_allocated; eassumption|].
      intros a [Hwa Haa]. apply IH; assumption. }
  destruct (Hgen (LightEngine_new n)) as (e & He & _ & Hal).
  - apply LightEngine_new_wellFormed, Hn.
  - apply LightEngine_new_allocated.
  - exists e. split; assumption.
Qed.

(** X6.  On an engine built for [n >= 1] LEDs and driven with data bytes,
    [getCC] answers a data byte for every control number, known or not: the
    doubled members never exceed 254 and the note-driven [ffLedStart] never
    exceeds 127. *)
Theorem getCC_is_data_byte n cs :
  1 <= n -> Forall midiCall cs ->
  exists e, calls rand_after_srand cs (LightEngine_new n) = Some e
    /\ forall ccNumber, 0 <= getCC ccNumber e <= 127.
Proof.
  intros Hn Hcs.
  assert (Hgen : forall e, wellFormed e -> paramsInRange e ->
            succeeds (fun e' => wellFormed e' /\ paramsInRange e')
              (calls rand_after_srand cs e)).
  { induction Hcs as [|c cs Hc Hcs IH]; intros e Hwf Hpr.
    - apply succeeds_ret. split; assumption.
    - simpl. eapply succeeds_bind; [apply call_paramsInRange; eassumption|].
      intros a [Hwa Hpa]. apply IH; assumption. }
  destruct (Hgen (LightEngine_new n)) as (e & He & _ & Hpr).
  - apply LightEngine_new_wellFormed, Hn.
  - apply LightEngine_new_paramsInRange.
  - exists e. split; [exact He|]. intros cc. apply getCC_range, Hpr.
Qed.

End CallInvariants.

Lemma calls_never_fault_witness :
  exists e,
    calls sample_rand
      [CallSetCC 6 9; CallSetCC 10 127; CallSetCC 5 127; CallRender;
       CallControlChange 300 (-1) 999; CallNoteOn 0 200 0; CallRender]
      (LightEngine_new 108) = Some e
    /\ allocated 108 e.
Proof.
  apply (calls_never_fault sample_rand 108). lia.
Defined.

Lemma getCC_is_data_byte_witness :
  exists e,
    calls sample_rand
      [CallSetCC 6 5; CallSetCC 4 127; CallNoteOn 3 60 90; CallRender;
       CallControlChange 1 13 127; CallNoteOff 3 60 0]
      (LightEngine_new 108) = Some e
    /\ forall ccNumber, 0 <= getCC ccNumber e <= 127.
Proof.
  apply (getCC_is_data_byte sample_rand 108).
  - lia.
  - repeat constructor; simpl; lia.
Defined.

(** ** What a foreground mode paints: rules *)

Lemma painted_refl C t : painted C (fun _ => False) t t.
Proof.
  split; [apply preserved_refl|]. split; [reflexivity|].
  split; [intros j _ []|]. split; [reflexivity|]. intros j _. right. reflexivity.
Qed.

Lemma paints_refl C t : paints C (fun _ => False) t t.
Proof. split; [apply painted_refl|reflexivity]. Qed.

Lemma painted_weaken (C C' : Z -> HSVColor -> Prop) (S S' : Z -> Prop) t t' :
  painted C S t t' ->
  (forall j c, 0 <= j < numLeds t -> C j c -> C' j c) ->
  (forall j, 0 <= j < numLeds t -> S j <-> S' j) ->
  painted C' S' t t'.
Proof.
  intros (Hp & Hb & H1 & H2 & H3) HC HS.
  split; [exact Hp|]. split; [exact Hb|]. split; [|split].
  - intros j Hj Hs. apply HS in Hs; [|exact Hj].
    destruct (H1 j Hj Hs) as (c & Hc & HCc). exists c. split; [exact Hc|].
    apply HC; assumption.
  - intros j Hj Hs. apply H2; [exact Hj|]. intros Hs'. apply Hs, HS; assumption.
  - intros j Hj. destruct (H3 j Hj) as [(c & Hc & HCc)|Hu]; [left|right; exact Hu].
    exists c. split; [exact Hc|]. apply HC; assumption.
Qed.

Lemma paints_weaken (C C' : Z -> HSVColor -> Prop) (S S' : Z -> Prop) t t' :
  paints C S t t' ->
  (forall j c, 0 <= j < numLeds t -> C j c -> C' j c) ->
  (forall j, 0 <= j < numLeds t -> S j <-> S' j) ->
  paints C' S' t t'.
Proof.
  intros [Hp Ho] HC HS. split; [|exact Ho].
  eapply painted_weaken; eassumption.
Qed.

Lemma painted_trans C (S1 S2 : Z -> Prop) a b c :
  painted C S1 a b -> painted C S2 b c ->
  painted C (fun j => S1 j \/ S2 j) a c.
Proof.
  intros (Hp1 & Hb1 & H11 & H12 & H13) (Hp2 & Hb2 & H21 & H22 & H23).
  pose proof (sameControls_numLeds _ _ (proj1 Hp1)) as En.
  rewrite En in H21, H22, H23.
  split; [eapply preserved_trans; eassumption|].
  split; [congruence|]. split; [|split].
  - intros j Hj [Hs|Hs].
    + destruct (H23 j Hj) as [Hc|Hu]; [exact Hc|].
      rewrite Hu. apply H11; assumption.
    + apply H21; assumption.
  - intros j Hj Hs. rewrite H22 by tauto. apply H12; tauto.
  - intros j Hj. destruct (H23 j Hj) as [Hc|Hu]; [left; exact Hc|].
    rewrite Hu. apply H13, Hj.
Qed.

Lemma paints_trans C (S1 S2 : Z -> Prop) a b c :
  paints C S1 a b -> paints C S2 b c ->
  paints C (fun j => S1 j \/ S2 j) a c.
Proof.
  intros [Hp1 Ho1] [Hp2 Ho2]. split; [|congruence].
  eapply painted_trans; eassumption.
Qed.

Lemma paints_preserved C S t t' : paints C S t t' -> preserved t t'.
Proof. intros [(Hp & _) _]. exact Hp. Qed.

Lemma paints_bind C (S1 S2 : Z -> Prop) t (m : option LightEngine)
    (k : LightEngine -> option LightEngine) :
  wellFormed t ->
  succeeds (paints C S1 t) m ->
  (forall a, wellFormed a -> preserved t a -> lineOffset a = lineOffset t ->
     succeeds (paints C S2 a) (k a)) ->
  succeeds (paints C (fun j => S1 j \/ S2 j) t) (m ≫= k).
Proof.
  intros Hwf Hm Hk. apply (succeeds_bind (paints C S1 t)); [exact Hm|].
  intros a Ha. eapply succeeds_mono.
  - apply Hk; [|apply (paints_preserved _ _ _ _ Ha)|apply Ha].
    eapply wellFormed_preserved; [exact Hwf|apply (paints_preserved _ _ _ _ Ha)].
  - intros c Hc. eapply paints_trans; eassumption.
Qed.

(** One store. *)
Lemma setLED_paints (C : Z -> HSVColor -> Prop) index h s v t :
  wellFormed t ->
  (0 <= index < numLeds t -> C index (mkHSV (u8 h) (u8 s) (u8 v))) ->
  succeeds (paints C (fun j => j = index) t) (setLED index h s v t).
Proof.
  intros Hwf HC.
  destruct (decide (0 <= index < numLeds t)) as [Hin|Hout].
  - assert (Hlen : numLeds t <= Z.of_nat (length (leds t)))
      by (destruct Hwf as (_ & ? & _); assumption).
    rewrite setLED_inside by assumption. apply succeeds_ret.
    split; [|reflexivity].
    split; [apply preserved_set_leds;
            [apply length_insert|apply drop_insert_lt; lia]|].
    split; [reflexivity|]. simpl. split; [|split].
    + intros j Hj ->. eexists. split; [apply list_lookup_insert_eq; lia|].
      apply HC, Hin.
    + intros j Hj Hne. apply list_lookup_insert_ne. lia.
    + intros j Hj. destruct (decide (j = index)) as [->|Hne].
      * left. eexists. split; [apply list_lookup_insert_eq; lia|].
        apply HC, Hin.
      * right. apply list_lookup_insert_ne. lia.
  - rewrite setLED_outside by assumption. apply succeeds_ret.
    eapply paints_weaken; [apply (paints_refl C)|auto|].
    intros j Hj. split; [intros []|intros ->; contradiction].
Qed.

(** A loop of painters paints the union of what its iterations paint. *)
Lemma paints_for_lt C (S : Z -> Z -> Prop) body hi step :
  0 < step ->
  forall fuel i t,
    wellFormed t -> hi - i <= Z.of_nat fuel ->
    (forall x a, i <= x < hi -> wellFormed a -> preserved t a ->
       lineOffset a = lineOffset t ->
       succeeds (paints C (S x) a) (body x a)) ->
    succeeds
      (paints C (fun j => exists m, 0 <= m /\ i + m * step < hi
                                    /\ S (i + m * step) j) t)
      (for_lt fuel i hi step body t).
Proof.
  intros Hstep. induction fuel as [|fuel IH]; intros i t Hwf Hfuel Hbody.
  - simpl. apply succeeds_ret.
    eapply paints_weaken; [apply (paints_refl C)|auto|].
    intros j Hj. split; [intros []|]. intros (m & Hm & Hlt & _). nia.
  - simpl. destruct (Z.ltb_spec i hi) as [Hlt|Hge].
    + eapply succeeds_mono.
      * apply (paints_bind C (S i)
                 (fun j => exists m, 0 <= m /\ (i + step) + m * step < hi
                                     /\ S ((i + step) + m * step) j)).
        -- exact Hwf.
        -- apply Hbody; [lia|exact Hwf|apply preserved_refl|reflexivity].
        -- intros a Hwa Hpa Hoa. apply IH; [exact Hwa|lia|].
           intros x b Hx Hwb Hpb Hob. apply Hbody; [lia|exact Hwb| |congruence].
           eapply preserved_trans; eassumption.
      * intros r Hr. eapply paints_weaken; [exact Hr|auto|].
        intros j Hj. split.
        -- intros [Hs|(m & Hm & Hlt' & Hs)].
           ++ exists 0. rewrite Z.mul_0_l, Z.add_0_r. repeat split; [lia|lia|exact Hs].
           ++ exists (m + 1).
              replace (i + (m + 1) * step) with (i + step + m * step) by lia.
              repeat split; [lia|lia|exact Hs].
        -- intros (m & Hm & Hlt' & Hs).
           destruct (decide (m = 0)) as [->|Hne].
           ++ left. rewrite Z.mul_0_l, Z.add_0_r in Hs. exact Hs.
           ++ right. exists (m - 1).
              replace (i + step + (m - 1) * step) with (i + m * step) by lia.
              repeat split; [lia|lia|exact Hs].
    + apply succeeds_ret.
      eapply paints_weaken; [apply (paints_refl C)|auto|].
      intros j Hj. split; [intros []|]. intros (m & Hm & Hlt & _). nia.
Qed.

Lemma paints_for_loop C (S : Z -> Z -> Prop) body lo hi t :
  wellFormed t ->
  (forall i a, lo <= i < hi -> wellFormed a -> preserved t a ->
     lineOffset a = lineOffset t ->
     succeeds (paints C (S i) a) (body i a)) ->
  succeeds (paints C (fun j => exists i, lo <= i < hi /\ S i j) t)
    (for_loop lo hi 1 body t).
Proof.
  intros Hwf Hbody. unfold for_loop. eapply succeeds_mono.
  - apply (paints_for_lt C S body hi 1); [lia|exact Hwf|lia|exact Hbody].
  - intros r Hr. eapply paints_weaken; [exact Hr|auto|].
    intros j Hj. split.
    + intros (m & Hm & Hlt & Hs). exists (lo + m * 1). split; [lia|exact Hs].
    + intros (i & Hi & Hs). exists (i - lo).
      replace (lo + (i - lo) * 1) with i by lia.
      repeat split; [lia|lia|exact Hs].
Qed.

(** From a foreground pass to what [render] shows. *)

Lemma painted_after_lineOffset C S off t t' :
  paints C S (set_lineOffset off t) t' -> painted C S t t'.
Proof.
  intros [(Hp & Hb & H1 & H2 & H3) _].
  split; [eapply preserved_trans; [apply preserved_set_lineOffset|exact Hp]|].
  split; [exact Hb|]. split; [exact H1|]. split; [exact H2|exact H3].
Qed.

Section RenderShows.

Variable rand_after_srand : Z -> Z.

Lemma render_shows C S e :
  wellFormed e ->
  (forall a, wellFormed a -> sameControls e a ->
     frameCounter a = u32 (frameCounter e + 1) ->
     succeeds (painted C S a) (renderForeground rand_after_srand a)) ->
  exists e', render rand_after_srand e = Some e' /\ shows C S e e'.
Proof.
  intros Hwf Hfg. unfold render.
  destruct (updateBackground_ledBuffer
              (set_frameCounter (u32 (frameCounter e + 1)) e) Hwf)
    as (a & Ha & Hpa & Hbuf).
  rewrite Ha. simpl.
  assert (Hsa : sameControls e a).
  { eapply sameControls_trans; [|exact (proj1 Hpa)].
    apply sameControls_set_frameCounter, sameControls_refl. }
  assert (Hwa : wellFormed a)
    by (eapply wellFormed_preserved; [|exact Hpa]; exact Hwf).
  assert (Hfc : frameCounter a = u32 (frameCounter e + 1))
    by (destruct Hpa as (_ & _ & _ & _ & _ & ->); reflexivity).
  destruct (Hfg a Hwa Hsa Hfc) as (e' & -> & Hp & Hb & H1 & H2 & _).
  pose proof (sameControls_numLeds _ _ Hsa) as En.
  exists e'. split; [reflexivity|]. exists a. split; [exact Ha|]. split.
  - rewrite (sameControls_numLeds _ _ (proj1 Hp)). exact En.
  - intros j Hj. rewrite En in H1, H2. split; [apply H1, Hj|].
    intros Hs. rewrite (H2 j Hj Hs).
    unfold ledBuffer in Hbuf.
    assert (Hlk : take (Z.to_nat (numLeds a)) (leds a) !! Z.to_nat j
                  = take (Z.to_nat (numLeds a)) (background a) !! Z.to_nat j)
      by (rewrite Hbuf; reflexivity).
    rewrite !lookup_take_lt in Hlk by lia. exact Hlk.
Qed.

End RenderShows.

(** ** The single-colour and rainbow modes *)

Lemma renderRainbowWheel_paints e a :
  wellFormed a -> sameControls e a ->
  succeeds
    (painted
       (fun j c => c = rainbowColour (ffHue e) (ffSat e) (ffBright e)
                         (numLeds e) j)
       (fun _ => True) a)
    (renderRainbowWheel a).
Proof.
  intros Hwa Hsa. unfold renderRainbowWheel.
  rewrite idiv_Some by (destruct Hwa; lia). simpl.
  eapply succeeds_mono.
  - apply (paints_for_loop
             (fun j c => c = rainbowColour (ffHue e) (ffSat e) (ffBright e)
                               (numLeds e) j)
             (fun i j => j = i)); [exact Hwa|].
    intros i b Hi Hwb Hpb Hob. apply setLED_paints; [exact Hwb|].
    intros _. unfold rainbowColour. controls Hpb. controls Hsa. reflexivity.
  - intros r [Hr _]. eapply painted_weaken; [exact Hr|auto|].
    intros j Hj. split; [trivial|]. intros _. exists j. split; [lia|reflexivity].
Qed.

Lemma renderMovingDots_paints e a :
  wellFormed a -> sameControls e a -> lines e <> 0 ->
  succeeds (painted (fun _ c => c = fgColour e) (onLine e) a)
    (renderMovingDots a).
Proof.
  intros Hwa Hsa Hlines. unfold renderMovingDots.
  assert (El : lines a = lines e) by (controls Hsa; reflexivity).
  rewrite El. destruct (Z.eqb_spec (lines e) 0); [contradiction|].
  rewrite idiv_Some by exact Hlines. simpl.
  eapply succeeds_mono.
  - apply (paints_for_loop (fun _ c => c = fgColour e)
             (fun line j => exists led,
                  ffLedStart e <= led < ffLedStart e + ffLedLength e
                  /\ j = Z.rem (led + line * Z.quot (numLeds e) (lines e))
                           (numLeds e))); [exact Hwa|].
    intros line b Hline Hwb Hpb Hob. simpl in Hpb, Hob.
    assert (Hsb : sameControls e b).
    { eapply sameControls_trans; [exact Hsa|].
      eapply sameControls_trans; [|exact (proj1 Hpb)].
      apply sameControls_set_lineOffset, sameControls_refl. }
    replace (ffLedStart b) with (ffLedStart e) by (controls Hsb; reflexivity).
    replace (ffLedLength b) with (ffLedLength e) by (controls Hsb; reflexivity).
    apply (paints_for_loop (fun _ c => c = fgColour e)
             (fun led j => j = Z.rem (led + line * Z.quot (numLeds e) (lines e))
                                 (numLeds e))); [exact Hwb|].
    intros led c Hled Hwc Hpc Hoc.
    assert (Hsc : sameControls e c)
      by (eapply sameControls_trans; [exact Hsb|exact (proj1 Hpc)]).
    rewrite imod_Some by (destruct Hwc; lia). simpl.
    replace (Z.rem (led + line * lineOffset c) (numLeds c))
      with (Z.rem (led + line * Z.quot (numLeds e) (lines e)) (numLeds e)).
    + apply setLED_paints; [exact Hwc|]. intros _. unfold fgColour.
      controls Hsc. reflexivity.
    + rewrite Hoc, Hob. controls Hsa. controls Hsc. reflexivity.
  - intros r Hr. eapply painted_weaken;
      [exact (painted_after_lineOffset _ _ _ _ _ Hr)|auto|].
    intros j Hj. unfold onLine, cometIndex. rewrite El. split.
    + intros (line & Hline & led & Hled & ->).
      exists line, (led - ffLedStart e). split; [exact Hline|]. split; [lia|].
      f_equal. lia.
    + intros (line & k & Hline & Hk & ->).
      exists line. split; [exact Hline|]. exists (ffLedStart e + k).
      split; [lia|reflexivity].
Qed.

Lemma renderMoveStartLED_paints e a :
  wellFormed a -> sameControls e a -> lines e <> 0 ->
  succeeds
    (painted
       (fun j c => exists line k,
            0 <= line < lines e /\ 0 <= k < ffLedLength e
            /\ j = cometIndex e line k /\ c = moveStartColour e k)
       (onLine e) a)
    (renderMoveStartLED a).
Proof.
  intros Hwa Hsa Hlines. unfold renderMoveStartLED.
  assert (El : lines a = lines e) by (controls Hsa; reflexivity).
  rewrite El. destruct (Z.eqb_spec (lines e) 0); [contradiction|].
  rewrite idiv_Some by exact Hlines. simpl.
  rewrite idiv_Some by (destruct Hwa; lia). simpl.
  set (C := fun j c => exists line k,
            0 <= line < lines e /\ 0 <= k < ffLedLength e
            /\ j = cometIndex e line k /\ c = moveStartColour e k).
  eapply succeeds_mono.
  - apply (paints_for_loop C
             (fun line j => exists led,
                  ffLedStart e <= led < ffLedStart e + ffLedLength e
                  /\ j = Z.rem (led + line * Z.quot (numLeds e) (lines e))
                           (numLeds e))); [exact Hwa|].
    intros line b Hline Hwb Hpb Hob. simpl in Hpb, Hob.
    assert (Hsb : sameControls e b).
    { eapply sameControls_trans; [exact Hsa|].
      eapply sameControls_trans; [|exact (proj1 Hpb)].
      apply sameControls_set_lineOffset, sameControls_refl. }
    replace (ffLedStart b) with (ffLedStart e) by (controls Hsb; reflexivity).
    replace (ffLedLength b) with (ffLedLength e) by (controls Hsb; reflexivity).
    apply (paints_for_loop C
             (fun led j => j = Z.rem (led + line * Z.quot (numLeds e) (lines e))
                                 (numLeds e))); [exact Hwb|].
    intros led c Hled Hwc Hpc Hoc.
    assert (Hsc : sameControls e c)
      by (eapply sameControls_trans; [exact Hsb|exact (proj1 Hpc)]).
    rewrite imod_Some by (destruct Hwc; lia). simpl.
    replace (Z.rem (led + line * lineOffset c) (numLeds c))
      with (Z.rem (led + line * Z.quot (numLeds e) (lines e)) (numLeds e))
      by (rewrite Hoc, Hob; controls Hsa; controls Hsc; reflexivity).
    apply setLED_paints; [exact Hwc|]. intros _.
    exists line, (led - ffLedStart e).
    split; [rewrite El in Hline; exact Hline|]. split; [lia|]. split.
    + unfold cometIndex. f_equal. lia.
    + unfold moveStartColour, rainbowColour. controls Hsc. controls Hsa.
      replace (ffLedStart e + (led - ffLedStart e)) with led by lia.
      reflexivity.
  - intros r Hr. eapply painted_weaken;
      [exact (painted_after_lineOffset _ _ _ _ _ Hr)|auto|].
    intros j Hj. unfold onLine, cometIndex. rewrite El. split.
    + intros (line & Hline & led & Hled & ->).
      exists line, (led - ffLedStart e). split; [exact Hline|]. split; [lia|].
      f_equal. lia.
    + intros (line & k & Hline & Hk & ->).
      exists line. split; [exact Hline|]. exists (ffLedStart e + k).
      split; [lia|reflexivity].
Qed.

Lemma renderBackAndForth_paints e a :
  wellFormed a -> sameControls e a -> ffLedLength e <> 0 ->
  succeeds (painted (fun _ c => c = fgColour e) (inBlock e) a)
    (renderBackAndForth a).
Proof.
  intros Hwa Hsa Hlen. unfold renderBackAndForth.
  assert (El : ffLedLength a = ffLedLength e) by (controls Hsa; reflexivity).
  assert (En : numLeds a = numLeds e) by (controls Hsa; reflexivity).
  assert (Hpos : 0 < ffLedLength e).
  { destruct Hwa as (_ & _ & _ & _ & _ & ? & _). lia. }
  rewrite El, En. destruct (Z.eqb_spec (ffLedLength e) 0); [contradiction|].
  unfold for_loop at 1. eapply succeeds_mono.
  - apply (paints_for_lt (fun _ c => c = fgColour e)
             (fun block j => exists led,
                  0 <= led < ffLedLength e
                  /\ j = Z.rem (ffLedStart e * ffLedLength e + block + led)
                           (numLeds e))
             _ (numLeds e) (2 * ffLedLength e)); [lia|exact Hwa|lia|].
    intros block b Hblock Hwb Hpb Hob.
    assert (Hsb : sameControls e b)
      by (eapply sameControls_trans; [exact Hsa|exact (proj1 Hpb)]).
    replace (ffLedLength b) with (ffLedLength e) by (controls Hsb; reflexivity).
    apply (paints_for_loop (fun _ c => c = fgColour e)
             (fun led j => j = Z.rem (ffLedStart e * ffLedLength e + block + led)
                                 (numLeds e))); [exact Hwb|].
    intros led c Hled Hwc Hpc Hoc.
    assert (Hsc : sameControls e c)
      by (eapply sameControls_trans; [exact Hsb|exact (proj1 Hpc)]).
    rewrite imod_Some by (destruct Hwc; lia). simpl.
    replace (Z.rem (ffLedStart c * ffLedLength c + block + led) (numLeds c))
      with (Z.rem (ffLedStart e * ffLedLength e + block + led) (numLeds e))
      by (controls Hsc; reflexivity).
    apply setLED_paints; [exact Hwc|]. intros _. unfold fgColour.
    controls Hsc. reflexivity.
  - intros r [Hr _]. eapply painted_weaken; [exact Hr|auto|].
    intros j Hj. unfold inBlock. split.
    + intros (m & Hm & Hlt & led & Hled & ->).
      exists m, led. rewrite Z.add_0_l in *. repeat split; try lia.
    + intros (m & k & Hm & Hlt & Hk & ->).
      exists m. rewrite Z.add_0_l. split; [exact Hm|]. split; [exact Hlt|].
      exists k. split; [exact Hk|reflexivity].
Qed.

Lemma renderColorSinusoid_paints e a :
  wellFormed a -> sameControls e a -> ffLedLength e <> 0 ->
  succeeds
    (painted
       (sinusoidColour (ffLedStart e) (ffLedLength e) (ffHue e) (cAmp e)
          (ffSat e) (ffBright e))
       (fun _ => True) a)
    (renderColorSinusoid a).
Proof.
  intros Hwa Hsa Hlen. unfold renderColorSinusoid.
  assert (El : ffLedLength a = ffLedLength e) by (controls Hsa; reflexivity).
  rewrite El. destruct (Z.eqb_spec (ffLedLength e) 0); [contradiction|].
  eapply succeeds_mono.
  - apply (paints_for_loop
             (sinusoidColour (ffLedStart e) (ffLedLength e) (ffHue e) (cAmp e)
                (ffSat e) (ffBright e))
             (fun i j => j = i)); [exact Hwa|].
    intros i b Hi Hwb Hpb Hob.
    assert (Hsb : sameControls e b)
      by (eapply sameControls_trans; [exact Hsa|exact (proj1 Hpb)]).
    replace (sinusoidHue i (ffLedStart b) (ffLedLength b) (ffHue b) (cAmp b))
      with (sinusoidHue i (ffLedStart e) (ffLedLength e) (ffHue e) (cAmp e))
      by (controls Hsb; reflexivity).
    destruct (sinusoidHue_total i (ffLedStart e) (ffLedLength e) (ffHue e)
                (cAmp e)) as (x & Hx).
    + lia.
    + destruct Hwa as (_ & _ & _ & _ & Hs & _).
      assert (ffLedStart a = ffLedStart e) by (controls Hsa; reflexivity).
      lia.
    + destruct Hwa as (_ & _ & _ & _ & _ & Hl & _). lia.
    + rewrite Hx. simpl. apply setLED_paints; [exact Hwb|].
      intros _. exists x. split; [exact Hx|]. controls Hsb. reflexivity.
  - intros r [Hr _]. eapply painted_weaken; [exact Hr|auto|].
    intros j Hj. split; [trivial|]. intros _. exists j. split; [lia|reflexivity].
Qed.

(** ** What [render] shows in the single-colour and rainbow modes *)

Lemma rem_is_mod a b : 0 <= a -> 0 < b -> Z.rem a b = a mod b.
Proof. intros Ha Hb. apply Z.rem_mod_nonneg; lia. Qed.

Lemma rainbowColour_step hue sat bright n j :
  0 <= hue -> 1 <= n -> 0 <= j ->
  h (rainbowColour hue sat bright n (j + 1))
  = (h (rainbowColour hue sat bright n j) + Z.quot 255 n) mod 256.
Proof.
  intros Hh Hn Hj. unfold rainbowColour, u8. simpl.
  assert (Hinc : 0 <= Z.quot 255 n) by (apply Z.quot_pos; lia).
  rewrite !rem_is_mod by nia. rewrite !Z.mod_mod by lia.
  rewrite Zplus_mod_idemp_l. f_equal. lia.
Qed.

Lemma rainbowColour_long_strip hue sat bright n j :
  255 < n ->
  rainbowColour hue sat bright n j = rainbowColour hue sat bright n 0.
Proof.
  intros Hn. unfold rainbowColour.
  rewrite (Z.quot_small 255 n) by lia. rewrite !Z.mul_0_r. reflexivity.
Qed.

Lemma sinusoidHue_periodic i start len hue amp :
  0 <= i + start -> 0 < len ->
  sinusoidHue (i + len) start len hue amp = sinusoidHue i start len hue amp.
Proof.
  intros Hi Hlen. unfold sinusoidHue.
  rewrite !idiv_Some by lia. simpl.
  replace ((i + len + start) * 64) with ((i + start) * 64 + 64 * len) by lia.
  rewrite Z.quot_add by nia.
  assert (Hq : 0 <= Z.quot ((i + start) * 64) len) by (apply Z.quot_pos; lia).
  replace (Z.quot ((i + start) * 64) len + 64)
    with (Z.quot ((i + start) * 64) len + 1 * 64) by lia.
  rewrite Z.rem_add by nia. reflexivity.
Qed.

Lemma sinusoidHue_flat i start len hue x :
  0 <= hue -> sinusoidHue i start len hue 0 = Some x -> u8 x = u8 hue.
Proof.
  intros Hh. unfold sinusoidHue.
  destruct (idiv ((i + start) * 64) len) as [q|]; [|discriminate]. simpl.
  destruct (arr_get COLOR_PHASE (Z.rem q 64)) as [ph|]; [|discriminate].
  simpl. intros [= <-]. rewrite Z.mul_0_l. change (Z.quot 0 100) with 0.
  rewrite Z.add_0_r. unfold u8. rewrite rem_is_mod by lia.
  rewrite Z.mod_mod by lia.
  replace (256 + hue) with (hue + 1 * 256) by lia.
  apply Z_mod_plus_full.
Qed.

Section ModeTheorems.

Variable rand_after_srand : Z -> Z.

Lemma renderForeground_at m (mode : LightEngine -> option LightEngine) e a :
  sameControls e a -> ffMode e = m ->
  (forall x, match m with
             | 0 => renderNotesToDrives x
             | 1 => renderRainbowWheel x
             | 2 => renderMovingDots x
             | 3 => renderComets x
             | 4 => renderBackAndForth x
             | 5 => renderMoveStartLED x
             | 6 => renderColorSinusoid x
             | 7 => renderFlashLights rand_after_srand x
             | 8 => renderOceanWaves x
             | 9 => renderOpposingWaves x
             | _ => Some x
             end = mode x) ->
  renderForeground rand_after_srand a = mode a.
Proof.
  intros Hsa Hm Hmode. unfold renderForeground.
  replace (ffMode a) with m by (controls Hsa; symmetry; exact Hm).
  apply Hmode.
Qed.

Lemma render_rainbowWheel e :
  wellFormed e -> ffMode e = 1 ->
  exists e', render rand_after_srand e = Some e'
    /\ numLeds e' = numLeds e
    /\ forall j, 0 <= j < numLeds e ->
         leds e' !! Z.to_nat j
         = Some (rainbowColour (ffHue e) (ffSat e) (ffBright e) (numLeds e) j).
Proof.
  intros Hwf Hm.
  destruct (render_shows rand_after_srand
              (fun j c => c = rainbowColour (ffHue e) (ffSat e) (ffBright e)
                                (numLeds e) j)
              (fun _ => True) e Hwf) as (e' & He' & a & _ & Hn & Hshow).
  - intros a Hwa Hsa _.
    rewrite (renderForeground_at 1 renderRainbowWheel e a Hsa Hm)
      by reflexivity.
    apply renderRainbowWheel_paints; assumption.
  - exists e'. split; [exact He'|]. split; [exact Hn|].
    intros j Hj. destruct (proj1 (Hshow j Hj) I) as (c & Hc & ->). exact Hc.
Qed.

(** X7.  Rainbow wheel: the foreground covers the whole strip, so nothing of the
    background is seen.  LED [j] has the hue
    [(ffHue + j * (255 / numLeds)) % 256]: each LED is the previous one plus
    [255 / numLeds], modulo 256, and on a strip of more than 255 LEDs that
    step is zero and all LEDs have one colour. *)
Theorem rainbowWheel_covers_strip e :
  wellFormed e -> ffMode e = 1 ->
  (exists e', render rand_after_srand e = Some e'
     /\ numLeds e' = numLeds e
     /\ forall j, 0 <= j < numLeds e ->
          leds e' !! Z.to_nat j
          = Some (rainbowColour (ffHue e) (ffSat e) (ffBright e) (numLeds e) j))
  /\ (0 <= ffHue e -> forall j, 0 <= j ->
        h (rainbowColour (ffHue e) (ffSat e) (ffBright e) (numLeds e) (j + 1))
        = (h (rainbowColour (ffHue e) (ffSat e) (ffBright e) (numLeds e) j)
           + Z.quot 255 (numLeds e)) mod 256)
  /\ (255 < numLeds e -> forall j,
        rainbowColour (ffHue e) (ffSat e) (ffBright e) (numLeds e) j
        = rainbowColour (ffHue e) (ffSat e) (ffBright e) (numLeds e) 0).
Proof.
  intros Hwf Hm. split; [|split].
  - apply render_rainbowWheel; assumption.
  - intros Hh j Hj. apply rainbowColour_step; [exact Hh| |exact Hj].
    destruct Hwf; lia.
  - intros Hn j. apply rainbowColour_long_strip, Hn.
Qed.

(** X8.  Moving dots: the LEDs on the lines show the foreground colour, all
    others the background.  Line [line] covers the [ffLedLength] LEDs from
    [ffLedStart + line * (numLeds / lines)] on, wrapped around the strip. *)
Theorem movingDots_shown e :
  wellFormed e -> ffMode e = 2 -> lines e <> 0 ->
  exists e', render rand_after_srand e = Some e'
    /\ shows (fun _ c => c = fgColour e) (onLine e) e e'.
Proof.
  intros Hwf Hm Hlines. apply render_shows; [exact Hwf|].
  intros a Hwa Hsa _.
  rewrite (renderForeground_at 2 renderMovingDots e a Hsa Hm) by reflexivity.
  apply renderMovingDots_paints; assumption.
Qed.

(** X9.  Back and forth: blocks of [ffLedLength] LEDs, one every
    [2 * ffLedLength] LEDs up to the strip length, shifted by
    [ffLedStart * ffLedLength] and wrapped around the strip, show the
    foreground colour; all other LEDs show the background. *)
Theorem backAndForth_shown e :
  wellFormed e -> ffMode e = 4 -> ffLedLength e <> 0 ->
  exists e', render rand_after_srand e = Some e'
    /\ shows (fun _ c => c = fgColour e) (inBlock e) e e'.
Proof.
  intros Hwf Hm Hlen. apply render_shows; [exact Hwf|].
  intros a Hwa Hsa _.
  rewrite (renderForeground_at 4 renderBackAndForth e a Hsa Hm) by reflexivity.
  apply renderBackAndForth_paints; assumption.
Qed.

(** X10.  Move-start mode: the same LEDs as the moving dots are painted, each
    with the saturation and brightness of the foreground and the rainbow hue
    of an unwrapped position [ffLedStart + k] that lands on it; all other
    LEDs show the background. *)
Theorem moveStartLED_shown e :
  wellFormed e -> ffMode e = 5 -> lines e <> 0 ->
  exists e', render rand_after_srand e = Some e'
    /\ shows
         (fun j c => exists line k,
              0 <= line < lines e /\ 0 <= k < ffLedLength e
              /\ j = cometIndex e line k /\ c = moveStartColour e k)
         (onLine e) e e'.
Proof.
  intros Hwf Hm Hlines. apply render_shows; [exact Hwf|].
  intros a Hwa Hsa _.
  rewrite (renderForeground_at 5 renderMoveStartLED e a Hsa Hm) by reflexivity.
  apply renderMoveStartLED_paints; assumption.
Qed.

(** X11.  Colour sinusoid with a non-zero length: the foreground covers the whole
    strip with hues read from the phase table; the pattern repeats every
    [ffLedLength] LEDs, and with a colour amplitude of zero every LED has the
    foreground colour. *)
Theorem colorSinusoid_covers_strip e :
  wellFormed e -> ffMode e = 6 -> ffLedLength e <> 0 ->
  exists e', render rand_after_srand e = Some e'
    /\ numLeds e' = numLeds e
    /\ (forall j, 0 <= j < numLeds e ->
          exists c, leds e' !! Z.to_nat j = Some c
            /\ sinusoidColour (ffLedStart e) (ffLedLength e) (ffHue e)
                 (cAmp e) (ffSat e) (ffBright e) j c)
    /\ (forall j, 0 <= j -> j + ffLedLength e < numLeds e ->
          leds e' !! Z.to_nat (j + ffLedLength e) = leds e' !! Z.to_nat j)
    /\ (cAmp e = 0 -> 0 <= ffHue e -> forall j, 0 <= j < numLeds e ->
          leds e' !! Z.to_nat j = Some (fgColour e)).
Proof.
  intros Hwf Hm Hlen.
  destruct (render_shows rand_after_srand
              (sinusoidColour (ffLedStart e) (ffLedLength e) (ffHue e)
                 (cAmp e) (ffSat e) (ffBright e))
              (fun _ => True) e Hwf) as (e' & He' & a & _ & Hn & Hshow).
  { intros a Hwa Hsa _.
    rewrite (renderForeground_at 6 renderColorSinusoid e a Hsa Hm)
      by reflexivity.
    apply renderColorSinusoid_paints; assumption. }
  assert (Hall : forall j, 0 <= j < numLeds e ->
            exists c, leds e' !! Z.to_nat j = Some c
              /\ sinusoidColour (ffLedStart e) (ffLedLength e) (ffHue e)
                   (cAmp e) (ffSat e) (ffBright e) j c)
    by (intros j Hj; exact (proj1 (Hshow j Hj) I)).
  assert (Hpos : 0 < ffLedLength e /\ 0 <= ffLedStart e).
  { destruct Hwf as (_ & _ & _ & _ & ? & ? & _). lia. }
  exists e'. split; [exact He'|]. split; [exact Hn|]. split; [exact Hall|].
  split.
  - intros j Hj Hlt.
    destruct (Hall j) as (c & Hc & x & Hx & ->); [lia|].
    destruct (Hall (j + ffLedLength e)) as (c' & Hc' & x' & Hx' & ->); [lia|].
    rewrite sinusoidHue_periodic in Hx' by lia.
    rewrite Hc, Hc'. congruence.
  - intros Hamp Hh j Hj.
    destruct (Hall j Hj) as (c & Hc & x & Hx & ->).
    rewrite Hc. unfold fgColour. rewrite Hamp in Hx.
    rewrite (sinusoidHue_flat _ _ _ _ _ Hh Hx). reflexivity.
Qed.

Lemma renderFlashLights_paints e a :
  wellFormed a -> sameControls e a ->
  succeeds
    (painted (fun _ c => c = fgColour e)
       (fun j => j = Z.rem (rand_after_srand (frameCounter a)) (numLeds e)) a)
    (renderFlashLights rand_after_srand a).
Proof.
  intros Hwa Hsa. unfold renderFlashLights.
  rewrite imod_Some by (destruct Hwa; lia). simpl.
  replace (numLeds a) with (numLeds e) by (controls Hsa; reflexivity).
  eapply succeeds_mono.
  - apply (setLED_paints (fun _ c => c = fgColour e)); [exact Hwa|].
    intros _. unfold fgColour. controls Hsa. reflexivity.
  - intros r [Hr _]. exact Hr.
Qed.

(** X12.  Flash: one LED is painted per frame, the one whose index is the random
    number drawn for the advanced frame counter, modulo the strip length;
    every other LED shows the background. *)
Theorem flash_one_led e :
  wellFormed e -> ffMode e = 7 ->
  exists e', render rand_after_srand e = Some e'
    /\ shows (fun _ c => c = fgColour e)
         (fun j => j = Z.rem (rand_after_srand (u32 (frameCounter e + 1)))
                         (numLeds e))
         e e'.
Proof.
  intros Hwf Hm. apply render_shows; [exact Hwf|].
  intros a Hwa Hsa Hfc.
  rewrite (renderForeground_at 7 (renderFlashLights rand_after_srand) e a Hsa Hm)
    by reflexivity.
  rewrite <- Hfc. apply renderFlashLights_paints; assumption.
Qed.

(** X13.  Degenerate parameters: with no line (modes 2, 3, 5), no length (modes
    3, 4, 6) or a clamped amplitude of zero or less (modes 8, 9) the
    foreground returns before it divides or paints, and [render] shows the
    background on every LED. *)
Theorem degenerate_shows_background e :
  wellFormed e -> degenerate e ->
  exists e', render rand_after_srand e = Some e'
    /\ shows (fun _ _ => False) (fun _ => False) e e'.
Proof.
  intros Hwf Hdeg. apply render_shows; [exact Hwf|].
  intros a Hwa Hsa _.
  assert (Hfg : renderForeground rand_after_srand a = Some a).
  { unfold degenerate in Hdeg.
    destruct Hdeg as [[Hm H]|[[Hm H]|[[Hm H]|[[Hm H]|[[Hm H]|[[Hm H]|[Hm H]]]]]]].
    - rewrite (renderForeground_at 2 renderMovingDots e a Hsa Hm) by reflexivity.
      unfold renderMovingDots. controls Hsa. rewrite H. reflexivity.
    - rewrite (renderForeground_at 3 renderComets e a Hsa Hm) by reflexivity.
      unfold renderComets. controls Hsa.
      destruct H as [-> | ->]; [reflexivity|].
      rewrite orb_true_r. reflexivity.
    - rewrite (renderForeground_at 4 renderBackAndForth e a Hsa Hm) by reflexivity.
      unfold renderBackAndForth. controls Hsa. rewrite H. reflexivity.
    - rewrite (renderForeground_at 5 renderMoveStartLED e a Hsa Hm) by reflexivity.
      unfold renderMoveStartLED. controls Hsa. rewrite H. reflexivity.
    - rewrite (renderForeground_at 6 renderColorSinusoid e a Hsa Hm) by reflexivity.
      unfold renderColorSinusoid. controls Hsa. rewrite H. reflexivity.
    - rewrite (renderForeground_at 8 renderOceanWaves e a Hsa Hm) by reflexivity.
      unfold renderOceanWaves. rewrite (oceanAmp_sameControls _ _ Hsa).
      destruct (Z.leb_spec (oceanAmp e) 0); [reflexivity|lia].
    - rewrite (renderForeground_at 9 renderOpposingWaves e a Hsa Hm) by reflexivity.
      unfold renderOpposingWaves. rewrite (opposingAmp_sameControls _ _ Hsa).
      destruct (Z.leb_spec (opposingAmp e) 0); [reflexivity|lia]. }
  rewrite Hfg. apply succeeds_ret, painted_refl.
Qed.

End ModeTheorems.

(** ** What the background pass fills in *)

(** A loop that stores one colour of [C] in every background cell. *)
Lemma background_fill (C : Z -> HSVColor -> Prop) body e :
  wellFormed e ->
  (forall i a, 0 <= i < numLeds e -> wellFormed a -> preserved e a ->
     exists hue sat bright,
       body i a = setBackground i hue sat bright a
       /\ C i (mkHSV (u8 hue) (u8 sat) (u8 bright))) ->
  succeeds
    (fun e' => preserved e e'
       /\ forall i, 0 <= i < numLeds e ->
            exists c, background e' !! Z.to_nat i = Some c /\ C i c)
    (for_loop 0 (numLeds e) 1 body e).
Proof.
  intros Hwf Hbody.
  apply (succeeds_for_count
           (fun j t => preserved e t
              /\ forall i, 0 <= i < j ->
                   exists c, background t !! Z.to_nat i = Some c /\ C i c)).
  - destruct Hwf; lia.
  - split; [apply preserved_refl|]. intros i Hi. lia.
  - intros j t Hj [Hpt Hfill].
    assert (Hwt : wellFormed t) by (eapply wellFormed_preserved; eassumption).
    assert (En : numLeds t = numLeds e) by (controls Hpt; reflexivity).
    assert (Hlen : numLeds t <= Z.of_nat (length (background t)))
      by (destruct Hwt as (_ & _ & ? & _); assumption).
    destruct (Hbody j t Hj Hwt Hpt) as (hue & sat & bright & -> & HC).
    unfold setBackground. rewrite arr_set_Some by lia. simpl.
    apply succeeds_ret. split.
    + eapply preserved_trans; [exact Hpt|].
      apply preserved_set_background;
        [apply length_insert|apply drop_insert_lt; lia].
    + intros i Hi. simpl.
      destruct (decide (i = j)) as [->|Hne].
      * eexists. split; [apply list_lookup_insert_eq; lia|exact HC].
      * rewrite list_lookup_insert_ne by lia. apply Hfill. lia.
Qed.

(** After the copy the LED buffer holds what the background holds. *)
Lemma copyBackground_cells (C : Z -> HSVColor -> Prop) e b :
  wellFormed e -> preserved e b ->
  (forall i, 0 <= i < numLeds e ->
     exists c, background b !! Z.to_nat i = Some c /\ C i c) ->
  exists a, copyBackground b = Some a
    /\ numLeds a = numLeds e
    /\ forall i, 0 <= i < numLeds e ->
         exists c, background a !! Z.to_nat i = Some c
           /\ leds a !! Z.to_nat i = Some c /\ C i c.
Proof.
  intros Hwf Hpb Hfill.
  assert (Hwb : wellFormed b) by (eapply wellFormed_preserved; eassumption).
  assert (En : numLeds b = numLeds e) by (controls Hpb; reflexivity).
  rewrite (copyBackground_spec b Hwb). eexists. split; [reflexivity|].
  split; [exact En|]. intros i Hi. simpl.
  destruct (Hfill i Hi) as (c & Hc & HC). exists c.
  split; [exact Hc|]. split; [|exact HC].
  destruct Hwb as (_ & _ & Hb & _).
  rewrite lookup_app_l by (rewrite length_take; lia).
  rewrite lookup_take_lt by lia. exact Hc.
Qed.

Lemma updateBackground_at m (mode : LightEngine -> option LightEngine) e :
  bgMode e = m ->
  match m with
  | 0 => renderFlatBackground e
  | 1 => renderRainbowBackground e
  | 2 => renderSinusoidBackground e
  | _ => renderFlatBackground e
  end = mode e ->
  updateBackground e = mode e ≫= copyBackground.
Proof. intros Hm Hmode. unfold updateBackground. rewrite Hm, Hmode. reflexivity. Qed.

Lemma updateBackground_flat e :
  wellFormed e -> bgMode e = 0 ->
  exists a, updateBackground e = Some a
    /\ numLeds a = numLeds e
    /\ forall j, 0 <= j < numLeds e ->
         background a !! Z.to_nat j = Some (flatColour e)
         /\ leds a !! Z.to_nat j = Some (flatColour e).
Proof.
  intros Hwf Hm.
  rewrite (updateBackground_at 0 renderFlatBackground e Hm eq_refl).
  destruct (renderFlatBackground_fill e Hwf) as (b & -> & Hpb & Hfill).
  simpl.
  destruct (copyBackground_cells (fun _ c => c = flatColour e) e b Hwf Hpb)
    as (a & -> & Hn & Hcells).
  { intros j Hj. exists (flatColour e). split; [apply Hfill, Hj|reflexivity]. }
  exists a. split; [reflexivity|]. split; [exact Hn|].
  intros j Hj. destruct (Hcells j Hj) as (c & Hb & Hl & ->).
  split; assumption.
Qed.

Lemma rainbowBackground_cells e :
  wellFormed e ->
  succeeds
    (fun a => numLeds a = numLeds e
       /\ forall j, 0 <= j < numLeds e ->
            background a !! Z.to_nat j
            = Some (rainbowColour (bgHue e) (bgSat e) (bgBright e)
                      (numLeds e) j)
            /\ leds a !! Z.to_nat j
               = Some (rainbowColour (bgHue e) (bgSat e) (bgBright e)
                         (numLeds e) j))
    (renderRainbowBackground e ≫= copyBackground).
Proof.
  intros Hwf. unfold renderRainbowBackground.
  rewrite idiv_Some by (destruct Hwf; lia). simpl.
  destruct (background_fill
              (fun j c => c = rainbowColour (bgHue e) (bgSat e) (bgBright e)
                                (numLeds e) j)
              (fun i e0 =>
                 setBackground i
                   (Z.rem (bgHue e0 + i * Z.quot 255 (numLeds e)) 256)
                   (bgSat e0) (bgBright e0) e0) e Hwf)
    as (b & -> & Hpb & Hfill).
  { intros i a Hi Hwa Hpa. do 3 eexists. split; [reflexivity|].
    unfold rainbowColour. controls Hpa. reflexivity. }
  simpl.
  destruct (copyBackground_cells _ e b Hwf Hpb Hfill) as (a & -> & Hn & Hcells).
  apply succeeds_ret. split; [exact Hn|].
  intros j Hj. destruct (Hcells j Hj) as (c & Hb & Hl & ->).
  split; assumption.
Qed.

(** X14.  Rainbow background: the pass returns with every cell of the background
    and of the LED buffer at the rainbow colour of its index, hue
    [(bgHue + j * (255 / numLeds)) % 256]. *)
Theorem rainbowBackground_fills e :
  wellFormed e -> bgMode e = 1 ->
  exists a, updateBackground e = Some a
    /\ numLeds a = numLeds e
    /\ forall j, 0 <= j < numLeds e ->
         background a !! Z.to_nat j
         = Some (rainbowColour (bgHue e) (bgSat e) (bgBright e) (numLeds e) j)
         /\ leds a !! Z.to_nat j
            = Some (rainbowColour (bgHue e) (bgSat e) (bgBright e)
                      (numLeds e) j).
Proof.
  intros Hwf Hm.
  rewrite (updateBackground_at 1 renderRainbowBackground e Hm eq_refl).
  destruct (rainbowBackground_cells e Hwf) as (a & Ha & Hn & Hcells).
  exists a. split; [exact Ha|]. split; [exact Hn|].
  intros j Hj. exact (Hcells j Hj).
Qed.

(** X15.  Sinusoid background: with a length of zero the pass falls back to the
    flat fill instead of dividing; otherwise every cell of the background
    and of the LED buffer gets a hue read from the phase table, and the
    pattern repeats every [bgLedLength] cells. *)
Theorem sinusoidBackground_fills e :
  wellFormed e -> bgMode e = 2 ->
  exists a, updateBackground e = Some a
    /\ numLeds a = numLeds e
    /\ (bgLedLength e = 0 ->
        forall j, 0 <= j < numLeds e ->
          background a !! Z.to_nat j = Some (flatColour e)
          /\ leds a !! Z.to_nat j = Some (flatColour e))
    /\ (bgLedLength e <> 0 ->
        (forall j, 0 <= j < numLeds e ->
           exists c, background a !! Z.to_nat j = Some c
             /\ leds a !! Z.to_nat j = Some c
             /\ sinusoidColour (bgLedStart e) (bgLedLength e) (bgHue e)
                  (cAmp e) (bgSat e) (bgBright e) j c)
        /\ forall j, 0 <= j -> j + bgLedLength e < numLeds e ->
             leds a !! Z.to_nat (j + bgLedLength e) = leds a !! Z.to_nat j).
Proof.
  intros Hwf Hm.
  rewrite (updateBackground_at 2 renderSinusoidBackground e Hm eq_refl).
  unfold renderSinusoidBackground.
  destruct (Z.eqb_spec (bgLedLength e) 0) as [Hzero|Hlen].
  - destruct (renderFlatBackground_fill e Hwf) as (b & -> & Hpb & Hfill).
    simpl.
    destruct (copyBackground_cells (fun _ c => c = flatColour e) e b Hwf Hpb)
      as (a & -> & Hn & Hcells).
    { intros i Hi. eexists. split; [apply Hfill, Hi|reflexivity]. }
    exists a. split; [reflexivity|]. split; [exact Hn|].
    split; [|intros Hne; contradiction].
    intros _ j Hj. destruct (Hcells j Hj) as (c & Hb & Hl & ->).
    split; assumption.
  - assert (Hpos : 0 < bgLedLength e /\ 0 <= bgLedStart e).
    { destruct Hwf as (_ & _ & _ & _ & _ & _ & ? & ?). lia. }
    destruct (background_fill
                (sinusoidColour (bgLedStart e) (bgLedLength e) (bgHue e)
                   (cAmp e) (bgSat e) (bgBright e))
                (fun i e0 =>
                   hue ← sinusoidHue i (bgLedStart e0) (bgLedLength e0)
                           (bgHue e0) (cAmp e0);
                   setBackground i hue (bgSat e0) (bgBright e0) e0) e Hwf)
      as (b & -> & Hpb & Hfill).
    { intros i a Hi Hwa Hpa.
      destruct (sinusoidHue_total i (bgLedStart e) (bgLedLength e) (bgHue e)
                  (cAmp e)) as (x & Hx); [lia|lia|lia|].
      replace (sinusoidHue i (bgLedStart a) (bgLedLength a) (bgHue a) (cAmp a))
        with (Some x) by (controls Hpa; symmetry; exact Hx).
      simpl. do 3 eexists. split; [reflexivity|].
      exists x. split; [exact Hx|]. controls Hpa. reflexivity. }
    simpl.
    destruct (copyBackground_cells _ e b Hwf Hpb Hfill)
      as (a & -> & Hn & Hcells).
    exists a. split; [reflexivity|]. split; [exact Hn|].
    split; [intros Hz; contradiction|]. intros _. split.
    + intros j Hj. destruct (Hcells j Hj) as (c & Hb & Hl & HC).
      exists c. repeat split; assumption.
    + intros j Hj Hlt.
      destruct (Hcells j) as (c & _ & Hl & x & Hx & ->); [lia|].
      destruct (Hcells (j + bgLedLength e))
        as (c' & _ & Hl' & x' & Hx' & ->); [lia|].
      rewrite sinusoidHue_periodic in Hx' by lia.
      rewrite Hl, Hl'. congruence.
Qed.

(** ** Notes to drives *)

Lemma driveCells_sound :
  Forall (fun c =>
            1 <= c.1.1 < 17 /\ 0 <= c.1.2 < 6
            /\ exists row, arr_get CHANNEL_TO_LED c.1.1 = Some row
                 /\ arr_get row c.1.2 = Some c.2)
    driveCells.
Proof.
  let l := eval vm_compute in driveCells in change driveCells with l.
  repeat (constructor;
          [simpl; split; [lia|split; [lia|eexists; split; reflexivity]]|]).
  constructor.
Qed.

Lemma driveOf_cell ch :
  1 <= ch < 17 ->
  exists row, arr_get CHANNEL_TO_LED ch = Some row
    /\ forall i, 0 <= i < 6 ->
         exists led, arr_get row i = Some led /\ driveOf led = Some (ch, i).
Proof.
  intros Hch. pattern ch. apply (Z_range_cases _ 16 1); [|lia].
  repeat constructor;
    (eexists; split; [reflexivity|];
     intros i Hi; pattern i; apply (Z_range_cases _ 6 0); [|lia];
     repeat constructor; (eexists; split; reflexivity)).
Qed.

Lemma driveOf_inv j ch i :
  driveOf j = Some (ch, i) ->
  1 <= ch < 17 /\ 0 <= i < 6
  /\ exists row, arr_get CHANNEL_TO_LED ch = Some row
       /\ arr_get row i = Some j.
Proof.
  unfold driveOf.
  destruct (List.find (fun c => c.2 =? j) driveCells) as [c|] eqn:Hfind;
    [|discriminate].
  intros [= Hc]. apply List.find_some in Hfind as [Hin Heq].
  apply Z.eqb_eq in Heq.
  pose proof driveCells_sound as Hs. rewrite List.Forall_forall in Hs.
  specialize (Hs c Hin). rewrite Hc in Hs. simpl in Hs. rewrite Heq in Hs.
  exact Hs.
Qed.

Lemma renderNotesToDrives_paints e a :
  wellFormed a -> sameControls e a ->
  succeeds
    (painted (driveShows e) (fun j => exists ch i, driveOf j = Some (ch, i)) a)
    (renderNotesToDrives a).
Proof.
  intros Hwa Hsa. unfold renderNotesToDrives.
  eapply succeeds_mono.
  - apply (paints_for_loop (driveShows e)
             (fun ch j => exists i, 0 <= i < 6 /\ driveOf j = Some (ch, i)));
      [exact Hwa|].
    intros ch b Hch Hwb Hpb Hob.
    assert (Hsb : sameControls e b)
      by (eapply sameControls_trans; [exact Hsa|exact (proj1 Hpb)]).
    destruct (arr_get_Some (currentNote e) ch) as (note & Hnote).
    { destruct Hwa as (_ & _ & _ & Hc & _).
      rewrite <- (sameControls_currentNote _ _ Hsa), Hc. lia. }
    rewrite (sameControls_currentNote _ _ Hsb), Hnote.
    destruct (driveOf_cell ch Hch) as (row & Hrowch & Hrow).
    rewrite Hrowch. simpl.
    assert (Hinner : forall body,
              (forall i c, 0 <= i < 6 -> wellFormed c -> sameControls e c ->
                 exists led, arr_get row i = Some led
                   /\ driveOf led = Some (ch, i)
                   /\ exists hue sat,
                        body i c = setLED led hue sat (ffBright c) c
                        /\ mkHSV (u8 hue) (u8 sat) (u8 (ffBright e))
                           = driveColour e i note) ->
              succeeds
                (paints (driveShows e)
                   (fun j => exists i, 0 <= i < 6 /\ driveOf j = Some (ch, i))
                   b)
                (for_loop 0 6 1 body b)).
    { intros body Hbody. eapply succeeds_mono.
      - apply (paints_for_loop (driveShows e)
                 (fun i j => arr_get row i = Some j)); [exact Hwb|].
        intros i c Hi Hwc Hpc Hoc.
        assert (Hsc : sameControls e c)
          by (eapply sameControls_trans; [exact Hsb|exact (proj1 Hpc)]).
        destruct (Hbody i c Hi Hwc Hsc)
          as (led & Hled & Hdrive & hue & sat & -> & Hcol).
        eapply succeeds_mono.
        + apply (setLED_paints (driveShows e)); [exact Hwc|].
          intros _. exists ch, i, note.
          split; [exact Hdrive|]. split; [exact Hnote|].
          rewrite <- Hcol. controls Hsc. reflexivity.
        + intros r Hr. eapply paints_weaken; [exact Hr|auto|].
          intros j Hj. rewrite Hled. split; [intros ->; reflexivity|].
          intros [= ->]. reflexivity.
      - intros r Hr. eapply paints_weaken; [exact Hr|auto|].
        intros j Hj. split.
        + intros (i & Hi & Hj'). exists i. split; [exact Hi|].
          destruct (Hrow i Hi) as (led & Hled & Hdrive).
          rewrite Hled in Hj'. injection Hj' as <-. exact Hdrive.
        + intros (i & Hi & Hdrive). exists i. split; [exact Hi|].
          destruct (driveOf_inv _ _ _ Hdrive)
            as (_ & _ & row' & Hrow' & Hcell).
          assert (row' = row) as -> by congruence.
          exact Hcell. }
    destruct (Z.eqb_spec note 0) as [Hzero|Hnz]; simpl.
    + apply Hinner. intros i c Hi Hwc Hsc.
      destruct (Hrow i Hi) as (led & Hled & Hdrive).
      exists led. split; [exact Hled|]. split; [exact Hdrive|].
      rewrite Hled. simpl. unfold driveColour, checkerboard.
      rewrite Hzero. simpl.
      destruct (Z.rem i 2 =? 0); do 2 eexists; split; reflexivity.
    + apply Hinner. intros i c Hi Hwc Hsc.
      destruct (Hrow i Hi) as (led & Hled & Hdrive).
      exists led. split; [exact Hled|]. split; [exact Hdrive|].
      rewrite Hled. simpl. unfold driveColour, fgColour.
      destruct (Z.eqb_spec note 0); [contradiction|].
      exists (ffHue c), (ffSat c). split; [reflexivity|].
      controls Hsc. reflexivity.
  - intros r [Hr _]. eapply painted_weaken; [exact Hr|auto|].
    intros j Hj. split.
    + intros (ch & Hch & i & Hi & Hdrive). exists ch, i. exact Hdrive.
    + intros (ch & i & Hdrive).
      destruct (driveOf_inv _ _ _ Hdrive) as (Hch & Hi & _).
      exists ch. split; [exact Hch|]. exists i. split; assumption.
Qed.

Lemma driveOf_range j ch i : driveOf j = Some (ch, i) -> 1 <= j <= 106.
Proof.
  unfold driveOf.
  destruct (List.find (fun c => c.2 =? j) driveCells) as [c|] eqn:Hfind;
    [|discriminate].
  intros _. apply List.find_some in Hfind as [Hin Heq].
  apply Z.eqb_eq in Heq.
  assert (Hs : Forall (fun c => 1 <= c.2 <= 106) driveCells).
  { let l := eval vm_compute in driveCells in change driveCells with l.
    repeat (constructor; [simpl; lia|]). constructor. }
  rewrite List.Forall_forall in Hs. specialize (Hs c Hin). lia.
Qed.

Lemma driveColour_handleNoteOn channel note velocity e i n :
  driveColour (handleNoteOn channel note velocity e) i n = driveColour e i n.
Proof.
  unfold driveColour, fgColour.
  pose proof (handleNoteOn_params channel note velocity e PffHue) as H1.
  pose proof (handleNoteOn_params channel note velocity e PffSat) as H2.
  pose proof (handleNoteOn_params channel note velocity e PffBright) as H3.
  simpl in H1, H2, H3.
  rewrite H1, H2, H3 by discriminate. reflexivity.
Qed.

Lemma driveColour_handleNoteOff channel note velocity e i n :
  driveColour (handleNoteOff channel note velocity e) i n = driveColour e i n.
Proof.
  unfold driveColour, fgColour.
  destruct (handleNoteOff_rest channel note velocity e)
    as (_ & _ & _ & _ & _ & Hp).
  pose proof (Hp PffHue) as H1. pose proof (Hp PffSat) as H2.
  pose proof (Hp PffBright) as H3. simpl in H1, H2, H3.
  rewrite H1, H2, H3. reflexivity.
Qed.

Lemma driveColour_sameControls e t i n :
  sameControls e t -> driveColour t i n = driveColour e i n.
Proof. intros H. unfold driveColour, fgColour. controls H. reflexivity. Qed.

Section DriveTheorems.

Variable rand_after_srand : Z -> Z.

Lemma render_notesToDrives e :
  wellFormed e -> ffMode e = 0 ->
  exists e', render rand_after_srand e = Some e'
    /\ preserved (set_frameCounter (u32 (frameCounter e + 1)) e) e'
    /\ shows (driveShows e) (fun j => exists ch i, driveOf j = Some (ch, i))
         e e'.
Proof.
  intros Hwf Hm.
  destruct (render_preserved rand_after_srand e Hwf) as (e1 & He1 & Hp1).
  destruct (render_shows rand_after_srand (driveShows e)
              (fun j => exists ch i, driveOf j = Some (ch, i)) e Hwf)
    as (e' & He' & Hshow).
  { intros a Hwa Hsa _.
    rewrite (renderForeground_at rand_after_srand 0 renderNotesToDrives e a
               Hsa Hm) by reflexivity.
    apply renderNotesToDrives_paints; assumption. }
  exists e'. split; [exact He'|]. split; [|exact Hshow]. congruence.
Qed.

(** An LED of a drive shows the colour of the drive's state. *)
Lemma drive_led_shown e e' led ch i note :
  shows (driveShows e) (fun j => exists ch i, driveOf j = Some (ch, i)) e e' ->
  driveOf led = Some (ch, i) -> led < numLeds e ->
  arr_get (currentNote e) ch = Some note ->
  leds e' !! Z.to_nat led = Some (driveColour e i note).
Proof.
  intros (a & _ & _ & Hshow) Hdrive Hlt Hnote.
  pose proof (driveOf_range _ _ _ Hdrive) as Hr.
  destruct (proj1 (Hshow led ltac:(lia)) (ex_intro _ ch (ex_intro _ i Hdrive)))
    as (c & Hc & ch' & i' & note' & Hd' & Hn' & ->).
  rewrite Hc. rewrite Hdrive in Hd'. injection Hd' as <- <-.
  rewrite Hnote in Hn'. injection Hn' as <-. reflexivity.
Qed.

(** X16.  Notes to drives: every LED that the channel table gives to a channel
    1..16 shows the foreground colour while the channel holds a note other
    than 0, and otherwise the two-tone checkerboard by its position in the
    row; the LEDs the table gives to no channel, among them LED 0 of the
    unused row and every LED above 106, show the background. *)
Theorem notesToDrives_shown e :
  wellFormed e -> ffMode e = 0 ->
  (exists e', render rand_after_srand e = Some e'
     /\ shows (driveShows e) (fun j => exists ch i, driveOf j = Some (ch, i))
          e e')
  /\ driveOf 0 = None
  /\ (forall j ch i, driveOf j = Some (ch, i) ->
        1 <= j <= 106 /\ 1 <= ch <= 16 /\ 0 <= i < 6).
Proof.
  intros Hwf Hm. split; [|split].
  - destruct (render_notesToDrives e Hwf Hm) as (e' & He' & _ & Hshow).
    exists e'. split; assumption.
  - reflexivity.
  - intros j ch i Hd. split; [exact (driveOf_range _ _ _ Hd)|].
    destruct (driveOf_inv _ _ _ Hd) as (Hch & Hi & _). lia.
Qed.

(** X17.  A note-on followed by a render lights the six LEDs of the channel's
    drive in the foreground colour, and the matching note-off followed by a
    render puts the checkerboard back.  Note number 0 counts as no note: a
    note-on with note 0 leaves the drive on the checkerboard. *)
Theorem noteOn_lights_drive e channel note velocity release led i :
  wellFormed e -> ffMode e = 0 ->
  1 <= channel <= 16 -> 0 <= note <= 127 ->
  driveOf led = Some (channel, i) -> led < numLeds e ->
  exists e1 e2,
    render rand_after_srand (handleNoteOn channel note velocity e) = Some e1
    /\ leds e1 !! Z.to_nat led
       = Some (if note =? 0 then checkerboard i (ffBright e) else fgColour e)
    /\ render rand_after_srand (handleNoteOff channel note release e1)
       = Some e2
    /\ leds e2 !! Z.to_nat led = Some (checkerboard i (ffBright e)).
Proof.
  intros Hwf Hm Hch Hnote Hdrive Hlt.
  assert (Ech : u8 channel = channel) by (apply u8_small; lia).
  assert (En : u8 note = note) by (apply u8_small; lia).
  set (on := handleNoteOn channel note velocity e).
  assert (Hwon : wellFormed on) by (apply handleNoteOn_wellFormed, Hwf).
  assert (Hmon : ffMode on = 0).
  { pose proof (handleNoteOn_params channel note velocity e PffMode) as H.
    simpl in H. subst on. rewrite H by discriminate. exact Hm. }
  assert (Hnon : numLeds on = numLeds e)
    by (apply (handleNoteOn_buffers channel note velocity e)).
  assert (Hcur : currentNote on !! Z.to_nat channel = Some note).
  { subst on. rewrite handleNoteOn_currentNote, Ech, En.
    destruct (Z.leb_spec 1 channel); [|lia].
    destruct (Z.leb_spec channel 16); [|lia]. simpl.
    apply list_lookup_insert_eq.
    destruct Hwf as (_ & _ & _ & Hc & _). lia. }
  destruct (render_notesToDrives on Hwon Hmon) as (e1 & He1 & Hp1 & Hshow1).
  assert (Hs1 : sameControls on e1).
  { eapply sameControls_trans; [|exact (proj1 Hp1)].
    apply sameControls_set_frameCounter, sameControls_refl. }
  assert (Hw1 : wellFormed e1)
    by (eapply wellFormed_preserved; [|exact Hp1]; exact Hwon).
  set (off := handleNoteOff channel note release e1).
  assert (Hwoff : wellFormed off) by (apply handleNoteOff_wellFormed, Hw1).
  destruct (handleNoteOff_rest channel note release e1)
    as (Hnoff & _ & _ & _ & _ & Hpoff). fold off in Hnoff, Hpoff.
  assert (Hmoff : ffMode off = 0).
  { pose proof (Hpoff PffMode) as H. simpl in H. rewrite H.
    controls Hs1. exact Hmon. }
  assert (Hcur1 : currentNote e1 !! Z.to_nat channel = Some note)
    by (rewrite (sameControls_currentNote _ _ Hs1); exact Hcur).
  assert (Hcoff : currentNote off !! Z.to_nat channel = Some 0).
  { subst off. rewrite handleNoteOff_currentNote, Ech, En, Hcur1.
    destruct (Z.leb_spec 1 channel); [|lia].
    destruct (Z.leb_spec channel 16); [|lia]. simpl.
    rewrite Z.eqb_refl. apply list_lookup_insert_eq.
    destruct Hw1 as (_ & _ & _ & Hc & _). lia. }
  destruct (render_notesToDrives off Hwoff Hmoff) as (e2 & He2 & _ & Hshow2).
  exists e1, e2. split; [exact He1|]. split; [|split; [exact He2|]].
  - rewrite (drive_led_shown on e1 led channel i note Hshow1 Hdrive).
    + unfold on. rewrite driveColour_handleNoteOn. reflexivity.
    + lia.
    + unfold arr_get. destruct (Z.leb_spec 0 channel); [exact Hcur|lia].
  - rewrite (drive_led_shown off e2 led channel i 0 Hshow2 Hdrive).
    + subst off. rewrite driveColour_handleNoteOff.
      rewrite (driveColour_sameControls on e1) by exact Hs1.
      unfold on. rewrite driveColour_handleNoteOn. reflexivity.
    + rewrite Hnoff, (sameControls_numLeds _ _ Hs1). lia.
    + unfold arr_get. destruct (Z.leb_spec 0 channel); [exact Hcoff|lia].
Qed.

End DriveTheorems.

(** ** The wave modes *)

Lemma mirror_value x j :
  0 <= x < 48 ->
  mirror x = Some j <-> j = (if x <? 24 then 23 - x else 119 - x).
Proof.
  intros Hx. destruct (Z.ltb_spec x 24).
  - rewrite mirror_low_half by lia. split; [intros [= <-]|intros ->]; reflexivity.
  - rewrite mirror_high_half by lia. split; [intros [= <-]|intros ->]; reflexivity.
Qed.

Lemma setMirrored_paints (C : Z -> HSVColor -> Prop) x brightness t :
  wellFormed t ->
  (forall m, 0 <= x < 48 -> mirror x = Some m ->
     C m (mkHSV (u8 (ffHue t)) (u8 (ffSat t)) (u8 brightness))) ->
  succeeds (paints C (fun j => 0 <= x < 48 /\ mirror x = Some j) t)
    (setMirrored x brightness t).
Proof.
  intros Hwf HC. unfold setMirrored.
  destruct (Z.leb_spec 0 x); destruct (Z.ltb_spec x 48); simpl;
    try (apply succeeds_ret;
         eapply paints_weaken; [apply (paints_refl C)|auto|];
         intros j Hj; split; [intros []|intros [Hr _]; lia]).
  destruct (arr_get_Some TOP_BOTTOM_MIRROR_MAP x) as (m & Hm); [simpl; lia|].
  rewrite Hm. simpl. eapply succeeds_mono.
  - apply (setLED_paints C); [exact Hwf|]. intros _. apply HC; [lia|exact Hm].
  - intros r Hr. eapply paints_weaken; [exact Hr|auto|].
    intros j Hj. unfold mirror. rewrite Hm. split.
    + intros ->. split; [lia|reflexivity].
    + intros [_ [= ->]]. reflexivity.
Qed.

(** The four stores of one step of a wave; the mirrored indices may depend
    on the strip length, as in the opposing waves. *)
Lemma waveStep_paints (C : Z -> HSVColor -> Prop) i1 i2 (x1 x2 : Z -> Z)
    brightness t :
  wellFormed t ->
  (forall b, sameControls t b ->
     (0 <= i1 < numLeds t ->
      C i1 (mkHSV (u8 (ffHue b)) (u8 (ffSat b)) (u8 brightness)))
     /\ (0 <= i2 < numLeds t ->
         C i2 (mkHSV (u8 (ffHue b)) (u8 (ffSat b)) (u8 brightness)))
     /\ (forall m, 0 <= x1 (numLeds t) < 48 -> mirror (x1 (numLeds t)) = Some m ->
           C m (mkHSV (u8 (ffHue b)) (u8 (ffSat b)) (u8 brightness)))
     /\ (forall m, 0 <= x2 (numLeds t) < 48 -> mirror (x2 (numLeds t)) = Some m ->
           C m (mkHSV (u8 (ffHue b)) (u8 (ffSat b)) (u8 brightness)))) ->
  succeeds
    (paints C
       (fun j => j = i1
                 \/ j = i2
                 \/ (0 <= x1 (numLeds t) < 48 /\ mirror (x1 (numLeds t)) = Some j)
                 \/ (0 <= x2 (numLeds t) < 48 /\ mirror (x2 (numLeds t)) = Some j))
       t)
    (e1 ← setLED i1 (ffHue t) (ffSat t) brightness t;
     e2 ← setLED i2 (ffHue e1) (ffSat e1) brightness e1;
     e3 ← setMirrored (x1 (numLeds e2)) brightness e2;
     setMirrored (x2 (numLeds e2)) brightness e3).
Proof.
  intros Hwf HC.
  apply (paints_bind C (fun j => j = i1)); [exact Hwf| |].
  { apply setLED_paints; [exact Hwf|].
    apply (proj1 (HC t (sameControls_refl t))). }
  intros e1 Hw1 Hp1 _.
  pose proof (sameControls_numLeds _ _ (proj1 Hp1)) as N1.
  apply (paints_bind C (fun j => j = i2)); [exact Hw1| |].
  { apply setLED_paints; [exact Hw1|]. rewrite N1.
    apply (proj1 (proj2 (HC e1 (proj1 Hp1)))). }
  intros e2 Hw2 Hp2 _.
  assert (Hs2 : sameControls t e2)
    by (eapply sameControls_trans; [exact (proj1 Hp1)|exact (proj1 Hp2)]).
  rewrite (sameControls_numLeds _ _ Hs2).
  apply (paints_bind C
           (fun j => 0 <= x1 (numLeds t) < 48 /\ mirror (x1 (numLeds t)) = Some j));
    [exact Hw2| |].
  { apply setMirrored_paints; [exact Hw2|].
    apply (proj1 (proj2 (proj2 (HC e2 Hs2)))). }
  intros e3 Hw3 Hp3 _.
  assert (Hs3 : sameControls t e3)
    by (eapply sameControls_trans; [exact Hs2|exact (proj1 Hp3)]).
  apply setMirrored_paints; [exact Hw3|].
  apply (proj2 (proj2 (proj2 (HC e3 Hs3)))).
Qed.

Lemma waveColour_sameControls e b amp p :
  sameControls e b ->
  mkHSV (u8 (ffHue b)) (u8 (ffSat b))
    (u8 (Z.quot (ffBright b * (amp - p)) amp))
  = waveColour e amp p.
Proof. intros H. unfold waveColour, waveBrightness. controls H. reflexivity. Qed.

Lemma renderOceanWaves_paints e a :
  wellFormed a -> sameControls e a ->
  ~ waveMiddle e - Z.quot (ffLedLength e) 2 <= 24 ->
  succeeds (painted (oceanShows e) (oceanPainted e) a) (renderOceanWaves a).
Proof.
  intros Hwa Hsa Hlow. unfold renderOceanWaves.
  rewrite (waveMiddle_sameControls _ _ Hsa), (oceanAmp_sameControls _ _ Hsa).
  cbv zeta.
  destruct (Z.leb_spec (oceanAmp e) 0) as [Hamp|Hamp].
  { apply succeeds_ret. eapply painted_weaken; [apply (painted_refl (oceanShows e))|auto|].
    intros j Hj. split; [intros []|]. intros [_ Hd]. lia. }
  assert (Hband : forall p, 0 <= p < oceanAmp e ->
            24 <= waveMiddle e - p /\ waveMiddle e + p <= 71)
    by (intros p Hp; apply oceanWaves_band_without_low_clamp; assumption).
  eapply succeeds_mono.
  - apply (paints_for_loop (oceanShows e)
             (fun p j =>
                j = waveMiddle e + p
                \/ j = waveMiddle e - p
                \/ (0 <= waveMiddle e + p - 24 < 48
                    /\ mirror (waveMiddle e + p - 24) = Some j)
                \/ (0 <= waveMiddle e - p - 24 < 48
                    /\ mirror (waveMiddle e - p - 24) = Some j)));
      [exact Hwa|].
    intros p b Hp Hwb Hpb Hob.
    assert (Hsb : sameControls e b)
      by (eapply sameControls_trans; [exact Hsa|exact (proj1 Hpb)]).
    rewrite idiv_Some by lia. simpl.
    apply (waveStep_paints (oceanShows e) _ _
             (fun _ => waveMiddle e + p - 24) (fun _ => waveMiddle e - p - 24));
      [exact Hwb|].
    intros c Hsc.
    assert (Hse : sameControls e c)
      by (eapply sameControls_trans; [exact Hsb|exact Hsc]).
    replace (ffBright b) with (ffBright c)
      by (controls Hsc; reflexivity).
    rewrite (waveColour_sameControls e c) by exact Hse.
    destruct (Hband p Hp) as [Hlo Hhi].
    unfold oceanShows.
    split; [|split; [|split]].
    + intros _. f_equal. unfold topOf. ztest; lia.
    + intros _. f_equal. unfold topOf. ztest; lia.
    + intros m Hx Hm. apply mirror_value in Hm; [|exact Hx].
      f_equal. subst m. unfold topOf. ztest; lia.
    + intros m Hx Hm. apply mirror_value in Hm; [|exact Hx].
      f_equal. subst m. unfold topOf. ztest; lia.
  - intros r [Hr _]. eapply painted_weaken; [exact Hr|auto|].
    intros j Hj. unfold oceanPainted. split.
    + intros (p & Hp & Hcase). destruct (Hband p Hp) as [Hlo Hhi].
      destruct Hcase as [->|[->|[[Hx Hm]|[Hx Hm]]]].
      * unfold topOf. ztest; lia.
      * unfold topOf. ztest; lia.
      * apply mirror_value in Hm; [|exact Hx]. subst j.
        unfold topOf. ztest; lia.
      * apply mirror_value in Hm; [|exact Hx]. subst j.
        unfold topOf. ztest; lia.
    + intros [Hr95 Hd].
      exists (Z.abs (topOf j - waveMiddle e)). split; [lia|].
      assert (Hp : 0 <= Z.abs (topOf j - waveMiddle e) < oceanAmp e) by lia.
      destruct (Hband _ Hp) as [Hlo Hhi].
      destruct (Z.ltb_spec j 24) as [Hj24|Hj24];
        [|destruct (Z.ltb_spec 71 j) as [Hj71|Hj71]].
      * assert (Ht : topOf j = 47 - j) by (unfold topOf; ztest; lia).
        rewrite Ht in *.
        destruct (Z.le_gt_cases (waveMiddle e) (47 - j)).
        -- right. right. left.
           replace (waveMiddle e + Z.abs (47 - j - waveMiddle e) - 24)
             with (23 - j) by lia.
           split; [lia|]. apply mirror_value; [lia|]. ztest; lia.
        -- right. right. right.
           replace (waveMiddle e - Z.abs (47 - j - waveMiddle e) - 24)
             with (23 - j) by lia.
           split; [lia|]. apply mirror_value; [lia|]. ztest; lia.
      * assert (Ht : topOf j = 143 - j) by (unfold topOf; ztest; lia).
        rewrite Ht in *.
        destruct (Z.le_gt_cases (waveMiddle e) (143 - j)).
        -- right. right. left.
           replace (waveMiddle e + Z.abs (143 - j - waveMiddle e) - 24)
             with (119 - j) by lia.
           split; [lia|]. apply mirror_value; [lia|]. ztest; lia.
        -- right. right. right.
           replace (waveMiddle e - Z.abs (143 - j - waveMiddle e) - 24)
             with (119 - j) by lia.
           split; [lia|]. apply mirror_value; [lia|]. ztest; lia.
      * assert (Ht : topOf j = j) by (unfold topOf; ztest; lia).
        rewrite Ht in *. lia.
Qed.

Lemma opposingWaves_band e p :
  ~ waveMiddle e - Z.quot (ffLedLength e) 2 <= 24 ->
  0 <= p <= opposingAmp e ->
  24 < waveMiddle e - p /\ waveMiddle e + p <= 71.
Proof.
  unfold opposingAmp. cbv zeta. intros Hlow.
  destruct (Z.leb_spec (waveMiddle e - Z.quot (ffLedLength e) 2) 24); [lia|].
  destruct (Z.ltb_spec 71 (waveMiddle e + Z.quot (ffLedLength e) 2)); lia.
Qed.

Lemma renderOpposingWaves_paints e a :
  wellFormed a -> sameControls e a ->
  ~ waveMiddle e - Z.quot (ffLedLength e) 2 <= 24 ->
  succeeds (painted (opposingShows e) (opposingPainted e) a)
    (renderOpposingWaves a).
Proof.
  intros Hwa Hsa Hlow. unfold renderOpposingWaves.
  rewrite (waveMiddle_sameControls _ _ Hsa), (opposingAmp_sameControls _ _ Hsa).
  cbv zeta.
  pose proof (sameControls_numLeds _ _ Hsa) as Na.
  destruct (Z.leb_spec (opposingAmp e) 0) as [Hamp|Hamp].
  { apply succeeds_ret.
    eapply painted_weaken; [apply (painted_refl (opposingShows e))|auto|].
    intros j Hj. split; [intros []|]. intros [Hpos _]. lia. }
  assert (Hband : forall p, 0 <= p <= opposingAmp e ->
            24 < waveMiddle e - p /\ waveMiddle e + p <= 71)
    by (intros p Hp; apply opposingWaves_band; assumption).
  eapply succeeds_mono.
  - apply (paints_for_loop (opposingShows e)
             (fun p j =>
                j = waveMiddle e + p
                \/ j = waveMiddle e - p
                \/ (0 <= numLeds a - waveMiddle e + p - 24 < 48
                    /\ mirror (numLeds a - waveMiddle e + p - 24) = Some j)
                \/ (0 <= numLeds a - waveMiddle e - p - 24 < 48
                    /\ mirror (numLeds a - waveMiddle e - p - 24) = Some j)));
      [exact Hwa|].
    intros p b Hp Hwb Hpb Hob.
    assert (Hsb : sameControls e b)
      by (eapply sameControls_trans; [exact Hsa|exact (proj1 Hpb)]).
    pose proof (sameControls_numLeds _ _ (proj1 Hpb)) as Nb.
    rewrite idiv_Some by lia. simpl. rewrite <- Nb.
    apply (waveStep_paints (opposingShows e) _ _
             (fun n => n - waveMiddle e + p - 24)
             (fun n => n - waveMiddle e - p - 24));
      [exact Hwb|].
    intros c Hsc.
    assert (Hse : sameControls e c)
      by (eapply sameControls_trans; [exact Hsb|exact Hsc]).
    replace (ffBright b) with (ffBright c)
      by (controls Hsc; reflexivity).
    rewrite (waveColour_sameControls e c) by exact Hse.
    destruct (Hband p ltac:(lia)) as [Hlo Hhi].
    unfold opposingShows, opposingDistance. rewrite Nb, Na.
    split; [|split; [|split]].
    + intros _. f_equal. ztest; simpl; lia.
    + intros _. f_equal. ztest; simpl; lia.
    + intros m Hx Hm. apply mirror_value in Hm; [|exact Hx].
      f_equal. subst m. unfold topOf. ztest; simpl; lia.
    + intros m Hx Hm. apply mirror_value in Hm; [|exact Hx].
      f_equal. subst m. unfold topOf. ztest; simpl; lia.
  - intros r [Hr _]. eapply painted_weaken; [exact Hr|auto|].
    intros j Hj. unfold opposingPainted, opposingDistance. rewrite Na. split.
    + intros (p & Hp & Hcase). destruct (Hband p ltac:(lia)) as [Hlo Hhi].
      destruct Hcase as [->|[->|[[Hx Hm]|[Hx Hm]]]].
      * split; [lia|]. ztest; simpl; lia.
      * split; [lia|]. ztest; simpl; lia.
      * apply mirror_value in Hm; [|exact Hx]. subst j.
        split; [lia|]. unfold topOf. ztest; simpl; lia.
      * apply mirror_value in Hm; [|exact Hx]. subst j.
        split; [lia|]. unfold topOf. ztest; simpl; lia.
    + intros (Hpos & Hr95 & Hd).
      destruct (Z.ltb_spec j 24) as [Hj24|Hj24];
        [|destruct (Z.ltb_spec 71 j) as [Hj71|Hj71]].
      * assert (Ht : topOf j = 47 - j) by (unfold topOf; ztest; lia).
        revert Hd. rewrite Ht.
        replace ((24 <=? j) && (j <=? 71)) with false by (ztest; simpl; lia).
        intros Hd.
        exists (Z.abs (47 - j - (numLeds e - waveMiddle e))). split; [lia|].
        destruct (Z.le_gt_cases (numLeds e - waveMiddle e) (47 - j)).
        -- right. right. left.
           replace (numLeds e - waveMiddle e
                    + Z.abs (47 - j - (numLeds e - waveMiddle e)) - 24)
             with (23 - j) by lia.
           split; [lia|]. apply mirror_value; [lia|]. ztest; lia.
        -- right. right. right.
           replace (numLeds e - waveMiddle e
                    - Z.abs (47 - j - (numLeds e - waveMiddle e)) - 24)
             with (23 - j) by lia.
           split; [lia|]. apply mirror_value; [lia|]. ztest; lia.
      * assert (Ht : topOf j = 143 - j) by (unfold topOf; ztest; lia).
        revert Hd. rewrite Ht.
        replace ((24 <=? j) && (j <=? 71)) with false by (ztest; simpl; lia).
        intros Hd.
        exists (Z.abs (143 - j - (numLeds e - waveMiddle e))). split; [lia|].
        destruct (Z.le_gt_cases (numLeds e - waveMiddle e) (143 - j)).
        -- right. right. left.
           replace (numLeds e - waveMiddle e
                    + Z.abs (143 - j - (numLeds e - waveMiddle e)) - 24)
             with (119 - j) by lia.
           split; [lia|]. apply mirror_value; [lia|]. ztest; lia.
        -- right. right. right.
           replace (numLeds e - waveMiddle e
                    - Z.abs (143 - j - (numLeds e - waveMiddle e)) - 24)
             with (119 - j) by lia.
           split; [lia|]. apply mirror_value; [lia|]. ztest; lia.
      * revert Hd.
        replace ((24 <=? j) && (j <=? 71)) with true by (ztest; simpl; lia).
        intros Hd.
        exists (Z.abs (j - waveMiddle e)). split; [lia|]. lia.
Qed.

Lemma waveBrightness_centre e amp :
  amp <> 0 -> waveBrightness e amp 0 = ffBright e.
Proof.
  intros Hamp. unfold waveBrightness. rewrite Z.sub_0_r.
  apply Z.quot_mul. exact Hamp.
Qed.

Lemma waveBrightness_edge e amp : waveBrightness e amp amp = 0.
Proof.
  unfold waveBrightness. rewrite Z.sub_diag, Z.mul_0_r.
  destruct amp; reflexivity.
Qed.

Lemma waveBrightness_fades e amp p q :
  0 <= ffBright e -> 0 < amp -> p <= q ->
  waveBrightness e amp q <= waveBrightness e amp p.
Proof.
  intros Hb Hamp Hpq. unfold waveBrightness.
  apply Z.quot_le_mono; [exact Hamp|]. nia.
Qed.

Section WaveTheorems.

Variable rand_after_srand : Z -> Z.

Lemma render_oceanWaves e :
  wellFormed e -> ffMode e = 8 ->
  ~ waveMiddle e - Z.quot (ffLedLength e) 2 <= 24 ->
  exists e', render rand_after_srand e = Some e'
    /\ shows (oceanShows e) (oceanPainted e) e e'.
Proof.
  intros Hwf Hm Hlow. apply render_shows; [exact Hwf|].
  intros a Hwa Hsa _.
  rewrite (renderForeground_at rand_after_srand 8 renderOceanWaves e a Hsa Hm)
    by reflexivity.
  apply renderOceanWaves_paints; assumption.
Qed.

(** X18.  Ocean waves, when the low clamp does not fire: [render] paints exactly
    the LEDs 0..95 whose top-strip counterpart lies less than the clamped
    amplitude from the centre [waveMiddle], in the foreground hue and
    saturation with brightness [ffBright * (amp - d) / amp] at distance [d];
    every other LED shows the background.  The brightness is [ffBright] at
    the centre and does not grow with the distance. *)
Theorem oceanWaves_shown e :
  wellFormed e -> ffMode e = 8 ->
  ~ waveMiddle e - Z.quot (ffLedLength e) 2 <= 24 ->
  (exists e', render rand_after_srand e = Some e'
     /\ shows (oceanShows e) (oceanPainted e) e e')
  /\ (0 < oceanAmp e -> waveBrightness e (oceanAmp e) 0 = ffBright e)
  /\ (forall p q, 0 <= ffBright e -> 0 < oceanAmp e -> p <= q ->
        waveBrightness e (oceanAmp e) q <= waveBrightness e (oceanAmp e) p).
Proof.
  intros Hwf Hm Hlow. split; [apply render_oceanWaves; assumption|]. split.
  - intros Hamp. apply waveBrightness_centre. lia.
  - intros p q. apply waveBrightness_fades.
Qed.

(** X19.  Ocean waves are mirrored: when the low clamp does not fire, a painted
    top-strip LED [j] (24..71) and the LED that [TOP_BOTTOM_MIRROR_MAP]
    gives for it show the same colour after [render]. *)
Theorem oceanWaves_mirrored e j m :
  wellFormed e -> ffMode e = 8 ->
  ~ waveMiddle e - Z.quot (ffLedLength e) 2 <= 24 ->
  24 <= j <= 71 -> mirror (j - 24) = Some m ->
  j < numLeds e -> m < numLeds e ->
  oceanPainted e j ->
  exists e', render rand_after_srand e = Some e'
    /\ oceanPainted e m
    /\ leds e' !! Z.to_nat m = leds e' !! Z.to_nat j
    /\ leds e' !! Z.to_nat j
       = Some (waveColour e (oceanAmp e) (Z.abs (j - waveMiddle e))).
Proof.
  intros Hwf Hm Hlow Hj Hmir Hjn Hmn Hpj.
  destruct (render_oceanWaves e Hwf Hm Hlow) as (e' & Hr & a & _ & _ & Hshow).
  exists e'. split; [exact Hr|].
  apply mirror_value in Hmir; [|lia].
  assert (Htm : topOf m = j) by (subst m; unfold topOf; ztest; lia).
  assert (Htj : topOf j = j) by (unfold topOf; ztest; lia).
  assert (Hpm : oceanPainted e m).
  { destruct Hpj as [_ Hd]. split; [subst m; ztest; lia|].
    rewrite Htm. rewrite Htj in Hd. exact Hd. }
  split; [exact Hpm|].
  assert (Hm0 : 0 <= m) by (subst m; ztest; lia).
  destruct (proj1 (Hshow j ltac:(lia)) Hpj) as (c & Hc & HCc).
  destruct (proj1 (Hshow m ltac:(lia)) Hpm) as (c' & Hc' & HCc').
  unfold oceanShows in HCc, HCc'. rewrite Htm in HCc'. rewrite Htj in HCc.
  subst c c'. split; [congruence|exact Hc].
Qed.

(** X20.  Opposing waves, when the low clamp does not fire and the clamped
    amplitude is positive: [render] paints the top-strip LEDs at most [amp]
    from [waveMiddle] and the mirrored LEDs whose top-strip counterpart lies
    at most [amp] from [numLeds - waveMiddle], with brightness
    [ffBright * (amp - d) / amp] at distance [d]; every other LED shows the
    background.  The LEDs at distance [amp] are painted with brightness 0. *)
Theorem opposingWaves_shown e :
  wellFormed e -> ffMode e = 9 ->
  ~ waveMiddle e - Z.quot (ffLedLength e) 2 <= 24 ->
  (exists e', render rand_after_srand e = Some e'
     /\ shows (opposingShows e) (opposingPainted e) e e')
  /\ (0 < opposingAmp e -> waveBrightness e (opposingAmp e) 0 = ffBright e)
  /\ waveBrightness e (opposingAmp e) (opposingAmp e) = 0.
Proof.
  intros Hwf Hm Hlow. split; [|split].
  - apply render_shows; [exact Hwf|].
    intros a Hwa Hsa _.
    rewrite (renderForeground_at rand_after_srand 9 renderOpposingWaves e a Hsa Hm)
      by reflexivity.
    apply renderOpposingWaves_paints; assumption.
  - intros Hamp. apply waveBrightness_centre. lia.
  - apply waveBrightness_edge.
Qed.

End WaveTheorems.

(** * The plugin renderers *)

Lemma plugin_param_Some n ctx k :
  Plugin.contextFits n ctx -> 0 <= k < 32 ->
  exists p, arr_get (Plugin.params ctx) k = Some p /\ 0 <= p <= 127.
Proof.
  intros (Hlen & _ & Hall & _) Hk.
  destruct (arr_get_Some (Plugin.params ctx) k) as (p & Hp); [lia|].
  exists p. split; [exact Hp|].
  unfold arr_get in Hp. destruct (0 <=? k); [|discriminate].
  rewrite Forall_lookup in Hall. exact (Hall _ _ Hp).
Qed.

Ltac plugin_params Hfit :=
  repeat match goal with
    | |- context [arr_get (Plugin.params ?c) ?k] =>
        let p := fresh "p" in
        let Hp := fresh "Hp" in
        let Hr := fresh "Hr" in
        destruct (plugin_param_Some _ c k Hfit ltac:(lia)) as (p & Hp & Hr);
        rewrite Hp; cbn [mbind option_bind]
    end;
  cbv zeta.

Lemma memcpy_length {A} (dst src : list A) n :
  0 <= n <= Z.of_nat (length dst) -> n <= Z.of_nat (length src) ->
  exists l, memcpy dst src n = Some l /\ length l = length dst
    /\ (forall j, 0 <= j < n -> l !! Z.to_nat j = src !! Z.to_nat j)
    /\ (forall j, n <= j -> l !! Z.to_nat j = dst !! Z.to_nat j).
Proof.
  intros Hd Hs. unfold memcpy.
  replace ((0 <=? n) && (n <=? Z.of_nat (length dst))
           && (n <=? Z.of_nat (length src))) with true by (ztest; lia).
  eexists. split; [reflexivity|].
  assert (Ht : length (take (Z.to_nat n) src) = Z.to_nat n)
    by (rewrite length_take; lia).
  split; [|split].
  - rewrite length_app, Ht, length_drop. lia.
  - intros j Hj. rewrite lookup_app_l by lia. apply lookup_take_lt. lia.
  - intros j Hj. rewrite lookup_app_r by lia. rewrite Ht, lookup_drop.
    f_equal. lia.
Qed.

Lemma copyContextBackground_length n ctx leds :
  Plugin.contextFits n ctx -> 0 <= n <= Z.of_nat (length leds) ->
  succeeds (fun l => length l = length leds)
    (Plugin.copyContextBackground leds n ctx).
Proof.
  intros (_ & _ & _ & Hb) Hn. unfold Plugin.copyContextBackground.
  destruct (Plugin.background ctx) as [b|]; [|apply succeeds_ret; reflexivity].
  destruct (memcpy_length leds b n Hn Hb) as (l & Hl & Hlen & _).
  exists l. split; assumption.
Qed.

Lemma store_length leds idx hue sat bright :
  0 <= idx < Z.of_nat (length leds) ->
  succeeds (fun l => length l = length leds)
    (Plugin.store leds idx hue sat bright).
Proof.
  intros Hi. unfold Plugin.store. rewrite arr_set_Some by exact Hi.
  apply succeeds_ret, length_insert.
Qed.

Lemma set_length (leds : list HSVColor) idx c :
  0 <= idx < Z.of_nat (length leds) ->
  succeeds (fun l => length l = length leds) (arr_set leds idx c).
Proof.
  intros Hi. rewrite arr_set_Some by exact Hi.
  apply succeeds_ret, length_insert.
Qed.

Lemma succeeds_length_trans (leds l : list HSVColor)
    (o : option (list HSVColor)) :
  length l = length leds ->
  succeeds (fun l' => length l' = length l) o ->
  succeeds (fun l' => length l' = length leds) o.
Proof.
  intros Hl Ho. eapply succeeds_mono; [exact Ho|]. intros a Ha. congruence.
Qed.

Lemma CHANNEL_TO_LED_cell channel i :
  0 <= channel < 17 -> 0 <= i < 6 ->
  exists row ledIdx,
    arr_get CHANNEL_TO_LED channel = Some row /\ arr_get row i = Some ledIdx.
Proof.
  intros Hc Hi.
  destruct (arr_get_Some CHANNEL_TO_LED channel) as (row & Hrow); [simpl; lia|].
  assert (Hlen : length row = 6%nat).
  { unfold arr_get in Hrow. destruct (0 <=? channel); [|discriminate].
    apply list_elem_of_lookup_2 in Hrow. revert row Hrow.
    apply Forall_forall. repeat constructor. }
  destruct (arr_get_Some row i) as (ledIdx & Hled); [lia|].
  exists row, ledIdx. split; assumption.
Qed.

Lemma COLOR_PHASE_at q phaseShift :
  0 <= q -> 0 <= phaseShift ->
  exists sinVal, arr_get COLOR_PHASE (Z.rem (q + phaseShift) 64) = Some sinVal
    /\ -100 <= sinVal <= 100.
Proof.
  intros Hq Hp.
  assert (Hr : 0 <= Z.rem (q + phaseShift) 64 < 64)
    by (apply Z.rem_bound_pos; lia).
  destruct (arr_get_Some COLOR_PHASE (Z.rem (q + phaseShift) 64))
    as (sinVal & Hs); [simpl; lia|].
  exists sinVal. split; [exact Hs|].
  unfold arr_get in Hs. destruct (0 <=? _); [|discriminate].
  apply list_elem_of_lookup_2 in Hs. revert sinVal Hs.
  apply Forall_forall. repeat constructor; lia.
Qed.

Section PluginSafety.

Variable rand_sequence : Z -> Z -> Z.
Variable renderComets :
  list HSVColor -> Z -> Plugin.RenderContext -> option (list HSVColor).

Variables (numLeds : Z) (ctx : Plugin.RenderContext) (leds : list HSVColor).
Hypothesis Hfit : Plugin.contextFits numLeds ctx.
Hypothesis Hn : 1 <= numLeds <= Z.of_nat (length leds).


Ltac after_copy l Hl :=
  apply (succeeds_bind (Plugin.sameSize leds));
  [apply copyContextBackground_length; [exact Hfit|lia]|];
  intros l Hl; unfold Plugin.sameSize in Hl.

Lemma plugin_notesToDrives_safe :
  succeeds (Plugin.sameSize leds) (Plugin.renderNotesToDrives leds numLeds ctx).
Proof.
  unfold Plugin.renderNotesToDrives. plugin_params Hfit.
  after_copy l Hl.
  apply succeeds_for_loop; [lia|exact Hl|].
  intros noteNum t HnN Ht.
  destruct (arr_get_Some (Plugin.midiNotes ctx) noteNum) as (vel & ->);
    [destruct Hfit as (_ & -> & _); lia|].
  cbn [mbind option_bind].
  destruct (0 <? vel); [|apply succeeds_ret, Ht].
  apply succeeds_for_loop; [lia|exact Ht|].
  intros i t' Hi Ht'.
  destruct (CHANNEL_TO_LED_cell (noteNum - 36) i) as (row & ledIdx & -> & Hled);
    [lia|lia|].
  cbn [mbind option_bind]. rewrite Hled. cbn [mbind option_bind].
  destruct (Z.leb_spec 0 ledIdx); destruct (Z.ltb_spec ledIdx numLeds);
    cbn [andb]; try (apply succeeds_ret, Ht').
  eapply succeeds_length_trans; [exact Ht'|].
  apply store_length. unfold Plugin.sameSize in Ht'. lia.
Qed.

Lemma plugin_rainbowWheel_safe :
  succeeds (Plugin.sameSize leds) (Plugin.renderRainbowWheel leds numLeds ctx).
Proof.
  unfold Plugin.renderRainbowWheel. plugin_params Hfit.
  rewrite idiv_Some by lia. cbn [mbind option_bind].
  apply succeeds_for_loop; [lia|reflexivity|].
  intros led t Hled Ht.
  eapply succeeds_length_trans; [exact Ht|].
  apply store_length. unfold Plugin.sameSize in Ht. lia.
Qed.

Lemma plugin_lines_loop_safe ledStart ledLength lines0 lineOffset
    (colour : Z -> Z * Z * Z) l :
  0 <= ledStart -> 0 <= lineOffset -> (Plugin.sameSize leds) l ->
  succeeds (Plugin.sameSize leds)
    (for_loop 0 lines0 1
       (fun line leds0 =>
          for_loop ledStart (ledStart + ledLength) 1
            (fun led leds1 =>
               idx ← imod (led + line * lineOffset) numLeds;
               Plugin.store leds1 idx (colour line).1.1 (colour line).1.2
                 (colour line).2) leds0) l).
Proof.
  intros Hs Ho Hl.
  apply succeeds_for_loop; [lia|exact Hl|].
  intros line t Hline Ht.
  apply succeeds_for_loop; [lia|exact Ht|].
  intros led t' Hled Ht'.
  rewrite imod_Some by lia. cbn [mbind option_bind].
  eapply succeeds_length_trans; [exact Ht'|].
  apply store_length. unfold Plugin.sameSize in Ht'.
  assert (0 <= Z.rem (led + line * lineOffset) numLeds < numLeds)
    by (apply Z.rem_bound_pos; nia).
  lia.
Qed.

Lemma plugin_movingDots_safe :
  succeeds (Plugin.sameSize leds) (Plugin.renderMovingDots leds numLeds ctx).
Proof.
  unfold Plugin.renderMovingDots. plugin_params Hfit.
  after_copy l Hl.
  match goal with
  | |- context [idiv numLeds ?L] =>
      assert (HL : 1 <= L) by (ztest; lia);
      rewrite (idiv_Some numLeds L) by lia
  end.
  cbn [mbind option_bind].
  match goal with
  | |- context [Plugin.store _ _ ?hh ?ss ?vv] =>
      apply (plugin_lines_loop_safe _ _ _ _ (fun _ => (hh, ss, vv)));
        [lia|apply Z.quot_pos; lia|exact Hl]
  end.
Qed.

Lemma plugin_moveStartLED_safe :
  succeeds (Plugin.sameSize leds) (Plugin.renderMoveStartLED leds numLeds ctx).
Proof.
  unfold Plugin.renderMoveStartLED. plugin_params Hfit.
  after_copy l Hl.
  match goal with
  | |- context [idiv numLeds ?L] =>
      assert (HL : 1 <= L) by (ztest; lia);
      rewrite (idiv_Some numLeds L) by lia
  end.
  cbn [mbind option_bind].
  match goal with
  | |- context [Plugin.store _ _ ?hh (if _ =? 0 then ?s1 else ?s2) ?vv] =>
      apply (plugin_lines_loop_safe _ _ _ _
               (fun line => (hh, if line =? 0 then s1 else s2, vv)));
        [lia|apply Z.quot_pos; lia|exact Hl]
  end.
Qed.

Lemma plugin_backAndForth_safe :
  succeeds (Plugin.sameSize leds) (Plugin.renderBackAndForth leds numLeds ctx).
Proof.
  unfold Plugin.renderBackAndForth. plugin_params Hfit.
  after_copy l Hl.
  apply succeeds_for_loop; [lia|exact Hl|].
  intros i t Hi Ht.
  rewrite imod_Some by lia. cbn [mbind option_bind].
  eapply succeeds_length_trans; [exact Ht|].
  apply store_length. unfold Plugin.sameSize in Ht.
  assert (0 <= Z.rem i numLeds < numLeds) by (apply Z.rem_bound_pos; lia).
  lia.
Qed.

Lemma plugin_colorSinusoid_safe :
  succeeds (Plugin.sameSize leds) (Plugin.renderColorSinusoid leds numLeds ctx).
Proof.
  unfold Plugin.renderColorSinusoid. plugin_params Hfit.
  after_copy l Hl.
  apply succeeds_for_loop; [lia|exact Hl|].
  intros i t Hi Ht.
  match goal with
  | |- context [idiv (i * 64) ?P] =>
      assert (HP : 1 <= P) by (ztest; lia);
      rewrite (idiv_Some (i * 64) P) by lia;
      cbn [mbind option_bind]; cbv zeta
  end.
  match goal with
  | |- context [arr_get COLOR_PHASE (Z.rem (?q + ?ps) 64)] =>
      destruct (COLOR_PHASE_at q ps) as (sinVal & -> & _);
        [apply Z.quot_pos; lia|lia|]
  end.
  cbn [mbind option_bind].
  eapply succeeds_length_trans; [exact Ht|].
  apply store_length. unfold Plugin.sameSize in Ht. lia.
Qed.

Lemma plugin_flashLights_safe :
  succeeds (Plugin.sameSize leds) (Plugin.renderFlashLights rand_sequence leds numLeds ctx).
Proof.
  unfold Plugin.renderFlashLights. plugin_params Hfit.
  after_copy l Hl.
  apply succeeds_for_loop; [lia|exact Hl|].
  intros i t Hi Ht.
  eapply succeeds_length_trans; [exact Ht|].
  apply store_length. unfold Plugin.sameSize in Ht. lia.
Qed.

Lemma plugin_guarded_set_safe (t : list HSVColor) ledIdx c :
  (Plugin.sameSize leds) t ->
  succeeds (Plugin.sameSize leds)
    (if (0 <=? ledIdx) && (ledIdx <? numLeds)
     then arr_set t ledIdx c else Some t).
Proof.
  intros Ht.
  destruct (Z.leb_spec 0 ledIdx); destruct (Z.ltb_spec ledIdx numLeds);
    cbn [andb]; try (apply succeeds_ret, Ht).
  eapply succeeds_length_trans; [exact Ht|].
  apply set_length. unfold Plugin.sameSize in Ht. lia.
Qed.

Lemma plugin_oceanWaves_safe :
  succeeds (Plugin.sameSize leds) (Plugin.renderOceanWaves leds numLeds ctx).
Proof.
  unfold Plugin.renderOceanWaves. plugin_params Hfit.
  after_copy l Hl.
  apply succeeds_for_loop; [lia|exact Hl|].
  intros i t Hi Ht.
  destruct (arr_get_Some TOP_BOTTOM_MIRROR_MAP i) as (ledIdx & ->);
    [simpl; lia|].
  cbn [mbind option_bind]. apply plugin_guarded_set_safe, Ht.
Qed.

Lemma plugin_opposingWaves_safe :
  succeeds (Plugin.sameSize leds) (Plugin.renderOpposingWaves leds numLeds ctx).
Proof.
  unfold Plugin.renderOpposingWaves. plugin_params Hfit.
  after_copy l Hl.
  apply (succeeds_bind (Plugin.sameSize leds)).
  - apply succeeds_for_loop; [lia|exact Hl|].
    intros i t Hi Ht. apply plugin_guarded_set_safe, Ht.
  - intros l' Hl'. apply succeeds_for_loop; [lia|exact Hl'|].
    intros i t Hi Ht. apply plugin_guarded_set_safe, Ht.
Qed.

Lemma plugin_flatBackground_safe :
  succeeds (Plugin.sameSize leds) (Plugin.renderFlatBackground leds numLeds ctx).
Proof.
  unfold Plugin.renderFlatBackground. plugin_params Hfit.
  apply succeeds_for_loop; [lia|reflexivity|].
  intros i t Hi Ht.
  eapply succeeds_length_trans; [exact Ht|].
  apply store_length. unfold Plugin.sameSize in Ht. lia.
Qed.

Lemma plugin_rainbowBackground_safe :
  succeeds (Plugin.sameSize leds) (Plugin.renderRainbowBackground leds numLeds ctx).
Proof.
  unfold Plugin.renderRainbowBackground. plugin_params Hfit.
  rewrite idiv_Some by lia. cbn [mbind option_bind].
  apply succeeds_for_loop; [lia|reflexivity|].
  intros i t Hi Ht.
  eapply succeeds_length_trans; [exact Ht|].
  apply store_length. unfold Plugin.sameSize in Ht. lia.
Qed.

Lemma plugin_sinusoidBackground_safe :
  succeeds (Plugin.sameSize leds) (Plugin.renderSinusoidBackground leds numLeds ctx).
Proof.
  unfold Plugin.renderSinusoidBackground. plugin_params Hfit.
  apply succeeds_for_loop; [lia|reflexivity|].
  intros i t Hi Ht.
  match goal with
  | |- context [idiv (i * 64) ?P] =>
      assert (HP : 1 <= P) by (ztest; lia);
      rewrite (idiv_Some (i * 64) P) by lia;
      cbn [mbind option_bind]; cbv zeta
  end.
  match goal with
  | |- context [arr_get COLOR_PHASE (Z.rem (?q + ?ps) 64)] =>
      destruct (COLOR_PHASE_at q ps) as (sinVal & -> & _);
        [apply Z.quot_pos; lia|lia|]
  end.
  cbn [mbind option_bind].
  eapply succeeds_length_trans; [exact Ht|].
  apply store_length. unfold Plugin.sameSize in Ht. lia.
Qed.

End PluginSafety.

Lemma succeeds_dispatch (leds : list HSVColor)
    (o : option (list HSVColor)) :
  succeeds (fun l => length l = length leds) o ->
  exists l, Some <$> o = Some (Some l) /\ length l = length leds.
Proof.
  intros (l & -> & Hl). exists l. split; [reflexivity|exact Hl].
Qed.

(** X21.  The plugin dispatchers never fault on a context a host passes: with at
    least one LED, a buffer that covers the strip, full-size arrays with MIDI
    data bytes as parameters and a background (if any) that covers the strip,
    every foreground mode but the comets, whose code is not at hand, and
    every background mode returns, and the buffer keeps its size. *)
Theorem plugin_render_never_faults rand_sequence renderComets modeId
    leds numLeds ctx :
  Plugin.contextFits numLeds ctx ->
  1 <= numLeds <= Z.of_nat (length leds) ->
  modeId <> 3 ->
  (exists l,
     Plugin.renderForeground rand_sequence renderComets modeId
       (Some leds) numLeds (Some ctx) = Some (Some l)
     /\ length l = length leds)
  /\ (exists l,
        Plugin.renderBackground modeId (Some leds) numLeds (Some ctx)
        = Some (Some l)
        /\ length l = length leds).
Proof.
  intros Hfit Hn Hm. split.
  - unfold Plugin.renderForeground. apply succeeds_dispatch.
    destruct modeId as [|p|p];
      [apply plugin_notesToDrives_safe; assumption| |
       apply succeeds_ret; reflexivity].
    do 4 (try destruct p as [p|p|]);
      first [ apply succeeds_ret; reflexivity
            | apply plugin_rainbowWheel_safe; assumption
            | apply plugin_movingDots_safe; assumption
            | apply plugin_backAndForth_safe; assumption
            | apply plugin_moveStartLED_safe; assumption
            | apply plugin_colorSinusoid_safe; assumption
            | apply plugin_flashLights_safe; assumption
            | apply plugin_oceanWaves_safe; assumption
            | apply plugin_opposingWaves_safe; assumption
            | contradiction Hm; reflexivity ].
  - unfold Plugin.renderBackground. apply succeeds_dispatch.
    destruct modeId as [|p|p];
      try (apply plugin_flatBackground_safe; assumption).
    do 2 (try destruct p as [p|p|]);
      first [ apply plugin_flatBackground_safe; assumption
            | apply plugin_rainbowBackground_safe; assumption
            | apply plugin_sinusoidBackground_safe; assumption ].
Qed.

(** X22.  The plugin's rainbow renderers divide by the strip length before they
    look at it: on an empty strip the rainbow wheel and the rainbow
    background fault, where the flat background just returns. *)
Theorem plugin_rainbow_needs_leds rand_sequence renderComets leds ctx :
  Plugin.contextFits 0 ctx ->
  Plugin.renderForeground rand_sequence renderComets 1 (Some leds) 0 (Some ctx)
  = None
  /\ Plugin.renderBackground 1 (Some leds) 0 (Some ctx) = None
  /\ Plugin.renderBackground 0 (Some leds) 0 (Some ctx) = Some (Some leds).
Proof.
  intros Hfit. split; [|split].
  - unfold Plugin.renderForeground, Plugin.renderRainbowWheel.
    plugin_params Hfit. reflexivity.
  - unfold Plugin.renderBackground, Plugin.renderRainbowBackground.
    plugin_params Hfit. reflexivity.
  - unfold Plugin.renderBackground, Plugin.renderFlatBackground.
    plugin_params Hfit. reflexivity.
Qed.

(** ** The plugin and the engine *)

(** A loop that stores [f i] into cell [i] for every [i] below [n]. *)
Lemma fill_loop (f : Z -> HSVColor)
    (body : Z -> list HSVColor -> option (list HSVColor)) n l :
  0 <= n <= Z.of_nat (length l) ->
  (forall i t, 0 <= i < n -> length t = length l ->
     body i t = arr_set t i (f i)) ->
  succeeds
    (fun l' => length l' = length l
       /\ (forall j, 0 <= j < n -> l' !! Z.to_nat j = Some (f j))
       /\ (forall j, n <= j -> l' !! Z.to_nat j = l !! Z.to_nat j))
    (for_loop 0 n 1 body l).
Proof.
  intros Hn Hbody.
  apply (succeeds_for_count
           (fun k t => length t = length l
              /\ (forall j, 0 <= j < k -> t !! Z.to_nat j = Some (f j))
              /\ (forall j, k <= j -> t !! Z.to_nat j = l !! Z.to_nat j))).
  - lia.
  - split; [reflexivity|]. split; [intros j Hj; lia|reflexivity].
  - intros k t Hk (Hlen & Hlow & Hhigh).
    rewrite Hbody by assumption. rewrite arr_set_Some by lia.
    apply succeeds_ret. split; [rewrite length_insert; exact Hlen|]. split.
    + intros j Hj. destruct (Z.eq_dec j k) as [->|Hne].
      * apply list_lookup_insert_eq. lia.
      * rewrite list_lookup_insert_ne by lia. apply Hlow. lia.
    + intros j Hj. rewrite list_lookup_insert_ne by lia. apply Hhigh. lia.
Qed.

Lemma even_quot_2 x : Z.even x = true -> Z.quot x 2 * 2 = x.
Proof.
  intros He. apply Z.even_spec in He. destruct He as [k ->].
  rewrite (Z.mul_comm 2 k), Z.quot_mul by lia. reflexivity.
Qed.

Lemma carries_at ctx e cc k :
  Plugin.carries ctx e -> k = cc - 1 -> 1 <= cc <= 15 ->
  arr_get (Plugin.params ctx) k = Some (getCC cc e).
Proof. intros Hc -> Hcc. apply Hc, Hcc. Qed.

Section PluginAgreement.

Variable rand_after_srand : Z -> Z.
Variable rand_sequence : Z -> Z -> Z.
Variable renderComets :
  list HSVColor -> Z -> Plugin.RenderContext -> option (list HSVColor).

(** X23.  Rainbow wheel: given the CC values of an engine in mode 1, the plugin
    renders the LEDs that the engine's [render] shows. *)
Theorem plugin_rainbowWheel_matches_engine e ctx buf :
  wellFormed e -> ffMode e = 1 -> colourMembersEven e ->
  Plugin.carries ctx e ->
  numLeds e <= Z.of_nat (length buf) ->
  exists e' l',
    render rand_after_srand e = Some e'
    /\ Plugin.renderForeground rand_sequence renderComets 1
         (Some buf) (numLeds e) (Some ctx) = Some (Some l')
    /\ length l' = length buf
    /\ forall j, 0 <= j < numLeds e ->
         l' !! Z.to_nat j = leds e' !! Z.to_nat j.
Proof.
  intros Hwf Hm (Eh & Es & Eb & _) Hc Hlen.
  destruct (render_rainbowWheel rand_after_srand e Hwf Hm)
    as (e' & He' & _ & Hcells).
  assert (Hn : 1 <= numLeds e) by (destruct Hwf; lia).
  unfold Plugin.renderForeground, Plugin.renderRainbowWheel.
  rewrite (carries_at ctx e 1 0 Hc), (carries_at ctx e 2 1 Hc),
    (carries_at ctx e 3 2 Hc) by lia. cbn [mbind option_bind].
  rewrite idiv_Some by lia. cbn [mbind option_bind]. cbv zeta.
  unfold getCC. rewrite !even_quot_2 by assumption.
  destruct (fill_loop
              (rainbowColour (ffHue e) (ffSat e) (ffBright e) (numLeds e))
              (fun led leds0 =>
                 Plugin.store leds0 led
                   (Z.rem (ffHue e + led * Z.quot 255 (numLeds e)) 256)
                   (ffSat e) (ffBright e))
              (numLeds e) buf) as (l' & -> & Hl' & Hfill & _).
  - lia.
  - intros i t Hi Ht. reflexivity.
  - exists e', l'. split; [exact He'|]. split; [reflexivity|].
    split; [exact Hl'|].
    intros j Hj. rewrite Hfill, Hcells by exact Hj. reflexivity.
Qed.

(** X24.  Backgrounds: given the CC values of the engine, the plugin's flat
    background is the engine's; its rainbow background starts at hue 0
    whatever the hue parameter, so it is the engine's only when [bgHue] is
    0: otherwise every cell differs from the engine's in its hue by
    [bgHue] modulo 256. *)
Theorem plugin_backgrounds_match_engine e ctx buf :
  wellFormed e -> colourMembersEven e ->
  Plugin.carries ctx e ->
  numLeds e <= Z.of_nat (length buf) ->
  0 <= bgMode e <= 1 -> 0 <= bgHue e ->
  exists a l',
    updateBackground e = Some a
    /\ Plugin.renderBackground (bgMode e) (Some buf) (numLeds e) (Some ctx)
       = Some (Some l')
    /\ length l' = length buf
    /\ forall j, 0 <= j < numLeds e ->
         exists c c',
           l' !! Z.to_nat j = Some c /\ background a !! Z.to_nat j = Some c'
           /\ leds a !! Z.to_nat j = Some c'
           /\ s c = s c' /\ v c = v c'
           /\ h c' = (h c + (if bgMode e =? 0 then 0 else bgHue e)) mod 256.
Proof.
  intros Hwf (_ & _ & _ & Eh & Es & Eb) Hc Hlen Hmode Hhue.
  assert (Hn : 1 <= numLeds e) by (destruct Hwf; lia).
  assert (bgMode e = 0 \/ bgMode e = 1) as [Hm|Hm] by lia; rewrite Hm.
  - destruct (updateBackground_flat e Hwf Hm) as (a & Ha & _ & Hcells).
    unfold Plugin.renderBackground, Plugin.renderFlatBackground.
    rewrite (carries_at ctx e 11 10 Hc), (carries_at ctx e 12 11 Hc),
      (carries_at ctx e 13 12 Hc) by lia. cbn [mbind option_bind].
    cbv zeta. unfold getCC. rewrite !even_quot_2 by assumption.
    destruct (fill_loop (fun _ => flatColour e)
                (fun i leds0 =>
                   Plugin.store leds0 i (bgHue e) (bgSat e) (bgBright e))
                (numLeds e) buf) as (l' & -> & Hl' & Hfill & _).
    + lia.
    + intros i t Hi Ht. reflexivity.
    + exists a, l'. split; [exact Ha|]. split; [reflexivity|].
      split; [exact Hl'|].
      intros j Hj. exists (flatColour e), (flatColour e).
      destruct (Hcells j Hj) as [Hb Hl].
      split; [apply Hfill, Hj|]. split; [exact Hb|]. split; [exact Hl|].
      split; [reflexivity|]. split; [reflexivity|].
      simpl. rewrite Z.add_0_r. unfold u8. symmetry. apply Z.mod_mod. lia.
  - destruct (rainbowBackground_cells e Hwf) as (a & Ha & _ & Hcells).
    rewrite <- (updateBackground_at 1 renderRainbowBackground e Hm eq_refl)
      in Ha.
    unfold Plugin.renderBackground, Plugin.renderRainbowBackground.
    rewrite (carries_at ctx e 12 11 Hc), (carries_at ctx e 13 12 Hc) by lia. cbn [mbind option_bind].
    rewrite idiv_Some by lia. cbn [mbind option_bind]. cbv zeta.
    unfold getCC. rewrite !even_quot_2 by assumption.
    destruct (fill_loop
                (fun i => mkHSV (u8 (i * Z.quot 255 (numLeds e)))
                            (u8 (bgSat e)) (u8 (bgBright e)))
                (fun i leds0 =>
                   Plugin.store leds0 i (i * Z.quot 255 (numLeds e))
                     (bgSat e) (bgBright e))
                (numLeds e) buf) as (l' & -> & Hl' & Hfill & _).
    + lia.
    + intros i t Hi Ht. reflexivity.
    + exists a, l'. split; [exact Ha|]. split; [reflexivity|].
      split; [exact Hl'|].
      intros j Hj. destruct (Hcells j Hj) as [Hb Hl].
      eexists. eexists.
      split; [apply Hfill, Hj|]. split; [exact Hb|]. split; [exact Hl|].
      split; [reflexivity|]. split; [reflexivity|].
      simpl. unfold u8.
      assert (Hq : 0 <= Z.quot 255 (numLeds e)) by (apply Z.quot_pos; lia).
      rewrite rem_is_mod by nia.
      rewrite Z.mod_mod by lia.
      rewrite Z.add_mod_idemp_l by lia. f_equal. lia.
Qed.

End PluginAgreement.

(** ** Painting a buffer with one colour *)

Lemma coloured_refl c l : Plugin.coloured c (fun _ => False) l l.
Proof.
  split; [reflexivity|]. split; [intros j _ []|].
  split; [reflexivity|]. intros j _. right. reflexivity.
Qed.

Lemma coloured_weaken c (S S' : Z -> Prop) l l' :
  Plugin.coloured c S l l' -> (forall j, 0 <= j -> S j <-> S' j) ->
  Plugin.coloured c S' l l'.
Proof.
  intros (Hlen & H1 & H2 & H3) HS. split; [exact Hlen|]. split; [|split].
  - intros j Hj Hs. apply H1; [exact Hj|]. apply HS; assumption.
  - intros j Hj Hs. apply H2; [exact Hj|]. intros Hs'. apply Hs, HS; assumption.
  - exact H3.
Qed.

Lemma coloured_trans c (S1 S2 : Z -> Prop) l1 l2 l3 :
  Plugin.coloured c S1 l1 l2 -> Plugin.coloured c S2 l2 l3 ->
  Plugin.coloured c (fun j => S1 j \/ S2 j) l1 l3.
Proof.
  intros (La & A1 & A2 & A3) (Lb & B1 & B2 & B3).
  split; [congruence|]. split; [|split].
  - intros j Hj [Hs|Hs].
    + destruct (B3 j Hj) as [Hc|Hk]; [exact Hc|].
      rewrite Hk. apply A1; assumption.
    + apply B1; assumption.
  - intros j Hj Hs. rewrite B2, A2; [reflexivity|exact Hj|tauto|exact Hj|tauto].
  - intros j Hj. destruct (B3 j Hj) as [Hc|Hk]; [left; exact Hc|].
    rewrite Hk. apply A3, Hj.
Qed.

Lemma store_coloured l idx hue sat bright :
  0 <= idx < Z.of_nat (length l) ->
  succeeds
    (Plugin.coloured (mkHSV (u8 hue) (u8 sat) (u8 bright)) (fun j => j = idx) l)
    (Plugin.store l idx hue sat bright).
Proof.
  intros Hi. unfold Plugin.store. rewrite arr_set_Some by exact Hi.
  apply succeeds_ret. split; [apply length_insert|]. split; [|split].
  - intros j Hj ->. apply list_lookup_insert_eq. lia.
  - intros j Hj Hne. apply list_lookup_insert_ne. lia.
  - intros j Hj. destruct (Z.eq_dec j idx) as [->|Hne].
    + left. apply list_lookup_insert_eq. lia.
    + right. apply list_lookup_insert_ne. lia.
Qed.

Lemma for_loop_empty {St} lo hi (body : Z -> St -> option St) st :
  hi <= lo -> for_loop lo hi 1 body st = Some st.
Proof.
  intros Hle. unfold for_loop. replace (Z.to_nat (hi - lo)) with 0%nat by lia.
  reflexivity.
Qed.

Lemma coloured_for_loop c (S : Z -> Z -> Prop)
    (body : Z -> list HSVColor -> option (list HSVColor)) lo hi l :
  (forall i t, lo <= i < hi -> length t = length l ->
     succeeds (Plugin.coloured c (S i) t) (body i t)) ->
  succeeds (Plugin.coloured c (fun j => exists i, lo <= i < hi /\ S i j) l)
    (for_loop lo hi 1 body l).
Proof.
  intros Hbody. destruct (Z.le_gt_cases hi lo) as [Hle|Hlt].
  { rewrite for_loop_empty by exact Hle. apply succeeds_ret.
    eapply coloured_weaken; [apply coloured_refl|].
    intros j Hj. split; [intros []|intros (i & Hi & _); lia]. }
  apply (succeeds_for_count
           (fun k t =>
              Plugin.coloured c (fun j => exists i, lo <= i < k /\ S i j) l t)).
  - lia.
  - eapply coloured_weaken; [apply coloured_refl|].
    intros j Hj. split; [intros []|intros (i & Hi & _); lia].
  - intros k t Hk Ht.
    eapply succeeds_mono; [apply Hbody; [exact Hk|exact (proj1 Ht)]|].
    intros t' Ht'. eapply coloured_weaken;
      [eapply coloured_trans; [exact Ht|exact Ht']|].
    intros j Hj. split.
    + intros [(i & Hi & Hs)|Hs]; [exists i; split; [lia|exact Hs]|].
      exists k. split; [lia|exact Hs].
    + intros (i & Hi & Hs). destruct (Z.eq_dec i k) as [->|Hne];
        [right; exact Hs|left; exists i; split; [lia|exact Hs]].
Qed.

(** A bounded search decides a bounded existential. *)
Lemma bounded_exists_dec (P : Z -> Prop) lo hi :
  (forall i, P i \/ ~ P i) ->
  (exists i, lo <= i < hi /\ P i) \/ ~ (exists i, lo <= i < hi /\ P i).
Proof.
  intros Hdec.
  assert (Hgen : forall n : nat,
             (exists i, lo <= i < lo + Z.of_nat n /\ P i)
             \/ ~ (exists i, lo <= i < lo + Z.of_nat n /\ P i)).
  { induction n as [|n IH].
    - right. intros (i & Hi & _). lia.
    - destruct IH as [(i & Hi & HP)|Hno].
      + left. exists i. split; [lia|exact HP].
      + destruct (Hdec (lo + Z.of_nat n)) as [HP|HnP].
        * left. exists (lo + Z.of_nat n). split; [lia|exact HP].
        * right. intros (i & Hi & HP).
          destruct (Z.eq_dec i (lo + Z.of_nat n)) as [->|Hne];
            [exact (HnP HP)|].
          apply Hno. exists i. split; [lia|exact HP]. }
  destruct (Z.le_gt_cases hi lo) as [Hle|Hlt].
  - right. intros (i & Hi & _). lia.
  - replace hi with (lo + Z.of_nat (Z.to_nat (hi - lo))) by lia. apply Hgen.
Qed.

Lemma onLine_dec e j : onLine e j \/ ~ onLine e j.
Proof.
  destruct (bounded_exists_dec
              (fun line => exists k, 0 <= k < ffLedLength e
                                     /\ j = cometIndex e line k)
              0 (lines e)) as [(line & Hl & k & Hk & Hj)|Hno].
  - intros line.
    apply (bounded_exists_dec (fun k => j = cometIndex e line k)).
    intros k. destruct (Z.eq_dec j (cometIndex e line k)); [left|right];
      assumption.
  - left. exists line, k. split; [exact Hl|]. split; assumption.
  - right. intros (line & k & Hl & Hk & Hj). apply Hno.
    exists line. split; [exact Hl|]. exists k. split; assumption.
Qed.

(** ** Moving dots in the plugin *)

(** The lines of the plugin's moving dots: a line count of zero counts as
    one line. *)
Lemma plugin_movingDots_coloured e ctx buf bg :
  wellFormed e -> colourMembersEven e -> Plugin.carries ctx e ->
  numLeds e <= Z.of_nat (length buf) ->
  Plugin.background ctx = Some bg -> numLeds e <= Z.of_nat (length bg) ->
  exists l0 l',
    memcpy buf bg (numLeds e) = Some l0
    /\ Plugin.renderMovingDots buf (numLeds e) ctx = Some l'
    /\ Plugin.coloured (fgColour e)
         (fun j => exists line,
            0 <= line < (if lines e =? 0 then 1 else lines e)
            /\ exists led,
                 ffLedStart e <= led < ffLedStart e + ffLedLength e
                 /\ j = Z.rem (led + line
                                * Z.quot (numLeds e)
                                    (if lines e =? 0 then 1 else lines e))
                          (numLeds e))
         l0 l'.
Proof.
  intros Hwf (Eh & Es & Eb & _) Hc Hlen Hbg Hbglen.
  assert (Hn : 1 <= numLeds e) by (destruct Hwf; lia).
  assert (Hstart : 0 <= ffLedStart e) by (destruct Hwf as (_&_&_&_&?&_); lia).
  destruct (memcpy_length buf bg (numLeds e) ltac:(lia) Hbglen)
    as (l0 & Hl0 & Hlen0 & _).
  unfold Plugin.renderMovingDots.
  rewrite (carries_at ctx e 1 0 Hc), (carries_at ctx e 2 1 Hc),
    (carries_at ctx e 3 2 Hc), (carries_at ctx e 4 3 Hc),
    (carries_at ctx e 5 4 Hc), (carries_at ctx e 7 6 Hc) by lia.
  cbn [mbind option_bind]. cbv zeta.
  unfold Plugin.copyContextBackground. rewrite Hbg, Hl0.
  cbn [mbind option_bind].
  unfold getCC. rewrite !even_quot_2 by assumption.
  set (L := if lines e =? 0 then 1 else lines e).
  assert (HL : L <> 0) by (unfold L; ztest; lia).
  rewrite idiv_Some by exact HL. cbn [mbind option_bind].
  destruct (coloured_for_loop (fgColour e)
              (fun line j => exists led,
                 ffLedStart e <= led < ffLedStart e + ffLedLength e
                 /\ j = Z.rem (led + line * Z.quot (numLeds e) L) (numLeds e))
              (fun line leds0 =>
                 for_loop (ffLedStart e) (ffLedStart e + ffLedLength e) 1
                   (fun led leds1 =>
                      idx ← imod (led + line * Z.quot (numLeds e) L) (numLeds e);
                      Plugin.store leds1 idx (ffHue e) (ffSat e) (ffBright e))
                   leds0)
              0 L l0) as (l' & Hl' & Hcol).
  - intros line t Hline Ht.
    eapply succeeds_mono.
    + apply (coloured_for_loop (fgColour e)
               (fun led j =>
                  j = Z.rem (led + line * Z.quot (numLeds e) L) (numLeds e))).
      intros led t' Hled Ht'.
      rewrite imod_Some by lia. cbn [mbind option_bind].
      apply store_coloured.
      assert (0 <= Z.quot (numLeds e) L) by (apply Z.quot_pos; lia).
      assert (0 <= Z.rem (led + line * Z.quot (numLeds e) L) (numLeds e)
              < numLeds e) by (apply Z.rem_bound_pos; nia).
      lia.
    + intros r Hr. exact Hr.
  - exists l0, l'. split; [reflexivity|]. split; [exact Hl'|exact Hcol].
Qed.

Section PluginDots.

Variable rand_after_srand : Z -> Z.
Variable rand_sequence : Z -> Z -> Z.
Variable renderComets :
  list HSVColor -> Z -> Plugin.RenderContext -> option (list HSVColor).

(** X25.  Moving dots: given the CC values of an engine in mode 2 with at least
    one line, and the background layer of the engine as the context's
    background, the plugin renders the LEDs that the engine's [render]
    shows. *)
Theorem plugin_movingDots_matches_engine e a ctx buf :
  wellFormed e -> ffMode e = 2 -> lines e <> 0 -> colourMembersEven e ->
  Plugin.carries ctx e ->
  numLeds e <= Z.of_nat (length buf) ->
  updateBackground (set_frameCounter (u32 (frameCounter e + 1)) e) = Some a ->
  Plugin.background ctx = Some (background a) ->
  exists e' l',
    render rand_after_srand e = Some e'
    /\ Plugin.renderForeground rand_sequence renderComets 2
         (Some buf) (numLeds e) (Some ctx) = Some (Some l')
    /\ length l' = length buf
    /\ forall j, 0 <= j < numLeds e ->
         l' !! Z.to_nat j = leds e' !! Z.to_nat j.
Proof.
  intros Hwf Hm Hlines Heven Hc Hlen Ha Hbg.
  destruct (render_shows rand_after_srand
              (fun _ c => c = fgColour e) (onLine e) e Hwf)
    as (e' & He' & a' & Ha' & _ & Hshow).
  { intros x Hwx Hsx _.
    rewrite (renderForeground_at rand_after_srand 2 renderMovingDots e x Hsx Hm)
      by reflexivity.
    apply renderMovingDots_paints; assumption. }
  assert (a' = a) as -> by congruence.
  destruct (updateBackground_preserved
              (set_frameCounter (u32 (frameCounter e + 1)) e) Hwf)
    as (a' & Ha'' & Hpa).
  assert (a' = a) as -> by congruence.
  assert (Hwa : wellFormed a) by (eapply wellFormed_preserved; [|exact Hpa]; exact Hwf).
  assert (Ena : numLeds a = numLeds e)
    by (apply (sameControls_numLeds _ _ (proj1 Hpa))).
  assert (Hbglen : numLeds e <= Z.of_nat (length (background a)))
    by (destruct Hwa as (_ & _ & ? & _); lia).
  destruct (plugin_movingDots_coloured e ctx buf (background a)
              Hwf Heven Hc Hlen Hbg Hbglen)
    as (l0 & l' & Hl0 & Hl' & Hlen' & H1 & H2 & _).
  assert (Hn : 1 <= numLeds e) by (destruct Hwf; lia).
  destruct (memcpy_length buf (background a) (numLeds e) ltac:(lia) Hbglen)
    as (l0' & Hl0' & Hlen0 & Hcopy & _).
  assert (l0' = l0) as -> by congruence.
  exists e', l'. split; [exact He'|]. split.
  { unfold Plugin.renderForeground. rewrite Hl'. reflexivity. }
  split; [congruence|].
  intros j Hj.
  assert (Hon : forall j,
             onLine e j <->
             exists line,
               0 <= line < (if lines e =? 0 then 1 else lines e)
               /\ exists led,
                    ffLedStart e <= led < ffLedStart e + ffLedLength e
                    /\ j = Z.rem (led + line
                                   * Z.quot (numLeds e)
                                       (if lines e =? 0 then 1 else lines e))
                             (numLeds e)).
  { intros i. destruct (Z.eqb_spec (lines e) 0); [contradiction|].
    unfold onLine, cometIndex. split.
    - intros (line & k & Hl & Hk & ->). exists line. split; [exact Hl|].
      exists (ffLedStart e + k). split; [lia|reflexivity].
    - intros (line & Hl & led & Hled & ->). exists line, (led - ffLedStart e).
      split; [exact Hl|]. split; [lia|]. f_equal. lia. }
  destruct (onLine_dec e j) as [Hs|Hs].
  - destruct (proj1 (Hshow j Hj) Hs) as (c & -> & ->).
    apply H1; [lia|]. apply Hon, Hs.
  - rewrite (proj2 (Hshow j Hj) Hs).
    rewrite H2; [apply Hcopy, Hj|lia|]. intros Hs'. apply Hs, Hon, Hs'.
Qed.

(** X26.  Without lines the two differ: the engine paints nothing, the plugin
    takes a line count of 0 for 1 and paints the [ffLedLength] LEDs from
    [ffLedStart] on in the foreground colour. *)
Theorem plugin_movingDots_without_lines e a ctx buf k :
  wellFormed e -> ffMode e = 2 -> lines e = 0 -> colourMembersEven e ->
  Plugin.carries ctx e ->
  numLeds e <= Z.of_nat (length buf) ->
  updateBackground (set_frameCounter (u32 (frameCounter e + 1)) e) = Some a ->
  Plugin.background ctx = Some (background a) ->
  0 <= k < ffLedLength e ->
  exists e' l',
    render rand_after_srand e = Some e'
    /\ Plugin.renderForeground rand_sequence renderComets 2
         (Some buf) (numLeds e) (Some ctx) = Some (Some l')
    /\ leds e' !! Z.to_nat (Z.rem (ffLedStart e + k) (numLeds e))
       = background a !! Z.to_nat (Z.rem (ffLedStart e + k) (numLeds e))
    /\ l' !! Z.to_nat (Z.rem (ffLedStart e + k) (numLeds e))
       = Some (fgColour e).
Proof.
  intros Hwf Hm Hlines Heven Hc Hlen Ha Hbg Hk.
  assert (Hn : 1 <= numLeds e) by (destruct Hwf; lia).
  assert (Hstart : 0 <= ffLedStart e) by (destruct Hwf as (_&_&_&_&?&_); lia).
  assert (Hidx : 0 <= Z.rem (ffLedStart e + k) (numLeds e) < numLeds e)
    by (apply Z.rem_bound_pos; lia).
  destruct (render_shows rand_after_srand
              (fun _ _ => False) (fun _ => False) e Hwf)
    as (e' & He' & a' & Ha' & _ & Hshow).
  { intros x Hwx Hsx _.
    rewrite (renderForeground_at rand_after_srand 2 renderMovingDots e x Hsx Hm)
      by reflexivity.
    unfold renderMovingDots. controls Hsx. rewrite Hlines.
    apply succeeds_ret, painted_refl. }
  assert (a' = a) as -> by congruence.
  destruct (updateBackground_preserved
              (set_frameCounter (u32 (frameCounter e + 1)) e) Hwf)
    as (a' & Ha'' & Hpa).
  assert (a' = a) as -> by congruence.
  assert (Hwa : wellFormed a) by (eapply wellFormed_preserved; [|exact Hpa]; exact Hwf).
  assert (Ena : numLeds a = numLeds e)
    by (apply (sameControls_numLeds _ _ (proj1 Hpa))).
  assert (Hbglen : numLeds e <= Z.of_nat (length (background a)))
    by (destruct Hwa as (_ & _ & ? & _); lia).
  destruct (plugin_movingDots_coloured e ctx buf (background a)
              Hwf Heven Hc Hlen Hbg Hbglen)
    as (l0 & l' & Hl0 & Hl' & Hlen' & H1 & _).
  exists e', l'. split; [exact He'|]. split.
  { unfold Plugin.renderForeground. rewrite Hl'. reflexivity. }
  split.
  - apply (proj2 (Hshow _ Hidx)). tauto.
  - apply H1; [lia|]. rewrite Hlines. simpl.
    exists 0. split; [lia|]. exists (ffLedStart e + k). split; [lia|].
    f_equal. lia.
Qed.

End PluginDots.

(** ** What the plugin modes paint *)

Lemma set_coloured (l : list HSVColor) idx c :
  0 <= idx < Z.of_nat (length l) ->
  succeeds (Plugin.coloured c (fun j => j = idx) l) (arr_set l idx c).
Proof.
  intros Hi. rewrite arr_set_Some by exact Hi.
  apply succeeds_ret. split; [apply length_insert|]. split; [|split].
  - intros j Hj ->. apply list_lookup_insert_eq. lia.
  - intros j Hj Hne. apply list_lookup_insert_ne. lia.
  - intros j Hj. destruct (Z.eq_dec j idx) as [->|Hne].
    + left. apply list_lookup_insert_eq. lia.
    + right. apply list_lookup_insert_ne. lia.
Qed.

(** The guarded store of the drives and wave modes. *)
Lemma guarded_set_coloured (l : list HSVColor) numLeds ledIdx c :
  numLeds <= Z.of_nat (length l) ->
  succeeds
    (Plugin.coloured c (fun j => j = ledIdx /\ j < numLeds) l)
    (if (0 <=? ledIdx) && (ledIdx <? numLeds)
     then arr_set l ledIdx c else Some l).
Proof.
  intros Hn.
  destruct (Z.leb_spec 0 ledIdx); destruct (Z.ltb_spec ledIdx numLeds);
    cbn [andb].
  - eapply succeeds_mono; [apply set_coloured; lia|].
    intros r Hr. eapply coloured_weaken; [exact Hr|].
    intros j Hj. split; [intros ->; split; [reflexivity|lia]|tauto].
  - apply succeeds_ret. eapply coloured_weaken; [apply coloured_refl|].
    intros j Hj. split; [intros []|lia].
  - apply succeeds_ret. eapply coloured_weaken; [apply coloured_refl|].
    intros j Hj. split; [intros []|lia].
  - apply succeeds_ret. eapply coloured_weaken; [apply coloured_refl|].
    intros j Hj. split; [intros []|lia].
Qed.

Lemma copyContextBackground_Some n ctx buf :
  Plugin.contextFits n ctx -> 0 <= n <= Z.of_nat (length buf) ->
  exists l0, Plugin.copyContextBackground buf n ctx = Some l0
    /\ length l0 = length buf.
Proof.
  intros Hfit Hn.
  destruct (copyContextBackground_length n ctx buf Hfit Hn) as (l0 & H0 & Hl).
  exists l0. split; assumption.
Qed.

Lemma CHANNEL_TO_LED_row0 :
  arr_get CHANNEL_TO_LED 0 = Some [0; 0; 0; 0; 0; 0].
Proof. reflexivity. Qed.

Section PluginShown.

Variable rand_sequence : Z -> Z -> Z.
Variable renderComets :
  list HSVColor -> Z -> Plugin.RenderContext -> option (list HSVColor).

(** X27.  The plugin's drives mode: over the background, the LEDs of [driveLit]
    get the foreground colour.  A sounding note [36 + ch] lights the drive
    of channel [ch]; note 36 lights LED 0; an LED that belongs to no drive,
    LED 0 apart, is never lit. *)
Theorem plugin_notesToDrives_shown ctx buf numLeds p0 p1 p2 :
  Plugin.contextFits numLeds ctx ->
  0 <= numLeds <= Z.of_nat (length buf) ->
  arr_get (Plugin.params ctx) 0 = Some p0 ->
  arr_get (Plugin.params ctx) 1 = Some p1 ->
  arr_get (Plugin.params ctx) 2 = Some p2 ->
  exists l0 l',
    Plugin.copyContextBackground buf numLeds ctx = Some l0
    /\ Plugin.renderForeground rand_sequence renderComets 0
         (Some buf) numLeds (Some ctx) = Some (Some l')
    /\ length l' = length buf
    /\ forall j, 0 <= j ->
         (Plugin.driveLit ctx numLeds j ->
          l' !! Z.to_nat j
          = Some (mkHSV (u8 (p0 * 2)) (u8 (p1 * 2)) (u8 (p2 * 2))))
         /\ (~ Plugin.driveLit ctx numLeds j ->
             l' !! Z.to_nat j = l0 !! Z.to_nat j).
Proof.
  intros Hfit Hn H0 H1 H2.
  destruct (copyContextBackground_Some numLeds ctx buf Hfit Hn)
    as (l0 & Hl0 & Hlen0).
  unfold Plugin.renderForeground, Plugin.renderNotesToDrives.
  rewrite H0, H1, H2. cbn [mbind option_bind]. cbv zeta.
  rewrite Hl0. cbn [mbind option_bind].
  set (c := mkHSV (u8 (p0 * 2)) (u8 (p1 * 2)) (u8 (p2 * 2))).
  destruct (coloured_for_loop c
              (fun noteNum j =>
                 Plugin.sounding ctx noteNum
                 /\ exists i, 0 <= i < 6
                      /\ exists row, arr_get CHANNEL_TO_LED (noteNum - 36)
                                     = Some row
                           /\ arr_get row i = Some j /\ j < numLeds)
              (fun noteNum leds0 =>
                 velocity ← arr_get (Plugin.midiNotes ctx) noteNum;
                 if 0 <? velocity
                 then
                   for_loop 0 6 1
                     (fun i leds1 =>
                        row ← arr_get CHANNEL_TO_LED (noteNum - 36);
                        ledIdx ← arr_get row i;
                        if (0 <=? ledIdx) && (ledIdx <? numLeds)
                        then Plugin.store leds1 ledIdx (p0 * 2) (p1 * 2) (p2 * 2)
                        else Some leds1) leds0
                 else Some leds0)
              36 53 l0) as (l' & Hl' & Hcol).
  - intros noteNum t Hnote Ht.
    destruct (arr_get_Some (Plugin.midiNotes ctx) noteNum) as (vel & Hvel);
      [destruct Hfit as (_ & -> & _); lia|].
    rewrite Hvel. cbn [mbind option_bind].
    destruct (Z.ltb_spec 0 vel) as [Hpos|Hzero].
    + eapply succeeds_mono.
      * apply (coloured_for_loop c
                 (fun i j => exists row,
                    arr_get CHANNEL_TO_LED (noteNum - 36) = Some row
                    /\ arr_get row i = Some j /\ j < numLeds)).
        intros i t' Hi Ht'.
        destruct (CHANNEL_TO_LED_cell (noteNum - 36) i)
          as (row & ledIdx & Hrow & Hled); [lia|lia|].
        rewrite Hrow. cbn [mbind option_bind].
        rewrite Hled. cbn [mbind option_bind].
        eapply succeeds_mono;
          [apply (guarded_set_coloured t' numLeds ledIdx c); lia|].
        intros r Hr. eapply coloured_weaken; [exact Hr|].
        intros j Hj. split.
        -- intros [-> Hlt]. exists row.
           split; [first [exact Hrow|reflexivity]|].
           split; [exact Hled|exact Hlt].
        -- intros (row' & Hrow' & Hled' & Hlt).
           assert (row' = row) as -> by congruence.
           split; [congruence|exact Hlt].
      * intros r Hr. eapply coloured_weaken; [exact Hr|].
        intros j Hj. split.
        -- intros (i & Hi & Hcell). split; [exists vel; split; assumption|].
           exists i. split; [exact Hi|exact Hcell].
        -- intros (_ & i & Hi & Hcell). exists i. split; [exact Hi|exact Hcell].
    + apply succeeds_ret. eapply coloured_weaken; [apply coloured_refl|].
      intros j Hj. split; [intros []|].
      intros ((vel' & Hvel' & Hpos) & _).
      assert (vel' = vel) as -> by congruence. lia.
  - fold c in Hl'. rewrite Hl'.
    destruct Hcol as (Hlen' & C1 & C2 & _).
    assert (Hlit : forall j, 0 <= j ->
               Plugin.driveLit ctx numLeds j <->
               exists noteNum, 36 <= noteNum < 53
                 /\ Plugin.sounding ctx noteNum
                 /\ exists i, 0 <= i < 6
                      /\ exists row, arr_get CHANNEL_TO_LED (noteNum - 36)
                                     = Some row
                           /\ arr_get row i = Some j /\ j < numLeds).
    { intros j Hj. unfold Plugin.driveLit. split.
      - intros (Hlt & [[-> Hs]|(ch & i & Hd & Hs)]).
        + exists 36. split; [lia|]. split; [exact Hs|].
          exists 0. split; [lia|]. exists [0; 0; 0; 0; 0; 0].
          split; [reflexivity|]. split; [reflexivity|exact Hlt].
        + destruct (driveOf_inv j ch i Hd) as (Hch & Hi & row & Hrow & Hled).
          exists (36 + ch). split; [lia|]. split; [exact Hs|].
          exists i. split; [exact Hi|]. exists row.
          replace (36 + ch - 36) with ch by lia.
          split; [exact Hrow|]. split; [exact Hled|exact Hlt].
      - intros (noteNum & Hnote & Hs & i & Hi & row & Hrow & Hled & Hlt).
        split; [exact Hlt|].
        destruct (Z.eq_dec noteNum 36) as [->|Hne].
        + left. split; [|exact Hs].
          change (36 - 36) with 0 in Hrow. rewrite CHANNEL_TO_LED_row0 in Hrow.
          injection Hrow as <-.
          revert Hled.
          apply (Z_range_cases
                   (fun i => arr_get [0; 0; 0; 0; 0; 0] i = Some j -> j = 0)
                   6 0 i); [|lia].
          repeat constructor; simpl; intros [= <-]; reflexivity.
        + right. destruct (driveOf_cell (noteNum - 36)) as (row' & Hrow' & Hcells);
            [lia|].
          assert (row' = row) as -> by congruence.
          destruct (Hcells i Hi) as (led & Hled' & Hd).
          assert (led = j) as -> by congruence.
          exists (noteNum - 36), i. split; [exact Hd|].
          replace (36 + (noteNum - 36)) with noteNum by lia. exact Hs. }
    exists l0, l'. split; [reflexivity|]. split; [reflexivity|].
    split; [congruence|].
    intros j Hj. split.
    + intros Hl. apply C1; [exact Hj|]. apply Hlit; assumption.
    + intros Hl. apply C2; [exact Hj|]. intros Hs. apply Hl, Hlit; assumption.
Qed.

(** X28.  The plugin's wave modes: over the background, the ocean waves light the
    first [len] LEDs that the mirror map lists (at most all 48), the opposing
    waves the first and the last [len] LEDs of 0..95 (at most 24 each).  The
    length comes from parameter 9 and the saturation from parameter 4; the
    brightness is 254 whatever the parameters. *)
Theorem plugin_waves_shown ctx buf numLeds p0 p4 len :
  Plugin.contextFits numLeds ctx ->
  0 <= numLeds <= Z.of_nat (length buf) ->
  arr_get (Plugin.params ctx) 0 = Some p0 ->
  arr_get (Plugin.params ctx) 4 = Some p4 ->
  arr_get (Plugin.params ctx) 9 = Some len ->
  exists l0,
    Plugin.copyContextBackground buf numLeds ctx = Some l0
    /\ (exists l',
          Plugin.renderForeground rand_sequence renderComets 8
            (Some buf) numLeds (Some ctx) = Some (Some l')
          /\ length l' = length buf
          /\ forall j, 0 <= j ->
               (Plugin.oceanLit len numLeds j ->
                l' !! Z.to_nat j = Some (mkHSV (u8 (p0 * 2)) (u8 (p4 * 2)) 254))
               /\ (~ Plugin.oceanLit len numLeds j ->
                   l' !! Z.to_nat j = l0 !! Z.to_nat j))
    /\ (exists l',
          Plugin.renderForeground rand_sequence renderComets 9
            (Some buf) numLeds (Some ctx) = Some (Some l')
          /\ length l' = length buf
          /\ forall j, 0 <= j ->
               (Plugin.opposingLit len numLeds j ->
                l' !! Z.to_nat j = Some (mkHSV (u8 (p0 * 2)) (u8 (p4 * 2)) 254))
               /\ (~ Plugin.opposingLit len numLeds j ->
                   l' !! Z.to_nat j = l0 !! Z.to_nat j)).
Proof.
  intros Hfit Hn H0 H4 H9.
  destruct (copyContextBackground_Some numLeds ctx buf Hfit Hn)
    as (l0 & Hl0 & Hlen0).
  exists l0. split; [exact Hl0|].
  set (c := mkHSV (u8 (p0 * 2)) (u8 (p4 * 2)) 254).
  split.
  - unfold Plugin.renderForeground, Plugin.renderOceanWaves.
    rewrite H0, H4, H9. cbn [mbind option_bind]. cbv zeta.
    rewrite Hl0. cbn [mbind option_bind]. fold c.
    destruct (coloured_for_loop c
                (fun i j => mirror i = Some j /\ j < numLeds)
                (fun i leds0 =>
                   ledIdx ← arr_get TOP_BOTTOM_MIRROR_MAP i;
                   if (0 <=? ledIdx) && (ledIdx <? numLeds)
                   then arr_set leds0 ledIdx c else Some leds0)
                0 (Z.min len 48) l0) as (l' & Hl' & Hlen' & C1 & C2 & _).
    + intros i t Hi Ht.
      destruct (arr_get_Some TOP_BOTTOM_MIRROR_MAP i) as (ledIdx & Hled);
        [simpl; lia|].
      rewrite Hled. cbn [mbind option_bind].
      eapply succeeds_mono;
        [apply (guarded_set_coloured t numLeds ledIdx c); lia|].
      intros r Hr. eapply coloured_weaken; [exact Hr|].
      intros j Hj. unfold mirror. rewrite Hled. split.
      * intros [-> Hlt]. split; [reflexivity|exact Hlt].
      * intros [[= ->] Hlt]. split; [reflexivity|exact Hlt].
    + rewrite Hl'. exists l'. split; [reflexivity|]. split; [congruence|].
      assert (Hlit : forall j, 0 <= j ->
                 Plugin.oceanLit len numLeds j <->
                 exists i, 0 <= i < Z.min len 48
                   /\ mirror i = Some j /\ j < numLeds).
      { intros j Hj. unfold Plugin.oceanLit. split.
        - intros (Hlt & Hside & Hlen).
          exists (topOf j - 24). unfold topOf in *.
          destruct (Z.ltb_spec j 24); [|destruct (Z.ltb_spec 71 j); [|lia]].
          + split; [lia|]. split; [|exact Hlt].
            apply mirror_value; [lia|]. ztest; lia.
          + split; [lia|]. split; [|exact Hlt].
            apply mirror_value; [lia|]. ztest; lia.
        - intros (i & Hi & Hm & Hlt). apply mirror_value in Hm; [|lia].
          split; [exact Hlt|]. subst j. unfold topOf. ztest; lia. }
      intros j Hj. split.
      * intros Hl. apply C1; [exact Hj|]. apply Hlit; assumption.
      * intros Hl. apply C2; [exact Hj|]. intros Hs. apply Hl, Hlit; assumption.
  - unfold Plugin.renderForeground, Plugin.renderOpposingWaves.
    rewrite H0, H4, H9. cbn [mbind option_bind]. cbv zeta.
    rewrite Hl0. cbn [mbind option_bind]. fold c.
    destruct (coloured_for_loop c
                (fun i j => j = i /\ j < numLeds)
                (fun i leds0 =>
                   if (0 <=? i) && (i <? numLeds)
                   then arr_set leds0 i c else Some leds0)
                0 (Z.min len 24) l0) as (l1 & Hl1 & Hcol1).
    { intros i t Hi Ht. apply guarded_set_coloured. lia. }
    rewrite Hl1. cbn [mbind option_bind].
    destruct (coloured_for_loop c
                (fun i j => j = 95 - i /\ j < numLeds)
                (fun i leds0 =>
                   if (0 <=? 95 - i) && (95 - i <? numLeds)
                   then arr_set leds0 (95 - i) c else Some leds0)
                0 (Z.min len 24) l1) as (l' & Hl' & Hcol2).
    { intros i t Hi Ht. apply guarded_set_coloured.
      rewrite Ht, (proj1 Hcol1). lia. }
    rewrite Hl'.
    destruct (coloured_trans _ _ _ _ _ _ Hcol1 Hcol2) as (Hlen' & C1 & C2 & _).
    exists l'. split; [reflexivity|]. split; [congruence|].
    assert (Hlit : forall j, 0 <= j ->
               Plugin.opposingLit len numLeds j <->
               (exists i, 0 <= i < Z.min len 24 /\ j = i /\ j < numLeds)
               \/ (exists i, 0 <= i < Z.min len 24
                            /\ j = 95 - i /\ j < numLeds)).
    { intros j Hj. unfold Plugin.opposingLit. split.
      - intros (Hlt & [Hlow|Hhigh]).
        + left. exists j. split; [lia|]. split; [reflexivity|exact Hlt].
        + right. exists (95 - j). split; [lia|]. split; [lia|exact Hlt].
      - intros [(i & Hi & -> & Hlt)|(i & Hi & -> & Hlt)];
          (split; [exact Hlt|lia]). }
    intros j Hj. split.
    + intros Hl. apply C1; [exact Hj|]. apply Hlit; assumption.
    + intros Hl. apply C2; [exact Hj|]. intros Hs. apply Hl, Hlit; assumption.
Qed.

End PluginShown.

Lemma quot_scaled_bound sinVal brightness :
  -100 <= sinVal <= 100 -> 0 <= brightness ->
  - brightness <= Z.quot (sinVal * brightness) 100 <= brightness.
Proof.
  intros Hs Hb. split.
  - rewrite <- (Z.quot_mul (- brightness) 100) by lia.
    apply Z.quot_le_mono; [lia|nia].
  - rewrite <- (Z.quot_mul brightness 100) at 2 by lia.
    apply Z.quot_le_mono; [lia|nia].
Qed.

(** X29.  The plugin's sinusoid background keeps hue and saturation and swings the
    brightness around the brightness parameter: every cell of the strip gets
    a brightness in 0..254 that is at most parameter 14 away from twice
    parameter 12; the cells behind the strip are left alone. *)
Theorem plugin_sinusoidBackground_clamped ctx buf numLeds p10 p11 p12 p14 :
  Plugin.contextFits numLeds ctx ->
  0 <= numLeds <= Z.of_nat (length buf) ->
  arr_get (Plugin.params ctx) 10 = Some p10 ->
  arr_get (Plugin.params ctx) 11 = Some p11 ->
  arr_get (Plugin.params ctx) 12 = Some p12 ->
  arr_get (Plugin.params ctx) 14 = Some p14 ->
  exists l',
    Plugin.renderBackground 2 (Some buf) numLeds (Some ctx) = Some (Some l')
    /\ length l' = length buf
    /\ (forall j, 0 <= j < numLeds ->
          exists c, l' !! Z.to_nat j = Some c
            /\ h c = u8 (p10 * 2) /\ s c = u8 (p11 * 2)
            /\ 0 <= v c <= 254
            /\ p12 * 2 - p14 <= v c <= p12 * 2 + p14)
    /\ (forall j, numLeds <= j -> l' !! Z.to_nat j = buf !! Z.to_nat j).
Proof.
  intros Hfit Hn H10 H11 H12 H14.
  destruct (plugin_param_Some numLeds ctx 13 Hfit ltac:(lia))
    as (phaseShift & H13 & R13).
  destruct (plugin_param_Some numLeds ctx 7 Hfit ltac:(lia))
    as (sinePeriod0 & H7 & R7).
  assert (R12 : 0 <= p12 <= 127).
  { destruct (plugin_param_Some numLeds ctx 12 Hfit ltac:(lia)) as (x & Hx & R).
    congruence. }
  assert (R14 : 0 <= p14 <= 127).
  { destruct (plugin_param_Some numLeds ctx 14 Hfit ltac:(lia)) as (x & Hx & R).
    congruence. }
  unfold Plugin.renderBackground, Plugin.renderSinusoidBackground.
  rewrite H10, H11, H12, H13, H14, H7. cbn [mbind option_bind]. cbv zeta.
  set (P := if sinePeriod0 =? 0 then 1 else sinePeriod0).
  assert (HP : 1 <= P) by (unfold P; ztest; lia).
  set (val := fun i =>
         let sinVal :=
           default 0 (arr_get COLOR_PHASE
                        (Z.rem (Z.quot (i * 64) P + phaseShift) 64)) in
         let val := Z.quot (sinVal * p14) 100 + p12 * 2 in
         let val := if val <? 0 then 0 else val in
         if 254 <? val then 254 else val).
  destruct (fill_loop
              (fun i => mkHSV (u8 (p10 * 2)) (u8 (p11 * 2)) (u8 (val i)))
              (fun i leds0 =>
                 q ← idiv (i * 64) P;
                 sinVal ← arr_get COLOR_PHASE (Z.rem (q + phaseShift) 64);
                 Plugin.store leds0 i (p10 * 2) (p11 * 2)
                   (if 254 <? (if Z.quot (sinVal * p14) 100 + p12 * 2 <? 0
                               then 0
                               else Z.quot (sinVal * p14) 100 + p12 * 2)
                    then 254
                    else if Z.quot (sinVal * p14) 100 + p12 * 2 <? 0
                         then 0
                         else Z.quot (sinVal * p14) 100 + p12 * 2))
              numLeds buf) as (l' & Hl' & Hlen' & Hfill & Hrest).
  - exact Hn.
  - intros i t Hi Ht. rewrite idiv_Some by lia. cbn [mbind option_bind].
    destruct (COLOR_PHASE_at (Z.quot (i * 64) P) phaseShift)
      as (sinVal & Hs & _); [apply Z.quot_pos; lia|lia|].
    unfold val. rewrite Hs. reflexivity.
  - rewrite Hl'. exists l'. split; [reflexivity|]. split; [exact Hlen'|].
    split; [|exact Hrest].
    intros j Hj. eexists. split; [apply Hfill, Hj|].
    split; [reflexivity|]. split; [reflexivity|]. simpl.
    destruct (COLOR_PHASE_at (Z.quot (j * 64) P) phaseShift)
      as (sinVal & Hs & Hr); [apply Z.quot_pos; lia|lia|].
    pose proof (quot_scaled_bound sinVal p14 Hr ltac:(lia)) as Hq.
    assert (Hv : 0 <= val j <= 254
                 /\ p12 * 2 - p14 <= val j <= p12 * 2 + p14).
    { unfold val. rewrite Hs. cbn [default from_option id]. cbv zeta.
      destruct (Z.ltb_spec (Z.quot (sinVal * p14) 100 + p12 * 2) 0);
        ztest; lia. }
    rewrite u8_small by lia. exact Hv.
Qed.

(** * Parameters a mode does not read *)

(** ** A stored parameter and the other members *)

Lemma numLeds_setParam p x e : numLeds (setParam p x e) = numLeds e.
Proof. destruct p; reflexivity. Qed.

Lemma leds_setParam p x e : leds (setParam p x e) = leds e.
Proof. destruct p; reflexivity. Qed.

Lemma background_setParam p x e : background (setParam p x e) = background e.
Proof. destruct p; reflexivity. Qed.

Lemma currentNote_setParam p x e :
  currentNote (setParam p x e) = currentNote e.
Proof. destruct p; reflexivity. Qed.

Lemma lineOffset_setParam p x e : lineOffset (setParam p x e) = lineOffset e.
Proof. destruct p; reflexivity. Qed.

Lemma frameCounter_setParam p x e :
  frameCounter (setParam p x e) = frameCounter e.
Proof. destruct p; reflexivity. Qed.

Lemma param_setParam q p x e :
  p <> q -> param q (setParam p x e) = param q e.
Proof. intros Hne. destruct p, q; try reflexivity; contradiction. Qed.

Lemma ffHue_setParam p x e : p <> PffHue -> ffHue (setParam p x e) = ffHue e.
Proof. apply (param_setParam PffHue). Qed.

Lemma ffSat_setParam p x e : p <> PffSat -> ffSat (setParam p x e) = ffSat e.
Proof. apply (param_setParam PffSat). Qed.

Lemma ffBright_setParam p x e :
  p <> PffBright -> ffBright (setParam p x e) = ffBright e.
Proof. apply (param_setParam PffBright). Qed.

Lemma ffLedStart_setParam p x e :
  p <> PffLedStart -> ffLedStart (setParam p x e) = ffLedStart e.
Proof. apply (param_setParam PffLedStart). Qed.

Lemma ffLedLength_setParam p x e :
  p <> PffLedLength -> ffLedLength (setParam p x e) = ffLedLength e.
Proof. apply (param_setParam PffLedLength). Qed.

Lemma ffMode_setParam p x e : p <> PffMode -> ffMode (setParam p x e) = ffMode e.
Proof. apply (param_setParam PffMode). Qed.

Lemma lines_setParam p x e : p <> Plines -> lines (setParam p x e) = lines e.
Proof. apply (param_setParam Plines). Qed.

Lemma cAmp_setParam p x e : p <> PcAmp -> cAmp (setParam p x e) = cAmp e.
Proof. apply (param_setParam PcAmp). Qed.

Lemma bgMode_setParam p x e : p <> PbgMode -> bgMode (setParam p x e) = bgMode e.
Proof. apply (param_setParam PbgMode). Qed.

Lemma pan_setParam p x e : p <> Ppan -> pan (setParam p x e) = pan e.
Proof. apply (param_setParam Ppan). Qed.

Lemma bgHue_setParam p x e : p <> PbgHue -> bgHue (setParam p x e) = bgHue e.
Proof. apply (param_setParam PbgHue). Qed.

Lemma bgSat_setParam p x e : p <> PbgSat -> bgSat (setParam p x e) = bgSat e.
Proof. apply (param_setParam PbgSat). Qed.

Lemma bgBright_setParam p x e :
  p <> PbgBright -> bgBright (setParam p x e) = bgBright e.
Proof. apply (param_setParam PbgBright). Qed.

Lemma bgLedStart_setParam p x e :
  p <> PbgLedStart -> bgLedStart (setParam p x e) = bgLedStart e.
Proof. apply (param_setParam PbgLedStart). Qed.

Lemma bgLedLength_setParam p x e :
  p <> PbgLedLength -> bgLedLength (setParam p x e) = bgLedLength e.
Proof. apply (param_setParam PbgLedLength). Qed.

Lemma set_leds_setParam l p x e :
  set_leds l (setParam p x e) = setParam p x (set_leds l e).
Proof. destruct p; reflexivity. Qed.

Lemma set_background_setParam l p x e :
  set_background l (setParam p x e) = setParam p x (set_background l e).
Proof. destruct p; reflexivity. Qed.

Lemma set_lineOffset_setParam o p x e :
  set_lineOffset o (setParam p x e) = setParam p x (set_lineOffset o e).
Proof. destruct p; reflexivity. Qed.

Lemma set_frameCounter_setParam c p x e :
  set_frameCounter c (setParam p x e) = setParam p x (set_frameCounter c e).
Proof. destruct p; reflexivity. Qed.

Create Rewrite HintDb setParam_fields.

#[local] Hint Rewrite numLeds_setParam leds_setParam background_setParam
  currentNote_setParam lineOffset_setParam frameCounter_setParam
  set_leds_setParam set_background_setParam set_lineOffset_setParam
  set_frameCounter_setParam : setParam_fields.

#[local] Hint Rewrite ffHue_setParam ffSat_setParam ffBright_setParam
  ffLedStart_setParam ffLedLength_setParam ffMode_setParam lines_setParam
  cAmp_setParam bgMode_setParam pan_setParam bgHue_setParam bgSat_setParam
  bgBright_setParam bgLedStart_setParam bgLedLength_setParam
  using assumption : setParam_fields.

(** ** Computations that commute with a function on the state *)

Lemma commute_bind {A B} (gA : A -> A) (gB : B -> B)
    (m1 m2 : option A) (k1 k2 : A -> option B) :
  m1 = gA <$> m2 -> (forall a, k1 (gA a) = gB <$> k2 a) ->
  m1 ≫= k1 = gB <$> (m2 ≫= k2).
Proof. intros -> Hk. destruct m2 as [a|]; simpl; [apply Hk|reflexivity]. Qed.

Lemma commute_pure {A B} (gB : B -> B) (o : option A)
    (k1 k2 : A -> option B) :
  (forall a, k1 a = gB <$> k2 a) -> o ≫= k1 = gB <$> (o ≫= k2).
Proof. intros Hk. destruct o as [a|]; simpl; [apply Hk|reflexivity]. Qed.

Lemma commute_for_lt {St} (g : St -> St) (body1 body2 : Z -> St -> option St)
    hi step :
  (forall i t, body1 i (g t) = g <$> body2 i t) ->
  forall fuel i t,
    for_lt fuel i hi step body1 (g t) = g <$> for_lt fuel i hi step body2 t.
Proof.
  intros Hbody. induction fuel as [|fuel IH]; intros i t; simpl;
    [reflexivity|].
  destruct (i <? hi); [|reflexivity].
  apply (commute_bind g g); [apply Hbody|]. intros a. apply IH.
Qed.

Lemma commute_for_loop {St} (g : St -> St)
    (body1 body2 : Z -> St -> option St) lo hi step t :
  (forall i s0, body1 i (g s0) = g <$> body2 i s0) ->
  for_loop lo hi step body1 (g t) = g <$> for_loop lo hi step body2 t.
Proof. intros Hbody. apply commute_for_lt, Hbody. Qed.

Lemma setLED_commute p x index hue sat bright e :
  setLED index hue sat bright (setParam p x e)
  = setParam p x <$> setLED index hue sat bright e.
Proof.
  unfold setLED. autorewrite with setParam_fields.
  destruct ((0 <=? index) && (index <? numLeds e)); [|reflexivity].
  destruct (arr_set (leds e) index _); simpl; [|reflexivity].
  autorewrite with setParam_fields. reflexivity.
Qed.

Lemma setBackground_commute p x i hue sat bright e :
  setBackground i hue sat bright (setParam p x e)
  = setParam p x <$> setBackground i hue sat bright e.
Proof.
  unfold setBackground. autorewrite with setParam_fields.
  destruct (arr_set (background e) i _); simpl; [|reflexivity].
  autorewrite with setParam_fields. reflexivity.
Qed.

Lemma copyBackground_commute p x e :
  copyBackground (setParam p x e) = setParam p x <$> copyBackground e.
Proof.
  unfold copyBackground. autorewrite with setParam_fields.
  destruct (memcpy (leds e) (background e) (numLeds e)); simpl; [|reflexivity].
  autorewrite with setParam_fields. reflexivity.
Qed.

(** One step of the proofs below: store the reads of the changed state as
    reads of the state, then peel one construct of the source. *)
Ltac commute :=
  repeat
    (autorewrite with setParam_fields; cbv zeta beta;
     first
       [ reflexivity
       | apply setLED_commute
       | apply setBackground_commute
       | apply copyBackground_commute
       | apply commute_for_loop; intros
       | match goal with
         | |- (if ?c then _ else _) = _ <$> (if ?c then _ else _) =>
             destruct c
         end
       | apply commute_bind; [|intros]
       | apply commute_pure; intros ]).

Lemma setMirrored_commute p x j brightness e :
  p <> PffHue -> p <> PffSat ->
  setMirrored j brightness (setParam p x e)
  = setParam p x <$> setMirrored j brightness e.
Proof. intros H1 H2. unfold setMirrored. commute. Qed.

(** ** The modes *)

Section Ignores.

Variables (p : Param) (x : Z).

Lemma renderFlatBackground_ignores e :
  p <> PbgHue -> p <> PbgSat -> p <> PbgBright ->
  renderFlatBackground (setParam p x e)
  = setParam p x <$> renderFlatBackground e.
Proof. intros H1 H2 H3. unfold renderFlatBackground. commute. Qed.

Lemma renderRainbowBackground_ignores e :
  p <> PbgHue -> p <> PbgSat -> p <> PbgBright ->
  renderRainbowBackground (setParam p x e)
  = setParam p x <$> renderRainbowBackground e.
Proof. intros H1 H2 H3. unfold renderRainbowBackground. commute. Qed.

Lemma renderSinusoidBackground_ignores e :
  p <> PbgHue -> p <> PbgSat -> p <> PbgBright ->
  p <> PbgLedStart -> p <> PbgLedLength -> p <> PcAmp ->
  renderSinusoidBackground (setParam p x e)
  = setParam p x <$> renderSinusoidBackground e.
Proof.
  intros H1 H2 H3 H4 H5 H6. unfold renderSinusoidBackground.
  autorewrite with setParam_fields.
  destruct (bgLedLength e =? 0);
    [apply renderFlatBackground_ignores; assumption|].
  commute.
Qed.

Lemma renderRainbowWheel_ignores e :
  p <> PffHue -> p <> PffSat -> p <> PffBright ->
  renderRainbowWheel (setParam p x e) = setParam p x <$> renderRainbowWheel e.
Proof. intros H1 H2 H3. unfold renderRainbowWheel. commute. Qed.

Lemma renderNotesToDrives_ignores e :
  p <> PffHue -> p <> PffSat -> p <> PffBright ->
  renderNotesToDrives (setParam p x e)
  = setParam p x <$> renderNotesToDrives e.
Proof. intros H1 H2 H3. unfold renderNotesToDrives. commute. Qed.

Lemma renderMovingDots_ignores e :
  p <> PffHue -> p <> PffSat -> p <> PffBright ->
  p <> PffLedStart -> p <> PffLedLength -> p <> Plines ->
  renderMovingDots (setParam p x e) = setParam p x <$> renderMovingDots e.
Proof. intros H1 H2 H3 H4 H5 H6. unfold renderMovingDots. commute. Qed.

Lemma renderBackAndForth_ignores e :
  p <> PffHue -> p <> PffSat -> p <> PffBright ->
  p <> PffLedStart -> p <> PffLedLength ->
  renderBackAndForth (setParam p x e) = setParam p x <$> renderBackAndForth e.
Proof. intros H1 H2 H3 H4 H5. unfold renderBackAndForth. commute. Qed.

Lemma renderMoveStartLED_ignores e :
  p <> PffHue -> p <> PffSat -> p <> PffBright ->
  p <> PffLedStart -> p <> PffLedLength -> p <> Plines ->
  renderMoveStartLED (setParam p x e) = setParam p x <$> renderMoveStartLED e.
Proof. intros H1 H2 H3 H4 H5 H6. unfold renderMoveStartLED. commute. Qed.

Lemma renderColorSinusoid_ignores e :
  p <> PffHue -> p <> PffSat -> p <> PffBright ->
  p <> PffLedStart -> p <> PffLedLength -> p <> PcAmp ->
  renderColorSinusoid (setParam p x e)
  = setParam p x <$> renderColorSinusoid e.
Proof. intros H1 H2 H3 H4 H5 H6. unfold renderColorSinusoid. commute. Qed.

Lemma cometStep_commute line led ec :
  p <> PffHue -> p <> PffSat -> p <> PffBright -> p <> PffLedLength ->
  cometStep line led (setParam p x ec.1, ec.2)
  = (fun ec0 => (setParam p x ec0.1, ec0.2)) <$> cometStep line led ec.
Proof.
  intros H1 H2 H3 H4. destruct ec as [e count]. unfold cometStep.
  cbn [fst snd]. cbv zeta. autorewrite with setParam_fields.
  apply commute_pure. intros idx. apply commute_pure. intros brightness.
  apply (commute_bind (setParam p x)); [apply setLED_commute|].
  intros a. reflexivity.
Qed.

Lemma renderComets_ignores e :
  p <> PffHue -> p <> PffSat -> p <> PffBright ->
  p <> PffLedStart -> p <> PffLedLength -> p <> Plines ->
  renderComets (setParam p x e) = setParam p x <$> renderComets e.
Proof.
  intros H1 H2 H3 H4 H5 H6. unfold renderComets.
  autorewrite with setParam_fields.
  destruct ((lines e =? 0) || (ffLedLength e =? 0)); [reflexivity|].
  apply commute_pure. intros off. cbv zeta.
  autorewrite with setParam_fields.
  apply commute_for_loop. intros line t. cbv zeta.
  autorewrite with setParam_fields.
  apply (commute_bind (fun ec0 => (setParam p x ec0.1, ec0.2))).
  - apply (commute_for_loop (fun ec0 => (setParam p x ec0.1, ec0.2))
             (cometStep line) (cometStep line) _ _ _ (t, ffLedLength t - 1)).
    intros i ec. apply cometStep_commute; assumption.
  - intros a. reflexivity.
Qed.

Lemma waveMiddle_setParam e :
  p <> Ppan -> waveMiddle (setParam p x e) = waveMiddle e.
Proof. intros H. unfold waveMiddle. autorewrite with setParam_fields. reflexivity. Qed.

Lemma oceanAmp_setParam e :
  p <> Ppan -> p <> PffLedLength -> oceanAmp (setParam p x e) = oceanAmp e.
Proof.
  intros H1 H2. unfold oceanAmp. rewrite waveMiddle_setParam by assumption.
  autorewrite with setParam_fields. reflexivity.
Qed.

Lemma opposingAmp_setParam e :
  p <> Ppan -> p <> PffLedLength ->
  opposingAmp (setParam p x e) = opposingAmp e.
Proof.
  intros H1 H2. unfold opposingAmp. rewrite waveMiddle_setParam by assumption.
  autorewrite with setParam_fields. reflexivity.
Qed.

Ltac commute_waves :=
  repeat
    (autorewrite with setParam_fields; cbv zeta beta;
     first
       [ reflexivity
       | apply setLED_commute
       | apply setMirrored_commute; assumption
       | apply commute_for_loop; intros
       | apply commute_pure; intros
       | apply (commute_bind (setParam p x) (setParam p x)); [|intros] ]).

Lemma renderOceanWaves_ignores e :
  p <> PffHue -> p <> PffSat -> p <> PffBright ->
  p <> PffLedLength -> p <> Ppan ->
  renderOceanWaves (setParam p x e) = setParam p x <$> renderOceanWaves e.
Proof.
  intros H1 H2 H3 H4 H5. unfold renderOceanWaves.
  rewrite waveMiddle_setParam, oceanAmp_setParam by assumption. cbv zeta.
  destruct (oceanAmp e <=? 0); [reflexivity|]. commute_waves.
Qed.

Lemma renderOpposingWaves_ignores e :
  p <> PffHue -> p <> PffSat -> p <> PffBright ->
  p <> PffLedLength -> p <> Ppan ->
  renderOpposingWaves (setParam p x e)
  = setParam p x <$> renderOpposingWaves e.
Proof.
  intros H1 H2 H3 H4 H5. unfold renderOpposingWaves.
  rewrite waveMiddle_setParam, opposingAmp_setParam by assumption. cbv zeta.
  destruct (opposingAmp e <=? 0); [reflexivity|]. commute_waves.
Qed.

Variable rand_after_srand : Z -> Z.

Lemma renderFlashLights_ignores e :
  p <> PffHue -> p <> PffSat -> p <> PffBright ->
  renderFlashLights rand_after_srand (setParam p x e)
  = setParam p x <$> renderFlashLights rand_after_srand e.
Proof. intros H1 H2 H3. unfold renderFlashLights. commute. Qed.

Lemma bgReads_cases mode :
  mode = 2 \/ bgReads mode p = bgColourParam p.
Proof.
  destruct mode as [|q|q]; try (right; reflexivity).
  do 2 (try destruct q as [q|q|]); first [right; reflexivity|left; reflexivity].
Qed.

Lemma bgReads_colour mode :
  bgReads mode p = false -> p <> PbgHue /\ p <> PbgSat /\ p <> PbgBright.
Proof.
  intros Hr.
  assert (Hc : bgColourParam p = false).
  { destruct (bgReads_cases mode) as [->|<-]; [|exact Hr].
    simpl in Hr. apply orb_false_iff in Hr. apply Hr. }
  repeat split; intros ->; discriminate.
Qed.

Lemma updateBackground_ignores e :
  p <> PbgMode -> bgReads (bgMode e) p = false ->
  updateBackground (setParam p x e) = setParam p x <$> updateBackground e.
Proof.
  intros Hm Hr. unfold updateBackground.
  rewrite bgMode_setParam by exact Hm.
  destruct (bgReads_colour _ Hr) as (H1 & H2 & H3).
  apply (commute_bind (setParam p x)); [|intros a; apply copyBackground_commute].
  destruct (bgMode e) as [|q|q];
    try (apply renderFlatBackground_ignores; assumption).
  do 2 (try destruct q as [q|q|]);
    first [ apply renderFlatBackground_ignores; assumption
          | apply renderRainbowBackground_ignores; assumption
          | apply renderSinusoidBackground_ignores; try assumption;
            intros ->; discriminate Hr ].
Qed.

Lemma renderForeground_ignores e :
  p <> PffMode -> fgReads (ffMode e) p = false ->
  renderForeground rand_after_srand (setParam p x e)
  = setParam p x <$> renderForeground rand_after_srand e.
Proof.
  intros Hm Hr. unfold renderForeground.
  rewrite ffMode_setParam by exact Hm.
  destruct (ffMode e) as [|q|q];
    [apply renderNotesToDrives_ignores; intros ->; discriminate Hr
    | |reflexivity].
  do 4 (try destruct q as [q|q|]);
    first [ reflexivity
          | apply renderRainbowWheel_ignores; intros ->; discriminate Hr
          | apply renderMovingDots_ignores; intros ->; discriminate Hr
          | apply renderComets_ignores; intros ->; discriminate Hr
          | apply renderBackAndForth_ignores; intros ->; discriminate Hr
          | apply renderMoveStartLED_ignores; intros ->; discriminate Hr
          | apply renderColorSinusoid_ignores; intros ->; discriminate Hr
          | apply renderFlashLights_ignores; intros ->; discriminate Hr
          | apply renderOceanWaves_ignores; intros ->; discriminate Hr
          | apply renderOpposingWaves_ignores; intros ->; discriminate Hr ].
Qed.

Lemma render_ignores e :
  wellFormed e -> p <> PffMode -> p <> PbgMode ->
  fgReads (ffMode e) p = false -> bgReads (bgMode e) p = false ->
  render rand_after_srand (setParam p x e)
  = setParam p x <$> render rand_after_srand e.
Proof.
  intros Hwf Hf Hb Hfr Hbr. unfold render. cbv zeta.
  rewrite frameCounter_setParam, set_frameCounter_setParam.
  rewrite updateBackground_ignores by assumption.
  destruct (updateBackground_preserved
              (set_frameCounter (u32 (frameCounter e + 1)) e) Hwf)
    as (a & Ha & Hpa).
  rewrite Ha. simpl.
  apply renderForeground_ignores; [exact Hf|].
  replace (ffMode a) with (ffMode e); [exact Hfr|].
  symmetry. apply (sameControls_param _ _ PffMode (proj1 Hpa)).
Qed.

End Ignores.

(** ** The [uses] lists of the metadata *)

Lemma foreground_uses_cover_reads mode info p :
  EngineMetadata.getForegroundModeInfo mode = Some info ->
  EngineMetadata.listed (EngineMetadata.uses info) p = false ->
  fgReads mode p = false.
Proof.
  unfold EngineMetadata.getForegroundModeInfo.
  destruct (Z.ltb_spec mode 0); [discriminate|].
  destruct (Z.leb_spec 10 mode); [discriminate|]. cbn [orb].
  revert info.
  apply (Z_range_cases
           (fun mode => forall info,
              arr_get EngineMetadata.FOREGROUND_MODES mode = Some info ->
              EngineMetadata.listed (EngineMetadata.uses info) p = false ->
              fgReads mode p = false) 10 0 mode); [|lia].
  repeat constructor; intros info Hinfo; vm_compute in Hinfo;
    injection Hinfo as <-; destruct p; vm_compute; intros Hl;
    first [reflexivity|discriminate Hl].
Qed.

Lemma background_uses_cover_reads mode info p :
  EngineMetadata.getBackgroundModeInfo mode = Some info ->
  EngineMetadata.listed (EngineMetadata.uses info) p = false ->
  bgReads mode p = false.
Proof.
  unfold EngineMetadata.getBackgroundModeInfo.
  destruct (Z.ltb_spec mode 0); [discriminate|].
  destruct (Z.leb_spec 3 mode); [discriminate|]. cbn [orb].
  revert info.
  apply (Z_range_cases
           (fun mode => forall info,
              arr_get EngineMetadata.BACKGROUND_MODES mode = Some info ->
              EngineMetadata.listed (EngineMetadata.uses info) p = false ->
              bgReads mode p = false) 3 0 mode); [|lia].
  repeat constructor; intros info Hinfo; vm_compute in Hinfo;
    injection Hinfo as <-; destruct p; vm_compute; intros Hl;
    first [reflexivity|discriminate Hl].
Qed.

Lemma handleControlChange_assigns channel control value p e :
  assignedMember (u8 control) = Some p ->
  exists x, handleControlChange channel control value e = setParam p x e.
Proof.
  unfold handleControlChange, assignedMember.
  destruct (u8 control) as [|q|q]; try discriminate.
  do 4 (try destruct q as [q|q|]); try discriminate;
    intros [= <-]; eexists; reflexivity.
Qed.

Section UnlistedParameters.

Variable rand_after_srand : Z -> Z.

(** X30.  The [uses] lists of the mode tables are complete: a control change that
    assigns a member which neither the current foreground mode nor the
    current background mode lists, and which is not a mode selector, does
    not change what [render] does.  Rendering after the change is rendering
    before it, with the member changed in the result; the LEDs are the
    same. *)
Theorem unlisted_parameter_has_no_effect e channel control value p fg bg :
  wellFormed e ->
  EngineMetadata.getForegroundModeInfo (ffMode e) = Some fg ->
  EngineMetadata.getBackgroundModeInfo (bgMode e) = Some bg ->
  assignedMember (u8 control) = Some p ->
  p <> PffMode -> p <> PbgMode ->
  EngineMetadata.listed (EngineMetadata.uses fg) p = false ->
  EngineMetadata.listed (EngineMetadata.uses bg) p = false ->
  render rand_after_srand (handleControlChange channel control value e)
  = handleControlChange channel control value <$> render rand_after_srand e
  /\ leds <$> render rand_after_srand
               (handleControlChange channel control value e)
     = leds <$> render rand_after_srand e.
Proof.
  intros Hwf Hfg Hbg Hp Hf Hb Hlf Hlb.
  destruct (handleControlChange_assigns channel control value p e Hp)
    as (x & Hx).
  assert (Hr : render rand_after_srand (setParam p x e)
               = setParam p x <$> render rand_after_srand e).
  { apply render_ignores; [exact Hwf|exact Hf|exact Hb| |].
    - eapply foreground_uses_cover_reads; eassumption.
    - eapply background_uses_cover_reads; eassumption. }
  assert (Hx' : forall a,
             handleControlChange channel control value a = setParam p x a).
  { intros a. revert Hp Hx. unfold handleControlChange, assignedMember.
    destruct (u8 control) as [|q|q]; try discriminate.
    do 4 (try destruct q as [q|q|]); try discriminate;
      intros [= <-] Hx; simpl in Hx |- *;
      injection Hx as <-; reflexivity. }
  rewrite Hx. split.
  - rewrite Hr. destruct (render rand_after_srand e) as [a|]; simpl;
      [rewrite Hx'|]; reflexivity.
  - rewrite Hr. destruct (render rand_after_srand e) as [a|]; simpl;
      [rewrite leds_setParam|]; reflexivity.
Qed.

End UnlistedParameters.

(** ** Closed instances for the plugin *)

Lemma contextOf_carries e bg : Plugin.carries (Plugin.contextOf e bg) e.
Proof.
  intros cc Hcc. unfold arr_get.
  change (Plugin.params (Plugin.contextOf e bg))
    with ((fun i => getCC (i + 1) e) <$> seqZ 0 32).
  destruct (Z.leb_spec 0 (cc - 1)); [|lia].
  rewrite list_lookup_fmap, lookup_seqZ_lt by lia.
  cbn [fmap option_fmap option_map]. do 2 f_equal. lia.
Qed.

Lemma contextOf_fits n e bg :
  length (activeNotes e) = 128%nat ->
  (forall cc, 0 <= getCC cc e <= 127) ->
  match bg with Some b => n <= Z.of_nat (length b) | None => True end ->
  Plugin.contextFits n (Plugin.contextOf e bg).
Proof.
  intros Hnotes Hcc Hbg. split; [|split; [|split]].
  - reflexivity.
  - exact Hnotes.
  - change (Plugin.params (Plugin.contextOf e bg))
      with ((fun i => getCC (i + 1) e) <$> seqZ 0 32).
    apply Forall_fmap, Forall_forall. intros i _. apply Hcc.
  - exact Hbg.
Qed.

Ltac cc_by_cases :=
  let cc := fresh "cc" in
  intros cc; unfold getCC;
  destruct cc as [|p|p]; [vm_compute; split; discriminate| |
                          vm_compute; split; discriminate];
  do 4 (try destruct p as [p|p|]); vm_compute; split; discriminate.

Lemma plugin_render_never_faults_witness :
  (exists l,
     Plugin.renderForeground Plugin.sample_sequence Plugin.noComets 2
       (Some (leds dotsEngine)) 108 (Some (Plugin.contextOf dotsEngine None))
     = Some (Some l)
     /\ length l = length (leds dotsEngine))
  /\ (exists l,
        Plugin.renderBackground 2 (Some (leds dotsEngine)) 108
          (Some (Plugin.contextOf dotsEngine None)) = Some (Some l)
        /\ length l = length (leds dotsEngine)).
Proof.
  apply (plugin_render_never_faults Plugin.sample_sequence Plugin.noComets 2
           (leds dotsEngine) 108 (Plugin.contextOf dotsEngine None)).
  - apply contextOf_fits; [reflexivity|cc_by_cases|exact I].
  - vm_compute. split; discriminate.
  - discriminate.
Defined.

Lemma plugin_rainbow_needs_leds_witness :
  Plugin.renderForeground Plugin.sample_sequence Plugin.noComets 1
    (Some []) 0 (Some (Plugin.contextOf wheelEngine None)) = None
  /\ Plugin.renderBackground 1 (Some []) 0
       (Some (Plugin.contextOf wheelEngine None)) = None
  /\ Plugin.renderBackground 0 (Some []) 0
       (Some (Plugin.contextOf wheelEngine None)) = Some (Some []).
Proof.
  apply (plugin_rainbow_needs_leds Plugin.sample_sequence Plugin.noComets []
           (Plugin.contextOf wheelEngine None)).
  apply contextOf_fits; [reflexivity|cc_by_cases|exact I].
Defined.

Lemma plugin_rainbowWheel_matches_engine_witness :
  exists e' l',
    render sample_rand wheelEngine = Some e'
    /\ Plugin.renderForeground Plugin.sample_sequence Plugin.noComets 1
         (Some (replicate 108 (mkHSV 0 0 0))) (numLeds wheelEngine)
         (Some (Plugin.contextOf wheelEngine None)) = Some (Some l')
    /\ length l' = length (replicate 108 (mkHSV 0 0 0))
    /\ forall j, 0 <= j < numLeds wheelEngine ->
         l' !! Z.to_nat j = leds e' !! Z.to_nat j.
Proof.
  apply (plugin_rainbowWheel_matches_engine sample_rand Plugin.sample_sequence
           Plugin.noComets wheelEngine (Plugin.contextOf wheelEngine None)
           (replicate 108 (mkHSV 0 0 0))).
  - wf_by_computation.
  - reflexivity.
  - repeat split; reflexivity.
  - apply contextOf_carries.
  - vm_compute. discriminate.
Defined.

Lemma plugin_backgrounds_match_engine_witness :
  exists a l',
    updateBackground rainbowBgEngine = Some a
    /\ Plugin.renderBackground (bgMode rainbowBgEngine)
         (Some (replicate 108 (mkHSV 0 0 0))) (numLeds rainbowBgEngine)
         (Some (Plugin.contextOf rainbowBgEngine None)) = Some (Some l')
    /\ length l' = length (replicate 108 (mkHSV 0 0 0))
    /\ forall j, 0 <= j < numLeds rainbowBgEngine ->
         exists c c',
           l' !! Z.to_nat j = Some c /\ background a !! Z.to_nat j = Some c'
           /\ leds a !! Z.to_nat j = Some c'
           /\ s c = s c' /\ v c = v c'
           /\ h c' = (h c + (if bgMode rainbowBgEngine =? 0 then 0
                             else bgHue rainbowBgEngine)) mod 256.
Proof.
  apply (plugin_backgrounds_match_engine rainbowBgEngine
           (Plugin.contextOf rainbowBgEngine None)
           (replicate 108 (mkHSV 0 0 0))).
  - wf_by_computation.
  - repeat split; reflexivity.
  - apply contextOf_carries.
  - vm_compute. discriminate.
  - vm_compute. split; discriminate.
  - vm_compute. discriminate.
Defined.

Lemma plugin_movingDots_matches_engine_witness :
  exists e' l',
    render sample_rand dotsEngine = Some e'
    /\ Plugin.renderForeground Plugin.sample_sequence Plugin.noComets 2
         (Some (replicate 108 (mkHSV 0 0 0))) (numLeds dotsEngine)
         (Some (Plugin.contextOf dotsEngine
                  (Some (background (renderedBackground dotsEngine)))))
       = Some (Some l')
    /\ length l' = length (replicate 108 (mkHSV 0 0 0))
    /\ forall j, 0 <= j < numLeds dotsEngine ->
         l' !! Z.to_nat j = leds e' !! Z.to_nat j.
Proof.
  apply (plugin_movingDots_matches_engine sample_rand Plugin.sample_sequence
           Plugin.noComets dotsEngine (renderedBackground dotsEngine)).
  - wf_by_computation.
  - reflexivity.
  - vm_compute. discriminate.
  - repeat split; reflexivity.
  - apply contextOf_carries.
  - vm_compute. discriminate.
  - vm_compute. reflexivity.
  - reflexivity.
Defined.

Lemma plugin_movingDots_without_lines_witness :
  exists e' l',
    render sample_rand noLinesEngine = Some e'
    /\ Plugin.renderForeground Plugin.sample_sequence Plugin.noComets 2
         (Some (replicate 108 (mkHSV 0 0 0))) (numLeds noLinesEngine)
         (Some (Plugin.contextOf noLinesEngine
                  (Some (background (renderedBackground noLinesEngine)))))
       = Some (Some l')
    /\ leds e' !! Z.to_nat (Z.rem (ffLedStart noLinesEngine + 1)
                              (numLeds noLinesEngine))
       = background (renderedBackground noLinesEngine)
           !! Z.to_nat (Z.rem (ffLedStart noLinesEngine + 1)
                          (numLeds noLinesEngine))
    /\ l' !! Z.to_nat (Z.rem (ffLedStart noLinesEngine + 1)
                         (numLeds noLinesEngine))
       = Some (fgColour noLinesEngine).
Proof.
  apply (plugin_movingDots_without_lines sample_rand Plugin.sample_sequence
           Plugin.noComets noLinesEngine (renderedBackground noLinesEngine)).
  - wf_by_computation.
  - reflexivity.
  - reflexivity.
  - repeat split; reflexivity.
  - apply contextOf_carries.
  - vm_compute. discriminate.
  - vm_compute. reflexivity.
  - reflexivity.
  - vm_compute. split; [discriminate|reflexivity].
Defined.

Lemma plugin_notesToDrives_shown_witness :
  exists l0 l',
    Plugin.copyContextBackground (replicate 108 (mkHSV 0 0 0)) 108
      (Plugin.contextOf soundingEngine None) = Some l0
    /\ Plugin.renderForeground Plugin.sample_sequence Plugin.noComets 0
         (Some (replicate 108 (mkHSV 0 0 0))) 108
         (Some (Plugin.contextOf soundingEngine None)) = Some (Some l')
    /\ length l' = length (replicate 108 (mkHSV 0 0 0))
    /\ forall j, 0 <= j ->
         (Plugin.driveLit (Plugin.contextOf soundingEngine None) 108 j ->
          l' !! Z.to_nat j
          = Some (mkHSV (u8 (0 * 2)) (u8 (100 * 2)) (u8 (100 * 2))))
         /\ (~ Plugin.driveLit (Plugin.contextOf soundingEngine None) 108 j ->
             l' !! Z.to_nat j = l0 !! Z.to_nat j).
Proof.
  apply (plugin_notesToDrives_shown Plugin.sample_sequence Plugin.noComets
           (Plugin.contextOf soundingEngine None)
           (replicate 108 (mkHSV 0 0 0)) 108 0 100 100).
  - apply contextOf_fits; [reflexivity|cc_by_cases|exact I].
  - vm_compute. split; discriminate.
  - reflexivity.
  - reflexivity.
  - reflexivity.
Defined.

Lemma plugin_waves_shown_witness :
  exists l0,
    Plugin.copyContextBackground (replicate 108 (mkHSV 0 0 0)) 108
      (Plugin.contextOf oceanNarrow None) = Some l0
    /\ (exists l',
          Plugin.renderForeground Plugin.sample_sequence Plugin.noComets 8
            (Some (replicate 108 (mkHSV 0 0 0))) 108
            (Some (Plugin.contextOf oceanNarrow None)) = Some (Some l')
          /\ length l' = length (replicate 108 (mkHSV 0 0 0))
          /\ forall j, 0 <= j ->
               (Plugin.oceanLit 64 108 j ->
                l' !! Z.to_nat j = Some (mkHSV (u8 (0 * 2)) (u8 (20 * 2)) 254))
               /\ (~ Plugin.oceanLit 64 108 j ->
                   l' !! Z.to_nat j = l0 !! Z.to_nat j))
    /\ (exists l',
          Plugin.renderForeground Plugin.sample_sequence Plugin.noComets 9
            (Some (replicate 108 (mkHSV 0 0 0))) 108
            (Some (Plugin.contextOf oceanNarrow None)) = Some (Some l')
          /\ length l' = length (replicate 108 (mkHSV 0 0 0))
          /\ forall j, 0 <= j ->
               (Plugin.opposingLit 64 108 j ->
                l' !! Z.to_nat j = Some (mkHSV (u8 (0 * 2)) (u8 (20 * 2)) 254))
               /\ (~ Plugin.opposingLit 64 108 j ->
                   l' !! Z.to_nat j = l0 !! Z.to_nat j)).
Proof.
  apply (plugin_waves_shown Plugin.sample_sequence Plugin.noComets
           (Plugin.contextOf oceanNarrow None)
           (replicate 108 (mkHSV 0 0 0)) 108 0 20 64).
  - apply contextOf_fits; [reflexivity|cc_by_cases|exact I].
  - vm_compute. split; discriminate.
  - reflexivity.
  - reflexivity.
  - reflexivity.
Defined.

Lemma plugin_sinusoidBackground_clamped_witness :
  exists l',
    Plugin.renderBackground 2 (Some (replicate 108 (mkHSV 0 0 0))) 108
      (Some (Plugin.contextOf sinusoidBgEngine None)) = Some (Some l')
    /\ length l' = length (replicate 108 (mkHSV 0 0 0))
    /\ (forall j, 0 <= j < 108 ->
          exists c, l' !! Z.to_nat j = Some c
            /\ h c = u8 (0 * 2) /\ s c = u8 (100 * 2)
            /\ 0 <= v c <= 254
            /\ 0 * 2 - 16 <= v c <= 0 * 2 + 16)
    /\ (forall j, 108 <= j ->
          l' !! Z.to_nat j = replicate 108 (mkHSV 0 0 0) !! Z.to_nat j).
Proof.
  apply (plugin_sinusoidBackground_clamped
           (Plugin.contextOf sinusoidBgEngine None)
           (replicate 108 (mkHSV 0 0 0)) 108 0 100 0 16).
  - apply contextOf_fits; [reflexivity|cc_by_cases|exact I].
  - vm_compute. split; discriminate.
  - reflexivity.
  - reflexivity.
  - reflexivity.
  - reflexivity.
Defined.

(** ** Closed instances of the further theorems *)

Lemma noteOn_noteOff_roundtrip_witness :
  let e1 := handleNoteOn 3 60 90 (LightEngine_new 108) in
  let e2 := handleNoteOff 3 60 0 e1 in
  activeNotes e1 !! Z.to_nat 60 = Some 90
  /\ currentNote e1 !! Z.to_nat 3 = Some 60
  /\ activeNotes e2 !! Z.to_nat 60 = Some 0
  /\ currentNote e2 !! Z.to_nat 3 = Some 0.
Proof.
  apply (noteOn_noteOff_roundtrip 3 60 90 0 (LightEngine_new 108)).
  - split; reflexivity.
  - lia.
  - lia.
  - lia.
Defined.

Lemma stale_noteOff_keeps_newer_note_witness :
  let e3 :=
    handleNoteOff 3 60 0
      (handleNoteOn 3 64 80 (handleNoteOn 3 60 90 (LightEngine_new 108))) in
  currentNote e3 !! Z.to_nat 3 = Some 64
  /\ activeNotes e3 !! Z.to_nat 60 = Some 0
  /\ activeNotes e3 !! Z.to_nat 64 = Some 80.
Proof.
  apply (stale_noteOff_keeps_newer_note 3 60 64 90 80 0 (LightEngine_new 108)).
  - split; reflexivity.
  - lia.
  - lia.
  - lia.
  - lia.
  - lia.
Defined.

Lemma note_events_frame_witness :
  ffLedStart (handleNoteOn 3 60 90 wheelEngine) = ffLedStart wheelEngine.
Proof.
  apply (proj1 (proj2 (proj2 (note_events_frame 3 60 90 wheelEngine)))).
  vm_compute. discriminate.
Defined.

Lemma rainbowWheel_covers_strip_witness :
  exists e', render sample_rand wheelEngine = Some e'
    /\ numLeds e' = numLeds wheelEngine
    /\ forall j, 0 <= j < numLeds wheelEngine ->
         leds e' !! Z.to_nat j
         = Some (rainbowColour (ffHue wheelEngine) (ffSat wheelEngine)
                   (ffBright wheelEngine) (numLeds wheelEngine) j).
Proof.
  apply (proj1 (rainbowWheel_covers_strip sample_rand wheelEngine
                  ltac:(wf_by_computation) eq_refl)).
Defined.

Lemma movingDots_shown_witness :
  exists e', render sample_rand dotsEngine = Some e'
    /\ shows (fun _ c => c = fgColour dotsEngine) (onLine dotsEngine)
         dotsEngine e'.
Proof.
  apply (movingDots_shown sample_rand dotsEngine).
  - wf_by_computation.
  - reflexivity.
  - vm_compute. discriminate.
Defined.

Lemma backAndForth_shown_witness :
  exists e', render sample_rand blocksEngine = Some e'
    /\ shows (fun _ c => c = fgColour blocksEngine) (inBlock blocksEngine)
         blocksEngine e'.
Proof.
  apply (backAndForth_shown sample_rand blocksEngine).
  - wf_by_computation.
  - reflexivity.
  - vm_compute. discriminate.
Defined.

Lemma moveStartLED_shown_witness :
  exists e', render sample_rand moveEngine = Some e'
    /\ shows
         (fun j c => exists line k,
              0 <= line < lines moveEngine /\ 0 <= k < ffLedLength moveEngine
              /\ j = cometIndex moveEngine line k
              /\ c = moveStartColour moveEngine k)
         (onLine moveEngine) moveEngine e'.
Proof.
  apply (moveStartLED_shown sample_rand moveEngine).
  - wf_by_computation.
  - reflexivity.
  - vm_compute. discriminate.
Defined.

Lemma colorSinusoid_covers_strip_witness :
  exists e', render sample_rand sinusoidEngine = Some e'
    /\ numLeds e' = numLeds sinusoidEngine
    /\ (forall j, 0 <= j < numLeds sinusoidEngine ->
          exists c, leds e' !! Z.to_nat j = Some c
            /\ sinusoidColour (ffLedStart sinusoidEngine)
                 (ffLedLength sinusoidEngine) (ffHue sinusoidEngine)
                 (cAmp sinusoidEngine) (ffSat sinusoidEngine)
                 (ffBright sinusoidEngine) j c)
    /\ (forall j, 0 <= j -> j + ffLedLength sinusoidEngine < numLeds sinusoidEngine ->
          leds e' !! Z.to_nat (j + ffLedLength sinusoidEngine)
          = leds e' !! Z.to_nat j)
    /\ (cAmp sinusoidEngine = 0 -> 0 <= ffHue sinusoidEngine ->
        forall j, 0 <= j < numLeds sinusoidEngine ->
          leds e' !! Z.to_nat j = Some (fgColour sinusoidEngine)).
Proof.
  apply (colorSinusoid_covers_strip sample_rand sinusoidEngine).
  - wf_by_computation.
  - reflexivity.
  - vm_compute. discriminate.
Defined.

Lemma flash_one_led_witness :
  exists e', render sample_rand flashEngine = Some e'
    /\ shows (fun _ c => c = fgColour flashEngine)
         (fun j => j = Z.rem (sample_rand (u32 (frameCounter flashEngine + 1)))
                         (numLeds flashEngine))
         flashEngine e'.
Proof.
  apply (flash_one_led sample_rand flashEngine).
  - wf_by_computation.
  - reflexivity.
Defined.

Lemma degenerate_shows_background_witness :
  exists e', render sample_rand noLinesEngine = Some e'
    /\ shows (fun _ _ => False) (fun _ => False) noLinesEngine e'.
Proof.
  apply (degenerate_shows_background sample_rand noLinesEngine).
  - wf_by_computation.
  - left. split; reflexivity.
Defined.

Lemma rainbowBackground_fills_witness :
  exists a, updateBackground rainbowBgEngine = Some a
    /\ numLeds a = numLeds rainbowBgEngine
    /\ forall j, 0 <= j < numLeds rainbowBgEngine ->
         background a !! Z.to_nat j
         = Some (rainbowColour (bgHue rainbowBgEngine) (bgSat rainbowBgEngine)
                   (bgBright rainbowBgEngine) (numLeds rainbowBgEngine) j)
         /\ leds a !! Z.to_nat j
            = Some (rainbowColour (bgHue rainbowBgEngine)
                      (bgSat rainbowBgEngine) (bgBright rainbowBgEngine)
                      (numLeds rainbowBgEngine) j).
Proof.
  apply (rainbowBackground_fills rainbowBgEngine).
  - wf_by_computation.
  - reflexivity.
Defined.

Lemma sinusoidBackground_fills_witness :
  exists a, updateBackground sinusoidBgEngine = Some a
    /\ numLeds a = numLeds sinusoidBgEngine
    /\ forall j, 0 <= j -> j + bgLedLength sinusoidBgEngine < numLeds sinusoidBgEngine ->
         leds a !! Z.to_nat (j + bgLedLength sinusoidBgEngine)
         = leds a !! Z.to_nat j.
Proof.
  destruct (sinusoidBackground_fills sinusoidBgEngine
              ltac:(wf_by_computation) eq_refl)
    as (a & Ha & Hn & _ & Hper).
  exists a. split; [exact Ha|]. split; [exact Hn|].
  apply Hper. vm_compute. discriminate.
Defined.

Lemma notesToDrives_shown_witness :
  exists e', render sample_rand (LightEngine_new 108) = Some e'
    /\ shows (driveShows (LightEngine_new 108))
         (fun j => exists ch i, driveOf j = Some (ch, i))
         (LightEngine_new 108) e'.
Proof.
  apply (proj1 (notesToDrives_shown sample_rand (LightEngine_new 108)
                  ltac:(wf_by_computation) eq_refl)).
Defined.

Lemma noteOn_lights_drive_witness :
  exists e1 e2,
    render sample_rand (handleNoteOn 3 60 90 (LightEngine_new 108)) = Some e1
    /\ leds e1 !! Z.to_nat 15
       = Some (if 60 =? 0 then checkerboard 2 (ffBright (LightEngine_new 108))
               else fgColour (LightEngine_new 108))
    /\ render sample_rand (handleNoteOff 3 60 0 e1) = Some e2
    /\ leds e2 !! Z.to_nat 15
       = Some (checkerboard 2 (ffBright (LightEngine_new 108))).
Proof.
  apply (noteOn_lights_drive sample_rand (LightEngine_new 108) 3 60 90 0 15 2).
  - wf_by_computation.
  - reflexivity.
  - lia.
  - lia.
  - reflexivity.
  - reflexivity.
Defined.

Lemma oceanWaves_shown_witness :
  exists e', render sample_rand oceanNarrow = Some e'
    /\ shows (oceanShows oceanNarrow) (oceanPainted oceanNarrow) oceanNarrow e'.
Proof.
  apply (proj1 (oceanWaves_shown sample_rand oceanNarrow
                  ltac:(wf_by_computation) eq_refl
                  ltac:(vm_compute; intros H; apply H; reflexivity))).
Defined.

Lemma oceanWaves_mirrored_witness :
  exists e', render sample_rand oceanNarrow = Some e'
    /\ oceanPainted oceanNarrow 93
    /\ leds e' !! Z.to_nat 93 = leds e' !! Z.to_nat 50
    /\ leds e' !! Z.to_nat 50
       = Some (waveColour oceanNarrow (oceanAmp oceanNarrow)
                 (Z.abs (50 - waveMiddle oceanNarrow))).
Proof.
  apply (oceanWaves_mirrored sample_rand oceanNarrow 50 93).
  - wf_by_computation.
  - reflexivity.
  - vm_compute. intros H. apply H. reflexivity.
  - lia.
  - reflexivity.
  - reflexivity.
  - reflexivity.
  - split; [lia|]. reflexivity.
Defined.

Lemma opposingWaves_shown_witness :
  exists e', render sample_rand opposingNarrow = Some e'
    /\ shows (opposingShows opposingNarrow) (opposingPainted opposingNarrow)
         opposingNarrow e'.
Proof.
  apply (proj1 (opposingWaves_shown sample_rand opposingNarrow
                  ltac:(wf_by_computation) eq_refl
                  ltac:(vm_compute; intros H; apply H; reflexivity))).
Defined.

Lemma unlisted_parameter_has_no_effect_witness :
  render sample_rand (handleControlChange 1 10 5 dotsEngine)
  = handleControlChange 1 10 5 <$> render sample_rand dotsEngine
  /\ leds <$> render sample_rand (handleControlChange 1 10 5 dotsEngine)
     = leds <$> render sample_rand dotsEngine.
Proof.
  eapply (unlisted_parameter_has_no_effect sample_rand dotsEngine 1 10 5 Ppan).
  - wf_by_computation.
  - reflexivity.
  - reflexivity.
  - reflexivity.
  - discriminate.
  - discriminate.
  - reflexivity.
  - reflexivity.
Defined.
